(** * DocVault: ingestion, retrieval and chat-context pipeline

    A shallow embedding of the Cloudflare-Workers back end of DocVault
    (workers/shared/processing.ts, workers/api/routes/{documents,tags,
    search,chat}.ts, workers/api/index.ts and the D1 schema), together with
    the properties the design document states about it.

    Conventions.
    - A JavaScript string is a [string]; each [ascii] stands for one code
      unit below 256.
    - JavaScript numbers that the code only uses as integers (indices,
      limits, counters) are [Z]; similarity scores and confidences are [Z]
      as well (a fixed-point scale), since the code only compares and
      subtracts them.
    - Every [await] on a binding of the worker (D1, R2, Vectorize, Workers
      AI, the queue) is one external call.  Its outcome is taken from the
      environment: the call may reject, or it performs its effect on the
      world. *)

From Stdlib Require Import List String Ascii ZArith Lia Bool Arith PeanoNat.
From Stdlib Require Import DecimalNat DecimalString Sorting.Sorted Sorting.Permutation.
Import ListNotations.

Open Scope string_scope.
Open Scope list_scope.
Open Scope Z_scope.

(** ** JavaScript built-ins used by the code *)

Module Js.

(** [\s] of an ECMAScript regular expression, on code units below 256:
    TAB, LF, VT, FF, CR, SPACE and NO-BREAK SPACE. *)
Definition is_space (c : ascii) : bool :=
  let n := nat_of_ascii c in
  ((9 <=? n)%nat && (n <=? 13)%nat) || (n =? 32)%nat || (n =? 160)%nat.

(** [s.split(/\s+/)].  [cur] is the piece being read and [in_sep] tells
    whether the previous code unit belonged to a separator run.  A
    separator at either end of the string leaves an empty piece there, and
    the empty string splits into the one-element array [[""]]. *)
Fixpoint split_ws_from (s : string) (cur : string) (in_sep : bool)
  : list string :=
  match s with
  | EmptyString => [cur]
  | String c rest =>
      if is_space c then
        if in_sep then split_ws_from rest cur true
        else cur :: split_ws_from rest "" true
      else split_ws_from rest (cur ++ String c "")%string false
  end.

Definition split_ws (s : string) : list string := split_ws_from s "" false.

(** Relative index of [Array.prototype.slice]: a negative index counts
    from the end, and the result is clamped to [0, len]. *)
Definition rel_index (len i : Z) : Z :=
  if i <? 0 then Z.max (len + i) 0 else Z.min i len.

(** [l.slice(start, fin)]. *)
Definition slice {A : Type} (l : list A) (start fin : Z) : list A :=
  let len := Z.of_nat (List.length l) in
  let k := rel_index len start in
  let f := rel_index len fin in
  firstn (Z.to_nat (f - k)) (skipn (Z.to_nat k) l).

(** [l.join(sep)]. *)
Definition join (sep : string) (l : list string) : string :=
  String.concat sep l.

(** [s.substring(0, n)] for a literal [n]. *)
Definition substring0 (n : nat) (s : string) : string :=
  String.substring 0 n s.

(** Template-literal rendering of a non-negative integer. *)
Definition of_nat (n : nat) : string :=
  NilEmpty.string_of_uint (Nat.to_uint n).

(** Truthiness of a string: only the empty string is falsy. *)
Definition truthy (s : string) : bool := negb (s =? "")%string.

End Js.

(** ** Chunker (workers/shared/processing.ts, [chunkText]) *)

Record Chunk := mkChunk {
  text : string;
  tokenCount : Z
}.

(** [Math.floor(t * 0.75)] on an integer [t]. *)
Definition floor_three_quarters (t : Z) : Z := (3 * t) / 4.

(** [Math.ceil(n / 0.75)] on an integer [n]. *)
Definition ceil_div_three_quarters (n : Z) : Z := (4 * n + 2) / 3.

(** The [while] loop of [chunkText].  The loop has no bound of its own
    (with [overlapWords >= wordsPerChunk] it does not advance), so the
    model counts iterations down from [fuel] and answers [None] when the
    fuel runs out before the loop leaves. *)
Fixpoint chunk_loop (fuel : nat) (words : list string)
    (wordsPerChunk overlapWords : Z) (start : Z) (chunks : list Chunk)
  : option (list Chunk) :=
  match fuel with
  | O => None
  | S fuel' =>
      let len := Z.of_nat (List.length words) in
      if start <? len then
        let end_ := Z.min (start + wordsPerChunk) len in
        let chunkWords := Js.slice words start end_ in
        let chunkText := Js.join " " chunkWords in
        let chunks' :=
          chunks ++ [ {| text := chunkText;
                         tokenCount :=
                           ceil_div_three_quarters
                             (Z.of_nat (List.length chunkWords)) |} ] in
        let start' := end_ - overlapWords in
        if start' >=? len - overlapWords then Some chunks'
        else chunk_loop fuel' words wordsPerChunk overlapWords start' chunks'
      else Some chunks
  end.

Definition chunkText_fuel (fuel : nat) (text : string)
    (targetTokens overlapTokens : Z) : option (list Chunk) :=
  let words := Js.split_ws text in
  let wordsPerChunk := floor_three_quarters targetTokens in
  let overlapWords := floor_three_quarters overlapTokens in
  chunk_loop fuel words wordsPerChunk overlapWords 0 [].

(** [chunkText(text, targetTokens, overlapTokens)]: one more iteration
    than there are words is enough whenever the window advances, see
    [chunk_loop_terminates]. *)
Definition chunkText (text : string) (targetTokens overlapTokens : Z)
  : option (list Chunk) :=
  chunkText_fuel (S (List.length (Js.split_ws text))) text
    targetTokens overlapTokens.

(** ** Data model (workers/shared/types.ts and the D1 schema) *)

Inductive DocStatus := StPending | StProcessing | StReady | StError.

Definition DocStatus_eqb (a b : DocStatus) : bool :=
  match a, b with
  | StPending, StPending | StProcessing, StProcessing
  | StReady, StReady | StError, StError => true
  | _, _ => false
  end.

Record Document := mkDocument {
  doc_id : string;
  doc_workspace_id : string;
  doc_user_id : string;
  doc_title : string;
  doc_file_key : string;
  doc_text_key : option string;
  doc_content_hash : string;
  doc_mime_type : string;
  doc_file_size_bytes : Z;
  doc_status : DocStatus;
  doc_error_message : option string;
  doc_created_at : string;
  doc_updated_at : string
}.

Record DocumentChunk := mkDocumentChunk {
  chunk_id : string;
  chunk_document_id : string;
  chunk_index : nat;
  chunk_text_content : string;
  chunk_token_count : Z
}.

Record Tag := mkTag {
  tag_id : string;
  tag_workspace_id : string;
  tag_name : string;
  tag_category : option string;
  tag_usage_count : Z;
  tag_created_at : string
}.

Inductive TagSource := AiSuggested | UserAdded | UserModified.

Record DocumentTag := mkDocumentTag {
  dt_document_id : string;
  dt_tag_id : string;
  dt_source : TagSource;
  dt_confidence : option Z;
  dt_created_at : string
}.

Inductive Role := Owner | Editor | Viewer.

Record WorkspaceMember := mkWorkspaceMember {
  wm_workspace_id : string;
  wm_user_id : string;
  wm_role : Role
}.

(** The D1 database: one list of rows per table, in insertion order. *)
Record Database := mkDatabase {
  documents : list Document;
  document_chunks : list DocumentChunk;
  tags : list Tag;
  document_tags : list DocumentTag;
  workspace_members : list WorkspaceMember
}.

(** Vectorize entries, as [processDocument] writes them. *)
Record VectorMetadata := mkVectorMetadata {
  md_document_id : string;
  md_workspace_id : string;
  md_chunk_index : nat;
  md_text : string
}.

Record VectorEntry := mkVectorEntry {
  vec_id : string;
  vec_values : list Z;
  vec_metadata : VectorMetadata
}.

Record VectorMatch := mkVectorMatch {
  match_id : string;
  match_score : Z;
  match_metadata : VectorMetadata
}.

Inductive VectorFilter :=
| WorkspaceIs (workspace : string)
| WorkspaceIn (workspaces : list string).

Record ProcessingQueueMessage := mkMessage {
  document_id : string;
  workspace_id : string;
  user_id : string;
  file_key : string;
  mime_type : string
}.

(** One suggestion of the tagging model. *)
Record TagSuggestion := mkTagSuggestion {
  name : string;
  category : option string;
  confidence : Z
}.

(** A value thrown by JavaScript code: an [Error] with its message, or
    anything else. *)
Inductive Thrown :=
| JsError (message : string)
| JsOther.

(** [error instanceof Error ? error.message : 'Unknown error']. *)
Definition thrown_message (error : Thrown) : string :=
  match error with
  | JsError message => message
  | JsOther => "Unknown error"
  end.

(** ** The world a worker invocation runs against *)

Record World := mkWorld {
  db : Database;                       (* env.DB *)
  files : list (string * string);      (* env.FILES: key and contents *)
  vectors : list VectorEntry;          (* env.VECTORS *)
  queue : list ProcessingQueueMessage; (* env.PROCESSING_QUEUE *)
  ticks : nat;                         (* external calls issued so far *)
  ids : nat                            (* UUIDs drawn so far *)
}.

(** What the code cannot decide by itself. *)
Record Env := mkEnv {
  (* the n-th external call rejects with this value *)
  fault : nat -> option Thrown;
  (* the wall clock, read after n external calls, as an ISO-8601 string *)
  clock : nat -> string;
  (* the n-th result of crypto.randomUUID() *)
  uuid : nat -> string;
  (* whether env.PROCESSING_QUEUE is bound *)
  has_queue : bool;
  (* hex digest of crypto.subtle.digest('SHA-256', content) *)
  sha256 : string -> string;
  (* the LIKE operator of SQLite: pattern, then subject *)
  sql_like : string -> string -> bool;
  (* new Date(s).getTime() *)
  getTime : string -> Z;
  (* data[0] of the bge-base-en embedding model on a text *)
  embedding_of : string -> list Z;
  (* similarity score Vectorize assigns to a stored vector for a query *)
  similarity : list Z -> list Z -> Z;
  (* new TextDecoder().decode(bytes): the bytes read as UTF-8, a byte
     order mark dropped and every invalid sequence replaced *)
  utf8_decode : string -> string;
  (* the UTF-8 bytes R2 stores for a text that is put as a string *)
  utf8_encode : string -> string;
  (* the number of arguments the engine accepts in one call; spreading
     more into a call throws a RangeError *)
  max_arguments : nat;
  (* unpdf on the bytes of a PDF: merged text, or the thrown value *)
  pdf_text : string -> Thrown + string;
  (* response.description of the llava vision model on image bytes *)
  vision_description : string -> string;
  (* JSON.parse of the tagging model's reply for the existing tag names
     and the text prefix; None when the reply does not parse to an array *)
  llm_tag_array : list string -> string -> option (list TagSuggestion)
}.

Inductive Outcome (A : Type) :=
| Returned (a : A)
| Threw (e : Thrown).
Arguments Returned {A} a.
Arguments Threw {A} e.

(** An asynchronous function of the worker: it runs from a world to an
    outcome and the world it leaves behind.  What was written before an
    exception stays written. *)
Definition M (A : Type) : Type := World -> Outcome A * World.

Definition ret {A : Type} (a : A) : M A := fun w => (Returned a, w).

Definition throw {A : Type} (e : Thrown) : M A := fun w => (Threw e, w).

Definition bind {A B : Type} (m : M A) (f : A -> M B) : M B :=
  fun w =>
    match m w with
    | (Returned a, w') => f a w'
    | (Threw e, w') => (Threw e, w')
    end.

(** [try { body } catch (error) { handler }]. *)
Definition try_catch {A : Type} (body : M A) (handler : Thrown -> M A)
  : M A :=
  fun w =>
    match body w with
    | (Returned a, w') => (Returned a, w')
    | (Threw e, w') => handler e w'
    end.

Declare Scope js_scope.
Delimit Scope js_scope with js.
Notation "x <- m ;; k" := (bind m (fun x => k))
  (at level 61, m at next level, right associativity) : js_scope.
Notation "m ;; k" := (bind m (fun _ => k))
  (at level 61, right associativity) : js_scope.
Notation "' pat <- m ;; k" := (bind m (fun x => match x with pat => k end))
  (at level 61, pat pattern, m at next level, right associativity) : js_scope.
Open Scope js_scope.

(** [for (const x of l) { body }]. *)
Fixpoint for_each {A : Type} (l : list A) (body : A -> M unit) : M unit :=
  match l with
  | [] => ret tt
  | x :: rest => body x ;; for_each rest body
  end.

(** [for (let i = from; i < from + l.length; i++) { body }] over the
    elements of [l]. *)
Fixpoint for_each_indexed {A : Type} (from : nat) (l : list A)
    (body : nat -> A -> M unit) : M unit :=
  match l with
  | [] => ret tt
  | x :: rest => body from x ;; for_each_indexed (S from) rest body
  end.

(** ** SQL statements of the workers, as functions on the database *)

Module Sql.

Definition in_strings (s : string) (l : list string) : bool :=
  existsb (String.eqb s) l.

(** [UPDATE t SET ... WHERE p]: every row that satisfies [p] is rewritten,
    the others and the order of the rows are untouched. *)
Definition update_where {A : Type} (p : A -> bool) (f : A -> A)
    (rows : list A) : list A :=
  map (fun r => if p r then f r else r) rows.

(** [DELETE FROM t WHERE p]. *)
Definition delete_where {A : Type} (p : A -> bool) (rows : list A)
  : list A :=
  filter (fun r => negb (p r)) rows.

(** [.first()]: the first row of a result, if any. *)
Definition first {A : Type} (rows : list A) : option A := hd_error rows.

(** What D1 throws when a statement breaks a constraint of the schema:
    the message of SQLite, then its result code and extended result
    code. *)
Definition constraint_failed (message code : string) : Thrown :=
  JsError ("D1_ERROR: " ++ message ++ ": SQLITE_CONSTRAINT (extended: "
             ++ code ++ ")")%string.

(** A second row under a PRIMARY KEY. *)
Definition primary_key_violation (columns : string) : Thrown :=
  constraint_failed ("UNIQUE constraint failed: " ++ columns)
    "SQLITE_CONSTRAINT_PRIMARYKEY".

(** A second row under a UNIQUE constraint. *)
Definition unique_violation (columns : string) : Thrown :=
  constraint_failed ("UNIQUE constraint failed: " ++ columns)
    "SQLITE_CONSTRAINT_UNIQUE".

(** A row that refers to a parent row that is not there.  Foreign keys
    are checked when the statement ends, after the keys of the table
    itself. *)
Definition foreign_key_violation : Thrown :=
  constraint_failed "FOREIGN KEY constraint failed"
    "SQLITE_CONSTRAINT_FOREIGNKEY".

Definition with_documents (d : Database) (rows : list Document)
  : Database :=
  mkDatabase rows (document_chunks d) (tags d) (document_tags d)
    (workspace_members d).

Definition with_document_chunks (d : Database) (rows : list DocumentChunk)
  : Database :=
  mkDatabase (documents d) rows (tags d) (document_tags d)
    (workspace_members d).

Definition with_tags (d : Database) (rows : list Tag) : Database :=
  mkDatabase (documents d) (document_chunks d) rows (document_tags d)
    (workspace_members d).

Definition with_document_tags (d : Database) (rows : list DocumentTag)
  : Database :=
  mkDatabase (documents d) (document_chunks d) (tags d) rows
    (workspace_members d).

(** [UPDATE documents SET status = ?, updated_at = ? WHERE id = ?] *)
Definition update_document_status (st : DocStatus) (now id : string)
    (d : Database) : Database :=
  with_documents d
    (update_where (fun r => (doc_id r =? id)%string)
       (fun r =>
          mkDocument (doc_id r) (doc_workspace_id r) (doc_user_id r)
            (doc_title r) (doc_file_key r) (doc_text_key r)
            (doc_content_hash r) (doc_mime_type r) (doc_file_size_bytes r)
            st (doc_error_message r) (doc_created_at r) now)
       (documents d)).

(** [UPDATE documents SET status = ?, text_key = ?, updated_at = ?
     WHERE id = ?] *)
Definition update_document_ready (st : DocStatus) (textKey now id : string)
    (d : Database) : Database :=
  with_documents d
    (update_where (fun r => (doc_id r =? id)%string)
       (fun r =>
          mkDocument (doc_id r) (doc_workspace_id r) (doc_user_id r)
            (doc_title r) (doc_file_key r) (Some textKey)
            (doc_content_hash r) (doc_mime_type r) (doc_file_size_bytes r)
            st (doc_error_message r) (doc_created_at r) now)
       (documents d)).

(** [UPDATE documents SET status = ?, error_message = ?, updated_at = ?
     WHERE id = ?] *)
Definition update_document_error (st : DocStatus) (msg now id : string)
    (d : Database) : Database :=
  with_documents d
    (update_where (fun r => (doc_id r =? id)%string)
       (fun r =>
          mkDocument (doc_id r) (doc_workspace_id r) (doc_user_id r)
            (doc_title r) (doc_file_key r) (doc_text_key r)
            (doc_content_hash r) (doc_mime_type r) (doc_file_size_bytes r)
            st (Some msg) (doc_created_at r) now)
       (documents d)).

(** [INSERT INTO documents (...) VALUES (...)]; [id] is the PRIMARY KEY.
    (The workspace and the user the row refers to are rows of tables
    outside this database; the callers take them from a membership row
    and from the authenticated request.) *)
Definition insert_document (r : Document) (d : Database)
  : Outcome Database :=
  if existsb (fun r' => (doc_id r' =? doc_id r)%string) (documents d)
  then Threw (primary_key_violation "documents.id")
  else Returned (with_documents d (documents d ++ [r])).

(** [INSERT INTO document_chunks (id, document_id, chunk_index,
     text_content, token_count) VALUES (?, ?, ?, ?, ?)]; [id] is the
    PRIMARY KEY and [document_id] a FOREIGN KEY into [documents]. *)
Definition insert_document_chunk (r : DocumentChunk) (d : Database)
  : Outcome Database :=
  if existsb (fun r' => (chunk_id r' =? chunk_id r)%string)
       (document_chunks d)
  then Threw (primary_key_violation "document_chunks.id")
  else if negb (existsb (fun r' => (doc_id r' =? chunk_document_id r)%string)
                  (documents d))
  then Threw foreign_key_violation
  else Returned (with_document_chunks d (document_chunks d ++ [r])).

(** [INSERT INTO tags (id, workspace_id, name, category, usage_count,
     created_at) VALUES (?, ?, ?, ?, 0, ?)]; [id] is the PRIMARY KEY and
    (workspace_id, name) is UNIQUE.  (The workspace the row refers to is
    a row of a table outside this database.) *)
Definition insert_tag (r : Tag) (d : Database) : Outcome Database :=
  if existsb (fun r' => (tag_id r' =? tag_id r)%string) (tags d)
  then Threw (primary_key_violation "tags.id")
  else if existsb
            (fun r' => (tag_workspace_id r' =? tag_workspace_id r)%string
                       && (tag_name r' =? tag_name r)%string) (tags d)
  then Threw (unique_violation "tags.workspace_id, tags.name")
  else Returned (with_tags d (tags d ++ [r])).

(** [INSERT INTO document_tags (document_id, tag_id, source, confidence,
     created_at) VALUES (...)]; (document_id, tag_id) is the PRIMARY KEY,
    [document_id] a FOREIGN KEY into [documents] and [tag_id] one into
    [tags]. *)
Definition insert_document_tag (r : DocumentTag) (d : Database)
  : Outcome Database :=
  if existsb
       (fun r' => (dt_document_id r' =? dt_document_id r)%string
                  && (dt_tag_id r' =? dt_tag_id r)%string)
       (document_tags d)
  then Threw (primary_key_violation
                "document_tags.document_id, document_tags.tag_id")
  else if negb (existsb (fun r' => (doc_id r' =? dt_document_id r)%string)
                  (documents d))
          || negb (existsb (fun r' => (tag_id r' =? dt_tag_id r)%string)
                     (tags d))
  then Threw foreign_key_violation
  else Returned (with_document_tags d (document_tags d ++ [r])).

(** [SELECT id FROM tags WHERE workspace_id = ? AND name = ?] *)
Definition select_tag_by_name (workspace tagName : string) (d : Database)
  : list string :=
  map tag_id
    (filter (fun r => (tag_workspace_id r =? workspace)%string
                      && (tag_name r =? tagName)%string) (tags d)).

(** Stable insertion into a list ordered by [before]: the new row goes
    behind every row it does not have to precede. *)
Fixpoint insert_by {A : Type} (before : A -> A -> bool) (x : A)
    (sorted : list A) : list A :=
  match sorted with
  | [] => [x]
  | y :: rest =>
      if before x y then x :: y :: rest
      else y :: insert_by before x rest
  end.

(** [ORDER BY]: [before x y] says that [x] has to come strictly before
    [y].  SQLite leaves the order of rows that tie open, as it leaves
    open the order of the rows of a query without ORDER BY; the model
    lists such rows in the order of the table, one of the orders SQLite
    can give; the theorems on the pages of the searches are stated on
    the members of a result and on its sorting. *)
Definition order_by {A : Type} (before : A -> A -> bool) (rows : list A)
  : list A :=
  fold_left (fun sorted x => insert_by before x sorted) rows [].

(** [LIMIT n OFFSET k] of SQLite: a negative limit means no limit, a
    negative offset means none. *)
Definition limit_offset {A : Type} (n k : Z) (rows : list A) : list A :=
  let rest := skipn (Z.to_nat k) rows in
  if n <? 0 then rest else firstn (Z.to_nat n) rest.

(** [SELECT name, category FROM tags WHERE workspace_id = ?
     ORDER BY usage_count DESC LIMIT 50] *)
Definition select_top_tags (workspace : string) (d : Database)
  : list Tag :=
  limit_offset 50 0
    (order_by (fun a b => tag_usage_count b <? tag_usage_count a)
       (filter (fun r => (tag_workspace_id r =? workspace)%string)
          (tags d))).

End Sql.

(** ** Bindings of the worker: D1, R2, Vectorize, Workers AI, the queue *)

Definition set_db (w : World) (d : Database) : World :=
  mkWorld d (files w) (vectors w) (queue w) (ticks w) (ids w).

Definition set_files (w : World) (f : list (string * string)) : World :=
  mkWorld (db w) f (vectors w) (queue w) (ticks w) (ids w).

Definition set_vectors (w : World) (v : list VectorEntry) : World :=
  mkWorld (db w) (files w) v (queue w) (ticks w) (ids w).

Definition set_queue (w : World) (q : list ProcessingQueueMessage)
  : World :=
  mkWorld (db w) (files w) (vectors w) q (ticks w) (ids w).

Definition tick (w : World) : World :=
  mkWorld (db w) (files w) (vectors w) (queue w) (S (ticks w)) (ids w).

Definition next_id (w : World) : World :=
  mkWorld (db w) (files w) (vectors w) (queue w) (ticks w) (S (ids w)).

(** R2 as a key-value store. *)
Fixpoint lookup_file (key : string) (f : list (string * string))
  : option string :=
  match f with
  | [] => None
  | (k, v) :: rest => if (k =? key)%string then Some v
                      else lookup_file key rest
  end.

Definition remove_file (key : string) (f : list (string * string))
  : list (string * string) :=
  filter (fun kv => negb (fst kv =? key)%string) f.

Definition store_file (key value : string) (f : list (string * string))
  : list (string * string) :=
  remove_file key f ++ [(key, value)].

(** Vectorize: [upsert] overwrites the entry of the same id. *)
Definition upsert_vector (e : VectorEntry) (v : list VectorEntry)
  : list VectorEntry :=
  if existsb (fun e' => (vec_id e' =? vec_id e)%string) v
  then map (fun e' => if (vec_id e' =? vec_id e)%string then e else e') v
  else v ++ [e].

Definition filter_accepts (f : VectorFilter) (e : VectorEntry) : bool :=
  match f with
  | WorkspaceIs ws => (md_workspace_id (vec_metadata e) =? ws)%string
  | WorkspaceIn wss => Sql.in_strings (md_workspace_id (vec_metadata e)) wss
  end.

Section Worker.

Variable env : Env.

(** One external call: it rejects when the environment says so, and
    otherwise has its effect.  Either way the call has been issued. *)
Definition call {A : Type} (effect : World -> Outcome A * World) : M A :=
  fun w =>
    match fault env (ticks w) with
    | Some e => (Threw e, tick w)
    | None => effect (tick w)
    end.

(** [new Date().toISOString()] and [isoNow()]. *)
Definition isoNow : M string :=
  fun w => (Returned (clock env (ticks w)), w).

(** [crypto.randomUUID()] and [generateId()]. *)
Definition generateId : M string :=
  fun w => (Returned (uuid env (ids w)), next_id w).

(** [await env.DB.prepare(sql).bind(...).run()] for a statement that
    cannot break a constraint. *)
Definition d1_run (stmt : Database -> Database) : M unit :=
  call (fun w => (Returned tt, set_db w (stmt (db w)))).

(** The same for an INSERT, which D1 rejects when a constraint fails. *)
Definition d1_insert (stmt : Database -> Outcome Database) : M unit :=
  call (fun w =>
          match stmt (db w) with
          | Returned d => (Returned tt, set_db w d)
          | Threw e => (Threw e, w)
          end).

(** [await env.DB.prepare(sql).bind(...).all()] or [.first()]. *)
Definition d1_query {A : Type} (q : Database -> A) : M A :=
  call (fun w => (Returned (q (db w)), w)).

Definition r2_get (key : string) : M (option string) :=
  call (fun w => (Returned (lookup_file key (files w)), w)).

Definition r2_put (key value : string) : M unit :=
  call (fun w => (Returned tt, set_files w (store_file key value (files w)))).

Definition r2_delete (key : string) : M unit :=
  call (fun w => (Returned tt, set_files w (remove_file key (files w)))).

(** [await file.arrayBuffer()] on an R2 object body. *)
Definition arrayBuffer (file : string) : M string :=
  call (fun w => (Returned file, w)).

Definition vectors_upsert (e : VectorEntry) : M unit :=
  call (fun w => (Returned tt, set_vectors w (upsert_vector e (vectors w)))).

Definition vectors_deleteByIds (ids : list string) : M unit :=
  call (fun w =>
          (Returned tt,
           set_vectors w
             (filter (fun e => negb (Sql.in_strings (vec_id e) ids))
                (vectors w)))).

(** [env.VECTORS.query(vector, { topK, filter, returnMetadata: 'all' })]:
    the [topK] best-scoring entries that pass the filter, best first. *)
Definition vectors_matches (index : list VectorEntry) (q : list Z)
    (topK : Z) (f : VectorFilter) : list VectorMatch :=
  firstn (Z.to_nat topK)
    (Sql.order_by (fun a b => match_score b <? match_score a)
       (map (fun e => mkVectorMatch (vec_id e)
                        (similarity env q (vec_values e))
                        (vec_metadata e))
          (filter (filter_accepts f) index))).

Definition vectors_query (q : list Z) (topK : Z) (f : VectorFilter)
  : M (list VectorMatch) :=
  call (fun w => (Returned (vectors_matches (vectors w) q topK f), w)).

(** [generateEmbedding]: [env.AI.run('@cf/baai/bge-base-en-v1.5', ...)]
    and [result.data[0]]. *)
Definition generateEmbedding (text : string) : M (list Z) :=
  call (fun w => (Returned (embedding_of env text), w)).

Definition queue_send (m : ProcessingQueueMessage) : M unit :=
  call (fun w => (Returned tt, set_queue w (queue w ++ [m]))).

(** ** Ingestion pipeline (workers/shared/processing.ts) *)

(** [String.fromCharCode(...bytes)]: one argument per byte, which the
    engine refuses beyond its limit. *)
Definition fromCharCode_spread (bytes : string) : M string :=
  if (max_arguments env <? String.length bytes)%nat then
    throw (JsError "Maximum call stack size exceeded")
  else ret bytes.

(** [extractWithAI]: the vision model for images, a placeholder for the
    rest; whatever is thrown inside is caught and replaced by a
    placeholder.  The base64 text of the image is computed and not
    used. *)
Definition extractWithAI (content mimeType : string) : M string :=
  try_catch
    (if String.prefix "image/" mimeType then
       fromCharCode_spread content ;;
       description <-
         call (fun w => (Returned (vision_description env content), w)) ;;
       ret (if Js.truthy description then description
            else "[No text found in image]")
     else
       ret ("[Document type " ++ mimeType
              ++ " - text extraction pending]")%string)
    (fun _ => ret ("[Could not extract text from " ++ mimeType ++ "]")%string).

Definition docx_mime : string :=
  "application/vnd.openxmlformats-officedocument.wordprocessingml.document".

Definition xlsx_mime : string :=
  "application/vnd.openxmlformats-officedocument.spreadsheetml.sheet".

(** [extractText] of the shared module. *)
Definition extractText (file mimeType : string) : M string :=
  content <- arrayBuffer file ;;
  if (mimeType =? "text/plain")%string then
    ret (utf8_decode env content)
  else if (mimeType =? "application/pdf")%string then
    try_catch
      (match pdf_text env content with
       | inr text =>
           ret (if Js.truthy text then text
                else "[PDF content could not be extracted]")
       | inl e => throw e
       end)
      (fun _ => extractWithAI content mimeType)
  else if String.prefix "image/" mimeType then
    extractWithAI content mimeType
  else if (mimeType =? docx_mime)%string then
    try_catch (extractWithAI content mimeType)
      (fun _ => ret "[DOCX content could not be extracted]")
  else if (mimeType =? xlsx_mime)%string then
    extractWithAI content mimeType
  else
    ret ("[Unsupported document type: " ++ mimeType ++ "]")%string.

(** [extractText] of the entry-point file that carries its own copy of
    the pipeline (src/unnamed/part_003). *)
Definition extractText_local (file mimeType : string) : M string :=
  content <- arrayBuffer file ;;
  if (mimeType =? "text/plain")%string then
    ret (utf8_decode env content)
  else
    ret ("[Document content - " ++ mimeType ++ "]")%string.

(** [chunkText(text, 512, 64)] as [processDocument] calls it.  With these
    parameters the loop always leaves ([chunkText_default_total]), so the
    second branch is never taken. *)
Definition chunks_of (text : string) : list Chunk :=
  match chunkText text 512 64 with
  | Some chunks => chunks
  | None => []
  end.

(** [autoTag]: the tagging model sees the 50 most used tag names of the
    workspace and the first 2000 characters of the text; a reply that is
    not a JSON array gives no tags. *)
Definition autoTag (text workspaceId : string) : M (list TagSuggestion) :=
  existingTags <- d1_query (Sql.select_top_tags workspaceId) ;;
  let existingTagNames := map tag_name existingTags in
  response <-
    call (fun w =>
            (Returned
               (llm_tag_array env existingTagNames
                  (Js.substring0 2000 text)), w)) ;;
  match response with
  | Some tags => ret tags
  | None => ret []
  end.

Section Pipeline.

(** The two copies of [processDocument] in the repository are the same
    text; they differ in the [extractText] they call. *)
Variable extract : string -> string -> M string.

(** Lines "Update status to processing" to "Store extracted text in R2":
    the text of the document and the key it was stored under.  The text
    is put as a string, which R2 stores UTF-8 encoded. *)
Definition load_text (data : ProcessingQueueMessage) : M (string * string) :=
  now <- isoNow ;;
  d1_run (Sql.update_document_status StProcessing now (document_id data)) ;;
  file <- r2_get (file_key data) ;;
  match file with
  | None => throw (JsError "File not found in storage")
  | Some file =>
      text <- extract file (mime_type data) ;;
      let textKey := ("text/" ++ document_id data ++ ".txt")%string in
      r2_put textKey (utf8_encode env text) ;;
      ret (text, textKey)
  end.

(** The body of the loop "Generate embeddings and store in Vectorize":
    chunk [i] is embedded, upserted and inserted under the id
    [document_id_i]. *)
Definition store_chunk (data : ProcessingQueueMessage) (i : nat)
    (chunk : Chunk) : M unit :=
  let chunkId := (document_id data ++ "_" ++ Js.of_nat i)%string in
  (* Generate embedding via AI Gateway *)
  embedding <- generateEmbedding (text chunk) ;;
  (* Store in Vectorize *)
  vectors_upsert
    (mkVectorEntry chunkId embedding
       (mkVectorMetadata (document_id data) (workspace_id data) i
          (Js.substring0 500 (text chunk)))) ;;
  (* Store chunk in D1 *)
  d1_insert
    (Sql.insert_document_chunk
       (mkDocumentChunk chunkId (document_id data) i (text chunk)
          (tokenCount chunk))).

(** [for (let i = 0; i < chunks.length; i++) { ... }] *)
Definition embed_and_store (data : ProcessingQueueMessage)
    (chunks : list Chunk) : M unit :=
  for_each_indexed 0%nat chunks (store_chunk data).

(** [tag.category || null]. *)
Definition category_or_null (c : option string) : option string :=
  match c with
  | Some s => if Js.truthy s then Some s else None
  | None => None
  end.

(** "Store suggested tags": find or create each tag, then insert the
    association. *)
Definition store_suggested_tags (data : ProcessingQueueMessage)
    (suggested : list TagSuggestion) : M unit :=
  for_each suggested (fun tag =>
    tagRecord <-
      d1_query (fun d =>
        Sql.first (Sql.select_tag_by_name (workspace_id data) (name tag) d)) ;;
    tagRecordId <-
      match tagRecord with
      | Some id => ret id
      | None =>
          tagId <- generateId ;;
          now <- isoNow ;;
          d1_insert
            (Sql.insert_tag
               (mkTag tagId (workspace_id data) (name tag)
                  (category_or_null (category tag)) 0 now)) ;;
          ret tagId
      end ;;
    now <- isoNow ;;
    d1_insert
      (Sql.insert_document_tag
         (mkDocumentTag (document_id data) tagRecordId AiSuggested
            (Some (confidence tag)) now))).

(** The [try] block of [processDocument]. *)
Definition processDocument_try (data : ProcessingQueueMessage) : M unit :=
  '(text, textKey) <- load_text data ;;
  let chunks := chunks_of text in
  embed_and_store data chunks ;;
  suggested <- autoTag text (workspace_id data) ;;
  store_suggested_tags data suggested ;;
  now <- isoNow ;;
  d1_run (Sql.update_document_ready StReady textKey now (document_id data)).

(** The [catch] block: "Update status to error". *)
Definition processDocument_catch (data : ProcessingQueueMessage)
    (error : Thrown) : M unit :=
  now <- isoNow ;;
  d1_run
    (Sql.update_document_error StError (thrown_message error) now
       (document_id data)).

Definition processDocument_with (data : ProcessingQueueMessage) : M unit :=
  try_catch (processDocument_try data) (processDocument_catch data).

End Pipeline.

(** [processDocument] of workers/shared/processing.ts, which the upload
    route and the queue consumer of workers/api/index.ts import. *)
Definition processDocument : ProcessingQueueMessage -> M unit :=
  processDocument_with extractText.

(** [processDocument] of the entry-point file with a local pipeline. *)
Definition processDocument_local : ProcessingQueueMessage -> M unit :=
  processDocument_with extractText_local.

(** ** Queue consumer (workers/api/index.ts, [queue]) *)

Inductive Disposition := Ack | Retry.

Section Consumer.

Variable pipeline : ProcessingQueueMessage -> M unit.

(** Every message of the batch is of type 'document_uploaded', the only
    type a [ProcessingQueueMessage] has; it is acknowledged once the
    pipeline has returned and retried when it threw. *)
Fixpoint queue_with (batch : list ProcessingQueueMessage)
  : M (list Disposition) :=
  match batch with
  | [] => ret []
  | data :: rest =>
      d <- try_catch (pipeline data ;; ret Ack) (fun _ => ret Retry) ;;
      ds <- queue_with rest ;;
      ret (d :: ds)
  end.

End Consumer.

(** The consumer of workers/api/index.ts imports the shared pipeline. *)
Definition queue_consumer := queue_with processDocument.

(** The consumer of the entry-point file with a local pipeline. *)
Definition queue_consumer_local := queue_with processDocument_local.

(** ** Upload (workers/api/routes/documents.ts, [uploadFile]) *)

Record File := mkFile {
  file_name : string;
  file_type : string;
  file_content : string
}.

Record DocumentUploadResponse := mkUploadResponse {
  up_id : string;
  up_title : string;
  up_status : string;
  up_created_at : string
}.

(** ASCII lower case, enough to compare with the extension table. *)
Definition lower_ascii (c : ascii) : ascii :=
  let n := nat_of_ascii c in
  if ((65 <=? n) && (n <=? 90))%nat then ascii_of_nat (n + 32) else c.

Fixpoint toLowerCase (s : string) : string :=
  match s with
  | EmptyString => EmptyString
  | String c rest => String (lower_ascii c) (toLowerCase rest)
  end.

(** [filename.split('.').pop()]: what follows the last dot, or the whole
    name when it has none. *)
Fixpoint last_piece (s : string) (cur : string) : string :=
  match s with
  | EmptyString => cur
  | String c rest =>
      if Ascii.eqb c "."%char then last_piece rest ""
      else last_piece rest (cur ++ String c "")%string
  end.

(** [getMimeType].  The table is an object literal, so the lookup also
    finds what every object inherits; of the inherited names only
    [constructor] and [__proto__] are in lower case.  The function and
    the object found there are truthy and are used twice, in the test
    against the allowed types, which they fail, and in the text of the
    refusal: they are modelled by the text they print as. *)
Definition getMimeType (filename : string) : string :=
  let ext := toLowerCase (last_piece filename "") in
  if (ext =? "pdf")%string then "application/pdf"
  else if (ext =? "docx")%string then docx_mime
  else if (ext =? "xlsx")%string then xlsx_mime
  else if (ext =? "jpg")%string then "image/jpeg"
  else if (ext =? "jpeg")%string then "image/jpeg"
  else if (ext =? "png")%string then "image/png"
  else if (ext =? "txt")%string then "text/plain"
  else if (ext =? "eml")%string then "message/rfc822"
  else if (ext =? "constructor")%string then
    "function Object() { [native code] }"
  else if (ext =? "__proto__")%string then "[object Object]"
  else "application/octet-stream".

Definition allowedTypes : list string :=
  [ "application/pdf"; docx_mime; xlsx_mime; "image/jpeg"; "image/png";
    "text/plain"; "message/rfc822" ].

(** [SELECT id, title FROM documents
     WHERE workspace_id = ? AND content_hash = ?] *)
Definition select_document_by_hash (workspaceId contentHash : string)
    (d : Database) : list Document :=
  filter (fun r => (doc_workspace_id r =? workspaceId)%string
                   && (doc_content_hash r =? contentHash)%string)
    (documents d).

Definition uploadFile (file : File) (workspaceId userId : string)
  : M DocumentUploadResponse :=
  docId <- generateId ;;
  now <- isoNow ;;
  let content := file_content file in
  let contentHash := sha256 env content in
  (* Check for duplicate *)
  existing <-
    d1_query (fun d =>
      Sql.first (select_document_by_hash workspaceId contentHash d)) ;;
  match existing with
  | Some existing =>
      ret (mkUploadResponse (doc_id existing) (doc_title existing)
             "duplicate" now)
  | None =>
      let mimeType :=
        if Js.truthy (file_type file) then file_type file
        else getMimeType (file_name file) in
      if negb (Sql.in_strings mimeType allowedTypes) then
        throw (JsError ("Unsupported file type: " ++ mimeType)%string)
      else
        let fileKey :=
          ("documents/" ++ workspaceId ++ "/" ++ docId ++ "/"
             ++ file_name file)%string in
        r2_put fileKey content ;;
        d1_insert
          (Sql.insert_document
             (mkDocument docId workspaceId userId (file_name file) fileKey
                None contentHash mimeType
                (Z.of_nat (String.length content)) StPending None
                now now)) ;;
        let message :=
          mkMessage docId workspaceId userId fileKey mimeType in
        if has_queue env then
          queue_send message ;;
          ret (mkUploadResponse docId (file_name file) "pending" now)
        else
          try_catch
            (processDocument message ;;
             ret (mkUploadResponse docId (file_name file) "ready" now))
            (fun _ =>
               ret (mkUploadResponse docId (file_name file) "error" now))
  end.

(** ** Responses of the route handlers *)

Record TagView := mkTagView {
  tv_id : string;
  tv_name : string;
  tv_category : option string
}.

Record DocumentSearchResult := mkSearchResult {
  sr_id : string;
  sr_title : string;
  sr_snippet : string;
  sr_tags : list TagView;
  sr_relevance_score : option Z;
  sr_created_at : string
}.

Record SearchResult := mkSearchPage {
  sp_documents : list DocumentSearchResult;
  sp_total : Z;
  has_more : bool
}.

Inductive Body :=
| MessageBody (message : string)
| ErrorBody (error : string)
| SearchBody (result : SearchResult).

Record Response := mkResponse {
  res_body : Body;
  res_status : Z
}.

Definition jsonResponse (b : Body) (status : Z) : Response :=
  mkResponse b status.

Definition errorResponse (message : string) (status : Z) : Response :=
  mkResponse (ErrorBody message) status.

(** ** Tag association helpers and merge (workers/api/routes/tags.ts) *)

(** [SELECT 1 FROM document_tags WHERE document_id = ? AND tag_id = ?] *)
Definition select_document_tag (documentId tagId : string) (d : Database)
  : list DocumentTag :=
  filter (fun r => (dt_document_id r =? documentId)%string
                   && (dt_tag_id r =? tagId)%string) (document_tags d).

Definition set_usage_count (r : Tag) (n : Z) : Tag :=
  mkTag (tag_id r) (tag_workspace_id r) (tag_name r) (tag_category r) n
    (tag_created_at r).

(** [UPDATE tags SET usage_count = usage_count + 1 WHERE id = ?] *)
Definition increment_usage (tagId : string) (d : Database) : Database :=
  Sql.with_tags d
    (Sql.update_where (fun r => (tag_id r =? tagId)%string)
       (fun r => set_usage_count r (tag_usage_count r + 1)) (tags d)).

(** [UPDATE tags SET usage_count = MAX(0, usage_count - 1) WHERE id = ?] *)
Definition decrement_usage (tagId : string) (d : Database) : Database :=
  Sql.with_tags d
    (Sql.update_where (fun r => (tag_id r =? tagId)%string)
       (fun r => set_usage_count r (Z.max 0 (tag_usage_count r - 1)))
       (tags d)).

(** [DELETE FROM document_tags WHERE document_id = ? AND tag_id = ?] *)
Definition delete_document_tag (documentId tagId : string) (d : Database)
  : Database :=
  Sql.with_document_tags d
    (Sql.delete_where
       (fun r => (dt_document_id r =? documentId)%string
                 && (dt_tag_id r =? tagId)%string) (document_tags d)).

Definition addTagsToDocument (documentId : string) (tagIds : list string)
    (source : TagSource) : M unit :=
  now <- isoNow ;;
  for_each tagIds (fun tagId =>
    (* Check if already exists *)
    existing <-
      d1_query (fun d => Sql.first (select_document_tag documentId tagId d)) ;;
    match existing with
    | Some _ => ret tt
    | None =>
        d1_insert
          (Sql.insert_document_tag
             (mkDocumentTag documentId tagId source None now)) ;;
        (* Increment usage count *)
        d1_run (increment_usage tagId)
    end).

Definition removeTagsFromDocument (documentId : string)
    (tagIds : list string) : M unit :=
  for_each tagIds (fun tagId =>
    d1_run (delete_document_tag documentId tagId) ;;
    (* Decrement usage count *)
    d1_run (decrement_usage tagId)).

(** [UPDATE OR IGNORE document_tags SET tag_id = ? WHERE tag_id = ?]: the
    rows are visited in order; a row whose new key is already taken is
    left as it is. *)
Fixpoint retag_or_ignore (target source : string)
    (done todo : list DocumentTag) : list DocumentTag :=
  match todo with
  | [] => done
  | r :: rest =>
      if (dt_tag_id r =? source)%string then
        if existsb
             (fun r' => (dt_document_id r' =? dt_document_id r)%string
                        && (dt_tag_id r' =? target)%string)
             (done ++ rest)
        then retag_or_ignore target source (done ++ [r]) rest
        else retag_or_ignore target source
               (done ++ [mkDocumentTag (dt_document_id r) target
                           (dt_source r) (dt_confidence r)
                           (dt_created_at r)]) rest
      else retag_or_ignore target source (done ++ [r]) rest
  end.

Definition move_associations (target source : string) (d : Database)
  : Database :=
  Sql.with_document_tags d
    (retag_or_ignore target source [] (document_tags d)).

(** [SELECT t.id, t.workspace_id, wm.role FROM tags t
     JOIN workspace_members wm ON t.workspace_id = wm.workspace_id
     WHERE t.id = ? AND wm.user_id = ?] *)
Definition select_tag_access (tagId userId : string) (d : Database)
  : list (Tag * Role) :=
  flat_map
    (fun t =>
       map (fun wm => (t, wm_role wm))
         (filter (fun wm => (wm_workspace_id wm =? tag_workspace_id t)%string
                            && (wm_user_id wm =? userId)%string)
            (workspace_members d)))
    (filter (fun t => (tag_id t =? tagId)%string) (tags d)).

Definition is_owner (r : Role) : bool :=
  match r with Owner => true | _ => false end.

(** [SELECT COUNT( * ) as count FROM document_tags WHERE tag_id = ?] *)
Definition count_associations (tagId : string) (d : Database) : Z :=
  Z.of_nat
    (List.length
       (filter (fun r => (dt_tag_id r =? tagId)%string) (document_tags d))).

(** [handleMerge], after the request body has been parsed. *)
Definition handleMerge (source_tag_ids : list string)
    (target_tag_id userId : string) : M Response :=
  try_catch
    (if (List.length source_tag_ids =? 0)%nat then
       ret (errorResponse "Source tag IDs are required" 400)
     else if negb (Js.truthy target_tag_id) then
       ret (errorResponse "Target tag ID is required" 400)
     else
       targetTag <-
         d1_query (fun d =>
           Sql.first (select_tag_access target_tag_id userId d)) ;;
       match targetTag with
       | Some (targetTag, Owner) =>
           for_each source_tag_ids (fun sourceId =>
             if (sourceId =? target_tag_id)%string then ret tt
             else
               (* Verify source tag is in same workspace *)
               sourceTag <-
                 d1_query (fun d =>
                   Sql.first
                     (filter
                        (fun t =>
                           (tag_id t =? sourceId)%string
                           && (tag_workspace_id t
                               =? tag_workspace_id targetTag)%string)
                        (tags d))) ;;
               match sourceTag with
               | None => ret tt
               | Some _ =>
                   (* Move document associations *)
                   d1_run (move_associations target_tag_id sourceId) ;;
                   (* Delete remaining duplicates *)
                   d1_run (fun d =>
                     Sql.with_document_tags d
                       (Sql.delete_where
                          (fun r => (dt_tag_id r =? sourceId)%string)
                          (document_tags d))) ;;
                   (* Delete source tag *)
                   d1_run (fun d =>
                     Sql.with_tags d
                       (Sql.delete_where
                          (fun t => (tag_id t =? sourceId)%string)
                          (tags d)))
               end) ;;
           (* Update usage count *)
           count <- d1_query (count_associations target_tag_id) ;;
           d1_run (fun d =>
             Sql.with_tags d
               (Sql.update_where
                  (fun t => (tag_id t =? target_tag_id)%string)
                  (fun t => set_usage_count t count) (tags d))) ;;
           ret (jsonResponse (MessageBody "Tags merged") 200)
       | _ =>
           ret (errorResponse "Insufficient permissions to merge tags" 403)
       end)
    (fun _ => ret (errorResponse "Failed to merge tags" 500)).

(** ** Document deletion (workers/api/routes/documents.ts, [handleDelete]) *)

(** [SELECT d.id, d.file_key, d.text_key, d.workspace_id, d.user_id,
     wm.role FROM documents d JOIN workspace_members wm
     ON d.workspace_id = wm.workspace_id WHERE d.id = ? AND wm.user_id = ?] *)
Definition select_document_access (docId userId : string) (d : Database)
  : list (Document * Role) :=
  flat_map
    (fun r =>
       map (fun wm => (r, wm_role wm))
         (filter (fun wm => (wm_workspace_id wm =? doc_workspace_id r)%string
                            && (wm_user_id wm =? userId)%string)
            (workspace_members d)))
    (filter (fun r => (doc_id r =? docId)%string) (documents d)).

Definition handleDelete (userId docId : string) : M Response :=
  doc <- d1_query (fun d => Sql.first (select_document_access docId userId d)) ;;
  match doc with
  | None => ret (errorResponse "Document not found" 404)
  | Some (doc, role) =>
      (* Check permissions *)
      if negb (is_owner role) && negb (doc_user_id doc =? userId)%string then
        ret (errorResponse "Insufficient permissions" 403)
      else
        (* Delete from R2 *)
        r2_delete (doc_file_key doc) ;;
        match doc_text_key doc with
        | Some k => if Js.truthy k then r2_delete k else ret tt
        | None => ret tt
        end ;;
        (* Delete vectors from Vectorize *)
        chunks <-
          d1_query (fun d =>
            map chunk_id
              (filter (fun c => (chunk_document_id c =? docId)%string)
                 (document_chunks d))) ;;
        (if (0 <? List.length chunks)%nat then vectors_deleteByIds chunks
         else ret tt) ;;
        (* Delete from D1 *)
        d1_run (fun d =>
          Sql.with_document_chunks d
            (Sql.delete_where
               (fun c => (chunk_document_id c =? docId)%string)
               (document_chunks d))) ;;
        d1_run (fun d =>
          Sql.with_document_tags d
            (Sql.delete_where
               (fun r => (dt_document_id r =? docId)%string)
               (document_tags d))) ;;
        d1_run (fun d =>
          Sql.with_documents d
            (Sql.delete_where (fun r => (doc_id r =? docId)%string)
               (documents d))) ;;
        ret (jsonResponse (MessageBody "Document deleted") 200)
  end.

(** ** Search (workers/api/routes/search.ts) *)

Record SearchRequest := mkSearchRequest {
  sq_query : option string;
  sq_tags : option (list string);
  sq_document_types : option (list string);
  sq_date_from : option string;
  sq_date_to : option string;
  sq_limit : option Z;
  sq_offset : option Z
}.

(** Truthiness of an optional string field of the request body. *)
Definition given (field : option string) : option string :=
  match field with
  | Some s => if Js.truthy s then Some s else None
  | None => None
  end.

(** [body.tags && body.tags.length > 0], and the same for the other
    list fields. *)
Definition given_list (field : option (list string)) : list string :=
  match field with
  | Some l => l
  | None => []
  end.

(** [body.limit || d] and [body.offset || d]. *)
Definition number_or (field : option Z) (default : Z) : Z :=
  match field with
  | Some n => if n =? 0 then default else n
  | None => default
  end.

(** [SELECT workspace_id FROM workspace_members WHERE user_id = ?] *)
Definition select_workspaces (userId : string) (d : Database)
  : list string :=
  map wm_workspace_id
    (filter (fun wm => (wm_user_id wm =? userId)%string)
       (workspace_members d)).

Definition is_ready (r : Document) : bool := DocStatus_eqb (doc_status r) StReady.

(** [... LEFT JOIN document_tags dt ON d.id = dt.document_id
         LEFT JOIN tags t ON dt.tag_id = t.id ... AND t.name IN (...)]:
    some association of the document leads to a tag with one of the
    names. *)
Definition has_tag_named (d : Database) (docId : string)
    (names : list string) : bool :=
  existsb
    (fun dt =>
       (dt_document_id dt =? docId)%string
       && existsb (fun t => (tag_id t =? dt_tag_id dt)%string
                            && Sql.in_strings (tag_name t) names) (tags d))
    (document_tags d).

(** [d.title LIKE ? OR EXISTS (SELECT 1 FROM document_chunks dc
     WHERE dc.document_id = d.id AND dc.text_content LIKE ?)] *)
Definition text_matches (d : Database) (q : string) (r : Document) : bool :=
  let searchTerm := ("%" ++ q ++ "%")%string in
  sql_like env searchTerm (doc_title r)
  || existsb (fun c => (chunk_document_id c =? doc_id r)%string
                       && sql_like env searchTerm (chunk_text_content c))
       (document_chunks d).

Definition when_given {A : Type} (field : option A) (p : A -> bool) : bool :=
  match field with
  | Some x => p x
  | None => true
  end.

Definition when_nonempty (l : list string) (p : list string -> bool)
  : bool :=
  match l with
  | [] => true
  | _ => p l
  end.

Definition type_matches (types : list string) (r : Document) : bool :=
  existsb (fun t => sql_like env ("%" ++ t ++ "%")%string (doc_mime_type r))
    types.

(** The part of the WHERE clause that the page query of the faceted
    search and its count query share. *)
Definition counted_where (body : SearchRequest) (workspaceIds : list string)
    (d : Database) (r : Document) : bool :=
  Sql.in_strings (doc_workspace_id r) workspaceIds
  && is_ready r
  && when_given (given (sq_query body)) (fun q => text_matches d q r)
  && when_nonempty (given_list (sq_tags body))
       (fun names => has_tag_named d (doc_id r) names).

(** The filters on type and date. *)
Definition facet_where (body : SearchRequest) (r : Document) : bool :=
  when_nonempty (given_list (sq_document_types body))
    (fun types => type_matches types r)
  && when_given (given (sq_date_from body))
       (fun from => String.leb from (doc_created_at r))
  && when_given (given (sq_date_to body))
       (fun to => String.leb (doc_created_at r) to).

(** The rows that satisfy the WHERE clause of the faceted page query, one
    per document ([id] is the primary key, so DISTINCT keeps them all). *)
Definition faceted_matching (body : SearchRequest)
    (workspaceIds : list string) (d : Database) : list Document :=
  filter (fun r => counted_where body workspaceIds d r && facet_where body r)
    (documents d).

(** [... ORDER BY d.created_at DESC LIMIT ? OFFSET ?] *)
Definition faceted_page (body : SearchRequest) (workspaceIds : list string)
    (limit offset : Z) (d : Database) : list Document :=
  Sql.limit_offset limit offset
    (Sql.order_by
       (fun a b => String.ltb (doc_created_at b) (doc_created_at a))
       (faceted_matching body workspaceIds d)).

(** [SELECT COUNT(DISTINCT d.id) ...], which repeats the text and tag
    filters only. *)
Definition faceted_count (body : SearchRequest) (workspaceIds : list string)
    (d : Database) : Z :=
  Z.of_nat
    (List.length (filter (counted_where body workspaceIds d) (documents d))).

(** [SELECT t.id, t.name, t.category FROM tags t
     JOIN document_tags dt ON t.id = dt.tag_id WHERE dt.document_id = ?];
    no ORDER BY: the tags come in an order that SQLite chooses, here the
    order of the tag table. *)
Definition select_document_tags (docId : string) (d : Database)
  : list TagView :=
  flat_map
    (fun t =>
       map (fun _ => mkTagView (tag_id t) (tag_name t) (tag_category t))
         (filter (fun dt => (dt_tag_id dt =? tag_id t)%string
                            && (dt_document_id dt =? docId)%string)
            (document_tags d)))
    (tags d).

(** [SELECT text_content FROM document_chunks WHERE document_id = ?
     ORDER BY chunk_index ASC LIMIT 1] *)
Definition select_first_chunk (docId : string) (d : Database)
  : option string :=
  Sql.first
    (map chunk_text_content
       (Sql.order_by (fun a b => (chunk_index a <? chunk_index b)%nat)
          (filter (fun c => (chunk_document_id c =? docId)%string)
             (document_chunks d)))).

(** [enrichDocuments] *)
Fixpoint enrichDocuments (docs : list Document)
  : M (list DocumentSearchResult) :=
  match docs with
  | [] => ret []
  | doc :: rest =>
      tags <- d1_query (select_document_tags (doc_id doc)) ;;
      chunk <- d1_query (select_first_chunk (doc_id doc)) ;;
      let snippet :=
        match chunk with
        | Some text_content => Js.substring0 200 text_content
        | None => ""
        end in
      results <- enrichDocuments rest ;;
      ret (mkSearchResult (doc_id doc) (doc_title doc) snippet tags None
             (doc_created_at doc) :: results)
  end.

Definition empty_page : Response :=
  jsonResponse (SearchBody (mkSearchPage [] 0 false)) 200.

(** [handleFacetedSearch], after the request body has been parsed. *)
Definition handleFacetedSearch (body : SearchRequest) (userId : string)
  : M Response :=
  try_catch
    (let limit := Z.min (number_or (sq_limit body) 20) 100 in
     let offset := number_or (sq_offset body) 0 in
     workspaceIds <- d1_query (select_workspaces userId) ;;
     if (List.length workspaceIds =? 0)%nat then ret empty_page
     else
       result <-
         d1_query (faceted_page body workspaceIds (limit + 1) offset) ;;
       documents <- enrichDocuments (Js.slice result 0 limit) ;;
       let hasMore := limit <? Z.of_nat (List.length result) in
       (* Get total count *)
       countResult <- d1_query (faceted_count body workspaceIds) ;;
       ret (jsonResponse
              (SearchBody (mkSearchPage documents countResult hasMore)) 200))
    (fun _ => ret (errorResponse "Search failed" 500)).

(** The loop of the combined search over the vector matches: the first
    match of each document fixes its score ([semanticScores]) and its
    place ([semanticDocIds]). *)
Fixpoint collect_scores (matches : list VectorMatch)
    (semanticDocIds : list string) (semanticScores : list (string * Z))
  : list string * list (string * Z) :=
  match matches with
  | [] => (semanticDocIds, semanticScores)
  | m :: rest =>
      let docId := md_document_id (match_metadata m) in
      if negb (Js.truthy docId) then
        collect_scores rest semanticDocIds semanticScores
      else if existsb (fun kv => (fst kv =? docId)%string) semanticScores
      then collect_scores rest semanticDocIds semanticScores
      else collect_scores rest (semanticDocIds ++ [docId])
             (semanticScores ++ [(docId, match_score m)])
  end.

(** [semanticScores.get(id)] *)
Fixpoint score_of (id : string) (semanticScores : list (string * Z))
  : option Z :=
  match semanticScores with
  | [] => None
  | (k, v) :: rest => if (k =? id)%string then Some v else score_of id rest
  end.

(** The WHERE clause of the combined search; [GROUP BY d.id] leaves one
    row per document.  The query has no ORDER BY: the rows come in an
    order that SQLite chooses, here the order of the table. *)
Definition combined_matching (body : SearchRequest)
    (workspaceIds semanticDocIds : list string) (d : Database)
  : list Document :=
  filter
    (fun r =>
       Sql.in_strings (doc_workspace_id r) workspaceIds
       && is_ready r
       && when_nonempty semanticDocIds
            (fun ids => Sql.in_strings (doc_id r) ids)
       && when_nonempty (given_list (sq_tags body))
            (fun names => has_tag_named d (doc_id r) names)
       && facet_where body r)
    (documents d).

(** The comparator handed to [documents.sort]. *)
Definition compare_results (a b : DocumentSearchResult) : Z :=
  match sr_relevance_score a, sr_relevance_score b with
  | Some sa, Some sb => sb - sa
  | _, _ => getTime env (sr_created_at b) - getTime env (sr_created_at a)
  end.

(** [Array.prototype.sort] with a comparator: a stable sort, in which [a]
    has to come before [b] when the comparator is negative on them. *)
Definition js_sort {A : Type} (cmp : A -> A -> Z) (l : list A) : list A :=
  Sql.order_by (fun a b => cmp a b <? 0) l.

Definition with_score (semanticScores : list (string * Z))
    (doc : DocumentSearchResult) : DocumentSearchResult :=
  mkSearchResult (sr_id doc) (sr_title doc) (sr_snippet doc) (sr_tags doc)
    (score_of (sr_id doc) semanticScores) (sr_created_at doc).

(** [handleCombinedSearch], after the request body has been parsed. *)
Definition handleCombinedSearch (body : SearchRequest) (userId : string)
  : M Response :=
  try_catch
    (let limit := Z.min (number_or (sq_limit body) 20) 100 in
     workspaceIds <- d1_query (select_workspaces userId) ;;
     if (List.length workspaceIds =? 0)%nat then ret empty_page
     else
       (* If there's a text query, start with semantic search *)
       '(semanticDocIds, semanticScores) <-
         match given (sq_query body) with
         | Some q =>
             queryEmbedding <- generateEmbedding q ;;
             matches <-
               vectors_query queryEmbedding (limit * 3)
                 (WorkspaceIn workspaceIds) ;;
             ret (collect_scores matches [] [])
         | None => ret ([], [])
         end ;;
       (* Apply faceted filters *)
       result <-
         d1_query (combined_matching body workspaceIds semanticDocIds) ;;
       documents <- enrichDocuments result ;;
       (* Add relevance scores from semantic search *)
       let documents := map (with_score semanticScores) documents in
       (* Sort by relevance score if available, otherwise by date *)
       let documents := js_sort compare_results documents in
       ret (jsonResponse
              (SearchBody
                 (mkSearchPage (Js.slice documents 0 limit)
                    (Z.of_nat (List.length documents))
                    (limit <? Z.of_nat (List.length documents)))) 200))
    (fun _ => ret (errorResponse "Search failed" 500)).

(** A search handler from the request on.  [await request.json()] is
    the first statement inside the [try]: when it rejects, because the
    body is not JSON, the [catch] block answers before any call is
    made.  A body that parses is read as a [SearchRequest]; the model
    covers the JSON objects whose fields, where present, have the
    declared types, with whole numbers for [limit] and [offset]. *)
Definition search_request (handler : SearchRequest -> string -> M Response)
    (json : Outcome SearchRequest) (userId : string) : M Response :=
  match json with
  | Returned body => handler body userId
  | Threw _ => ret (errorResponse "Search failed" 500)
  end.

(** ** Chat context (workers/api/routes/chat.ts, [retrieveContext]) *)

Record ChatSource := mkChatSource {
  cs_document_id : string;
  cs_document_title : string;
  cs_chunk_id : string;
  cs_text_snippet : string;
  cs_relevance_score : Z
}.

(** [x || 'Unknown Document'] *)
Definition title_or_unknown (t : option string) : string :=
  match t with
  | Some s => if Js.truthy s then s else "Unknown Document"
  | None => "Unknown Document"
  end.

(** [SELECT title FROM documents WHERE id = ?] *)
Definition select_title (docId : string) (d : Database) : option string :=
  Sql.first
    (map doc_title
       (filter (fun r => (doc_id r =? docId)%string) (documents d))).

(** The loop of [retrieveContext] over the matches; [seenDocs] is the
    set of document ids met so far, in the order they were added. *)
Fixpoint retrieve_loop (matches : list VectorMatch)
    (sources : list ChatSource) (seenDocs : list string)
  : M (list ChatSource) :=
  match matches with
  | [] => ret sources
  | m :: rest =>
      let docId := md_document_id (match_metadata m) in
      if negb (Js.truthy docId) then retrieve_loop rest sources seenDocs
      else
        (* Limit to 5 documents *)
        if (5 <=? List.length seenDocs)%nat
           && negb (Sql.in_strings docId seenDocs)
        then retrieve_loop rest sources seenDocs
        else if negb (Sql.in_strings docId seenDocs) then
          (* Get document title *)
          doc <- d1_query (select_title docId) ;;
          let docTitle := title_or_unknown doc in
          retrieve_loop rest
            (sources ++ [mkChatSource docId docTitle (match_id m)
                           (md_text (match_metadata m)) (match_score m)])
            (seenDocs ++ [docId])
        else
          (* Get cached title from existing source *)
          let existing :=
            find (fun s => (cs_document_id s =? docId)%string) sources in
          let docTitle :=
            title_or_unknown (option_map cs_document_title existing) in
          retrieve_loop rest
            (sources ++ [mkChatSource docId docTitle (match_id m)
                           (md_text (match_metadata m)) (match_score m)])
            seenDocs
  end.

Definition retrieveContext (query workspaceId : string)
  : M (list ChatSource) :=
  queryEmbedding <- generateEmbedding query ;;
  matches <- vectors_query queryEmbedding 10 (WorkspaceIs workspaceId) ;;
  retrieve_loop matches [] [].

(** ** Tag tools of the MCP server (workers/api/index.ts,
       [toolAddTags] and [toolRemoveTags]) *)

(** [{ content: [{ type: 'text', text }], isError }] *)
Record McpToolResult := mkToolResult {
  tr_text : string;
  tr_isError : bool
}.

(** What the API key of the caller stands for. *)
Record KeyData := mkKeyData {
  kd_user_id : string;
  kd_workspace_id : string;
  kd_role : string
}.

(** [SELECT id FROM documents WHERE id = ? AND workspace_id = ?] *)
Definition select_document_in (docId workspaceId : string) (d : Database)
  : list Document :=
  filter (fun r => (doc_id r =? docId)%string
                   && (doc_workspace_id r =? workspaceId)%string)
    (documents d).

(** The loop of [toolAddTags]; [addedTags] collects the names that were
    not on the document yet. *)
Fixpoint toolAddTags_loop (docId workspaceId now : string)
    (tagNames addedTags : list string) : M (list string) :=
  match tagNames with
  | [] => ret addedTags
  | tagName :: rest =>
      (* Find or create tag *)
      tag <-
        d1_query (fun d =>
          Sql.first (Sql.select_tag_by_name workspaceId tagName d)) ;;
      tagId <-
        match tag with
        | Some id => ret id
        | None =>
            tagId <- generateId ;;
            d1_insert
              (Sql.insert_tag
                 (mkTag tagId workspaceId tagName None 0 now)) ;;
            ret tagId
        end ;;
      (* Add to document *)
      existing <-
        d1_query (fun d => Sql.first (select_document_tag docId tagId d)) ;;
      match existing with
      | Some _ => toolAddTags_loop docId workspaceId now rest addedTags
      | None =>
          d1_insert
            (Sql.insert_document_tag
               (mkDocumentTag docId tagId UserAdded None now)) ;;
          d1_run (increment_usage tagId) ;;
          toolAddTags_loop docId workspaceId now rest
            (addedTags ++ [tagName])
      end
  end.

Definition toolAddTags (docId : string) (tagNames : list string)
    (keyData : KeyData) : M McpToolResult :=
  if (kd_role keyData =? "viewer")%string then
    ret (mkToolResult "Insufficient permissions" true)
  else
    (* Verify document exists *)
    doc <-
      d1_query (fun d =>
        Sql.first (select_document_in docId (kd_workspace_id keyData) d)) ;;
    match doc with
    | None => ret (mkToolResult "Document not found" true)
    | Some _ =>
        now <- isoNow ;;
        addedTags <-
          toolAddTags_loop docId (kd_workspace_id keyData) now tagNames [] ;;
        ret (mkToolResult
               (if (0 <? List.length addedTags)%nat
                then ("Added tags: " ++ Js.join ", " addedTags)%string
                else "All tags already present on document")
               false)
    end.

(** [DELETE FROM document_tags WHERE document_id = ? AND tag_id = ?],
    with [result.meta.changes], the number of rows it deleted. *)
Definition d1_delete_document_tag (docId tagId : string) : M Z :=
  call (fun w =>
          (Returned
             (Z.of_nat (List.length (select_document_tag docId tagId (db w)))),
           set_db w (delete_document_tag docId tagId (db w)))).

(** The loop of [toolRemoveTags]. *)
Fixpoint toolRemoveTags_loop (docId workspaceId : string)
    (tagNames removedTags : list string) : M (list string) :=
  match tagNames with
  | [] => ret removedTags
  | tagName :: rest =>
      tag <-
        d1_query (fun d =>
          Sql.first (Sql.select_tag_by_name workspaceId tagName d)) ;;
      match tag with
      | Some tagId =>
          changes <- d1_delete_document_tag docId tagId ;;
          if 0 <? changes then
            d1_run (decrement_usage tagId) ;;
            toolRemoveTags_loop docId workspaceId rest
              (removedTags ++ [tagName])
          else toolRemoveTags_loop docId workspaceId rest removedTags
      | None => toolRemoveTags_loop docId workspaceId rest removedTags
      end
  end.

Definition toolRemoveTags (docId : string) (tagNames : list string)
    (keyData : KeyData) : M McpToolResult :=
  if (kd_role keyData =? "viewer")%string then
    ret (mkToolResult "Insufficient permissions" true)
  else
    (* Verify document exists *)
    doc <-
      d1_query (fun d =>
        Sql.first (select_document_in docId (kd_workspace_id keyData) d)) ;;
    match doc with
    | None => ret (mkToolResult "Document not found" true)
    | Some _ =>
        removedTags <-
          toolRemoveTags_loop docId (kd_workspace_id keyData) tagNames [] ;;
        ret (mkToolResult
               (if (0 <? List.length removedTags)%nat
                then ("Removed tags: " ++ Js.join ", " removedTags)%string
                else "No matching tags found on document")
               false)
    end.

End Worker.

(** ** Reading the extracted text (workers/api/routes/documents.ts,
       [handleGetText]) *)

(** [jsonResponse({ text: content }, 200)] or an error response. *)
Inductive TextResponse :=
| TextJson (text : string) (status : Z)
| TextError (error : string) (status : Z).

Definition handleGetText (env : Env) (userId docId : string)
  : M TextResponse :=
  (* Verify access *)
  doc <-
    d1_query env
      (fun d => Sql.first (select_document_access docId userId d)) ;;
  match doc with
  | None => ret (TextError "Document not found" 404)
  | Some (doc, _) =>
      match doc_status doc, doc_text_key doc with
      | StReady, Some text_key =>
          if Js.truthy text_key then
            (* Get text from R2 *)
            text <- r2_get env text_key ;;
            match text with
            | None => ret (TextError "Text file not found" 404)
            | Some text =>
                content <-
                  call env (fun w => (Returned (utf8_decode env text), w)) ;;
                ret (TextJson content 200)
            end
          else ret (TextError "Text not yet extracted" 400)
      | _, _ => ret (TextError "Text not yet extracted" 400)
      end
  end.

(** ** Tag routes (workers/api/routes/tags.ts) *)

Module TagRoutes.

(** [handleDelete] of the tag routes. *)
Definition handleDelete (env : Env) (userId tagId : string) : M Response :=
  (* Verify access *)
  tag <- d1_query env (fun d => Sql.first (select_tag_access tagId userId d)) ;;
  match tag with
  | None => ret (errorResponse "Tag not found" 404)
  | Some (_, Viewer) => ret (errorResponse "Insufficient permissions" 403)
  | Some (_, _) =>
      (* Remove tag from documents *)
      d1_run env
        (fun d =>
           Sql.with_document_tags d
             (Sql.delete_where (fun r => (dt_tag_id r =? tagId)%string)
                (document_tags d))) ;;
      (* Delete tag *)
      d1_run env
        (fun d =>
           Sql.with_tags d
             (Sql.delete_where (fun t => (tag_id t =? tagId)%string)
                (tags d))) ;;
      ret (jsonResponse (MessageBody "Tag deleted") 200)
  end.

End TagRoutes.

(** ** Semantic search (workers/api/routes/search.ts,
       [handleSemanticSearch]) *)

(** An entry of the [Map] from document id to [{ score, snippet }]. *)
Record ScoreData := mkScoreData {
  sd_score : Z;
  sd_snippet : string
}.

(** [documentScores.get(docId)]. *)
Fixpoint scores_get (docId : string) (m : list (string * ScoreData))
  : option ScoreData :=
  match m with
  | [] => None
  | (k, v) :: rest => if (k =? docId)%string then Some v
                      else scores_get docId rest
  end.

(** [documentScores.set(docId, v)]: a key that is present keeps its
    place in the order of the keys. *)
Fixpoint scores_set (docId : string) (v : ScoreData)
    (m : list (string * ScoreData)) : list (string * ScoreData) :=
  match m with
  | [] => [(docId, v)]
  | (k, v') :: rest =>
      if (k =? docId)%string then (k, v) :: rest
      else (k, v') :: scores_set docId v rest
  end.

(** "Deduplicate by document_id and get top matches". *)
Fixpoint collect_document_scores (matches : list VectorMatch)
    (documentScores : list (string * ScoreData))
  : list (string * ScoreData) :=
  match matches with
  | [] => documentScores
  | m :: rest =>
      let docId := md_document_id (match_metadata m) in
      if negb (Js.truthy docId) then
        collect_document_scores rest documentScores
      else
        let known := scores_get docId documentScores in
        (* documentScores.has(docId) *)
        let has := match known with Some _ => true | None => false end in
        (* documentScores.get(docId)?.score || 0 *)
        let knownScore :=
          match known with Some v => sd_score v | None => 0 end in
        if negb has
           || (negb (match_score m =? 0) && (knownScore <? match_score m))
        then collect_document_scores rest
               (scores_set docId
                  (mkScoreData (match_score m) (md_text (match_metadata m)))
                  documentScores)
        else collect_document_scores rest documentScores
  end.

(** [SELECT id, title, created_at, status, mime_type FROM documents
     WHERE id IN (...)]; no ORDER BY: the rows come in an order that
    SQLite chooses, here the order of the table. *)
Definition select_documents_in (docIds : list string) (d : Database)
  : list Document :=
  filter (fun r => Sql.in_strings (doc_id r) docIds) (documents d).

(** The loop that builds the results of the semantic search. *)
Fixpoint semantic_results (env : Env) (docs : list Document)
    (documentScores : list (string * ScoreData))
  : M (list DocumentSearchResult) :=
  match docs with
  | [] => ret []
  | doc :: rest =>
      let scoreData := scores_get (doc_id doc) documentScores in
      (* Get tags *)
      tags <- d1_query env (select_document_tags (doc_id doc)) ;;
      results <- semantic_results env rest documentScores ;;
      ret (mkSearchResult (doc_id doc) (doc_title doc)
             (match scoreData with
              | Some v => sd_snippet v
              | None => ""
              end)
             tags (option_map sd_score scoreData) (doc_created_at doc)
             :: results)
  end.

(** [relevance_score || 0]. *)
Definition score_or_zero (r : DocumentSearchResult) : Z :=
  match sr_relevance_score r with
  | Some s => s
  | None => 0
  end.

(** [handleSemanticSearch], after the request body has been parsed. *)
Definition handleSemanticSearch (env : Env) (query : option string)
    (limit : option Z) (userId : string) : M Response :=
  try_catch
    (match given query with
     | None => ret (errorResponse "Query is required" 400)
     | Some query =>
         let limit := Z.min (number_or limit 10) 50 in
         workspaceIds <- d1_query env (select_workspaces userId) ;;
         if (List.length workspaceIds =? 0)%nat then ret empty_page
         else
           (* Generate query embedding *)
           queryEmbedding <- generateEmbedding env query ;;
           (* Search Vectorize *)
           matches <-
             vectors_query env queryEmbedding (limit * 2)
               (WorkspaceIn workspaceIds) ;;
           let documentScores := collect_document_scores matches [] in
           (* Get document details *)
           let docIds := Js.slice (map fst documentScores) 0 limit in
           if (List.length docIds =? 0)%nat then ret empty_page
           else
             docs <- d1_query env (select_documents_in docIds) ;;
             documents <- semantic_results env docs documentScores ;;
             (* Sort by relevance score *)
             let documents :=
               js_sort (fun a b => score_or_zero b - score_or_zero a)
                 documents in
             ret (jsonResponse
                    (SearchBody
                       (mkSearchPage documents
                          (Z.of_nat (List.length documents)) false)) 200)
     end)
    (fun _ => ret (errorResponse "Search failed" 500)).

(** ** The upload route (workers/api/routes/documents.ts,
       [handleUpload]) *)

(** The request, after its headers and its body have been read: a
    multipart form with its files as the form parser hands them over,
    or a single file in the body with the [Content-Type] and
    [X-Filename] headers. *)
Inductive UploadRequest :=
| Multipart (files : list File)
| SingleFile (contentType : string) (filename : option string)
    (body : string).

(** [jsonResponse({ documents }, status)] or an error response. *)
Inductive UploadReply :=
| UploadJson (documents : list DocumentUploadResponse) (status : Z)
| UploadError (error : string) (status : Z).

(** [SELECT w.id FROM workspaces w
     JOIN workspace_members wm ON w.id = wm.workspace_id
     WHERE wm.user_id = ? AND wm.role IN ('owner', 'editor') LIMIT 1];
    every membership row names a workspace that exists (foreign key). *)
Definition select_writable_workspaces (userId : string) (d : Database)
  : list string :=
  map wm_workspace_id
    (filter (fun wm => (wm_user_id wm =? userId)%string
                       && match wm_role wm with
                          | Owner | Editor => true
                          | Viewer => false
                          end)
       (workspace_members d)).

(** The [type] of [new File(bits, name, { type })]: in lower case, and
    empty when a character is outside U+0020 to U+007E. *)
Definition blob_type (type : string) : string :=
  if forallb
       (fun c => let n := nat_of_ascii c in (32 <=? n)%nat && (n <=? 126)%nat)
       (list_ascii_of_string type)
  then toLowerCase type
  else "".

(** [50 * 1024 * 1024] *)
Definition max_upload_bytes : Z := 50 * 1024 * 1024.

(** [file.size] *)
Definition file_size (file : File) : Z :=
  Z.of_nat (String.length (file_content file)).

(** The loop over the files of a multipart upload. *)
Fixpoint upload_files (env : Env) (workspaceId userId : string)
    (files : list File) (uploadedDocs : list DocumentUploadResponse)
  : M UploadReply :=
  match files with
  | [] => ret (UploadJson uploadedDocs 201)
  | file :: rest =>
      if max_upload_bytes <? file_size file then
        ret (UploadError
               ("File " ++ file_name file ++ " exceeds 50MB limit")%string
               400)
      else
        doc <- uploadFile env file workspaceId userId ;;
        upload_files env workspaceId userId rest (uploadedDocs ++ [doc])
  end.

Definition handleUpload (env : Env) (request : UploadRequest)
    (userId : string) : M UploadReply :=
  try_catch
    ((* Get user's workspace *)
     workspace <-
       d1_query env
         (fun d => Sql.first (select_writable_workspaces userId d)) ;;
     match workspace with
     | None => ret (UploadError "No writable workspace found" 403)
     | Some workspaceId =>
         match request with
         | Multipart files =>
             if (List.length files =? 0)%nat then
               ret (UploadError "No files provided" 400)
             else if (100 <? List.length files)%nat then
               ret (UploadError "Maximum 100 files per upload" 400)
             else upload_files env workspaceId userId files []
         | SingleFile contentType filename body =>
             (* Handle single file upload with filename in header *)
             let filename :=
               match filename with
               | Some f => if Js.truthy f then f else "untitled"
               | None => "untitled"
               end in
             let mimeType :=
               if Js.truthy contentType then contentType
               else "application/octet-stream" in
             if max_upload_bytes <? Z.of_nat (String.length body) then
               ret (UploadError "File exceeds 50MB limit" 400)
             else
               doc <-
                 uploadFile env (mkFile filename (blob_type mimeType) body)
                   workspaceId userId ;;
               ret (UploadJson [doc] 201)
         end
     end)
    (fun _ => ret (UploadError "Upload failed" 500)).

(** ** Creating a tag (workers/api/routes/tags.ts, [handleCreate]) *)

(** [s.trimStart()] and [s.trimEnd()], over the white space that
    [Js.is_space] knows. *)
Fixpoint trimStart (s : string) : string :=
  match s with
  | EmptyString => EmptyString
  | String c rest => if Js.is_space c then trimStart rest else s
  end.

Fixpoint trimEnd (s : string) : string :=
  match s with
  | EmptyString => EmptyString
  | String c rest =>
      match trimEnd rest with
      | EmptyString =>
          if Js.is_space c then EmptyString else String c EmptyString
      | kept => String c kept
      end
  end.

(** [s.trim()] *)
Definition trim (s : string) : string := trimEnd (trimStart s).

(** The JSON body of the request; a field may be missing. *)
Record CreateTagBody := mkCreateTagBody {
  ct_name : option string;
  ct_workspace_id : option string;
  ct_category : option string
}.

(** [jsonResponse({ id, workspace_id, name, category, usage_count,
    created_at }, status)] or an error response. *)
Inductive TagReply :=
| TagJson (tag : Tag) (status : Z)
| TagError (error : string) (status : Z).

(** [SELECT role FROM workspace_members
     WHERE workspace_id = ? AND user_id = ?] *)
Definition select_member_role (workspaceId userId : string) (d : Database)
  : list Role :=
  map wm_role
    (filter (fun wm => (wm_workspace_id wm =? workspaceId)%string
                       && (wm_user_id wm =? userId)%string)
       (workspace_members d)).

Definition handleCreate (env : Env) (body : CreateTagBody) (userId : string)
  : M TagReply :=
  try_catch
    (match ct_name body with
     | None => ret (TagError "Tag name is required" 400)
     | Some name =>
         if negb (Js.truthy name) || (String.length (trim name) =? 0)%nat
         then ret (TagError "Tag name is required" 400)
         else
           match ct_workspace_id body with
           | None => ret (TagError "Workspace ID is required" 400)
           | Some workspaceId =>
               if negb (Js.truthy workspaceId) then
                 ret (TagError "Workspace ID is required" 400)
               else
                 (* Verify access *)
                 access <-
                   d1_query env
                     (fun d =>
                        Sql.first (select_member_role workspaceId userId d)) ;;
                 match access with
                 | None | Some Viewer =>
                     ret (TagError "Insufficient permissions" 403)
                 | Some _ =>
                     (* Check if tag exists *)
                     existing <-
                       d1_query env
                         (fun d =>
                            Sql.first
                              (Sql.select_tag_by_name workspaceId (trim name)
                                 d)) ;;
                     match existing with
                     | Some _ => ret (TagError "Tag already exists" 409)
                     | None =>
                         tagId <- generateId env ;;
                         now <- isoNow env ;;
                         let category :=
                           match ct_category body with
                           | Some c => if Js.truthy c then Some c else None
                           | None => None
                           end in
                         let tag :=
                           mkTag tagId workspaceId (trim name) category 0
                             now in
                         d1_insert env (Sql.insert_tag tag) ;;
                         ret (TagJson tag 201)
                     end
                 end
           end
     end)
    (fun _ => ret (TagError "Failed to create tag" 500)).

(** ** Vocabulary of the properties *)

(** A text without white space: a single word (or the empty text). *)
Fixpoint is_word (s : string) : bool :=
  match s with
  | EmptyString => true
  | String c rest => negb (Js.is_space c) && is_word rest
  end.

(** [m], started in a world that satisfies [P], leaves a world that
    satisfies [Q] when it returns and [E] when it throws. *)
Definition triple {A : Type} (P : World -> Prop) (m : M A)
    (Q : A -> World -> Prop) (E : Thrown -> World -> Prop) : Prop :=
  forall w r w',
    P w -> m w = (r, w') ->
    match r with
    | Returned a => Q a w'
    | Threw e => E e w'
    end.

(** [m] keeps [I] true, whether it returns or throws. *)
Definition preserves {A : Type} (I : World -> Prop) (m : M A) : Prop :=
  triple I m (fun _ => I) (fun _ => I).

(** What identifies a document row and is never rewritten by the
    pipeline: id, workspace, content hash and title. *)
Definition doc_key (r : Document) : string * string * string * string :=
  (doc_id r, doc_workspace_id r, doc_content_hash r, doc_title r).

Definition skeleton (w : World) : list (string * string * string * string) :=
  map doc_key (documents (db w)).

(** The document [id] is stored. *)
Definition stored (id : string) (w : World) : Prop :=
  In id (map doc_id (documents (db w))).

(** Every row of the document [id] satisfies [p]. *)
Definition document_has (id : string) (p : Document -> Prop) (w : World)
  : Prop :=
  forall r, In r (documents (db w)) -> doc_id r = id -> p r.

(** A property of the world that only reads the database. *)
Definition db_only (I : World -> Prop) : Prop :=
  forall w w', db w = db w' -> I w -> I w'.

(** The id under which chunk [i] of a document is stored. *)
Definition chunk_key (documentId : string) (i : nat) : string :=
  (documentId ++ "_" ++ Js.of_nat i)%string.

(** The row [processDocument] inserts for chunk [i]. *)
Definition chunk_row (documentId : string) (i : nat) (chunk : Chunk)
  : DocumentChunk :=
  mkDocumentChunk (chunk_key documentId i) documentId i (text chunk)
    (tokenCount chunk).

(** ** Sample environments and worlds *)

Module Sample.

(** [n] words separated by single spaces. *)
Fixpoint words (n : nat) : string :=
  match n with
  | O => ""
  | S O => "w"
  | S m => ("w " ++ words m)%string
  end.

(** [%needle%] matches the subjects that contain the needle. *)
Definition like (pattern subject : string) : bool :=
  let needle := String.substring 1 (String.length pattern - 2) pattern in
  match String.index 0 needle subject with
  | Some _ => true
  | None => (needle =? "")%string
  end.

(** A clock reading grows with the string that denotes it. *)
Fixpoint time_of (s : string) (acc : Z) : Z :=
  match s with
  | EmptyString => acc
  | String c rest => time_of rest (acc * 256 + Z.of_nat (nat_of_ascii c))
  end.

Definition closeness (q v : list Z) : Z :=
  match q, v with
  | a :: _, b :: _ => 1000 - Z.abs (a - b)
  | _, _ => 0
  end.

(** The sample files and texts are ASCII: they decode to themselves,
    after a leading byte order mark is dropped, and are encoded as they
    are. *)
Definition decode (bytes : string) : string :=
  match bytes with
  | String "239" (String "187" (String "191" rest)) => rest
  | _ => bytes
  end.

Definition env (faults : nat -> option Thrown) (queued : bool) : Env :=
  {| fault := faults;
     clock := fun n => ("2024-05-01T09:00:00." ++ Js.of_nat n ++ "Z")%string;
     uuid := fun n => ("uuid-" ++ Js.of_nat n)%string;
     has_queue := queued;
     sha256 := fun content => ("sha256:" ++ content)%string;
     sql_like := like;
     getTime := fun s => time_of s 0;
     embedding_of := fun t => [Z.of_nat (String.length t)];
     similarity := closeness;
     utf8_decode := decode;
     utf8_encode := fun text => text;
     max_arguments := 4096;
     pdf_text := fun bytes => inr ("Invoice 42 " ++ bytes)%string;
     vision_description := fun _ => "Receipt total 12.50";
     llm_tag_array := fun _ _ =>
       Some [ {| name := "invoice";
                 category := Some "document_type";
                 confidence := 95 |} ] |}.

(** The bytes of "hello world" behind a byte order mark. *)
Definition marked_note : string :=
  String "239" (String "187" (String "191" "hello world")).

Definition no_fault : nat -> option Thrown := fun _ => None.

(** Only the call number [n] is rejected. *)
Definition fault_at (n : nat) (e : Thrown) : nat -> option Thrown :=
  fun k => if (k =? n)%nat then Some e else None.

Definition document (id workspace owner title contents mime : string)
    (st : DocStatus) : Document :=
  {| doc_id := id;
     doc_workspace_id := workspace;
     doc_user_id := owner;
     doc_title := title;
     doc_file_key := ("documents/" ++ workspace ++ "/" ++ id ++ "/"
                        ++ title)%string;
     doc_text_key := None;
     doc_content_hash := ("sha256:" ++ contents)%string;
     doc_mime_type := mime;
     doc_file_size_bytes := Z.of_nat (String.length contents);
     doc_status := st;
     doc_error_message := None;
     doc_created_at := "2024-04-30T08:00:00.000Z";
     doc_updated_at := "2024-04-30T08:00:00.000Z" |}.

Definition message (r : Document) : ProcessingQueueMessage :=
  {| document_id := doc_id r;
     workspace_id := doc_workspace_id r;
     user_id := doc_user_id r;
     file_key := doc_file_key r;
     mime_type := doc_mime_type r |}.

Definition members : list WorkspaceMember :=
  [ {| wm_workspace_id := "W1"; wm_user_id := "alice"; wm_role := Owner |};
    {| wm_workspace_id := "W2"; wm_user_id := "alice"; wm_role := Editor |} ].

(** A world that holds one freshly uploaded document and its file. *)
Definition uploaded (r : Document) (contents : string) : World :=
  {| db := {| documents := [r];
              document_chunks := [];
              tags := [];
              document_tags := [];
              workspace_members := members |};
     files := [(doc_file_key r, contents)];
     vectors := [];
     queue := [];
     ticks := 0;
     ids := 0 |}.

(** A world without documents. *)
Definition empty_world : World :=
  {| db := {| documents := [];
              document_chunks := [];
              tags := [];
              document_tags := [];
              workspace_members := members |};
     files := [];
     vectors := [];
     queue := [];
     ticks := 0;
     ids := 0 |}.

Definition note_file : File :=
  {| file_name := "note.txt";
     file_type := "text/plain";
     file_content := "hello world" |}.

(** A plain-text note of two words. *)
Definition note : Document :=
  document "d1" "W1" "alice" "note.txt" "hello world" "text/plain" StPending.

Definition note_world : World := uploaded note "hello world".

(** A plain-text report of 1400 words, which makes five chunks. *)
Definition report_text : string := words 1400.

Definition report : Document :=
  document "d2" "W1" "alice" "report.txt" report_text "text/plain" StPending.

Definition report_world : World := uploaded report report_text.

(** A PDF. *)
Definition invoice : Document :=
  document "d3" "W1" "alice" "invoice.pdf" "%PDF-1.7" "application/pdf"
    StPending.

Definition invoice_world : World := uploaded invoice "%PDF-1.7".

(** A world in which the note is 'ready' and carries the tag "memo",
    counted once. *)
Definition tagged_world : World :=
  {| db := {| documents :=
                [document "d1" "W1" "alice" "note.txt" "hello world"
                   "text/plain" StReady];
              document_chunks := [];
              tags := [ {| tag_id := "t1"; tag_workspace_id := "W1";
                           tag_name := "memo"; tag_category := None;
                           tag_usage_count := 1;
                           tag_created_at := "2024-04-30T08:00:00.000Z" |} ];
              document_tags :=
                [ {| dt_document_id := "d1"; dt_tag_id := "t1";
                     dt_source := UserAdded; dt_confidence := None;
                     dt_created_at := "2024-04-30T08:00:00.000Z" |} ];
              workspace_members := members |};
     files := [("documents/W1/d1/note.txt", "hello world")];
     vectors := [];
     queue := [];
     ticks := 0;
     ids := 0 |}.

(** The note after one run of the pipeline, and after a second one. *)
Definition note_ingested : World :=
  Eval vm_compute in
    snd (processDocument (env no_fault false) (message note) note_world).

Definition note_reingested : World :=
  Eval vm_compute in
    snd (processDocument (env no_fault false) (message note) note_ingested).

(** The empty world after the note was uploaded to W1 (processed
    inline), then after a second upload to W1, or to W2 instead. *)
Definition uploaded_once : World :=
  Eval vm_compute in
    snd (uploadFile (env no_fault false) note_file "W1" "alice" empty_world).

Definition uploaded_again : World :=
  Eval vm_compute in
    snd (uploadFile (env no_fault false) note_file "W1" "alice"
           uploaded_once).

Definition uploaded_elsewhere : World :=
  Eval vm_compute in
    snd (uploadFile (env no_fault false) note_file "W2" "alice"
           uploaded_once).

End Sample.

(** The usage counter of every tag equals the number of associations
    that reference the tag. *)
Definition usage_counts_consistent (d : Database) : bool :=
  forallb (fun t => tag_usage_count t =? count_associations (tag_id t) d)
    (tags d).


(** A chunk row with the id [key] is stored. *)
Definition chunk_present (key : string) (w : World) : Prop :=
  In key (map chunk_id (document_chunks (db w))).

(** The key of a row decides whether the duplicate check selects it. *)
Definition holds_hash (workspaceId contentHash : string)
    (k : string * string * string * string) : bool :=
  let '(_, ws, h, _) := k in
  (ws =? workspaceId)%string && (h =? contentHash)%string.

(** ** Vocabulary of the search properties *)

(** The page size and the offset a request asks for. *)
Definition page_size (body : SearchRequest) : Z :=
  Z.min (number_or (sq_limit body) 20) 100.

Definition page_offset (body : SearchRequest) : Z :=
  number_or (sq_offset body) 0.

(** What [enrichDocuments] makes of one row. *)
Definition enrich (d : Database) (doc : Document) : DocumentSearchResult :=
  mkSearchResult (doc_id doc) (doc_title doc)
    (match select_first_chunk (doc_id doc) d with
     | Some text_content => Js.substring0 200 text_content
     | None => ""
     end)
    (select_document_tags (doc_id doc) d) None (doc_created_at doc).

(** The candidates of the semantic step of the combined search: ids in
    order of their best match, and the scores. *)
Definition semantic_candidates (env : Env) (body : SearchRequest)
    (workspaceIds : list string) (w : World)
  : list string * list (string * Z) :=
  match given (sq_query body) with
  | Some q =>
      collect_scores
        (vectors_matches env (vectors w) (embedding_of env q)
           (page_size body * 3) (WorkspaceIn workspaceIds)) [] []
  | None => ([], [])
  end.

(** The full, sorted result list of the combined search. *)
Definition combined_sorted (env : Env) (body : SearchRequest)
    (userId : string) (w : World) : list DocumentSearchResult :=
  let workspaceIds := select_workspaces userId (db w) in
  let '(semanticDocIds, semanticScores) :=
    semantic_candidates env body workspaceIds w in
  js_sort (compare_results env)
    (map (with_score semanticScores)
       (map (enrich (db w))
          (combined_matching env body workspaceIds semanticDocIds (db w)))).

(** How two results that follow each other in a page may be related:
    by score when both carry one, by creation date when neither does,
    and never an unscored result before a scored one. *)
Definition in_order (env : Env) (a b : DocumentSearchResult) : Prop :=
  match sr_relevance_score a, sr_relevance_score b with
  | Some sa, Some sb => sb <= sa
  | None, None => getTime env (sr_created_at b) <= getTime env (sr_created_at a)
  | Some _, None => True
  | None, Some _ => False
  end.

(** Two ready documents of alice in W1, for the search examples. *)
(** The row [r], created at another time. *)
Definition created_at (created : string) (r : Document) : Document :=
  mkDocument (doc_id r) (doc_workspace_id r) (doc_user_id r) (doc_title r)
    (doc_file_key r) (doc_text_key r) (doc_content_hash r) (doc_mime_type r)
    (doc_file_size_bytes r) (doc_status r) (doc_error_message r)
    created (doc_updated_at r).

(** Two ready documents, the first one the newer. *)
Definition two_ready_world : World :=
  {| db := {| documents :=
                [ created_at "2024-05-02T08:00:00.000Z"
                    (Sample.document "a1" "W1" "alice" "first.txt" "one"
                       "text/plain" StReady);
                  Sample.document "a2" "W1" "alice" "second.txt" "two"
                    "text/plain" StReady ];
              document_chunks := [];
              tags := [];
              document_tags := [];
              workspace_members := Sample.members |};
     files := [];
     vectors := [];
     queue := [];
     ticks := 0;
     ids := 0 |}.

(** A request for the second page of one result. *)
Definition second_page : SearchRequest :=
  {| sq_query := None;
     sq_tags := None;
     sq_document_types := None;
     sq_date_from := None;
     sq_date_to := None;
     sq_limit := Some 1;
     sq_offset := Some 1 |}.

(** Three ready documents in W1 with their chunks in the vector index;
    the first two carry the tag "vendor:acme", and the first has two
    chunks. *)
Definition vector (id documentId : string) (i : nat) (values : list Z)
    (snippet : string) : VectorEntry :=
  {| vec_id := id;
     vec_values := values;
     vec_metadata := {| md_document_id := documentId;
                        md_workspace_id := "W1";
                        md_chunk_index := i;
                        md_text := snippet |} |}.

Definition search_world : World :=
  {| db := {| documents :=
                [ Sample.document "b1" "W1" "alice" "acme-march.pdf" "m"
                    "application/pdf" StReady;
                  Sample.document "b2" "W1" "alice" "acme-april.pdf" "a"
                    "application/pdf" StReady;
                  Sample.document "b3" "W1" "alice" "other.pdf" "o"
                    "application/pdf" StReady ];
              document_chunks := [];
              tags := [ {| tag_id := "t1"; tag_workspace_id := "W1";
                           tag_name := "vendor:acme"; tag_category := None;
                           tag_usage_count := 2;
                           tag_created_at := "2024-04-30T08:00:00.000Z" |} ];
              document_tags :=
                [ {| dt_document_id := "b1"; dt_tag_id := "t1";
                     dt_source := UserAdded; dt_confidence := None;
                     dt_created_at := "2024-04-30T08:00:00.000Z" |};
                  {| dt_document_id := "b2"; dt_tag_id := "t1";
                     dt_source := UserAdded; dt_confidence := None;
                     dt_created_at := "2024-04-30T08:00:00.000Z" |} ];
              workspace_members := Sample.members |};
     files := [];
     vectors := [ vector "b2_0" "b2" 0 [10] "April invoice";
                  vector "b1_0" "b1" 0 [7] "March invoice";
                  vector "b3_0" "b3" 0 [8] "Other invoice";
                  vector "b1_1" "b1" 1 [9] "March invoice, page 2" ];
     queue := [];
     ticks := 0;
     ids := 0 |}.

(** "invoice" among the documents tagged "vendor:acme". *)
Definition acme_request : SearchRequest :=
  {| sq_query := Some "invoice";
     sq_tags := Some ["vendor:acme"];
     sq_document_types := None;
     sq_date_from := None;
     sq_date_to := None;
     sq_limit := None;
     sq_offset := None |}.

(** The title [retrieveContext] shows for a document id. *)
Definition resolved_title (d : Database) (docId : string) : string :=
  title_or_unknown (select_title docId d).

(** What the loop of [retrieveContext] keeps true of the sources and the
    set of documents seen so far. *)
Definition context_invariant (d : Database) (sources : list ChatSource)
    (seenDocs : list string) : Prop :=
  NoDup seenDocs
  /\ (List.length seenDocs <= 5)%nat
  /\ (forall s, In s sources ->
                In (cs_document_id s) seenDocs
                /\ cs_document_title s = resolved_title d (cs_document_id s))
  /\ (forall id, In id seenDocs ->
                 exists s, In s sources /\ cs_document_id s = id).

(** The source was made from the match. *)
Definition source_of_match (s : ChatSource) (m : VectorMatch) : Prop :=
  cs_chunk_id s = match_id m
  /\ cs_document_id s = md_document_id (match_metadata m)
  /\ cs_text_snippet s = md_text (match_metadata m)
  /\ cs_relevance_score s = match_score m.

(** ** Vocabulary of the further properties *)

(** The chunk made of the words [s, e) of a text. *)
Definition chunk_of_range (words : list string) (r : Z * Z) : Chunk :=
  let chunkWords := Js.slice words (fst r) (snd r) in
  {| text := Js.join " " chunkWords;
     tokenCount := ceil_div_three_quarters (Z.of_nat (List.length chunkWords)) |}.

(** Each range starts [overlap] words before the end of the previous
    one. *)
Fixpoint chained (overlap : Z) (ranges : list (Z * Z)) : Prop :=
  match ranges with
  | r1 :: ((r2 :: _) as rest) => fst r2 = snd r1 - overlap /\ chained overlap rest
  | _ => True
  end.

(** Nothing but the call counter differs between the two worlds. *)
Definition same_data (w w' : World) : Prop :=
  db w' = db w /\ files w' = files w /\ vectors w' = vectors w
  /\ queue w' = queue w /\ ids w' = ids w.

(** The mime types for which [extractText] has a branch. *)
Definition handled_mime (mimeType : string) : bool :=
  (mimeType =? "text/plain")%string
  || (mimeType =? "application/pdf")%string
  || String.prefix "image/" mimeType
  || (mimeType =? docx_mime)%string
  || (mimeType =? xlsx_mime)%string.

(** The rows [processDocument] inserts for the chunks of a document,
    the first one under the index [from]. *)
Fixpoint chunk_rows (documentId : string) (from : nat) (chunks : list Chunk)
  : list DocumentChunk :=
  match chunks with
  | [] => []
  | chunk :: rest =>
      chunk_row documentId from chunk :: chunk_rows documentId (S from) rest
  end.

(** No external call is rejected. *)
Definition quiet (env : Env) : Prop := forall n, fault env n = None.

(** The tagging model suggests no tag: its reply does not parse, or
    parses to the empty array. *)
Definition suggests_nothing (env : Env) : Prop :=
  forall names prefix,
    llm_tag_array env names prefix = None
    \/ llm_tag_array env names prefix = Some [].

(** The environment [env] with a tagging model whose reply is not JSON. *)
Definition with_mute_tagger (env : Env) : Env :=
  {| fault := fault env;
     clock := clock env;
     uuid := uuid env;
     has_queue := has_queue env;
     sha256 := sha256 env;
     sql_like := sql_like env;
     getTime := getTime env;
     embedding_of := embedding_of env;
     similarity := similarity env;
     utf8_decode := utf8_decode env;
     utf8_encode := utf8_encode env;
     max_arguments := max_arguments env;
     pdf_text := pdf_text env;
     vision_description := vision_description env;
     llm_tag_array := fun _ _ => None |}.

(** The ids of the chunk rows of a document. *)
Definition chunk_ids_of (docId : string) (d : Database) : list string :=
  map chunk_id
    (filter (fun c => (chunk_document_id c =? docId)%string)
       (document_chunks d)).

(** The document [id] is waiting for the pipeline or inside it. *)
Definition in_flight (id : string) (w : World) : Prop :=
  document_has id
    (fun r => doc_status r = StPending \/ doc_status r = StProcessing) w.

(** The error messages on the rows of the document [id]. *)
Definition error_messages_of (id : string) (w : World)
  : list (option string) :=
  map doc_error_message
    (filter (fun r => (doc_id r =? id)%string) (documents (db w))).

(** ** Vocabulary of the upload properties *)

(** [file.type || getMimeType(file.name)]. *)
Definition upload_mime (file : File) : string :=
  if Js.truthy (file_type file) then file_type file
  else getMimeType (file_name file).

(** The extension [getMimeType] looks up, and the extensions of its
    table. *)
Definition file_extension (filename : string) : string :=
  toLowerCase (last_piece filename "").

Definition extension_table : list string :=
  [ "pdf"; "docx"; "xlsx"; "jpg"; "jpeg"; "png"; "txt"; "eml" ].

(** The R2 key of an uploaded file. *)
Definition upload_key (workspaceId docId : string) (file : File) : string :=
  ("documents/" ++ workspaceId ++ "/" ++ docId ++ "/"
     ++ file_name file)%string.

(** The row [uploadFile] inserts, and the message it hands on. *)
Definition upload_row (env : Env) (file : File)
    (workspaceId userId docId now : string) : Document :=
  mkDocument docId workspaceId userId (file_name file)
    (upload_key workspaceId docId file) None
    (sha256 env (file_content file)) (upload_mime file)
    (Z.of_nat (String.length (file_content file))) StPending None now now.

Definition upload_message (file : File) (workspaceId userId docId : string)
  : ProcessingQueueMessage :=
  mkMessage docId workspaceId userId (upload_key workspaceId docId file)
    (upload_mime file).

(** The documents that match a faceted search, in the order of the page
    query: newest first. *)
Definition faceted_ranked (env : Env) (body : SearchRequest)
    (workspaceIds : list string) (d : Database) : list Document :=
  Sql.order_by (fun a b => String.ltb (doc_created_at b) (doc_created_at a))
    (faceted_matching env body workspaceIds d).

(** Two results that differ at most in the order of their tags, which
    the tag query leaves open. *)
Definition same_result (r r' : DocumentSearchResult) : Prop :=
  sr_id r = sr_id r'
  /\ sr_title r = sr_title r'
  /\ sr_snippet r = sr_snippet r'
  /\ Permutation (sr_tags r) (sr_tags r')
  /\ sr_relevance_score r = sr_relevance_score r'
  /\ sr_created_at r = sr_created_at r'.

(** [m] writes nothing, whether it returns or throws. *)
Definition read_only {A : Type} (m : M A) : Prop :=
  forall w r w', m w = (r, w') -> same_data w w'.

(** A response that carries a page of results. *)
Definition is_page (r : Response) : Prop :=
  exists page, r = jsonResponse (SearchBody page) 200.

(** ** Vocabulary of the tag merge *)

(** What one iteration of the loop of [handleMerge] does to the
    database: nothing for the target itself and for an id that is not a
    tag of the workspace; otherwise the three statements of the loop
    body. *)
Definition merge_source (target workspace sourceId : string) (d : Database)
  : Database :=
  if (sourceId =? target)%string then d
  else
    match Sql.first
            (filter (fun t => (tag_id t =? sourceId)%string
                              && (tag_workspace_id t =? workspace)%string)
               (tags d)) with
    | None => d
    | Some _ =>
        let d1 := move_associations target sourceId d in
        let d2 :=
          Sql.with_document_tags d1
            (Sql.delete_where (fun r => (dt_tag_id r =? sourceId)%string)
               (document_tags d1)) in
        Sql.with_tags d2
          (Sql.delete_where (fun t => (tag_id t =? sourceId)%string)
             (tags d2))
    end.

(** The last two statements of [handleMerge]. *)
Definition recount (target : string) (d : Database) : Database :=
  Sql.with_tags d
    (Sql.update_where (fun t => (tag_id t =? target)%string)
       (fun t => set_usage_count t (count_associations target d)) (tags d)).

(** The tag [s] is gone: no tag row and no association carries its id. *)
Definition tag_gone (s : string) (d : Database) : Prop :=
  ~ In s (map tag_id (tags d)) /\ ~ In s (map dt_tag_id (document_tags d)).

(** The document of the association [r] still carries the tag of [r],
    or the tag [target] in its place. *)
Definition still_tagged (target : string) (r : DocumentTag) (d : Database)
  : Prop :=
  exists q,
    In q (document_tags d)
    /\ dt_document_id q = dt_document_id r
    /\ (dt_tag_id q = dt_tag_id r \/ dt_tag_id q = target).

(** Every tag but [target] is counted right. *)
Definition counted_except (target : string) (d : Database) : Prop :=
  forall t,
    In t (tags d) -> tag_id t <> target ->
    tag_usage_count t = count_associations (tag_id t) d.

(** The database after the loop of [handleMerge]. *)
Definition merged_sources (target workspace : string)
    (source_tag_ids : list string) (d : Database) : Database :=
  fold_left (fun d sourceId => merge_source target workspace sourceId d)
    source_tag_ids d.

(** Two tags of W1 on two documents: "memo" on d1, "note" on d1 and d2. *)
Definition merge_world : World :=
  {| db := {| documents :=
                [Sample.document "d1" "W1" "alice" "note.txt" "hello world"
                   "text/plain" StReady;
                 Sample.document "d2" "W1" "alice" "list.txt" "milk eggs"
                   "text/plain" StReady];
              document_chunks := [];
              tags := [ {| tag_id := "t1"; tag_workspace_id := "W1";
                           tag_name := "memo"; tag_category := None;
                           tag_usage_count := 1;
                           tag_created_at := "2024-04-30T08:00:00.000Z" |};
                        {| tag_id := "t2"; tag_workspace_id := "W1";
                           tag_name := "note"; tag_category := None;
                           tag_usage_count := 2;
                           tag_created_at := "2024-04-30T08:00:00.000Z" |} ];
              document_tags :=
                [ {| dt_document_id := "d1"; dt_tag_id := "t1";
                     dt_source := UserAdded; dt_confidence := None;
                     dt_created_at := "2024-04-30T08:00:00.000Z" |};
                  {| dt_document_id := "d1"; dt_tag_id := "t2";
                     dt_source := UserAdded; dt_confidence := None;
                     dt_created_at := "2024-04-30T08:00:00.000Z" |};
                  {| dt_document_id := "d2"; dt_tag_id := "t2";
                     dt_source := AiSuggested; dt_confidence := Some 80;
                     dt_created_at := "2024-04-30T08:00:00.000Z" |} ];
              workspace_members := Sample.members |};
     files := [];
     vectors := [];
     queue := [];
     ticks := 0;
     ids := 0 |}.

(** ** Vocabulary of the tag tools *)

(** Every association names a tag that exists (the foreign key of
    [document_tags.tag_id]). *)
Definition associations_reference_tags (d : Database) : Prop :=
  forall r, In r (document_tags d) -> In (dt_tag_id r) (map tag_id (tags d)).

(** No two associations share document and tag (the primary key of
    [document_tags]). *)
Definition associations_keyed (d : Database) : Prop :=
  NoDup (map (fun r => (dt_document_id r, dt_tag_id r)) (document_tags d)).

(** The document carries a tag of the workspace with this name. *)
Definition tagged_with (docId workspaceId tagName : string) (d : Database)
  : Prop :=
  exists tagId,
    In tagId (Sql.select_tag_by_name workspaceId tagName d)
    /\ select_document_tag docId tagId d <> [].

(** What a tag tool keeps between the world it starts in and the world
    it leaves: right counters and valid references stay so, and the
    document keeps the tags it carried. *)
Definition tags_kept (docId workspaceId : string) (w w' : World) : Prop :=
  (usage_counts_consistent (db w) = true ->
   associations_reference_tags (db w) ->
   usage_counts_consistent (db w') = true
   /\ associations_reference_tags (db w'))
  /\ (forall tagName,
         tagged_with docId workspaceId tagName (db w) ->
         tagged_with docId workspaceId tagName (db w')).

(** ** Vocabulary of the suggested tags *)

(** Two of the suggestions carry the same name. *)
Definition repeats_a_name (suggested : list TagSuggestion) : Prop :=
  exists l1 t1 l2 t2 l3,
    suggested = l1 ++ t1 :: l2 ++ t2 :: l3 /\ name t1 = name t2.

(** The tag that a lookup of the name finds is on the document. *)
Definition suggested_on (docId workspaceId tagName : string) (d : Database)
  : Prop :=
  exists tagId,
    Sql.first (Sql.select_tag_by_name workspaceId tagName d) = Some tagId
    /\ select_document_tag docId tagId d <> [].

(** The environment [env] with a tagging model that always answers with
    these suggestions. *)
Definition with_suggestions (env : Env) (suggested : list TagSuggestion)
  : Env :=
  {| fault := fault env;
     clock := clock env;
     uuid := uuid env;
     has_queue := has_queue env;
     sha256 := sha256 env;
     sql_like := sql_like env;
     getTime := getTime env;
     embedding_of := embedding_of env;
     similarity := similarity env;
     utf8_decode := utf8_decode env;
     utf8_encode := utf8_encode env;
     max_arguments := max_arguments env;
     pdf_text := pdf_text env;
     vision_description := vision_description env;
     llm_tag_array := fun _ _ => Some suggested |}.

(** ** Vocabulary of the semantic search *)

(** The page size of the semantic search. *)
Definition semantic_page_size (limit : option Z) : Z :=
  Z.min (number_or limit 10) 50.

(** The matches the vector index returns to the semantic search. *)
Definition semantic_matches (env : Env) (query : string) (limit : option Z)
    (userId : string) (w : World) : list VectorMatch :=
  vectors_matches env (vectors w) (embedding_of env query)
    (semantic_page_size limit * 2)
    (WorkspaceIn (select_workspaces userId (db w))).

(** The document ids the semantic search looks up. *)
Definition semantic_document_ids (env : Env) (query : string)
    (limit : option Z) (userId : string) (w : World) : list string :=
  Js.slice
    (map fst
       (collect_document_scores (semantic_matches env query limit userId w)
          []))
    0 (semantic_page_size limit).

(** The match [m] is the best match of the document [docId] among
    [matches]: none of the others with a score other than zero scores
    higher. *)
Definition best_match (matches : list VectorMatch) (docId : string)
    (m : VectorMatch) : Prop :=
  In m matches
  /\ md_document_id (match_metadata m) = docId
  /\ forall m',
       In m' matches ->
       md_document_id (match_metadata m') = docId ->
       match_score m' <> 0 ->
       match_score m' <= match_score m.

(** What the semantic search makes of one row. *)
Definition semantic_result (d : Database)
    (documentScores : list (string * ScoreData)) (doc : Document)
  : DocumentSearchResult :=
  let scoreData := scores_get (doc_id doc) documentScores in
  mkSearchResult (doc_id doc) (doc_title doc)
    (match scoreData with
     | Some v => sd_snippet v
     | None => ""
     end)
    (select_document_tags (doc_id doc) d) (option_map sd_score scoreData)
    (doc_created_at doc).

(** What the map of the semantic search holds after the matches [seen]:
    under each key, which is never empty, the score and the snippet of
    the best match of that document; and an entry for every document
    that was seen. *)
Definition scores_invariant (seen : list VectorMatch)
    (documentScores : list (string * ScoreData)) : Prop :=
  (forall k v,
      scores_get k documentScores = Some v ->
      Js.truthy k = true
      /\ exists m,
           best_match seen k m
           /\ match_score m = sd_score v
           /\ md_text (match_metadata m) = sd_snippet v)
  /\ (forall m,
         In m seen ->
         Js.truthy (md_document_id (match_metadata m)) = true ->
         exists v,
           scores_get (md_document_id (match_metadata m)) documentScores
           = Some v).

(** The document rows of [w] are still in [w'], in place and under the
    same keys; [w'] may hold more after them. *)
Definition documents_kept (w w' : World) : Prop :=
  exists added, skeleton w' = skeleton w ++ added.

(** The number of files a request carries. *)
Definition files_of (request : UploadRequest) : nat :=
  match request with
  | Multipart files => List.length files
  | SingleFile _ _ _ => 1%nat
  end.

(** The last character of [s] is white space. *)
Fixpoint ends_with_space (s : string) : bool :=
  match s with
  | EmptyString => false
  | String c EmptyString => Js.is_space c
  | String _ rest => ends_with_space rest
  end.

(** [s] is not empty and has no white space at either end. *)
Definition trimmed (s : string) : Prop :=
  s <> EmptyString
  /\ (forall c rest, s = String c rest -> Js.is_space c = false)
  /\ ends_with_space s = false.

(** The user is a member of the workspace who may write. *)
Definition may_write (userId workspaceId : string) (d : Database) : Prop :=
  exists wm,
    In wm (workspace_members d)
    /\ wm_user_id wm = userId
    /\ wm_workspace_id wm = workspaceId
    /\ wm_role wm <> Viewer.

(** * Properties *)

(** ** Chunker *)

Lemma append_snoc (a : string) (c : ascii) (b : string) :
  ((a ++ String c "") ++ b)%string = (a ++ String c b)%string.
Proof.
  induction a as [|x a IH]; cbn; [reflexivity | now rewrite IH].
Qed.

Lemma append_empty (a : string) : (a ++ "")%string = a.
Proof.
  induction a as [|x a IH]; cbn; [reflexivity | now rewrite IH].
Qed.

Lemma split_ws_from_word (s : string) :
  is_word s = true ->
  forall cur b, Js.split_ws_from s cur b = [(cur ++ s)%string].
Proof.
  induction s as [|c s IH]; intros Hw cur b; cbn in *.
  - now rewrite append_empty.
  - apply andb_prop in Hw as [Hc Hs].
    apply negb_true_iff in Hc. rewrite Hc.
    rewrite (IH Hs). now rewrite append_snoc.
Qed.

Lemma split_ws_word (s : string) :
  is_word s = true -> Js.split_ws s = [s].
Proof.
  intros Hw. unfold Js.split_ws. now rewrite (split_ws_from_word s Hw).
Qed.

(** The window advances by [wordsPerChunk - overlapWords] words, so when
    that is positive the loop leaves within as many iterations as there
    are words from [start] on. *)
Lemma chunk_loop_terminates (fuel : nat) :
  forall words wordsPerChunk overlapWords start chunks,
    overlapWords < wordsPerChunk ->
    (0 < fuel)%nat ->
    Z.of_nat (List.length words) - start < Z.of_nat fuel ->
    exists res,
      chunk_loop fuel words wordsPerChunk overlapWords start chunks
      = Some res.
Proof.
  induction fuel as [|fuel IH];
    intros words wpc ov start chunks Hadv Hpos Hfuel; [lia|].
  cbn [chunk_loop].
  destruct (Z.ltb_spec start (Z.of_nat (List.length words))) as [Hlt|Hge];
    [|eauto].
  rewrite Z.geb_leb.
  destruct (Z.leb_spec (Z.of_nat (List.length words) - ov)
              (Z.min (start + wpc) (Z.of_nat (List.length words)) - ov))
    as [Hstop|Hgo]; [eauto|].
  apply IH; lia.
Qed.

(** With the parameters the pipeline uses, [chunkText] returns for every
    text. *)
Lemma chunkText_default_total (text : string) :
  exists chunks, chunkText text 512 64 = Some chunks.
Proof.
  unfold chunkText, chunkText_fuel.
  apply chunk_loop_terminates; cbn; lia.
Qed.

Lemma chunks_of_spec (text : string) :
  chunkText text 512 64 = Some (chunks_of text).
Proof.
  unfold chunks_of.
  destruct (chunkText_default_total text) as [cs ->]. reflexivity.
Qed.

(** A text of one word is one chunk, which holds the word. *)
Lemma chunkText_single_word (s : string) :
  is_word s = true ->
  chunkText s 512 64 = Some [ {| text := s; tokenCount := 2 |} ].
Proof.
  intros Hw. unfold chunkText, chunkText_fuel.
  rewrite (split_ws_word s Hw). reflexivity.
Qed.

(** ** Reasoning about worker code *)

Section Rules.

Context {A B : Type}.

Lemma bind_returned (m : M A) (f : A -> M B) w a w1 :
  m w = (Returned a, w1) -> bind m f w = f a w1.
Proof. intros H. unfold bind. now rewrite H. Qed.

Lemma bind_threw (m : M A) (f : A -> M B) w e w1 :
  m w = (Threw e, w1) -> bind m f w = (Threw e, w1).
Proof. intros H. unfold bind. now rewrite H. Qed.

Lemma bind_inv (m : M A) (f : A -> M B) w r w' :
  bind m f w = (r, w') ->
  (exists a w1, m w = (Returned a, w1) /\ f a w1 = (r, w'))
  \/ (exists e, m w = (Threw e, w') /\ r = Threw e).
Proof.
  unfold bind. destruct (m w) as [[a|e] w1]; intros H.
  - left. eauto.
  - right. inversion H; subst. eauto.
Qed.

Lemma triple_bind (P : World -> Prop) (m : M A) (f : A -> M B)
    (R : A -> World -> Prop) Q E :
  triple P m R E ->
  (forall a, triple (R a) (f a) Q E) ->
  triple P (bind m f) Q E.
Proof.
  intros Hm Hf w r w' HP Hrun.
  apply bind_inv in Hrun as [(a & w1 & H1 & H2) | (e & H1 & ->)].
  - exact (Hf a w1 r w' (Hm w _ _ HP H1) H2).
  - exact (Hm w _ _ HP H1).
Qed.

Lemma triple_conseq (P P' : World -> Prop) (m : M A)
    (Q Q' : A -> World -> Prop) (E E' : Thrown -> World -> Prop) :
  triple P m Q E ->
  (forall w, P' w -> P w) ->
  (forall a w, Q a w -> Q' a w) ->
  (forall e w, E e w -> E' e w) ->
  triple P' m Q' E'.
Proof.
  intros H HP HQ HE w r w' HP' Hrun.
  specialize (H w r w' (HP _ HP') Hrun).
  destruct r; auto.
Qed.

Lemma triple_try_catch (P : World -> Prop) (body : M A)
    (handler : Thrown -> M A) Q E (C : Thrown -> World -> Prop) :
  triple P body Q C ->
  (forall e, triple (C e) (handler e) Q E) ->
  triple P (try_catch body handler) Q E.
Proof.
  intros Hb Hh w r w' HP Hrun. unfold try_catch in Hrun.
  destruct (body w) as [[a|e] w1] eqn:Hbody.
  - inversion Hrun; subst. exact (Hb w _ _ HP Hbody).
  - exact (Hh e w1 r w' (Hb w _ _ HP Hbody) Hrun).
Qed.

End Rules.

Lemma triple_ret {A : Type} (a : A) (Q : A -> World -> Prop) E :
  triple (Q a) (ret a) Q E.
Proof. intros w r w' HP Hrun. inversion Hrun; subst. exact HP. Qed.

Lemma triple_throw {A : Type} (e : Thrown) (Q : A -> World -> Prop)
    (E : Thrown -> World -> Prop) :
  triple (E e) (throw e) Q E.
Proof. intros w r w' HP Hrun. inversion Hrun; subst. exact HP. Qed.

(** An invariant that does not look at the call counter survives a
    rejected call, and survives an accepted one when the effect keeps
    it. *)
Lemma triple_call {A : Type} (env : Env) (effect : World -> Outcome A * World)
    (P : World -> Prop) Q E :
  (forall w e, P w -> fault env (ticks w) = Some e -> E e (tick w)) ->
  (forall w r w', P w -> fault env (ticks w) = None ->
                  effect (tick w) = (r, w') ->
                  match r with Returned a => Q a w' | Threw e => E e w' end) ->
  triple P (call env effect) Q E.
Proof.
  intros Hf Hok w r w' HP Hrun. unfold call in Hrun.
  destruct (fault env (ticks w)) as [e|] eqn:Hfault.
  - inversion Hrun; subst. now apply Hf.
  - now apply (Hok w).
Qed.

Lemma preserves_bind {A B : Type} (I : World -> Prop) (m : M A)
    (f : A -> M B) :
  preserves I m -> (forall a, preserves I (f a)) -> preserves I (bind m f).
Proof. intros Hm Hf. exact (triple_bind I m f (fun _ => I) _ _ Hm Hf). Qed.

Lemma preserves_ret {A : Type} (I : World -> Prop) (a : A) :
  preserves I (ret a).
Proof. exact (triple_ret a (fun _ => I) (fun _ => I)). Qed.

Lemma preserves_throw {A : Type} (I : World -> Prop) (e : Thrown) :
  preserves I (throw e : M A).
Proof. exact (triple_throw e (fun _ => I) (fun _ => I)). Qed.

Lemma preserves_try_catch {A : Type} (I : World -> Prop) (body : M A)
    (handler : Thrown -> M A) :
  preserves I body -> (forall e, preserves I (handler e)) ->
  preserves I (try_catch body handler).
Proof.
  intros Hb Hh.
  exact (triple_try_catch I body handler _ _ (fun _ => I) Hb Hh).
Qed.

Lemma preserves_for_each {A : Type} (I : World -> Prop) (l : list A)
    (body : A -> M unit) :
  (forall x, preserves I (body x)) -> preserves I (for_each l body).
Proof.
  intros Hb. induction l as [|x l IH]; cbn.
  - apply preserves_ret.
  - apply preserves_bind; auto.
Qed.

Lemma preserves_for_each_indexed {A : Type} (I : World -> Prop)
    (l : list A) (body : nat -> A -> M unit) :
  (forall i x, preserves I (body i x)) ->
  forall from, preserves I (for_each_indexed from l body).
Proof.
  intros Hb. induction l as [|x l IH]; intros from; cbn.
  - apply preserves_ret.
  - apply preserves_bind; auto.
Qed.

(** *** Calls that leave the database alone, and calls that write it *)

Section DbOnly.

Variable env : Env.
Variable I : World -> Prop.
Hypothesis I_db : db_only I.

Lemma preserves_read {A : Type} (effect : World -> Outcome A * World) :
  (forall w, db (snd (effect w)) = db w) ->
  preserves I (call env effect).
Proof.
  intros Hdb. apply triple_call.
  - intros w e HI _. now apply (I_db w).
  - intros w r w' HI _ Heff.
    assert (HI' : I w').
    { apply (I_db w); [|exact HI].
      specialize (Hdb (tick w)). rewrite Heff in Hdb. cbn in Hdb.
      now rewrite Hdb. }
    destruct r; exact HI'.
Qed.

Lemma preserves_isoNow : preserves I (isoNow env).
Proof. intros w r w' HI H. inversion H; subst. exact HI. Qed.

Lemma preserves_generateId : preserves I (generateId env).
Proof.
  intros w r w' HI H. inversion H; subst. now apply (I_db w).
Qed.

Lemma preserves_d1_query {A : Type} (q : Database -> A) :
  preserves I (d1_query env q).
Proof. now apply preserves_read. Qed.

Lemma preserves_r2_get key : preserves I (r2_get env key).
Proof. now apply preserves_read. Qed.

Lemma preserves_r2_put key value : preserves I (r2_put env key value).
Proof. now apply preserves_read. Qed.

Lemma preserves_r2_delete key : preserves I (r2_delete env key).
Proof. now apply preserves_read. Qed.

Lemma preserves_arrayBuffer file : preserves I (arrayBuffer env file).
Proof. now apply preserves_read. Qed.

Lemma preserves_vectors_upsert e : preserves I (vectors_upsert env e).
Proof. now apply preserves_read. Qed.

Lemma preserves_vectors_deleteByIds l :
  preserves I (vectors_deleteByIds env l).
Proof. now apply preserves_read. Qed.

Lemma preserves_vectors_query q k f : preserves I (vectors_query env q k f).
Proof. now apply preserves_read. Qed.

Lemma preserves_generateEmbedding t : preserves I (generateEmbedding env t).
Proof. now apply preserves_read. Qed.

Lemma preserves_queue_send m : preserves I (queue_send env m).
Proof. now apply preserves_read. Qed.

Lemma preserves_d1_run (stmt : Database -> Database) :
  (forall w, I w -> I (set_db w (stmt (db w)))) ->
  preserves I (d1_run env stmt).
Proof.
  intros Hstmt. apply triple_call.
  - intros w e HI _. now apply (I_db w).
  - intros w r w' HI _ Heff. inversion Heff; subst.
    apply (I_db (set_db w (stmt (db w)))); [reflexivity|]. now apply Hstmt.
Qed.

Lemma preserves_d1_insert (stmt : Database -> Outcome Database) :
  (forall w d, I w -> stmt (db w) = Returned d -> I (set_db w d)) ->
  preserves I (d1_insert env stmt).
Proof.
  intros Hstmt. apply triple_call.
  - intros w e HI _. now apply (I_db w).
  - intros w r w' HI _ Heff. cbn in Heff.
    destruct (stmt (db w)) as [d|e] eqn:Hs; inversion Heff; subst.
    + apply (I_db (set_db w d)); [reflexivity|]. now apply Hstmt.
    + now apply (I_db w).
Qed.

End DbOnly.

Create HintDb preserve.

#[local] Hint Resolve preserves_ret preserves_throw preserves_isoNow
  preserves_generateId preserves_d1_query preserves_r2_get preserves_r2_put
  preserves_r2_delete preserves_arrayBuffer preserves_vectors_upsert
  preserves_vectors_deleteByIds preserves_vectors_query
  preserves_generateEmbedding preserves_queue_send : preserve.

(** One step through the syntax of a worker function. *)
Ltac preserve_step :=
  match goal with
  | |- preserves _ (bind _ _) => apply preserves_bind; [|intros]
  | |- preserves _ (try_catch _ _) => apply preserves_try_catch; [|intros]
  | |- preserves _ (for_each _ _) => apply preserves_for_each; intros
  | |- preserves _ (for_each_indexed _ _ _) =>
      apply preserves_for_each_indexed; intros
  | |- preserves _ (match ?x with _ => _ end) => destruct x
  | |- preserves _ _ => solve [auto with preserve]
  end.

Ltac preserve := repeat preserve_step.

(** *** What the pipeline leaves untouched *)

Lemma skeleton_db_only K : db_only (fun w => skeleton w = K).
Proof. intros w w' Hdb H. unfold skeleton in *. now rewrite <- Hdb. Qed.

Lemma chunks_db_only C : db_only (fun w => document_chunks (db w) = C).
Proof. intros w w' Hdb H. now rewrite <- Hdb. Qed.

#[local] Hint Resolve skeleton_db_only chunks_db_only : preserve.

Lemma map_key_update_where (p : Document -> bool) (f : Document -> Document)
    (rows : list Document) :
  (forall r, doc_key (f r) = doc_key r) ->
  map doc_key (Sql.update_where p f rows) = map doc_key rows.
Proof.
  intros Hf. unfold Sql.update_where. rewrite map_map.
  apply map_ext. intros r. destruct (p r); auto.
Qed.

Section Untouched.

Variable env : Env.
Variable I : World -> Prop.
Hypothesis I_db : db_only I.

Lemma fromCharCode_spread_preserves bytes :
  preserves I (fromCharCode_spread env bytes).
Proof.
  unfold fromCharCode_spread.
  destruct (_ <? _)%nat; [apply preserves_throw | apply preserves_ret].
Qed.

Lemma extractWithAI_preserves content mimeType :
  preserves I (extractWithAI env content mimeType).
Proof.
  unfold extractWithAI. preserve;
    first [ apply fromCharCode_spread_preserves | now apply preserves_read ].
Qed.

Lemma extractText_preserves file mimeType :
  preserves I (extractText env file mimeType).
Proof.
  pose proof extractWithAI_preserves as HAI.
  unfold extractText. preserve.
Qed.

Lemma extractText_local_preserves file mimeType :
  preserves I (extractText_local env file mimeType).
Proof.
  unfold extractText_local. preserve.
Qed.

Lemma autoTag_preserves text workspaceId :
  preserves I (autoTag env text workspaceId).
Proof.
  unfold autoTag. preserve. now apply preserves_read.
Qed.

End Untouched.

Lemma update_by_id_has (id : string) (f : Document -> Document)
    (Q : Document -> Prop) (rows : list Document) :
  (forall r, doc_id (f r) = doc_id r) ->
  (forall r, Q (f r)) ->
  forall r,
    In r (Sql.update_where (fun r => (doc_id r =? id)%string) f rows) ->
    doc_id r = id -> Q r.
Proof.
  intros Hid HQ r Hin Hr. unfold Sql.update_where in Hin.
  apply in_map_iff in Hin as (r0 & <- & _).
  destruct (String.eqb_spec (doc_id r0) id) as [_|Hne]; [apply HQ|].
  now elim Hne.
Qed.

Lemma skeleton_update_status st now id w :
  skeleton (set_db w (Sql.update_document_status st now id (db w)))
  = skeleton w.
Proof. apply map_key_update_where. reflexivity. Qed.

Lemma skeleton_update_ready st key now id w :
  skeleton (set_db w (Sql.update_document_ready st key now id (db w)))
  = skeleton w.
Proof. apply map_key_update_where. reflexivity. Qed.

Lemma skeleton_update_error st msg now id w :
  skeleton (set_db w (Sql.update_document_error st msg now id (db w)))
  = skeleton w.
Proof. apply map_key_update_where. reflexivity. Qed.

Lemma first_in {A : Type} (l : list A) x : Sql.first l = Some x -> In x l.
Proof. destruct l; [discriminate|]. intros H. inversion H. now left. Qed.

Lemma existsb_id_in {A : Type} (key : A -> string) (id : string)
    (rows : list A) :
  existsb (fun r => (key r =? id)%string) rows = true
  <-> In id (map key rows).
Proof.
  rewrite existsb_exists, in_map_iff. split.
  - intros (r & Hin & Heq). apply String.eqb_eq in Heq. eauto.
  - intros (r & Heq & Hin). exists r. split; [exact Hin|].
    now apply String.eqb_eq.
Qed.

(** An accepted INSERT of a chunk: the id was free, the document is
    there, and the row is appended. *)
Lemma insert_document_chunk_returned r d d' :
  Sql.insert_document_chunk r d = Returned d' ->
  d' = Sql.with_document_chunks d (document_chunks d ++ [r])
  /\ ~ In (chunk_id r) (map chunk_id (document_chunks d))
  /\ In (chunk_document_id r) (map doc_id (documents d)).
Proof.
  unfold Sql.insert_document_chunk.
  destruct (existsb _ (document_chunks d)) eqn:Hpk; [discriminate|].
  destruct (existsb _ (documents d)) eqn:Hfk; [|discriminate].
  cbn [negb]. intros H. inversion H. split; [reflexivity|]. split.
  - rewrite <- existsb_id_in, Hpk. discriminate.
  - now apply existsb_id_in.
Qed.

(** An accepted INSERT of an association: the pair was free, document
    and tag are there, and the row is appended. *)
Lemma insert_document_tag_returned r d d' :
  Sql.insert_document_tag r d = Returned d' ->
  d' = Sql.with_document_tags d (document_tags d ++ [r])
  /\ In (dt_document_id r) (map doc_id (documents d))
  /\ In (dt_tag_id r) (map tag_id (tags d)).
Proof.
  unfold Sql.insert_document_tag.
  destruct (existsb _ (document_tags d)); [discriminate|].
  destruct (existsb _ (documents d)) eqn:Hdoc; [|discriminate].
  destruct (existsb _ (tags d)) eqn:Htag; [|discriminate].
  cbn [negb orb]. intros H. inversion H. split; [reflexivity|].
  split; now apply existsb_id_in.
Qed.

(** The INSERT of a chunk of a stored document under a free id. *)
Lemma insert_document_chunk_accepted r d :
  ~ In (chunk_id r) (map chunk_id (document_chunks d)) ->
  In (chunk_document_id r) (map doc_id (documents d)) ->
  Sql.insert_document_chunk r d
  = Returned (Sql.with_document_chunks d (document_chunks d ++ [r])).
Proof.
  intros Hfree Hdoc. unfold Sql.insert_document_chunk.
  destruct (existsb _ (document_chunks d)) eqn:Hpk.
  - elim Hfree. now apply existsb_id_in.
  - apply existsb_id_in in Hdoc. now rewrite Hdoc.
Qed.

Lemma insert_document_chunk_documents r d d' :
  Sql.insert_document_chunk r d = Returned d' -> documents d' = documents d.
Proof.
  intros H. now apply insert_document_chunk_returned in H as (-> & _).
Qed.

Lemma insert_tag_documents r d d' :
  Sql.insert_tag r d = Returned d' -> documents d' = documents d.
Proof.
  unfold Sql.insert_tag.
  repeat destruct (existsb _ _); intros H; inversion H; reflexivity.
Qed.

Lemma insert_document_tag_documents r d d' :
  Sql.insert_document_tag r d = Returned d' -> documents d' = documents d.
Proof.
  intros H. now apply insert_document_tag_returned in H as (-> & _).
Qed.

Section PipelineFacts.

Variable env : Env.
Variable extract : string -> string -> M string.
Hypothesis extract_preserves :
  forall I, db_only I -> forall file mimeType,
    preserves I (extract file mimeType).

(** No step of the pipeline adds, removes or re-keys a document row. *)
Lemma processDocument_try_skeleton K data :
  preserves (fun w => skeleton w = K) (processDocument_try env extract data).
Proof.
  unfold processDocument_try, load_text, embed_and_store, store_chunk,
    store_suggested_tags.
  preserve;
    try (apply autoTag_preserves; auto with preserve);
    try (apply preserves_d1_run; auto with preserve; intros w <-;
         auto using skeleton_update_status, skeleton_update_ready);
    try (apply preserves_d1_insert; auto with preserve; intros w d <- Hins;
         unfold skeleton; cbn;
         first [ now rewrite (insert_document_chunk_documents _ _ _ Hins)
               | now rewrite (insert_tag_documents _ _ _ Hins)
               | now rewrite (insert_document_tag_documents _ _ _ Hins) ]).
Qed.

Lemma processDocument_catch_skeleton K data e :
  preserves (fun w => skeleton w = K) (processDocument_catch env data e).
Proof.
  unfold processDocument_catch. preserve.
  apply preserves_d1_run; auto with preserve. intros w <-.
  apply skeleton_update_error.
Qed.

Lemma processDocument_with_skeleton K data :
  preserves (fun w => skeleton w = K) (processDocument_with env extract data).
Proof.
  apply preserves_try_catch.
  - apply processDocument_try_skeleton.
  - apply processDocument_catch_skeleton.
Qed.

(** The text is loaded without adding, removing or re-keying a
    document row. *)
Lemma load_text_skeleton K data :
  preserves (fun w => skeleton w = K) (load_text env extract data).
Proof.
  unfold load_text. preserve.
  apply preserves_d1_run; auto with preserve. intros w <-.
  apply skeleton_update_status.
Qed.

(** The text is loaded without touching the chunk table. *)
Lemma load_text_chunks C data :
  preserves (fun w => document_chunks (db w) = C) (load_text env extract data).
Proof.
  unfold load_text. preserve.
  apply preserves_d1_run; auto with preserve.
Qed.

End PipelineFacts.

Lemma stored_skeleton id w w' :
  skeleton w' = skeleton w -> stored id w -> stored id w'.
Proof.
  intros Hs Hin. unfold stored in *.
  assert (H : forall v, map doc_id (documents (db v))
                        = map (fun k => fst (fst (fst k))) (skeleton v)).
  { intros v. unfold skeleton. rewrite map_map. reflexivity. }
  rewrite H, Hs, <- H. exact Hin.
Qed.

(** ** The exception boundary of the pipeline *)

Lemma triple_bind_last {A B : Type} (m : M A) (f : A -> M B)
    (Q : B -> World -> Prop) :
  (forall a, triple (fun _ => True) (f a) Q (fun _ _ => True)) ->
  triple (fun _ => True) (bind m f) Q (fun _ _ => True).
Proof.
  intros Hf. apply triple_bind with (R := fun _ _ => True); [|exact Hf].
  intros w r w' _ _. now destruct r.
Qed.

Section Boundary.

Variable env : Env.
Variable extract : string -> string -> M string.
Hypothesis extract_preserves :
  forall I, db_only I -> forall file mimeType,
    preserves I (extract file mimeType).

Variable data : ProcessingQueueMessage.

(** The last statement of the [try] block decides the status it leaves. *)
Lemma processDocument_try_ready w w1 :
  processDocument_try env extract data w = (Returned tt, w1) ->
  document_has (document_id data) (fun r => doc_status r = StReady) w1.
Proof.
  intros Hrun.
  assert (T : triple (fun _ => True) (processDocument_try env extract data)
                (fun _ => document_has (document_id data)
                            (fun r => doc_status r = StReady))
                (fun _ _ => True)).
  { unfold processDocument_try.
    apply triple_bind_last. intros [text textKey].
    do 4 (apply triple_bind_last; intros ?).
    apply triple_call; [trivial|].
    intros w0 r w' _ _ Heff. inversion Heff; subst.
    intros d Hin Hid. cbn in Hin.
    revert Hin Hid.
    now apply (update_by_id_has _ _ (fun r => doc_status r = StReady)). }
  exact (T w _ _ Logic.I Hrun).
Qed.

(** The [catch] block issues one call; when D1 accepts it, the document
    carries the status 'error' and the message of what was thrown. *)
Lemma processDocument_catch_run e w1 :
  fault env (ticks w1) = None ->
  processDocument_catch env data e w1
  = (Returned tt,
     set_db (tick w1)
       (Sql.update_document_error StError (thrown_message e)
          (clock env (ticks w1)) (document_id data) (db w1))).
Proof.
  intros Hok. unfold processDocument_catch, bind, isoNow, d1_run, call.
  now rewrite Hok.
Qed.

Lemma processDocument_catch_rejected e e' w1 :
  fault env (ticks w1) = Some e' ->
  processDocument_catch env data e w1 = (Threw e', tick w1).
Proof.
  intros Hko. unfold processDocument_catch, bind, isoNow, d1_run, call.
  now rewrite Hko.
Qed.

Lemma update_error_has e now d :
  forall r,
    In r (documents
            (Sql.update_document_error StError (thrown_message e) now
               (document_id data) d)) ->
    doc_id r = document_id data ->
    doc_status r = StError
    /\ doc_error_message r = Some (thrown_message e).
Proof.
  intros r Hin Hid. cbn in Hin. revert Hin Hid.
  now apply (update_by_id_has _ _
               (fun r => doc_status r = StError
                         /\ doc_error_message r = Some (thrown_message e))).
Qed.

(** The [try] block returned: so does the pipeline, and the document is
    'ready'. *)
Lemma processDocument_returns_ready w w1 :
  stored (document_id data) w ->
  processDocument_try env extract data w = (Returned tt, w1) ->
  processDocument_with env extract data w = (Returned tt, w1)
  /\ stored (document_id data) w1
  /\ document_has (document_id data) (fun r => doc_status r = StReady) w1.
Proof.
  intros Hst Hrun. split; [|split].
  - unfold processDocument_with, try_catch. now rewrite Hrun.
  - apply (stored_skeleton _ w); [|exact Hst].
    exact (processDocument_try_skeleton env extract extract_preserves
             (skeleton w) data w _ _ eq_refl Hrun).
  - now apply processDocument_try_ready with (w := w).
Qed.

(** The [try] block threw and the write of the [catch] block went
    through: the pipeline returns, and the document is in 'error' with
    the message of what was thrown. *)
Lemma processDocument_catches e w w1 :
  stored (document_id data) w ->
  processDocument_try env extract data w = (Threw e, w1) ->
  fault env (ticks w1) = None ->
  exists w',
    processDocument_with env extract data w = (Returned tt, w')
    /\ stored (document_id data) w'
    /\ document_has (document_id data)
         (fun r => doc_status r = StError
                   /\ doc_error_message r = Some (thrown_message e)) w'
    /\ document_chunks (db w') = document_chunks (db w1).
Proof.
  intros Hst Hrun Hok. eexists. split; [|split; [|split]].
  - unfold processDocument_with, try_catch. rewrite Hrun.
    now apply processDocument_catch_run.
  - apply (stored_skeleton _ w1).
    + unfold skeleton. cbn. now apply map_key_update_where.
    + apply (stored_skeleton _ w); [|exact Hst].
      exact (processDocument_try_skeleton env extract extract_preserves
               (skeleton w) data w _ _ eq_refl Hrun).
  - intros r Hin Hid.
    exact (update_error_has e (clock env (ticks w1)) (db w1) r Hin Hid).
  - reflexivity.
Qed.

(** Whenever the pipeline returns, the document is 'ready' or 'error'. *)
Lemma processDocument_never_processing w w' :
  stored (document_id data) w ->
  processDocument_with env extract data w = (Returned tt, w') ->
  stored (document_id data) w'
  /\ document_has (document_id data)
       (fun r => doc_status r = StReady \/ doc_status r = StError) w'.
Proof.
  intros Hst Hrun.
  destruct (processDocument_try env extract data w) as [[[]|e] w1] eqn:Htry.
  - destruct (processDocument_returns_ready w w1 Hst Htry) as (Hp & Hs & Hd).
    rewrite Hp in Hrun. inversion Hrun; subst. split; [exact Hs|].
    intros r Hin Hid. left. now apply Hd.
  - destruct (fault env (ticks w1)) as [e'|] eqn:Hf.
    + unfold processDocument_with, try_catch in Hrun. rewrite Htry in Hrun.
      rewrite (processDocument_catch_rejected e e' w1 Hf) in Hrun.
      discriminate.
    + destruct (processDocument_catches e w w1 Hst Htry Hf)
        as (w2 & Hp & Hs & Hd & _).
      rewrite Hp in Hrun. inversion Hrun; subst. split; [exact Hs|].
      intros r Hin Hid. right. now apply Hd.
Qed.

End Boundary.

(** ** A failure in the middle of the chunk loop *)

Lemma call_accepted {A : Type} env (effect : World -> Outcome A * World) w :
  fault env (ticks w) = None -> call env effect w = effect (tick w).
Proof. intros H. unfold call. now rewrite H. Qed.

Lemma call_rejected {A : Type} env (effect : World -> Outcome A * World)
    w e :
  fault env (ticks w) = Some e -> call env effect w = (Threw e, tick w).
Proof. intros H. unfold call. now rewrite H. Qed.

Lemma append_cancel_l (a b c : string) :
  (a ++ b)%string = (a ++ c)%string -> b = c.
Proof.
  induction a as [|x a IH]; cbn; intros H; [exact H|].
  inversion H. auto.
Qed.

Lemma chunk_key_0_1 id : chunk_key id 0 <> chunk_key id 1.
Proof. intros H. apply append_cancel_l in H. discriminate. Qed.

Lemma chunk_key_0_2 id : chunk_key id 0 <> chunk_key id 2.
Proof. intros H. apply append_cancel_l in H. discriminate. Qed.

Lemma chunk_key_1_2 id : chunk_key id 1 <> chunk_key id 2.
Proof. intros H. apply append_cancel_l in H. discriminate. Qed.

Lemma existsb_chunk_id_false key rows :
  ~ In key (map chunk_id rows) ->
  existsb (fun r' => (chunk_id r' =? key)%string) rows = false.
Proof.
  intros Hnot. apply not_true_iff_false. intros Hex.
  apply existsb_exists in Hex as (r & Hin & Heq).
  apply String.eqb_eq in Heq. apply Hnot. subst key. now apply in_map.
Qed.

Section PartialFailure.

Variable env : Env.
Variable data : ProcessingQueueMessage.

(** Three accepted calls store one chunk of a stored document: its row
    is appended to the chunk table, provided its id is not taken. *)
Lemma store_chunk_run i chunk w :
  fault env (ticks w) = None ->
  fault env (1 + ticks w)%nat = None ->
  fault env (2 + ticks w)%nat = None ->
  stored (document_id data) w ->
  ~ In (chunk_key (document_id data) i)
      (map chunk_id (document_chunks (db w))) ->
  exists w',
    store_chunk env data i chunk w = (Returned tt, w')
    /\ document_chunks (db w')
       = document_chunks (db w) ++ [chunk_row (document_id data) i chunk]
    /\ documents (db w') = documents (db w)
    /\ ticks w' = (3 + ticks w)%nat.
Proof.
  intros H0 H1 H2 Hstored Hfresh.
  unfold store_chunk, generateEmbedding, vectors_upsert, d1_insert.
  unfold bind at 1. rewrite (call_accepted _ _ _ H0).
  unfold bind at 1. rewrite call_accepted by exact H1.
  rewrite call_accepted by exact H2.
  cbn [db tick set_vectors set_db].
  rewrite insert_document_chunk_accepted; [|exact Hfresh | exact Hstored].
  eexists. split; [reflexivity|]. repeat split.
Qed.

(** A rejected embedding call ends the iteration before anything is
    written. *)
Lemma store_chunk_embedding_rejected i chunk w e :
  fault env (ticks w) = Some e ->
  store_chunk env data i chunk w = (Threw e, tick w).
Proof.
  intros H. unfold store_chunk, generateEmbedding.
  unfold bind at 1. now rewrite (call_rejected _ _ _ _ H).
Qed.

(** The embedding call of the third chunk is the seventh call of the
    loop.  When the six calls before it are accepted and it is rejected,
    the loop throws with the first two rows written and nothing else. *)
Lemma embed_and_store_fails_at_third c0 c1 c2 rest w e :
  (forall k, (k < 6)%nat -> fault env (k + ticks w)%nat = None) ->
  fault env (6 + ticks w)%nat = Some e ->
  stored (document_id data) w ->
  (forall i, ~ In (chunk_key (document_id data) i)
               (map chunk_id (document_chunks (db w)))) ->
  exists w',
    embed_and_store env data (c0 :: c1 :: c2 :: rest) w = (Threw e, w')
    /\ document_chunks (db w')
       = document_chunks (db w)
         ++ [chunk_row (document_id data) 0 c0;
             chunk_row (document_id data) 1 c1]
    /\ ticks w' = (7 + ticks w)%nat.
Proof.
  intros Hquiet Hfail Hstored Hfresh.
  destruct (store_chunk_run 0 c0 w) as (w1 & R1 & C1 & D1 & T1);
    [apply (Hquiet 0%nat); lia | apply (Hquiet 1%nat); lia
    | apply (Hquiet 2%nat); lia | exact Hstored | apply Hfresh |].
  destruct (store_chunk_run 1 c1 w1) as (w2 & R2 & C2 & D2 & T2).
  { rewrite T1. apply (Hquiet 3%nat); lia. }
  { rewrite T1. apply (Hquiet 4%nat); lia. }
  { rewrite T1. apply (Hquiet 5%nat); lia. }
  { unfold stored. now rewrite D1. }
  { rewrite C1, map_app, in_app_iff. cbn. intros [H|[H|[]]].
    - exact (Hfresh 1%nat H).
    - exact (chunk_key_0_1 _ H). }
  assert (R3 : store_chunk env data 2 c2 w2 = (Threw e, tick w2)).
  { apply store_chunk_embedding_rejected. rewrite T2, T1. exact Hfail. }
  exists (tick w2). split; [|split].
  - unfold embed_and_store. cbn [for_each_indexed].
    rewrite (bind_returned _ _ _ _ _ R1).
    rewrite (bind_returned _ _ _ _ _ R2).
    now rewrite (bind_threw _ _ _ _ _ R3).
  - cbn. rewrite C2, C1, <- app_assoc. reflexivity.
  - cbn. rewrite T2, T1. reflexivity.
Qed.

End PartialFailure.

Section EmbeddingFailure.

Variable env : Env.
Variable extract : string -> string -> M string.
Hypothesis extract_preserves :
  forall I, db_only I -> forall file mimeType,
    preserves I (extract file mimeType).

Variable data : ProcessingQueueMessage.

Lemma processDocument_embedding_failure w text textKey w3 e c0 c1 c2 rest :
  stored (document_id data) w ->
  load_text env extract data w = (Returned (text, textKey), w3) ->
  chunks_of text = c0 :: c1 :: c2 :: rest ->
  (forall i, ~ In (chunk_key (document_id data) i)
               (map chunk_id (document_chunks (db w)))) ->
  (forall k, (k < 6)%nat -> fault env (k + ticks w3)%nat = None) ->
  fault env (6 + ticks w3)%nat = Some e ->
  fault env (7 + ticks w3)%nat = None ->
  exists w',
    processDocument_with env extract data w = (Returned tt, w')
    /\ document_chunks (db w')
       = document_chunks (db w)
         ++ [chunk_row (document_id data) 0 c0;
             chunk_row (document_id data) 1 c1]
    /\ stored (document_id data) w'
    /\ document_has (document_id data)
         (fun r => doc_status r = StError
                   /\ doc_error_message r = Some (thrown_message e)) w'.
Proof.
  intros Hst Hload Hchunks Hfresh Hquiet Hfail Hcatch.
  assert (Hsame : document_chunks (db w3) = document_chunks (db w)).
  { exact (load_text_chunks env extract extract_preserves
             (document_chunks (db w)) data w _ _ eq_refl Hload). }
  assert (Hst3 : stored (document_id data) w3).
  { apply (stored_skeleton _ w); [|exact Hst].
    exact (load_text_skeleton env extract extract_preserves
             (skeleton w) data w _ _ eq_refl Hload). }
  destruct (embed_and_store_fails_at_third env data c0 c1 c2 rest w3 e)
    as (w4 & Hloop & Hrows & Hticks); auto.
  { intros i. rewrite Hsame. apply Hfresh. }
  assert (Htry : processDocument_try env extract data w = (Threw e, w4)).
  { unfold processDocument_try.
    rewrite (bind_returned _ _ _ _ _ Hload). rewrite Hchunks.
    now rewrite (bind_threw _ _ _ _ _ Hloop). }
  destruct (processDocument_catches env extract extract_preserves data
              e w w4 Hst Htry) as (w' & Hrun & Hst' & Hdoc & Hrows').
  { rewrite Hticks. exact Hcatch. }
  exists w'. split; [exact Hrun|]. split; [|split; assumption].
  now rewrite Hrows', Hrows, Hsame.
Qed.

End EmbeddingFailure.

Lemma extractText_preserves_all env :
  forall I, db_only I -> forall file mimeType,
    preserves I (extractText env file mimeType).
Proof. intros I HI file mimeType. now apply extractText_preserves. Qed.

Lemma extractText_local_preserves_all env :
  forall I, db_only I -> forall file mimeType,
    preserves I (extractText_local env file mimeType).
Proof. intros I HI file mimeType. now apply extractText_local_preserves. Qed.

(** C1, as the code has it.  For a stored document: (1) whatever the
    [try] block of [processDocument] throws -- in extraction, in the
    chunk loop, in tagging or in the final status write -- is caught;
    when the write of the [catch] block is accepted the pipeline returns
    with the document in status 'error' and the message of the thrown
    value persisted ('Unknown error' for a value that is not an Error),
    a message that is not empty unless the thrown one is; when that
    write is rejected too, the pipeline throws its rejection instead of
    returning; (2) whenever the pipeline returns, the document is
    'ready' or 'error', never 'processing'; (3) when the text was loaded
    and gives five chunks, none of the document's chunk ids is taken,
    the first rejected call is the embedding call of chunk 2 and the
    write of the [catch] block is accepted, then the rows of chunks 0
    and 1 are persisted, chunk 2 is absent, and the document is in
    status 'error' with the message of the rejection. *)
Theorem processDocument_error_boundary
    (env : Env) (data : ProcessingQueueMessage) (w : World) :
  stored (document_id data) w ->
  (forall e w1,
      processDocument_try env (extractText env) data w = (Threw e, w1) ->
      (fault env (ticks w1) = None ->
       exists w',
         processDocument env data w = (Returned tt, w')
         /\ stored (document_id data) w'
         /\ document_has (document_id data)
              (fun r => doc_status r = StError
                        /\ doc_error_message r = Some (thrown_message e)
                        /\ (thrown_message e <> EmptyString ->
                            doc_error_message r <> Some EmptyString))
              w')
      /\ (forall e',
             fault env (ticks w1) = Some e' ->
             processDocument env data w = (Threw e', tick w1)))
  /\ (forall w',
        processDocument env data w = (Returned tt, w') ->
        stored (document_id data) w'
        /\ document_has (document_id data)
             (fun r => doc_status r <> StProcessing) w')
  /\ (forall text textKey w3 e,
        load_text env (extractText env) data w
        = (Returned (text, textKey), w3) ->
        List.length (chunks_of text) = 5%nat ->
        (forall i, ~ In (chunk_key (document_id data) i)
                     (map chunk_id (document_chunks (db w)))) ->
        (forall k, (k < 6)%nat -> fault env (k + ticks w3)%nat = None) ->
        fault env (6 + ticks w3)%nat = Some e ->
        fault env (7 + ticks w3)%nat = None ->
        exists w',
          processDocument env data w = (Returned tt, w')
          /\ In (chunk_key (document_id data) 0)
               (map chunk_id (document_chunks (db w')))
          /\ In (chunk_key (document_id data) 1)
               (map chunk_id (document_chunks (db w')))
          /\ ~ In (chunk_key (document_id data) 2)
                 (map chunk_id (document_chunks (db w')))
          /\ stored (document_id data) w'
          /\ document_has (document_id data)
               (fun r => doc_status r = StError
                         /\ doc_error_message r = Some (thrown_message e)
                         /\ (thrown_message e <> EmptyString ->
                             doc_error_message r <> Some EmptyString))
               w').
Proof.
  intros Hst.
  assert (Hmsg : forall e w',
             document_has (document_id data)
               (fun r => doc_status r = StError
                         /\ doc_error_message r = Some (thrown_message e))
               w' ->
             document_has (document_id data)
               (fun r => doc_status r = StError
                         /\ doc_error_message r = Some (thrown_message e)
                         /\ (thrown_message e <> EmptyString ->
                             doc_error_message r <> Some EmptyString))
               w').
  { intros e w' Hd r Hin Hid. destruct (Hd r Hin Hid) as [Hs Hm].
    split; [exact Hs|]. split; [exact Hm|].
    intros Hne Hempty. rewrite Hm in Hempty. now inversion Hempty. }
  split; [|split].
  - intros e w1 Htry. split.
    + intros Hok.
      destruct (processDocument_catches env (extractText env)
                  (extractText_preserves_all env) data e w w1 Hst Htry Hok)
        as (w' & Hrun & Hs & Hd & _).
      exists w'. split; [exact Hrun|]. split; [exact Hs|]. now apply Hmsg.
    + intros e' Hko.
      unfold processDocument, processDocument_with, try_catch.
      rewrite Htry. now apply processDocument_catch_rejected.
  - intros w' Hrun.
    destruct (processDocument_never_processing env (extractText env)
                (extractText_preserves_all env) data w w' Hst Hrun)
      as (Hs & Hd).
    split; [exact Hs|]. intros r Hin Hid.
    destruct (Hd r Hin Hid) as [-> | ->]; discriminate.
  - intros text textKey w3 e Hload Hlen Hfresh Hquiet Hfail Hcatch.
    destruct (chunks_of text) as [|c0 [|c1 [|c2 rest]]] eqn:Hchunks;
      try discriminate.
    destruct (processDocument_embedding_failure env (extractText env)
                (extractText_preserves_all env) data w text textKey w3 e
                c0 c1 c2 rest Hst Hload Hchunks Hfresh Hquiet Hfail Hcatch)
      as (w' & Hrun & Hrows & Hs & Hd).
    exists w'. split; [exact Hrun|].
    rewrite Hrows, map_app. cbn [map chunk_row chunk_id].
    split; [|split; [|split; [|split; [exact Hs | now apply Hmsg]]]].
    + apply in_or_app. right. now left.
    + apply in_or_app. right. right. now left.
    + intros Hin. apply in_app_or in Hin as [Hin | [Hin | [Hin | []]]].
      * exact (Hfresh 2%nat Hin).
      * exact (chunk_key_0_2 _ Hin).
      * exact (chunk_key_1_2 _ Hin).
Qed.

Lemma processDocument_error_boundary_witness :
  exists w',
    processDocument
      (Sample.env (Sample.fault_at 10 (JsError "embedding timed out")) false)
      (Sample.message Sample.report) Sample.report_world
    = (Returned tt, w')
    /\ In "d2_0" (map chunk_id (document_chunks (db w')))
    /\ In "d2_1" (map chunk_id (document_chunks (db w')))
    /\ ~ In "d2_2" (map chunk_id (document_chunks (db w')))
    /\ stored "d2" w'
    /\ document_has "d2"
         (fun r => doc_status r = StError
                   /\ doc_error_message r = Some "embedding timed out") w'.
Proof.
  pose (env := Sample.env
                 (Sample.fault_at 10 (JsError "embedding timed out")) false).
  pose (data := Sample.message Sample.report).
  assert (Hst : stored (document_id data) Sample.report_world).
  { cbn. now left. }
  destruct (processDocument_error_boundary env data Sample.report_world Hst)
    as (_ & _ & Scenario).
  destruct (Scenario Sample.report_text "text/d2.txt"
              (snd (load_text env (extractText env) data Sample.report_world))
              (JsError "embedding timed out"))
    as (w' & Hrun & H0 & H1 & H2 & Hs & Hd).
  - vm_compute. reflexivity.
  - vm_compute. reflexivity.
  - intros i. cbn. tauto.
  - intros k Hk. do 6 (destruct k as [|k]; [reflexivity|]). lia.
  - reflexivity.
  - reflexivity.
  - exists w'. split; [exact Hrun|]. split; [exact H0|].
    split; [exact H1|]. split; [exact H2|]. split; [exact Hs|].
    intros r Hin Hid. destruct (Hd r Hin Hid) as (Hst' & Hm & _). auto.
Defined.

(** C1 as the claim states it does not hold.  When the embedding call
    of chunk 2 is rejected and the status write of the [catch] block is
    rejected as well, the pipeline throws, and the document stays
    'processing' with no error message.  And the message that is
    persisted is the one that was thrown: an Error with an empty message
    leaves an empty error message. *)
Lemma processDocument_error_not_recorded :
  (exists w',
      processDocument
        (Sample.env
           (fun n => if (n =? 10)%nat then Some (JsError "embedding timed out")
                     else if (n =? 11)%nat then Some (JsError "D1 is down")
                     else None) false)
        (Sample.message Sample.report) Sample.report_world
      = (Threw (JsError "D1 is down"), w')
      /\ map doc_status (documents (db w')) = [StProcessing]
      /\ map doc_error_message (documents (db w')) = [None]
      /\ map chunk_id (document_chunks (db w')) = ["d2_0"; "d2_1"])
  /\ (exists w',
         processDocument
           (Sample.env (Sample.fault_at 10 (JsError "")) false)
           (Sample.message Sample.report) Sample.report_world
         = (Returned tt, w')
         /\ map doc_status (documents (db w')) = [StError]
         /\ map doc_error_message (documents (db w')) = [Some ""]).
Proof.
  split.
  - destruct (processDocument _ (Sample.message Sample.report)
                Sample.report_world) as [out w'] eqn:Hrun.
    vm_compute in Hrun. injection Hrun as Hout Hw. subst out.
    exists w'. split; [reflexivity|]. rewrite <- Hw. repeat split.
  - destruct (processDocument _ (Sample.message Sample.report)
                Sample.report_world) as [out w'] eqn:Hrun.
    vm_compute in Hrun. injection Hrun as Hout Hw. subst out.
    exists w'. split; [reflexivity|]. rewrite <- Hw. repeat split.
Qed.

(** ** Running the pipeline a second time *)

Lemma split_ws_from_nonempty s : forall cur b, Js.split_ws_from s cur b <> [].
Proof.
  induction s as [|c s IH]; intros cur b; cbn; [discriminate|].
  destruct (Js.is_space c); [destruct b|]; auto; discriminate.
Qed.

Lemma chunk_loop_extends fuel :
  forall words wpc ov start acc res,
    chunk_loop fuel words wpc ov start acc = Some res ->
    exists tail, res = acc ++ tail.
Proof.
  induction fuel as [|fuel IH]; intros words wpc ov start acc res;
    cbn [chunk_loop]; [discriminate|].
  destruct (start <? Z.of_nat (List.length words)).
  - match goal with
    | |- context [if ?b then _ else _] => destruct b
    end; intros H.
    + inversion H. eauto.
    + apply IH in H as [tail ->]. rewrite <- app_assoc. eauto.
  - intros H. inversion H. exists []. now rewrite app_nil_r.
Qed.

Lemma chunk_loop_first fuel word words wpc ov res :
  chunk_loop (S fuel) (word :: words) wpc ov 0 [] = Some res -> res <> [].
Proof.
  cbn [chunk_loop].
  replace (0 <? Z.of_nat (List.length (word :: words))) with true
    by (symmetry; apply Z.ltb_lt; cbn [List.length]; lia).
  match goal with
  | |- context [if ?b then _ else _] => destruct b
  end; intros H.
  - inversion H. discriminate.
  - apply chunk_loop_extends in H as [tail ->]. discriminate.
Qed.

(** Every text, the empty one included, gives at least one chunk. *)
Lemma chunks_of_nonempty text : chunks_of text <> [].
Proof.
  pose proof (chunks_of_spec text) as Hspec.
  unfold chunkText, chunkText_fuel in Hspec.
  destruct (Js.split_ws text) as [|word words] eqn:Hw.
  { exfalso. exact (split_ws_from_nonempty _ _ _ Hw). }
  exact (chunk_loop_first _ _ _ _ _ _ Hspec).
Qed.

Lemma chunk_present_db_only key : db_only (chunk_present key).
Proof. intros w w' Hdb H. unfold chunk_present in *. now rewrite <- Hdb. Qed.

#[local] Hint Resolve chunk_present_db_only : preserve.

Lemma insert_document_chunk_rows r d d' :
  Sql.insert_document_chunk r d = Returned d' ->
  document_chunks d' = document_chunks d ++ [r].
Proof.
  intros H. now apply insert_document_chunk_returned in H as (-> & _).
Qed.

Lemma insert_tag_chunks r d d' :
  Sql.insert_tag r d = Returned d' -> document_chunks d' = document_chunks d.
Proof.
  unfold Sql.insert_tag.
  repeat destruct (existsb _ _); intros H; inversion H; reflexivity.
Qed.

Lemma insert_document_tag_chunks r d d' :
  Sql.insert_document_tag r d = Returned d' ->
  document_chunks d' = document_chunks d.
Proof.
  intros H. now apply insert_document_tag_returned in H as (-> & _).
Qed.

Section Rerun.

Variable env : Env.
Variable extract : string -> string -> M string.
Hypothesis extract_preserves :
  forall I, db_only I -> forall file mimeType,
    preserves I (extract file mimeType).

Variable data : ProcessingQueueMessage.

Ltac chunk_present_writes :=
  first
    [ apply preserves_d1_run; [auto with preserve|]; intros ? H; exact H
    | apply preserves_d1_insert; [auto with preserve|];
      let H := fresh in let Hins := fresh in
      intros ? ? H Hins; unfold chunk_present in *; cbn;
      first [ rewrite (insert_document_chunk_rows _ _ _ Hins), map_app;
              apply in_or_app; now left
            | now rewrite (insert_tag_chunks _ _ _ Hins)
            | now rewrite (insert_document_tag_chunks _ _ _ Hins) ] ].

(** A stored chunk row stays stored through every step of the [try]
    block. *)
Lemma store_chunk_chunk_present key i chunk :
  preserves (chunk_present key) (store_chunk env data i chunk).
Proof. unfold store_chunk. preserve. chunk_present_writes. Qed.

Lemma load_text_chunk_present key :
  preserves (chunk_present key) (load_text env extract data).
Proof. unfold load_text. preserve. chunk_present_writes. Qed.

Lemma store_suggested_tags_chunk_present key suggested :
  preserves (chunk_present key) (store_suggested_tags env data suggested).
Proof. unfold store_suggested_tags. preserve; chunk_present_writes. Qed.

(** With the row of chunk 0 already stored, the first iteration of the
    chunk loop cannot return: its INSERT breaks the primary key. *)
Lemma store_chunk_rejected_when_present chunk :
  triple (chunk_present (chunk_key (document_id data) 0))
    (store_chunk env data 0 chunk)
    (fun _ _ => False) (fun _ _ => True).
Proof.
  set (key := chunk_key (document_id data) 0).
  unfold store_chunk.
  apply triple_bind with (R := fun _ => chunk_present key).
  { eapply triple_conseq;
      [apply (preserves_generateEmbedding env (chunk_present key)
                (chunk_present_db_only key)) | auto ..]. }
  intros embedding.
  apply triple_bind with (R := fun _ => chunk_present key).
  { eapply triple_conseq;
      [apply (preserves_vectors_upsert env (chunk_present key)
                (chunk_present_db_only key)) | auto ..]. }
  intros _. apply triple_call; [trivial|].
  intros w r w' Hp _ Heff. cbn in Heff.
  unfold Sql.insert_document_chunk in Heff. cbn [chunk_id] in Heff.
  fold (chunk_key (document_id data) 0) in Heff. fold key in Heff.
  replace (existsb _ (document_chunks (db w))) with true in Heff.
  - inversion Heff. trivial.
  - symmetry. apply existsb_exists. unfold chunk_present in Hp.
    apply in_map_iff in Hp as (row & Hid & Hin).
    exists row. split; [exact Hin|]. now apply String.eqb_eq.
Qed.

Lemma processDocument_try_rejected_when_present :
  triple (chunk_present (chunk_key (document_id data) 0))
    (processDocument_try env extract data)
    (fun _ _ => False) (fun _ _ => True).
Proof.
  unfold processDocument_try.
  apply triple_bind
    with (R := fun _ => chunk_present (chunk_key (document_id data) 0)).
  { eapply triple_conseq;
      [apply (load_text_chunk_present (chunk_key (document_id data) 0))
      | auto ..]. }
  intros [text textKey].
  apply triple_bind with (R := fun _ _ => False).
  - unfold embed_and_store.
    destruct (chunks_of text) as [|c0 rest] eqn:Hc.
    { now elim (chunks_of_nonempty text). }
    cbn [for_each_indexed].
    apply triple_bind with (R := fun _ _ => False).
    + apply store_chunk_rejected_when_present.
    + intros _ w r w' [].
  - intros _ w r w' [].
Qed.

(** A run that returns from the [try] block has stored the row of
    chunk 0. *)
Lemma processDocument_try_stores_first_chunk :
  triple (fun _ => True) (processDocument_try env extract data)
    (fun _ => chunk_present (chunk_key (document_id data) 0))
    (fun _ _ => True).
Proof.
  set (key := chunk_key (document_id data) 0).
  assert (keep : forall (A : Type) (m : M A),
             preserves (chunk_present key) m ->
             triple (chunk_present key) m (fun _ => chunk_present key)
               (fun _ _ => True)).
  { intros A m H. eapply triple_conseq; [exact H | auto ..]. }
  unfold processDocument_try.
  apply triple_bind_last. intros [text textKey].
  apply triple_bind with (R := fun _ => chunk_present key).
  - unfold embed_and_store.
    destruct (chunks_of text) as [|c0 rest] eqn:Hc.
    { now elim (chunks_of_nonempty text). }
    cbn [for_each_indexed].
    apply triple_bind with (R := fun _ => chunk_present key).
    + unfold store_chunk. do 2 (apply triple_bind_last; intros ?).
      apply triple_call; [trivial|].
      intros w r w' _ _ Heff. cbn in Heff.
      destruct (Sql.insert_document_chunk _ (db w)) as [d|e] eqn:Hins;
        inversion Heff; subst; [|trivial].
      unfold chunk_present. cbn.
      rewrite (insert_document_chunk_rows _ _ _ Hins), map_app.
      apply in_or_app. right. now left.
    + intros _. apply keep. apply preserves_for_each_indexed.
      intros i x. apply store_chunk_chunk_present.
  - intros _. apply keep. preserve.
    + apply autoTag_preserves. auto with preserve.
    + apply store_suggested_tags_chunk_present.
    + chunk_present_writes.
Qed.

End Rerun.

Lemma stored_row id w :
  stored id w -> exists r, In r (documents (db w)) /\ doc_id r = id.
Proof.
  unfold stored. intros H. apply in_map_iff in H as (r & Hid & Hin). eauto.
Qed.

(** A run that returns with the document 'ready' went through its [try]
    block. *)
Lemma processDocument_ready_inv env data w w1 :
  stored (document_id data) w ->
  processDocument env data w = (Returned tt, w1) ->
  document_has (document_id data) (fun r => doc_status r = StReady) w1 ->
  processDocument_try env (extractText env) data w = (Returned tt, w1).
Proof.
  intros Hst Hrun Hready.
  destruct (processDocument_try env (extractText env) data w)
    as [[[]|e] w'] eqn:Htry.
  - unfold processDocument, processDocument_with, try_catch in Hrun.
    rewrite Htry in Hrun. exact Hrun.
  - exfalso. destruct (fault env (ticks w')) as [e'|] eqn:Hf.
    + unfold processDocument, processDocument_with, try_catch in Hrun.
      rewrite Htry in Hrun.
      rewrite (processDocument_catch_rejected env data e e' w' Hf) in Hrun.
      discriminate.
    + destruct (processDocument_catches env (extractText env)
                  (extractText_preserves_all env) data e w w' Hst Htry Hf)
        as (w2 & Hp & Hs & Hd & _).
      unfold processDocument in Hrun. rewrite Hp in Hrun.
      inversion Hrun; subst.
      destruct (stored_row _ _ Hs) as (r & Hin & Hid).
      destruct (Hd r Hin Hid) as [Herr _].
      rewrite (Hready r Hin Hid) in Herr. discriminate.
Qed.

(** C3.  What a second run does.  After a run of [processDocument] that
    left the document 'ready', every further run on the same document
    that returns leaves it in 'error': the row of chunk 0 is already
    stored, the first INSERT INTO document_chunks of the second run breaks
    the primary key, and the [catch] block records the failure.  The
    pipeline is therefore not idempotent. *)
Theorem processDocument_second_run_errors
    (env env' : Env) (data : ProcessingQueueMessage) (w w1 w2 : World) :
  stored (document_id data) w ->
  processDocument env data w = (Returned tt, w1) ->
  document_has (document_id data) (fun r => doc_status r = StReady) w1 ->
  processDocument env' data w1 = (Returned tt, w2) ->
  stored (document_id data) w2
  /\ document_has (document_id data) (fun r => doc_status r = StError) w2.
Proof.
  intros Hst Hrun1 Hready Hrun2.
  pose proof (processDocument_ready_inv env data w w1 Hst Hrun1 Hready)
    as Htry1.
  assert (Hchunk : chunk_present (chunk_key (document_id data) 0) w1).
  { exact (processDocument_try_stores_first_chunk env (extractText env)
             data w _ _ Logic.I Htry1). }
  assert (Hst1 : stored (document_id data) w1).
  { apply (stored_skeleton _ w); [|exact Hst].
    exact (processDocument_try_skeleton env (extractText env)
             (extractText_preserves_all env) (skeleton w) data w _ _
             eq_refl Htry1). }
  destruct (processDocument_try env' (extractText env') data w1)
    as [[[]|e] w'] eqn:Htry2.
  - exfalso.
    exact (processDocument_try_rejected_when_present env' (extractText env')
             (extractText_preserves_all env') data w1 _ _ Hchunk Htry2).
  - destruct (fault env' (ticks w')) as [e'|] eqn:Hf.
    + unfold processDocument, processDocument_with, try_catch in Hrun2.
      rewrite Htry2 in Hrun2.
      rewrite (processDocument_catch_rejected env' data e e' w' Hf) in Hrun2.
      discriminate.
    + destruct (processDocument_catches env' (extractText env')
                  (extractText_preserves_all env') data e w1 w' Hst1 Htry2 Hf)
        as (w3 & Hp & Hs & Hd & _).
      unfold processDocument in Hrun2. rewrite Hp in Hrun2.
      inversion Hrun2; subst. split; [exact Hs|].
      intros r Hin Hid. now destruct (Hd r Hin Hid).
Qed.

Lemma processDocument_second_run_errors_witness :
  map doc_status (documents (db Sample.note_ingested)) = [StReady]
  /\ stored "d1" Sample.note_reingested
  /\ document_has "d1" (fun r => doc_status r = StError)
       Sample.note_reingested
  /\ map doc_error_message (documents (db Sample.note_reingested))
     = [Some
          (thrown_message (Sql.primary_key_violation "document_chunks.id"))]
  /\ map chunk_id (document_chunks (db Sample.note_reingested)) = ["d1_0"]
  /\ map tag_usage_count (tags (db Sample.note_reingested)) = [0]
  /\ List.length (document_tags (db Sample.note_reingested)) = 1%nat.
Proof.
  split; [reflexivity|].
  destruct (processDocument_second_run_errors
              (Sample.env Sample.no_fault false)
              (Sample.env Sample.no_fault false)
              (Sample.message Sample.note)
              Sample.note_world Sample.note_ingested Sample.note_reingested)
    as (Hs & Hd).
  - cbn. now left.
  - vm_compute. reflexivity.
  - intros r [<- | []] _. reflexivity.
  - vm_compute. reflexivity.
  - split; [exact Hs|]. split; [exact Hd|]. repeat split.
Defined.

(** ** Usage counters *)

(** C4.  The usage counter and the associations after three mutating
    operations.  (1) Ingestion of the note, for which the tagging model
    suggests "invoice", returns with the document 'ready', one
    association for the new tag, and the tag's counter still 0.
    (2) Deleting the tagged note removes its association and leaves the
    counter of "memo" at 1.  (3) Removing "memo" from a document that
    does not carry it lowers the counter to 0 while the association of
    the note remains.  In each case the counter differs from the number
    of associations, which it equalled before. *)
Theorem usage_count_drifts :
  let env := Sample.env Sample.no_fault false in
  let ingested :=
    snd (processDocument env (Sample.message Sample.note)
           Sample.note_world) in
  let deleted := snd (handleDelete env "alice" "d1" Sample.tagged_world) in
  let removed :=
    snd (removeTagsFromDocument env "d7" ["t1"] Sample.tagged_world) in
  (usage_counts_consistent (db Sample.note_world) = true
   /\ map doc_status (documents (db ingested)) = [StReady]
   /\ map tag_usage_count (tags (db ingested)) = [0]
   /\ map (fun t => count_associations (tag_id t) (db ingested))
        (tags (db ingested)) = [1]
   /\ usage_counts_consistent (db ingested) = false)
  /\ (usage_counts_consistent (db Sample.tagged_world) = true
      /\ fst (handleDelete env "alice" "d1" Sample.tagged_world)
         = Returned (jsonResponse (MessageBody "Document deleted") 200)
      /\ map tag_usage_count (tags (db deleted)) = [1]
      /\ document_tags (db deleted) = []
      /\ usage_counts_consistent (db deleted) = false)
  /\ (map tag_usage_count (tags (db removed)) = [0]
      /\ map dt_document_id (document_tags (db removed)) = ["d1"]
      /\ usage_counts_consistent (db removed) = false).
Proof. vm_compute. repeat split. Qed.

(** ** The empty text *)

Lemma floor_three_quarters_pos t : 2 <= t -> 1 <= floor_three_quarters t.
Proof.
  intros H. unfold floor_three_quarters.
  apply Z.div_le_lower_bound; lia.
Qed.

(** C6.  Chunking the empty text.  ["".split(/\s+/)] is the one-element
    array [[""]], so for every pair of parameters that allows at least one
    word per chunk the loop runs once and [chunkText] returns one chunk:
    the empty string, counted as two tokens.  It does not return zero
    chunks. *)
Theorem chunkText_empty_text (targetTokens overlapTokens : Z) :
  2 <= targetTokens ->
  chunkText "" targetTokens overlapTokens
  = Some [ {| text := ""; tokenCount := 2 |} ].
Proof.
  intros Ht. apply floor_three_quarters_pos in Ht.
  unfold chunkText, chunkText_fuel.
  change (Js.split_ws "") with [""].
  cbn [chunk_loop List.length]. change (Z.of_nat 1) with 1.
  change (0 <? 1) with true. cbv iota.
  rewrite Z.add_0_l, (Z.min_r _ 1) by lia.
  rewrite Z.geb_leb, Z.leb_refl. reflexivity.
Qed.

Lemma chunkText_empty_text_witness :
  2 <= 512
  /\ chunkText "" 512 64 = Some [ {| text := ""; tokenCount := 2 |} ].
Proof. split; [lia | apply (chunkText_empty_text 512 64); lia]. Defined.

(** ** The two copies of the pipeline *)

(** The queue consumer of workers/api/index.ts runs the shared
    [processDocument], the one the upload route runs inline. *)
Lemma queue_consumer_shared env batch :
  queue_consumer env batch = queue_with (processDocument env) batch.
Proof. reflexivity. Qed.

(** On plain text the local copy of the pipeline does what the shared
    one does. *)
Lemma processDocument_local_plain_text env data w :
  mime_type data = "text/plain" ->
  processDocument_local env data w = processDocument env data w.
Proof.
  intros Hmime.
  unfold processDocument_local, processDocument, processDocument_with,
    processDocument_try, load_text.
  rewrite Hmime. reflexivity.
Qed.

(** C8.  The two copies of the pipeline on a PDF.  The shared
    [processDocument] stores the text unpdf extracts; the copy that the
    second entry-point file defines for its queue consumer stores a
    placeholder, and the chunk it embeds and the answer of its consumer
    differ accordingly. *)
Theorem local_pipeline_differs_on_pdf :
  let env := Sample.env Sample.no_fault true in
  let data := Sample.message Sample.invoice in
  let shared := snd (processDocument env data Sample.invoice_world) in
  let local := snd (processDocument_local env data Sample.invoice_world) in
  lookup_file "text/d3.txt" (files shared) = Some "Invoice 42 %PDF-1.7"
  /\ lookup_file "text/d3.txt" (files local)
     = Some "[Document content - application/pdf]"
  /\ map chunk_text_content (document_chunks (db shared))
     = ["Invoice 42 %PDF-1.7"]
  /\ map chunk_text_content (document_chunks (db local))
     = ["[Document content - application/pdf]"]
  /\ queue_consumer env [data] Sample.invoice_world
     <> queue_consumer_local env [data] Sample.invoice_world.
Proof.
  cbv zeta. repeat split; try (vm_compute; reflexivity).
  intros H. apply (f_equal (fun r => map chunk_text_content
                                       (document_chunks (db (snd r))))) in H.
  vm_compute in H. discriminate.
Qed.

(** ** Upload and duplicates *)

Lemma bind_returned_inv {A B : Type} (m : M A) (f : A -> M B) w b w' :
  bind m f w = (Returned b, w') ->
  exists a w1, m w = (Returned a, w1) /\ f a w1 = (Returned b, w').
Proof.
  intros H. apply bind_inv in H as [H | (e & _ & H)]; [exact H|].
  discriminate.
Qed.

Lemma call_returned_inv {A : Type} env
    (effect : World -> Outcome A * World) w a w' :
  call env effect w = (Returned a, w') ->
  fault env (ticks w) = None /\ effect (tick w) = (Returned a, w').
Proof.
  unfold call. destruct (fault env (ticks w)); [discriminate|].
  intros H. split; [reflexivity | exact H].
Qed.

Lemma d1_query_inv {A : Type} env (q : Database -> A) w a w' :
  d1_query env q w = (Returned a, w') -> a = q (db w) /\ w' = tick w.
Proof.
  intros H. apply call_returned_inv in H as [_ H].
  inversion H. split; reflexivity.
Qed.

Lemma d1_insert_inv env stmt w w' :
  d1_insert env stmt w = (Returned tt, w') ->
  exists d, stmt (db w) = Returned d /\ w' = set_db (tick w) d.
Proof.
  intros H. apply call_returned_inv in H as [_ H]. cbn in H.
  destruct (stmt (db w)) as [d|e]; inversion H. eauto.
Qed.

Lemma r2_put_inv env key value w w' :
  r2_put env key value w = (Returned tt, w') -> db w' = db w.
Proof.
  intros H. apply call_returned_inv in H as [_ H]. inversion H. reflexivity.
Qed.

Lemma queue_send_inv env m w w' :
  queue_send env m w = (Returned tt, w') -> db w' = db w.
Proof.
  intros H. apply call_returned_inv in H as [_ H]. inversion H. reflexivity.
Qed.

Lemma insert_document_inv r d d' :
  Sql.insert_document r d = Returned d' ->
  ~ In (doc_id r) (map doc_id (documents d))
  /\ documents d' = documents d ++ [r].
Proof.
  unfold Sql.insert_document.
  destruct (existsb _ (documents d)) eqn:Hex; intros H; inversion H.
  split; [|reflexivity].
  intros Hin. apply in_map_iff in Hin as (r' & Hid & Hin).
  apply not_true_iff_false in Hex. apply Hex. apply existsb_exists.
  exists r'. split; [exact Hin|]. now apply String.eqb_eq.
Qed.

(** What an upload that returns has done: either it found the document
    that holds these bytes in the workspace and returned it as a
    duplicate, leaving the documents as they were, or there was none and
    it appended one row under a new id. *)
Lemma uploadFile_returned env file workspaceId userId w r w1 :
  uploadFile env file workspaceId userId w = (Returned r, w1) ->
  match Sql.first
          (select_document_by_hash workspaceId
             (sha256 env (file_content file)) (db w)) with
  | Some existing =>
      up_id r = doc_id existing
      /\ up_status r = "duplicate"
      /\ documents (db w1) = documents (db w)
  | None =>
      up_status r <> "duplicate"
      /\ ~ In (up_id r) (map doc_id (documents (db w)))
      /\ skeleton w1
         = skeleton w
           ++ [(up_id r, workspaceId, sha256 env (file_content file),
                file_name file)]
  end.
Proof.
  unfold uploadFile. intros H.
  apply bind_returned_inv in H as (docId & wa & Hid & H).
  inversion Hid; subst docId wa; clear Hid.
  apply bind_returned_inv in H as (now & wb & Hnow & H).
  inversion Hnow; subst now wb; clear Hnow.
  apply bind_returned_inv in H as (existing & wc & Hq & H).
  apply d1_query_inv in Hq as [-> ->]. cbn [db next_id].
  destruct (Sql.first _) as [existing|].
  - inversion H; subst. cbn. auto.
  - destruct (negb _); [discriminate|].
    apply bind_returned_inv in H as ([] & wd & Hput & H).
    apply r2_put_inv in Hput.
    apply bind_returned_inv in H as ([] & we & Hins & H).
    apply d1_insert_inv in Hins as (d & Hins & ->).
    rewrite Hput in Hins. cbn [db tick next_id] in Hins.
    apply insert_document_inv in Hins as [Hfresh Hrows].
    cbn [doc_id] in Hfresh.
    assert (Hskel : forall v, skeleton v = skeleton (set_db (tick wd) d) ->
              skeleton v
              = skeleton w
                ++ [(uuid env (ids w), workspaceId,
                     sha256 env (file_content file), file_name file)]).
    { intros v ->. unfold skeleton. cbn. rewrite Hrows, map_app.
      reflexivity. }
    destruct (has_queue env).
    + apply bind_returned_inv in H as ([] & wf & Hsend & H).
      apply queue_send_inv in Hsend. inversion H; subst. cbn.
      split; [discriminate|]. split; [exact Hfresh|].
      apply Hskel. unfold skeleton. now rewrite Hsend.
    + unfold try_catch in H.
      match type of H with
      | context [bind ?m ?f ?v] =>
          destruct (bind m f v) as [[a|e] wf] eqn:Hrun
      end.
      * apply bind_returned_inv in Hrun as ([] & wg & Hproc & Hret).
        inversion Hret; subst. inversion H; subst. cbn.
        split; [discriminate|]. split; [exact Hfresh|].
        apply Hskel.
        exact (processDocument_with_skeleton env (extractText env)
                 (extractText_preserves_all env) _ _ _ _ _ eq_refl Hproc).
      * inversion H; subst. cbn.
        split; [discriminate|]. split; [exact Hfresh|].
        apply Hskel.
        apply bind_inv in Hrun as [(a & wg & Hproc & Hret)
                                  | (e' & Hproc & _)].
        { inversion Hret. }
        exact (processDocument_with_skeleton env (extractText env)
                 (extractText_preserves_all env) _ _ _ _ _ eq_refl Hproc).
Qed.

Lemma map_filter_key (p : Document -> bool)
    (pk : string * string * string * string -> bool)
    (rows : list Document) :
  (forall r, p r = pk (doc_key r)) ->
  map doc_key (filter p rows) = filter pk (map doc_key rows).
Proof.
  intros Hp. induction rows as [|r rows IH]; cbn; [reflexivity|].
  rewrite <- Hp. destruct (p r); cbn; now rewrite IH.
Qed.

Lemma select_by_hash_keys workspaceId contentHash w :
  map doc_key (select_document_by_hash workspaceId contentHash (db w))
  = filter (holds_hash workspaceId contentHash) (skeleton w).
Proof. unfold select_document_by_hash, skeleton. now apply map_filter_key. Qed.

Lemma first_none_nil {A : Type} (l : list A) : Sql.first l = None -> l = [].
Proof. destruct l; [reflexivity | discriminate]. Qed.

(** C5.  Duplicate uploads.  For two files with the same bytes:
    (1) uploaded one after the other to the same workspace, the second
    upload returns the id the first one returned, with status
    'duplicate', and leaves the documents table as it was; (2) uploaded
    to two different workspaces, neither of which holds these bytes yet,
    both uploads create a row: the two ids differ and neither response is
    a duplicate. *)
Theorem uploadFile_duplicates
    (env : Env) (file1 file2 : File) (user1 user2 : string) (w : World) :
  file_content file1 = file_content file2 ->
  (forall ws r1 w1 r2 w2,
      uploadFile env file1 ws user1 w = (Returned r1, w1) ->
      uploadFile env file2 ws user2 w1 = (Returned r2, w2) ->
      up_id r2 = up_id r1
      /\ up_status r2 = "duplicate"
      /\ documents (db w2) = documents (db w1))
  /\ (forall ws1 ws2 r1 w1 r2 w2,
        ws1 <> ws2 ->
        select_document_by_hash ws1 (sha256 env (file_content file1)) (db w)
        = [] ->
        select_document_by_hash ws2 (sha256 env (file_content file1)) (db w)
        = [] ->
        uploadFile env file1 ws1 user1 w = (Returned r1, w1) ->
        uploadFile env file2 ws2 user2 w1 = (Returned r2, w2) ->
        up_id r1 <> up_id r2
        /\ up_status r1 <> "duplicate"
        /\ up_status r2 <> "duplicate"
        /\ skeleton w2
           = skeleton w
             ++ [(up_id r1, ws1, sha256 env (file_content file1),
                  file_name file1);
                 (up_id r2, ws2, sha256 env (file_content file1),
                  file_name file2)]).
Proof.
  intros Hbytes. split.
  - intros ws r1 w1 r2 w2 H1 H2.
    apply uploadFile_returned in H1. apply uploadFile_returned in H2.
    rewrite <- Hbytes in H2.
    set (h := sha256 env (file_content file1)) in *.
    assert (Hfound : exists d,
               Sql.first (select_document_by_hash ws h (db w1)) = Some d
               /\ doc_id d = up_id r1).
    { destruct (Sql.first (select_document_by_hash ws h (db w)))
        as [existing|] eqn:Hfirst.
      - destruct H1 as (Hid & _ & Hdocs). exists existing.
        unfold select_document_by_hash in *. rewrite Hdocs. auto.
      - destruct H1 as (_ & _ & Hskel).
        apply first_none_nil in Hfirst.
        pose proof (select_by_hash_keys ws h w) as Hk0.
        rewrite Hfirst in Hk0. cbn in Hk0.
        pose proof (select_by_hash_keys ws h w1) as Hk1.
        rewrite Hskel, filter_app, <- Hk0 in Hk1. cbn in Hk1.
        rewrite !String.eqb_refl in Hk1. cbn in Hk1.
        destruct (select_document_by_hash ws h (db w1)) as [|d [|d' l]];
          try discriminate.
        exists d. split; [reflexivity|]. now inversion Hk1. }
    destruct Hfound as (d & Hf & Hd). rewrite Hf in H2.
    rewrite <- Hd. exact H2.
  - intros ws1 ws2 r1 w1 r2 w2 Hws Hnew1 Hnew2 H1 H2.
    apply uploadFile_returned in H1. apply uploadFile_returned in H2.
    rewrite <- Hbytes in H2.
    set (h := sha256 env (file_content file1)) in *.
    rewrite Hnew1 in H1. cbn in H1. destruct H1 as (Hs1 & Hfresh1 & Hskel1).
    assert (Hnone : select_document_by_hash ws2 h (db w1) = []).
    { pose proof (select_by_hash_keys ws2 h w1) as Hk.
      pose proof (select_by_hash_keys ws2 h w) as Hk0.
      rewrite Hnew2 in Hk0. cbn in Hk0.
      rewrite Hskel1, filter_app, <- Hk0 in Hk. cbn in Hk.
      destruct (String.eqb_spec ws1 ws2) as [Heq|_]; [now elim Hws|].
      cbn in Hk. now apply map_eq_nil in Hk. }
    rewrite Hnone in H2. cbn in H2. destruct H2 as (Hs2 & Hfresh2 & Hskel2).
    split; [|split; [exact Hs1 | split; [exact Hs2|]]].
    + intros Heq. apply Hfresh2.
      assert (Hids : forall v, map doc_id (documents (db v))
                               = map (fun k => fst (fst (fst k))) (skeleton v)).
      { intros v. unfold skeleton. now rewrite map_map. }
      rewrite Hids, Hskel1, map_app. apply in_or_app. right. cbn.
      left. exact Heq.
    + rewrite Hskel2, Hskel1, <- app_assoc. reflexivity.
Qed.

Lemma uploadFile_duplicates_witness :
  let env := Sample.env Sample.no_fault false in
  let r1 := mkUploadResponse "uuid-0" "note.txt" "ready"
              "2024-05-01T09:00:00.0Z" in
  (uploadFile env Sample.note_file "W1" "alice" Sample.empty_world
   = (Returned r1, Sample.uploaded_once)
   /\ uploadFile env Sample.note_file "W1" "alice" Sample.uploaded_once
      = (Returned (mkUploadResponse "uuid-0" "note.txt" "duplicate"
                     "2024-05-01T09:00:00.16Z"), Sample.uploaded_again)
   /\ documents (db Sample.uploaded_again)
      = documents (db Sample.uploaded_once))
  /\ (exists r2,
         uploadFile env Sample.note_file "W2" "alice" Sample.uploaded_once
         = (Returned r2, Sample.uploaded_elsewhere)
         /\ up_id r1 <> up_id r2
         /\ up_status r1 <> "duplicate" /\ up_status r2 <> "duplicate").
Proof.
  intros env r1.
  destruct (uploadFile_duplicates env Sample.note_file Sample.note_file
              "alice" "alice" Sample.empty_world eq_refl) as [Same Other].
  assert (H1 : uploadFile env Sample.note_file "W1" "alice"
                 Sample.empty_world = (Returned r1, Sample.uploaded_once)).
  { vm_compute. reflexivity. }
  split.
  - assert (H2 : uploadFile env Sample.note_file "W1" "alice"
                   Sample.uploaded_once
                 = (Returned (mkUploadResponse "uuid-0" "note.txt"
                                "duplicate" "2024-05-01T09:00:00.16Z"),
                    Sample.uploaded_again)).
    { vm_compute. reflexivity. }
    split; [exact H1|]. split; [exact H2|].
    exact (proj2 (proj2 (Same "W1" _ _ _ _ H1 H2))).
  - exists (mkUploadResponse "uuid-2" "note.txt" "ready"
              "2024-05-01T09:00:00.16Z").
    assert (H2 : uploadFile env Sample.note_file "W2" "alice"
                   Sample.uploaded_once
                 = (Returned (mkUploadResponse "uuid-2" "note.txt" "ready"
                                "2024-05-01T09:00:00.16Z"),
                    Sample.uploaded_elsewhere)).
    { vm_compute. reflexivity. }
    split; [exact H2|].
    assert (Hws : "W1" <> "W2") by discriminate.
    destruct (Other "W1" "W2" _ _ _ _ Hws eq_refl eq_refl H1 H2)
      as (Hne & Hs1 & Hs2 & _).
    auto.
Defined.

(** ** Sorting *)

Section Ordering.

Context {A : Type}.
Variable before : A -> A -> bool.

Lemma insert_by_perm x s : Permutation (Sql.insert_by before x s) (x :: s).
Proof.
  induction s as [|y s IH]; cbn; [reflexivity|].
  destruct (before x y); [reflexivity|].
  rewrite IH. apply perm_swap.
Qed.

Lemma fold_insert_perm l :
  forall acc,
    Permutation
      (fold_left (fun sorted x => Sql.insert_by before x sorted) l acc)
      (l ++ acc).
Proof.
  induction l as [|x l IH]; intros acc; cbn; [reflexivity|].
  rewrite IH, insert_by_perm. symmetry. apply Permutation_middle.
Qed.

Lemma order_by_perm l : Permutation (Sql.order_by before l) l.
Proof.
  unfold Sql.order_by. rewrite fold_insert_perm. now rewrite app_nil_r.
Qed.

Lemma order_by_length l :
  List.length (Sql.order_by before l) = List.length l.
Proof. apply Permutation_length, order_by_perm. Qed.

Lemma order_by_in x l : In x (Sql.order_by before l) <-> In x l.
Proof.
  split; apply Permutation_in;
    [apply order_by_perm | apply Permutation_sym, order_by_perm].
Qed.

(** When, on the elements of [L], [before] decides a transitive relation
    [R] one way or the other, ordering a list of such elements sorts it
    by [R]. *)
Variable R : A -> A -> Prop.
Variable L : list A.
Hypothesis R_trans : forall a b c, R a b -> R b c -> R a c.
Hypothesis before_R :
  forall x y, In x L -> In y L ->
    (before x y = true -> R x y) /\ (before x y = false -> R y x).

Lemma insert_by_sorted x s :
  In x L -> incl s L -> StronglySorted R s ->
  StronglySorted R (Sql.insert_by before x s).
Proof.
  intros Hx Hs Hsorted. induction Hsorted as [|y s Hsorted IH Hall]; cbn.
  - constructor; constructor.
  - assert (Hy : In y L) by (apply Hs; now left).
    destruct (before x y) eqn:Hb.
    + constructor; [now constructor|].
      pose proof (proj1 (before_R x y Hx Hy) Hb) as Hxy.
      constructor; [exact Hxy|].
      rewrite Forall_forall in *. eauto.
    + constructor.
      * apply IH. intros z Hz. apply Hs. now right.
      * pose proof (proj2 (before_R x y Hx Hy) Hb) as Hyx.
        rewrite Forall_forall in *. intros z Hz.
        apply (Permutation_in _ (insert_by_perm x s)) in Hz as [<- | Hz];
          auto.
Qed.

Lemma fold_insert_sorted l :
  forall acc,
    incl l L -> incl acc L -> StronglySorted R acc ->
    StronglySorted R
      (fold_left (fun sorted x => Sql.insert_by before x sorted) l acc).
Proof.
  induction l as [|x l IH]; intros acc Hl Hacc Hsorted; cbn; [exact Hsorted|].
  apply IH.
  - intros z Hz. apply Hl. now right.
  - intros z Hz.
    apply (Permutation_in _ (insert_by_perm x acc)) in Hz as [<- | Hz].
    + apply Hl. now left.
    + now apply Hacc.
  - apply insert_by_sorted; auto. apply Hl. now left.
Qed.

Lemma order_by_sorted l :
  incl l L -> StronglySorted R (Sql.order_by before l).
Proof.
  intros Hl. unfold Sql.order_by. apply fold_insert_sorted; auto.
  - intros z [].
  - constructor.
Qed.

End Ordering.

Lemma StronglySorted_firstn {A : Type} (R : A -> A -> Prop) n :
  forall l, StronglySorted R l -> StronglySorted R (firstn n l).
Proof.
  induction n as [|n IH]; intros l Hs; [constructor|].
  destruct l as [|x l]; [constructor|]. cbn.
  inversion Hs as [|? ? Hs' Hall]; subst. constructor; [now apply IH|].
  rewrite Forall_forall in *. intros z Hz. apply Hall.
  revert Hz. clear. revert l. induction n as [|n IH]; intros [|y l]; cbn;
    try tauto. intros [-> | Hz]; [now left | right; now apply IH].
Qed.

Lemma StronglySorted_pair {A : Type} (R : A -> A -> Prop) l1 a l2 b l3 :
  StronglySorted R (l1 ++ a :: l2 ++ b :: l3) -> R a b.
Proof.
  induction l1 as [|x l1 IH]; cbn; intros Hs.
  - inversion Hs as [|? ? _ Hall]; subst.
    rewrite Forall_forall in Hall. apply Hall.
    apply in_or_app. right. now left.
  - inversion Hs; subst. now apply IH.
Qed.

Lemma firstn_in {A : Type} n (l : list A) x : In x (firstn n l) -> In x l.
Proof.
  revert l. induction n as [|n IH]; intros [|y l]; cbn; try tauto.
  intros [-> | H]; [now left | right; now apply IH].
Qed.

Lemma skipn_in {A : Type} n (l : list A) x : In x (skipn n l) -> In x l.
Proof.
  revert l. induction n as [|n IH]; intros [|y l]; cbn; try tauto.
  intros H. right. now apply IH.
Qed.

Lemma slice_from_0 {A : Type} (l : list A) n :
  Js.slice l 0 n
  = firstn (Z.to_nat (Js.rel_index (Z.of_nat (List.length l)) n)) l.
Proof.
  unfold Js.slice.
  assert (H0 : Js.rel_index (Z.of_nat (List.length l)) 0 = 0).
  { unfold Js.rel_index. cbn. lia. }
  rewrite H0, Z.sub_0_r. reflexivity.
Qed.

Lemma slice_in {A : Type} (l : list A) n x :
  In x (Js.slice l 0 n) -> In x l.
Proof. rewrite slice_from_0. apply firstn_in. Qed.

Lemma limit_offset_in {A : Type} n k (l : list A) x :
  In x (Sql.limit_offset n k l) -> In x l.
Proof.
  unfold Sql.limit_offset. destruct (n <? 0); intros H.
  - now apply skipn_in in H.
  - apply firstn_in in H. now apply skipn_in in H.
Qed.

(** ** Search handlers *)

Lemma try_catch_returned_inv {A : Type} (body : M A)
    (handler : Thrown -> M A) w a w' :
  try_catch body handler w = (Returned a, w') ->
  body w = (Returned a, w')
  \/ exists e w1, body w = (Threw e, w1) /\ handler e w1 = (Returned a, w').
Proof.
  unfold try_catch. destruct (body w) as [[b|e] w1]; intros H.
  - left. exact H.
  - right. eauto.
Qed.

Lemma generateEmbedding_inv env t w a w' :
  generateEmbedding env t w = (Returned a, w') ->
  a = embedding_of env t /\ w' = tick w.
Proof.
  intros H. apply call_returned_inv in H as [_ H]. inversion H. auto.
Qed.

Lemma vectors_query_inv env q k f w a w' :
  vectors_query env q k f w = (Returned a, w') ->
  a = vectors_matches env (vectors w) q k f /\ w' = tick w.
Proof.
  intros H. apply call_returned_inv in H as [_ H]. inversion H. auto.
Qed.

Lemma enrichDocuments_inv env docs :
  forall w rs w',
    enrichDocuments env docs w = (Returned rs, w') ->
    rs = map (enrich (db w)) docs
    /\ db w' = db w /\ vectors w' = vectors w.
Proof.
  induction docs as [|doc docs IH]; intros w rs w' H; cbn in H.
  - inversion H. auto.
  - apply bind_returned_inv in H as (tags & w1 & Htags & H).
    apply d1_query_inv in Htags as [-> ->].
    apply bind_returned_inv in H as (chunk & w2 & Hchunk & H).
    apply d1_query_inv in Hchunk as [-> ->].
    apply bind_returned_inv in H as (results & w3 & Hrest & H).
    apply IH in Hrest as (-> & Hdb & Hvec).
    inversion H; subst. cbn in Hdb, Hvec. auto.
Qed.

(** A page returned by the combined search is the head of the sorted
    result list, unless the user has no workspace. *)
Lemma handleCombinedSearch_returned env body userId w page w' :
  handleCombinedSearch env body userId w
  = (Returned (jsonResponse (SearchBody page) 200), w') ->
  (select_workspaces userId (db w) = []
   /\ page = mkSearchPage [] 0 false)
  \/ (select_workspaces userId (db w) <> []
      /\ page
         = mkSearchPage
             (Js.slice (combined_sorted env body userId w) 0
                (page_size body))
             (Z.of_nat (List.length (combined_sorted env body userId w)))
             (page_size body
              <? Z.of_nat (List.length (combined_sorted env body userId w)))).
Proof.
  unfold handleCombinedSearch. intros H.
  apply try_catch_returned_inv in H as [H | (e & w1 & _ & H)];
    [|inversion H].
  apply bind_returned_inv in H as (workspaceIds & w1 & Hws & H).
  apply d1_query_inv in Hws as [-> ->].
  destruct (select_workspaces userId (db w)) as [|ws0 wss] eqn:Hws.
  { left. cbn in H. inversion H. auto. }
  right. split; [discriminate|].
  cbn [List.length Nat.eqb] in H.
  apply bind_returned_inv in H as ([semanticDocIds semanticScores] & w2
                                   & Hsem & H).
  assert (Hcand : (semanticDocIds, semanticScores)
                  = semantic_candidates env body (ws0 :: wss) w
                  /\ db w2 = db w).
  { unfold semantic_candidates. fold (page_size body) in Hsem.
    destruct (given (sq_query body)) as [q|].
    - apply bind_returned_inv in Hsem as (emb & wa & Hemb & Hsem).
      apply generateEmbedding_inv in Hemb as [-> ->].
      apply bind_returned_inv in Hsem as (matches & wb & Hq & Hsem).
      apply vectors_query_inv in Hq as [-> ->].
      inversion Hsem; subst. auto.
    - inversion Hsem; subst. auto. }
  destruct Hcand as [Hcand Hdb2].
  apply bind_returned_inv in H as (result & w3 & Hres & H).
  apply d1_query_inv in Hres as [-> ->].
  apply bind_returned_inv in H as (documents & w4 & Hen & H).
  apply enrichDocuments_inv in Hen as (-> & _ & _).
  cbn [db tick] in H. rewrite Hdb2 in H.
  inversion H as [[Hpage]]. clear H.
  unfold combined_sorted. rewrite Hws, <- Hcand. reflexivity.
Qed.

(** A page returned by the faceted search: the rows of the page query
    without the over-fetched one, the count of the count query, and
    whether the page query returned more rows than the page holds. *)
Lemma handleFacetedSearch_returned env body userId w page w' :
  handleFacetedSearch env body userId w
  = (Returned (jsonResponse (SearchBody page) 200), w') ->
  let workspaceIds := select_workspaces userId (db w) in
  let result :=
    faceted_page env body workspaceIds (page_size body + 1)
      (page_offset body) (db w) in
  (workspaceIds = [] /\ page = mkSearchPage [] 0 false)
  \/ (workspaceIds <> []
      /\ page
         = mkSearchPage
             (map (enrich (db w)) (Js.slice result 0 (page_size body)))
             (faceted_count env body workspaceIds (db w))
             (page_size body <? Z.of_nat (List.length result))).
Proof.
  unfold handleFacetedSearch. intros H.
  apply try_catch_returned_inv in H as [H | (e & w1 & _ & H)];
    [|inversion H].
  apply bind_returned_inv in H as (workspaceIds & w1 & Hws & H).
  apply d1_query_inv in Hws as [-> ->].
  cbv zeta.
  destruct (select_workspaces userId (db w)) as [|ws0 wss] eqn:Hws.
  { left. cbn in H. inversion H. auto. }
  right. split; [discriminate|].
  cbn [List.length Nat.eqb] in H.
  apply bind_returned_inv in H as (result & w2 & Hres & H).
  apply d1_query_inv in Hres as [-> ->].
  apply bind_returned_inv in H as (documents & w3 & Hen & H).
  apply enrichDocuments_inv in Hen as (-> & Hdb & _).
  apply bind_returned_inv in H as (countResult & w4 & Hcount & H).
  apply d1_query_inv in Hcount as [-> ->].
  rewrite Hdb in H. cbn [db tick] in H.
  inversion H. reflexivity.
Qed.

Lemma is_ready_status r : is_ready r = true -> doc_status r = StReady.
Proof. unfold is_ready. now destruct (doc_status r). Qed.

Lemma faceted_matching_ready env body workspaceIds d r :
  In r (faceted_matching env body workspaceIds d) ->
  In r (documents d) /\ doc_status r = StReady.
Proof.
  unfold faceted_matching, counted_where. intros H.
  apply filter_In in H as [Hin H]. split; [exact Hin|].
  do 3 (apply andb_prop in H as [H _]).
  apply andb_prop in H as [_ H]. now apply is_ready_status.
Qed.

Lemma combined_matching_spec env body workspaceIds ids d r :
  In r (combined_matching env body workspaceIds ids d) ->
  In r (documents d)
  /\ doc_status r = StReady
  /\ when_nonempty ids (fun ids => Sql.in_strings (doc_id r) ids) = true
  /\ when_nonempty (given_list (sq_tags body))
       (fun names => has_tag_named d (doc_id r) names) = true.
Proof.
  unfold combined_matching. intros H.
  apply filter_In in H as [Hin H]. split; [exact Hin|].
  apply andb_prop in H as [H _].
  apply andb_prop in H as [H Htags].
  apply andb_prop in H as [H Hids].
  apply andb_prop in H as [_ H].
  auto using is_ready_status.
Qed.

(** Every element of the sorted list of the combined search is a row
    that passed the WHERE clause, enriched and given its score. *)
Lemma combined_sorted_in env body userId w r :
  In r (combined_sorted env body userId w) ->
  exists d0,
    In d0 (combined_matching env body (select_workspaces userId (db w))
             (fst (semantic_candidates env body
                     (select_workspaces userId (db w)) w)) (db w))
    /\ r = with_score
             (snd (semantic_candidates env body
                     (select_workspaces userId (db w)) w))
             (enrich (db w) d0).
Proof.
  unfold combined_sorted.
  destruct (semantic_candidates env body _ w) as [ids scores]. cbn [fst snd].
  unfold js_sort. rewrite order_by_in, map_map. intros H.
  apply in_map_iff in H as (d0 & <- & Hin). eauto.
Qed.

(** C10.  Only 'ready' documents are returned.  Every document in a page
    that the faceted search or the combined search returns is a row of
    the documents table whose status is 'ready'. *)
Theorem search_returns_ready_documents
    (env : Env) (body : SearchRequest) (userId : string) (w w' : World)
    (page : SearchResult) :
  handleFacetedSearch env body userId w
  = (Returned (jsonResponse (SearchBody page) 200), w')
  \/ handleCombinedSearch env body userId w
     = (Returned (jsonResponse (SearchBody page) 200), w') ->
  forall r,
    In r (sp_documents page) ->
    exists d,
      In d (documents (db w)) /\ doc_id d = sr_id r
      /\ doc_status d = StReady.
Proof.
  intros [H | H] r Hr.
  - apply handleFacetedSearch_returned in H. cbv zeta in H.
    destruct H as [[_ ->] | [_ ->]]; [destruct Hr|].
    cbn [sp_documents] in Hr.
    apply in_map_iff in Hr as (d0 & <- & Hin).
    apply slice_in in Hin. unfold faceted_page in Hin.
    apply limit_offset_in in Hin. apply order_by_in in Hin.
    apply faceted_matching_ready in Hin as [Hin Hst].
    exists d0. auto.
  - apply handleCombinedSearch_returned in H.
    destruct H as [[_ ->] | [_ ->]]; [destruct Hr|].
    cbn [sp_documents] in Hr. apply slice_in in Hr.
    apply combined_sorted_in in Hr as (d0 & Hin & ->).
    apply combined_matching_spec in Hin as (Hin & Hst & _).
    exists d0. auto.
Qed.

Lemma search_returns_ready_documents_witness :
  exists page w',
    handleCombinedSearch (Sample.env Sample.no_fault false) second_page
      "alice" two_ready_world
    = (Returned (jsonResponse (SearchBody page) 200), w')
    /\ map sr_id (sp_documents page) = ["a1"]
    /\ forall r,
         In r (sp_documents page) ->
         exists d,
           In d (documents (db two_ready_world)) /\ doc_id d = sr_id r
           /\ doc_status d = StReady.
Proof.
  eexists. eexists. split; [vm_compute; reflexivity|].
  split; [reflexivity|].
  eapply (search_returns_ready_documents
            (Sample.env Sample.no_fault false) second_page "alice"
            two_ready_world).
  right. vm_compute. reflexivity.
Defined.

(** ** Pagination *)

Lemma limit_offset_length {A : Type} (n k : Z) (l : list A) :
  0 <= n ->
  List.length (Sql.limit_offset n k l)
  = Nat.min (Z.to_nat n) (List.length l - Z.to_nat k).
Proof.
  intros Hn. unfold Sql.limit_offset.
  destruct (Z.ltb_spec n 0); [lia|].
  now rewrite length_firstn, length_skipn.
Qed.

Lemma faceted_matching_no_workspace env body d :
  faceted_matching env body [] d = [].
Proof.
  unfold faceted_matching, counted_where.
  induction (documents d) as [|r rows IH]; cbn; [reflexivity | exact IH].
Qed.

(** The faceted search, with a page size [P >= 0] and an offset
    [O >= 0]: it fetches [P + 1] rows from offset [O] of the [N]
    matching documents and reports [has_more] exactly when it got more
    than [P], that is when [N > O + P]. *)
Theorem faceted_has_more
    (env : Env) (body : SearchRequest) (userId : string) (w w' : World)
    (page : SearchResult) :
  0 <= page_size body ->
  0 <= page_offset body ->
  handleFacetedSearch env body userId w
  = (Returned (jsonResponse (SearchBody page) 200), w') ->
  let workspaceIds := select_workspaces userId (db w) in
  let matching := faceted_matching env body workspaceIds (db w) in
  let fetched :=
    faceted_page env body workspaceIds (page_size body + 1)
      (page_offset body) (db w) in
  has_more page = (page_size body <? Z.of_nat (List.length fetched))
  /\ (has_more page = true
      <-> Z.of_nat (List.length matching)
          > page_offset body + page_size body).
Proof.
  intros HP HO H. apply handleFacetedSearch_returned in H. cbv zeta in *.
  assert (Hlen : List.length
                   (faceted_page env body (select_workspaces userId (db w))
                      (page_size body + 1) (page_offset body) (db w))
                 = Nat.min (Z.to_nat (page_size body + 1))
                     (List.length
                        (faceted_matching env body
                           (select_workspaces userId (db w)) (db w))
                      - Z.to_nat (page_offset body))).
  { unfold faceted_page.
    rewrite limit_offset_length by lia. now rewrite order_by_length. }
  destruct H as [[Hws ->] | [_ ->]]; cbn [has_more].
  - rewrite Hws in *. rewrite faceted_matching_no_workspace in *.
    cbn [List.length] in *. rewrite Hlen. split.
    + symmetry. apply Z.ltb_ge. lia.
    + split; [discriminate | lia].
  - split; [reflexivity|]. rewrite Hlen, Z.ltb_lt. lia.
Qed.

Lemma faceted_has_more_witness :
  exists page w',
    handleFacetedSearch (Sample.env Sample.no_fault false) second_page
      "alice" two_ready_world
    = (Returned (jsonResponse (SearchBody page) 200), w')
    /\ has_more page = false
    /\ (has_more page = true
        <-> Z.of_nat
              (List.length
                 (faceted_matching (Sample.env Sample.no_fault false)
                    second_page
                    (select_workspaces "alice" (db two_ready_world))
                    (db two_ready_world)))
            > page_offset second_page + page_size second_page).
Proof.
  assert (HP : 0 <= page_size second_page) by (vm_compute; discriminate).
  assert (HO : 0 <= page_offset second_page) by (vm_compute; discriminate).
  destruct (handleFacetedSearch (Sample.env Sample.no_fault false)
              second_page "alice" two_ready_world) as [out w'] eqn:Hrun.
  pose proof Hrun as Hval. vm_compute in Hval.
  injection Hval as Hout Hw. subst out w'.
  eexists. eexists. split; [reflexivity|]. split; [reflexivity|].
  exact (proj2 (faceted_has_more _ _ _ _ _ _ HP HO Hrun)).
Defined.

(** C9.  The combined search on the request for the second page of one
    result, with two matching documents: [N = 2], [P = 1], [O = 1].  It
    does not read the offset: it answers [has_more = true] although
    [N > O + P] does not hold, and it returns the first document again,
    where the faceted search on the same request returns the second
    document and [has_more = false]. *)
Lemma combined_has_more_ignores_offset :
  exists page w',
    handleCombinedSearch (Sample.env Sample.no_fault false) second_page
      "alice" two_ready_world
    = (Returned (jsonResponse (SearchBody page) 200), w')
    /\ sp_total page = 2
    /\ page_size second_page = 1
    /\ page_offset second_page = 1
    /\ has_more page = true
    /\ ~ (sp_total page > page_offset second_page + page_size second_page)
    /\ map sr_id (sp_documents page) = ["a1"]
    /\ exists page' w'',
         handleFacetedSearch (Sample.env Sample.no_fault false) second_page
           "alice" two_ready_world
         = (Returned (jsonResponse (SearchBody page') 200), w'')
         /\ has_more page' = false
         /\ map sr_id (sp_documents page') = ["a2"].
Proof.
  eexists. eexists. split; [vm_compute; reflexivity|].
  split; [reflexivity|]. split; [reflexivity|]. split; [reflexivity|].
  split; [reflexivity|]. split; [cbn; lia|]. split; [reflexivity|].
  eexists. eexists. split; [vm_compute; reflexivity|].
  split; reflexivity.
Qed.

(** ** Ranking of the combined search *)

Lemma collect_scores_keys matches :
  forall ids scores,
    map fst scores = ids ->
    map fst (snd (collect_scores matches ids scores))
    = fst (collect_scores matches ids scores).
Proof.
  induction matches as [|m matches IH]; intros ids scores Hk; cbn;
    [exact Hk|].
  destruct (negb _); [now apply IH|].
  destruct (existsb _ scores); [now apply IH|].
  apply IH. rewrite map_app, Hk. reflexivity.
Qed.

Lemma semantic_candidates_keys env body workspaceIds w :
  map fst (snd (semantic_candidates env body workspaceIds w))
  = fst (semantic_candidates env body workspaceIds w).
Proof.
  unfold semantic_candidates. destruct (given (sq_query body)).
  - now apply collect_scores_keys.
  - reflexivity.
Qed.

Lemma score_of_key id scores :
  In id (map fst scores) -> exists s, score_of id scores = Some s.
Proof.
  induction scores as [|[k v] scores IH]; cbn; [tauto|].
  intros [-> | Hin].
  - rewrite String.eqb_refl. eauto.
  - destruct (k =? id)%string; eauto.
Qed.

Lemma in_strings_In s l : Sql.in_strings s l = true -> In s l.
Proof.
  unfold Sql.in_strings. intros H.
  apply existsb_exists in H as (x & Hin & Heq).
  apply String.eqb_eq in Heq. now subst.
Qed.

(** The results of one combined search all carry a score, or none
    does. *)
Lemma combined_sorted_homogeneous env body userId w :
  (forall r, In r (combined_sorted env body userId w) ->
             sr_relevance_score r = None)
  \/ (forall r, In r (combined_sorted env body userId w) ->
                exists s, sr_relevance_score r = Some s).
Proof.
  pose proof (semantic_candidates_keys env body
                (select_workspaces userId (db w)) w) as Hkeys.
  destruct (fst (semantic_candidates env body
                   (select_workspaces userId (db w)) w))
    as [|id0 ids] eqn:Hids.
  - left. intros r Hr.
    apply combined_sorted_in in Hr as (d0 & _ & ->).
    apply map_eq_nil in Hkeys. rewrite Hkeys. reflexivity.
  - right. intros r Hr.
    apply combined_sorted_in in Hr as (d0 & Hin & ->).
    rewrite Hids in Hin.
    apply combined_matching_spec in Hin as (_ & _ & Hid & _).
    cbn [when_nonempty] in Hid. apply in_strings_In in Hid.
    cbn [with_score sr_relevance_score sr_id enrich].
    apply score_of_key. rewrite Hkeys. exact Hid.
Qed.

(** Sorting with a comparator that, on the elements at hand, is the
    difference of a key, gives a list in descending order of that key. *)
Lemma js_sort_by_key {A : Type} (key : A -> Z) (cmp : A -> A -> Z)
    (l : list A) :
  (forall a b, In a l -> In b l -> cmp a b = key b - key a) ->
  StronglySorted (fun a b => key b <= key a) (js_sort cmp l).
Proof.
  intros Hcmp. unfold js_sort.
  apply order_by_sorted with (L := l).
  - intros a b c Hab Hbc. lia.
  - intros x y Hx Hy. rewrite (Hcmp x y Hx Hy). split; intros H.
    + apply Z.ltb_lt in H. lia.
    + apply Z.ltb_ge in H. lia.
  - apply incl_refl.
Qed.

Lemma js_sort_in {A : Type} (cmp : A -> A -> Z) l x :
  In x (js_sort cmp l) <-> In x l.
Proof. apply order_by_in. Qed.

Lemma combined_sorted_unfold env body userId w :
  exists l,
    combined_sorted env body userId w = js_sort (compare_results env) l.
Proof.
  unfold combined_sorted.
  destruct (semantic_candidates env body _ w) as [ids scores]. eauto.
Qed.

(** Any two results of the sorted list, the earlier one first, are in
    order. *)
Lemma combined_sorted_in_order env body userId w l1 a l2 b l3 n :
  firstn n (combined_sorted env body userId w) = l1 ++ a :: l2 ++ b :: l3 ->
  in_order env a b.
Proof.
  intros Hsplit.
  assert (Hin : forall x, In x (l1 ++ a :: l2 ++ b :: l3) ->
                          In x (combined_sorted env body userId w)).
  { intros x Hx. rewrite <- Hsplit in Hx. now apply firstn_in in Hx. }
  assert (Ha : In a (combined_sorted env body userId w)).
  { apply Hin. apply in_or_app. right. now left. }
  assert (Hb : In b (combined_sorted env body userId w)).
  { apply Hin. apply in_or_app. right. right. apply in_or_app. right.
    now left. }
  destruct (combined_sorted_unfold env body userId w) as [l Hl].
  unfold in_order.
  destruct (combined_sorted_homogeneous env body userId w) as [Hnone | Hsome].
  - rewrite (Hnone a Ha), (Hnone b Hb).
    assert (Hs : StronglySorted
                   (fun x y => getTime env (sr_created_at y)
                               <= getTime env (sr_created_at x))
                   (combined_sorted env body userId w)).
    { rewrite Hl. apply js_sort_by_key. intros x y Hx Hy.
      rewrite <- js_sort_in with (cmp := compare_results env) in Hx, Hy.
      rewrite <- Hl in Hx, Hy. unfold compare_results.
      now rewrite (Hnone x Hx). }
    apply (StronglySorted_firstn _ n) in Hs. rewrite Hsplit in Hs.
    exact (StronglySorted_pair _ _ _ _ _ _ Hs).
  - destruct (Hsome a Ha) as [sa Hsa]. destruct (Hsome b Hb) as [sb Hsb].
    rewrite Hsa, Hsb.
    set (key := fun r => match sr_relevance_score r with
                         | Some s => s
                         | None => 0
                         end).
    assert (Hs : StronglySorted (fun x y => key y <= key x)
                   (combined_sorted env body userId w)).
    { rewrite Hl. apply js_sort_by_key. intros x y Hx Hy.
      rewrite <- js_sort_in with (cmp := compare_results env) in Hx, Hy.
      rewrite <- Hl in Hx, Hy. unfold compare_results, key.
      destruct (Hsome x Hx) as [sx ->]. destruct (Hsome y Hy) as [sy ->].
      reflexivity. }
    apply (StronglySorted_firstn _ n) in Hs. rewrite Hsplit in Hs.
    apply StronglySorted_pair in Hs. unfold key in Hs.
    now rewrite Hsa, Hsb in Hs.
Qed.

(** C2.  The page of the combined search.  When tags are given, every
    returned document has an association to a tag with one of the given
    names.  Of any two returned documents, the earlier one has the higher
    or the same score when both carry a score, and the later or the same
    creation date when neither does; an unscored document never comes
    before a scored one. *)
Theorem combined_search_filtered_and_ranked
    (env : Env) (body : SearchRequest) (userId : string) (w w' : World)
    (page : SearchResult) (q tag : string) (others : list string) :
  given (sq_query body) = Some q ->
  given_list (sq_tags body) = tag :: others ->
  handleCombinedSearch env body userId w
  = (Returned (jsonResponse (SearchBody page) 200), w') ->
  (forall r, In r (sp_documents page) ->
             has_tag_named (db w) (sr_id r) (tag :: others) = true)
  /\ (forall l1 a l2 b l3,
         sp_documents page = l1 ++ a :: l2 ++ b :: l3 ->
         in_order env a b).
Proof.
  intros _ Htags H. apply handleCombinedSearch_returned in H.
  destruct H as [[_ ->] | [_ ->]]; cbn [sp_documents].
  - split; [intros r []|]. intros [|x l1] a l2 b l3 Hnil; discriminate.
  - split.
    + intros r Hr. apply slice_in in Hr.
      apply combined_sorted_in in Hr as (d0 & Hin & ->).
      apply combined_matching_spec in Hin as (_ & _ & _ & Ht).
      rewrite Htags in Ht. exact Ht.
    + intros l1 a l2 b l3 Hsplit. rewrite slice_from_0 in Hsplit.
      exact (combined_sorted_in_order _ _ _ _ _ _ _ _ _ _ Hsplit).
Qed.

Lemma combined_search_filtered_and_ranked_witness :
  exists page w',
    handleCombinedSearch (Sample.env Sample.no_fault false) acme_request
      "alice" search_world
    = (Returned (jsonResponse (SearchBody page) 200), w')
    /\ map sr_id (sp_documents page) = ["b1"; "b2"]
    /\ map sr_relevance_score (sp_documents page) = [Some 1000; Some 997]
    /\ (forall r, In r (sp_documents page) ->
                  has_tag_named (db search_world) (sr_id r) ["vendor:acme"]
                  = true)
    /\ (forall l1 a l2 b l3,
           sp_documents page = l1 ++ a :: l2 ++ b :: l3 ->
           in_order (Sample.env Sample.no_fault false) a b).
Proof.
  destruct (handleCombinedSearch (Sample.env Sample.no_fault false)
              acme_request "alice" search_world) as [out w'] eqn:Hrun.
  pose proof Hrun as Hval. vm_compute in Hval.
  injection Hval as Hout Hw. subst out w'.
  eexists. eexists. split; [reflexivity|].
  split; [reflexivity|]. split; [reflexivity|].
  exact (combined_search_filtered_and_ranked
           (Sample.env Sample.no_fault false) acme_request "alice"
           search_world _ _ "invoice" "vendor:acme" [] eq_refl eq_refl Hrun).
Defined.

(** ** Chat context *)

Lemma in_strings_false s l : Sql.in_strings s l = false -> ~ In s l.
Proof.
  unfold Sql.in_strings. intros H Hin.
  apply not_true_iff_false in H. apply H. apply existsb_exists.
  exists s. split; [exact Hin | apply String.eqb_refl].
Qed.

Lemma title_or_unknown_idem t :
  title_or_unknown (Some (title_or_unknown t)) = title_or_unknown t.
Proof.
  destruct t as [s|]; [|reflexivity].
  unfold title_or_unknown. destruct (Js.truthy s) eqn:Hs.
  - now rewrite Hs.
  - reflexivity.
Qed.

Lemma retrieve_loop_spec env d matches :
  forall sources seenDocs w out w',
    db w = d ->
    context_invariant d sources seenDocs ->
    retrieve_loop env matches sources seenDocs w = (Returned out, w') ->
    (exists seenDocs', context_invariant d out seenDocs')
    /\ (List.length out <= List.length sources + List.length matches)%nat
    /\ (forall s, In s out ->
                  In s sources
                  \/ exists m, In m matches /\ source_of_match s m).
Proof.
  induction matches as [|m matches IH];
    intros sources seenDocs w out w' Hdb Hinv Hrun;
    cbn [retrieve_loop] in Hrun.
  - inversion Hrun; subst. split; [eauto|]. split; [cbn; lia | auto].
  - assert (Hskip : forall v,
               db v = d ->
               retrieve_loop env matches sources seenDocs v
               = (Returned out, w') ->
               (exists seenDocs', context_invariant d out seenDocs')
               /\ (List.length out
                   <= List.length sources + List.length (m :: matches))%nat
               /\ (forall s, In s out ->
                             In s sources
                             \/ exists m', In m' (m :: matches)
                                           /\ source_of_match s m')).
    { intros v Hv Hr.
      destruct (IH _ _ _ _ _ Hv Hinv Hr) as (Hi & Hl & Hs).
      split; [exact Hi|]. split; [cbn; lia|].
      intros s Hin. destruct (Hs s Hin) as [H | (m' & Hm' & H)]; auto.
      right. exists m'. split; [now right | exact H]. }
    set (docId := md_document_id (match_metadata m)) in *.
    destruct (negb (Js.truthy docId)); [now apply (Hskip w)|].
    destruct Hinv as (Hnodup & Hfive & Hsrc & Hseen).
    assert (Hadded : forall v seen' title,
               db v = d ->
               title = resolved_title d docId ->
               context_invariant d
                 (sources ++ [mkChatSource docId title (match_id m)
                                (md_text (match_metadata m))
                                (match_score m)]) seen' ->
               retrieve_loop env matches
                 (sources ++ [mkChatSource docId title (match_id m)
                                (md_text (match_metadata m))
                                (match_score m)]) seen' v
               = (Returned out, w') ->
               (exists seenDocs', context_invariant d out seenDocs')
               /\ (List.length out
                   <= List.length sources + List.length (m :: matches))%nat
               /\ (forall s, In s out ->
                             In s sources
                             \/ exists m', In m' (m :: matches)
                                           /\ source_of_match s m')).
    { intros v seen' title Hv Ht Hi Hr.
      destruct (IH _ _ _ _ _ Hv Hi Hr) as (Hi' & Hl & Hs).
      split; [exact Hi'|]. split.
      - rewrite length_app in Hl. cbn in *. lia.
      - intros s Hin. destruct (Hs s Hin) as [H | (m' & Hm' & H)].
        + apply in_app_or in H as [H | [<- | []]]; [now left|].
          right. exists m. split; [now left|]. repeat split.
        + right. exists m'. split; [now right | exact H]. }
    destruct (Sql.in_strings docId seenDocs) eqn:Hmem;
      change (negb true) with false in Hrun;
      change (negb false) with true in Hrun.
    + rewrite andb_false_r in Hrun.
      apply in_strings_In in Hmem.
      destruct (Hseen docId Hmem) as (s0 & Hs0 & Hid0).
      assert (Htitle :
                title_or_unknown
                  (option_map cs_document_title
                     (find (fun s => (cs_document_id s =? docId)%string)
                        sources))
                = resolved_title d docId).
      { destruct (find _ sources) as [s1|] eqn:Hfind.
        - apply find_some in Hfind as [Hin1 Heq1].
          apply String.eqb_eq in Heq1. cbn [option_map].
          rewrite (proj2 (Hsrc s1 Hin1)), Heq1.
          apply title_or_unknown_idem.
        - exfalso. apply (find_none _ _ Hfind) in Hs0.
          rewrite Hid0, String.eqb_refl in Hs0. discriminate. }
      apply (Hadded w seenDocs _ Hdb Htitle); [|exact Hrun].
      split; [exact Hnodup|]. split; [exact Hfive|]. split.
      * intros s Hin. apply in_app_or in Hin as [Hin | [<- | []]];
          [now apply Hsrc|]. cbn. auto.
      * intros id Hin. destruct (Hseen id Hin) as (s & Hs & Hid).
        exists s. split; [apply in_or_app; now left | exact Hid].
    + rewrite andb_true_r in Hrun.
      destruct (5 <=? List.length seenDocs)%nat eqn:Hcap;
        [now apply (Hskip w)|].
      apply Nat.leb_gt in Hcap. apply in_strings_false in Hmem.
      apply bind_returned_inv in Hrun as (doc & w1 & Hq & Hrun).
      apply d1_query_inv in Hq as [-> ->].
      apply (Hadded (tick w) (seenDocs ++ [docId])
               (title_or_unknown (select_title docId (db w))) Hdb);
        [unfold resolved_title; now rewrite Hdb | | exact Hrun].
      split; [|split; [|split]].
      * apply NoDup_app; [exact Hnodup | repeat constructor; auto |].
        intros x Hx [<- | []]. contradiction.
      * rewrite length_app. cbn. lia.
      * intros s Hin. apply in_app_or in Hin as [Hin | [<- | []]].
        -- destruct (Hsrc s Hin) as [H1 H2]. split; [|exact H2].
           apply in_or_app. now left.
        -- cbn. split; [|unfold resolved_title; now rewrite Hdb].
           apply in_or_app. right. now left.
      * intros id Hin. apply in_app_or in Hin as [Hin | [<- | []]].
        -- destruct (Hseen id Hin) as (s & Hs & Hid).
           exists s. split; [apply in_or_app; now left | exact Hid].
        -- eexists. split; [apply in_or_app; right; now left|]. reflexivity.
Qed.

Lemma vectors_matches_spec env index q topK f m :
  In m (vectors_matches env index q topK f) ->
  exists e,
    In e index /\ filter_accepts f e = true
    /\ match_id m = vec_id e /\ match_metadata m = vec_metadata e.
Proof.
  unfold vectors_matches. intros H.
  apply firstn_in in H. apply order_by_in in H.
  apply in_map_iff in H as (e & <- & Hin).
  apply filter_In in Hin as [Hin Hf]. exists e. auto.
Qed.

(** C7, as the code has it.  The context of a chat turn is built from at
    most 10 matches of the vector index, all from entries of the
    session's workspace.  The sources name at most 5 distinct documents,
    and every source carries the title of its document (or 'Unknown
    Document' when the document has no row or an empty title).  A
    document may have several sources, one per matching chunk. *)
Theorem retrieveContext_sources
    (env : Env) (query workspaceId : string) (w w' : World)
    (sources : list ChatSource) :
  retrieveContext env query workspaceId w = (Returned sources, w') ->
  (List.length sources <= 10)%nat
  /\ (List.length (nodup string_dec (map cs_document_id sources)) <= 5)%nat
  /\ (forall s,
         In s sources ->
         cs_document_title s = resolved_title (db w) (cs_document_id s)
         /\ exists e,
              In e (vectors w)
              /\ vec_id e = cs_chunk_id s
              /\ md_document_id (vec_metadata e) = cs_document_id s
              /\ md_workspace_id (vec_metadata e) = workspaceId).
Proof.
  unfold retrieveContext. intros H.
  apply bind_returned_inv in H as (emb & w1 & Hemb & H).
  apply generateEmbedding_inv in Hemb as [-> ->].
  apply bind_returned_inv in H as (matches & w2 & Hq & H).
  apply vectors_query_inv in Hq as [-> ->].
  cbn [vectors tick] in H.
  set (matches := vectors_matches env (vectors w) (embedding_of env query) 10
                    (WorkspaceIs workspaceId)) in *.
  assert (Hinit : context_invariant (db w) [] []).
  { split; [constructor|]. split; [cbn; lia|]. split; intros ? []. }
  destruct (retrieve_loop_spec env (db w) matches [] [] (tick (tick w)) _ _
              eq_refl Hinit H)
    as ((seen & Hnodup & Hfive & Hsrc & _) & Hlen & Hfrom).
  split; [|split].
  - assert (Hten : (List.length matches <= 10)%nat).
    { unfold matches, vectors_matches. change 10%nat with (Z.to_nat 10).
      apply firstn_le_length. }
    cbn [List.length Nat.add] in Hlen. lia.
  - etransitivity; [|exact Hfive].
    apply NoDup_incl_length; [apply NoDup_nodup|].
    intros id Hid. apply nodup_In in Hid.
    apply in_map_iff in Hid as (s & <- & Hs). now apply Hsrc.
  - intros s Hs. split; [now apply Hsrc|].
    destruct (Hfrom s Hs) as [[] | (m & Hm & Hid & Hdoc & _)].
    apply vectors_matches_spec in Hm as (e & He & Hf & Hmid & Hmeta).
    exists e. split; [exact He|]. rewrite Hid, Hdoc, Hmid, Hmeta.
    cbn in Hf. apply String.eqb_eq in Hf. auto.
Qed.

Lemma retrieveContext_sources_witness :
  exists sources w',
    retrieveContext (Sample.env Sample.no_fault false) "invoice" "W1"
      search_world
    = (Returned sources, w')
    /\ map cs_chunk_id sources = ["b1_0"; "b3_0"; "b1_1"; "b2_0"]
    /\ (List.length sources <= 10)%nat
    /\ (List.length (nodup string_dec (map cs_document_id sources)) <= 5)%nat
    /\ (forall s,
           In s sources ->
           cs_document_title s
           = resolved_title (db search_world) (cs_document_id s)
           /\ exists e,
                In e (vectors search_world)
                /\ vec_id e = cs_chunk_id s
                /\ md_document_id (vec_metadata e) = cs_document_id s
                /\ md_workspace_id (vec_metadata e) = "W1").
Proof.
  destruct (retrieveContext (Sample.env Sample.no_fault false) "invoice"
              "W1" search_world) as [out w'] eqn:Hrun.
  pose proof Hrun as Hval. vm_compute in Hval.
  injection Hval as Hout Hw. subst out w'.
  eexists. eexists. split; [reflexivity|]. split; [reflexivity|].
  exact (retrieveContext_sources _ _ _ _ _ _ Hrun).
Defined.

(** The document "b1" has two matching chunks, and the context lists it
    twice: the sources do not have one entry per document. *)
Lemma retrieveContext_repeats_document :
  exists sources w',
    retrieveContext (Sample.env Sample.no_fault false) "invoice" "W1"
      search_world
    = (Returned sources, w')
    /\ map cs_document_id sources = ["b1"; "b3"; "b1"; "b2"]
    /\ ~ NoDup (map cs_document_id sources).
Proof.
  eexists. eexists. split; [vm_compute; reflexivity|].
  split; [reflexivity|].
  cbn. intros H. inversion H as [|? ? Hnotin _]; subst.
  apply Hnotin. right. now left.
Qed.

(** * Further properties *)

(** ** Shape of the chunks *)

Lemma chunk_loop_ranges fuel :
  forall words wpc ov start acc res,
    0 <= ov < wpc -> 0 <= start ->
    chunk_loop fuel words wpc ov start acc = Some res ->
    exists ranges,
      res = acc ++ map (chunk_of_range words) ranges
      /\ (forall i, start <= i < Z.of_nat (List.length words) ->
                    exists r, In r ranges /\ fst r <= i < snd r)
      /\ (forall r, In r ranges ->
                    start <= fst r /\ fst r < snd r
                    /\ snd r <= Z.of_nat (List.length words)
                    /\ snd r - fst r <= wpc)
      /\ chained ov ranges
      /\ (forall r, hd_error ranges = Some r -> fst r = start).
Proof.
  induction fuel as [|fuel IH]; intros words wpc ov start acc res Hov Hstart;
    cbn [chunk_loop]; [discriminate|].
  set (len := Z.of_nat (List.length words)).
  destruct (Z.ltb_spec start len) as [Hlt|Hge].
  - rewrite Z.geb_leb.
    destruct (Z.leb_spec (len - ov) (Z.min (start + wpc) len - ov))
      as [Hstop|Hgo]; intros H.
    + inversion H; subst res. exists [(start, Z.min (start + wpc) len)].
      split; [reflexivity|]. split; [|split; [|split]].
      * intros i Hi. eexists. split; [now left|]. cbn. lia.
      * intros r [<- | []]. cbn. lia.
      * exact Logic.I.
      * intros r Hr. inversion Hr. reflexivity.
    + apply IH in H as (ranges & -> & Hcover & Hvalid & Hchain & Hhead);
        [|lia|lia].
      exists ((start, Z.min (start + wpc) len) :: ranges).
      split; [now rewrite <- app_assoc|]. split; [|split; [|split]].
      * intros i Hi.
        destruct (Z.lt_ge_cases i (Z.min (start + wpc) len)) as [Hin|Hout].
        -- eexists. split; [now left|]. cbn. lia.
        -- destruct (Hcover i) as (r & Hr & Hri); [lia|].
           exists r. split; [now right | exact Hri].
      * intros r [<- | Hr]; [cbn; lia|].
        destruct (Hvalid r Hr) as (H1 & H2 & H3 & H4). lia.
      * destruct ranges as [|r2 rest]; [exact Logic.I|].
        split; [|exact Hchain]. cbn. now apply Hhead.
      * intros r Hr. inversion Hr. reflexivity.
  - intros H. inversion H; subst res. exists [].
    split; [now rewrite app_nil_r|]. split; [intros i Hi; lia|].
    split; [intros r []|]. split; [exact Logic.I | discriminate].
Qed.

Lemma slice_length {A : Type} (l : list A) s e :
  0 <= s <= e -> e <= Z.of_nat (List.length l) ->
  Z.of_nat (List.length (Js.slice l s e)) = e - s.
Proof.
  intros Hs He. unfold Js.slice, Js.rel_index.
  destruct (Z.ltb_spec s 0); [lia|]. destruct (Z.ltb_spec e 0); [lia|].
  rewrite length_firstn, length_skipn. lia.
Qed.

(** The chunks of a text, with the parameters the pipeline uses: they are
    the word ranges [s, e) of a chain that starts at word 0, in which
    each range starts 48 words before the end of the previous one; every
    word of the text lies in one of the ranges; a range holds between 1
    and 384 words, and the token count of its chunk is between 2 and
    512. *)
Theorem chunks_cover_the_text (text : string) :
  exists ranges,
    chunkText text 512 64
    = Some (map (chunk_of_range (Js.split_ws text)) ranges)
    /\ (forall i, 0 <= i < Z.of_nat (List.length (Js.split_ws text)) ->
                  exists r, In r ranges /\ fst r <= i < snd r)
    /\ (forall r, In r ranges ->
                  0 <= fst r /\ 1 <= snd r - fst r <= 384
                  /\ snd r <= Z.of_nat (List.length (Js.split_ws text))
                  /\ 2 <= tokenCount (chunk_of_range (Js.split_ws text) r)
                     <= 512)
    /\ chained 48 ranges
    /\ (forall r, hd_error ranges = Some r -> fst r = 0).
Proof.
  destruct (chunkText_default_total text) as [chunks Hc].
  pose proof Hc as Hr. unfold chunkText, chunkText_fuel in Hr.
  change (floor_three_quarters 512) with 384 in Hr.
  change (floor_three_quarters 64) with 48 in Hr.
  apply chunk_loop_ranges in Hr
    as (ranges & -> & Hcover & Hvalid & Hchain & Hhead); [|lia|lia].
  exists ranges. split; [exact Hc|]. split; [exact Hcover|].
  split; [|split; assumption].
  intros r Hin. destruct (Hvalid r Hin) as (H1 & H2 & H3 & H4).
  split; [lia|]. split; [lia|]. split; [exact H3|].
  unfold chunk_of_range. cbn [tokenCount].
  rewrite slice_length by lia. unfold ceil_div_three_quarters.
  split.
  - apply Z.div_le_lower_bound; lia.
  - apply Z.lt_succ_r. apply Z.div_lt_upper_bound; lia.
Qed.

(** ** When the chunk loop ends *)

Lemma chunk_loop_diverges fuel :
  forall words wpc ov start acc,
    wpc <= ov ->
    start < Z.of_nat (List.length words) ->
    start + wpc < Z.of_nat (List.length words) ->
    chunk_loop fuel words wpc ov start acc = None.
Proof.
  induction fuel as [|fuel IH]; intros words wpc ov start acc Hov Hlt Hroom;
    cbn [chunk_loop]; [reflexivity|].
  destruct (Z.ltb_spec start (Z.of_nat (List.length words))); [|lia].
  rewrite Z.geb_leb.
  destruct (Z.leb_spec (Z.of_nat (List.length words) - ov)
              (Z.min (start + wpc) (Z.of_nat (List.length words)) - ov));
    [lia|].
  apply IH; lia.
Qed.

(** [chunkText] returns for every text when the overlap is smaller than
    the window.  When it is not, and the text has more words than one
    window, the loop never leaves: the window does not advance. *)
Theorem chunkText_ends_iff_window_advances
    (text : string) (targetTokens overlapTokens : Z) :
  (floor_three_quarters overlapTokens < floor_three_quarters targetTokens ->
   exists chunks, chunkText text targetTokens overlapTokens = Some chunks)
  /\ (floor_three_quarters targetTokens <= floor_three_quarters overlapTokens ->
      floor_three_quarters targetTokens
      < Z.of_nat (List.length (Js.split_ws text)) ->
      forall fuel,
        chunkText_fuel fuel text targetTokens overlapTokens = None).
Proof.
  split.
  - intros Hadv. unfold chunkText, chunkText_fuel.
    apply chunk_loop_terminates; [exact Hadv | lia | lia].
  - intros Hstuck Hlong fuel. unfold chunkText_fuel.
    apply chunk_loop_diverges; [exact Hstuck | | lia].
    destruct (Js.split_ws text) eqn:Hw.
    + now elim (split_ws_from_nonempty _ _ _ Hw).
    + cbn [List.length]. lia.
Qed.

Lemma chunkText_ends_iff_window_advances_witness :
  (exists chunks, chunkText "hello world" 512 64 = Some chunks)
  /\ (forall fuel, chunkText_fuel fuel "a b c" 2 2 = None).
Proof.
  split.
  - apply (proj1 (chunkText_ends_iff_window_advances "hello world" 512 64)).
    vm_compute. reflexivity.
  - apply (proj2 (chunkText_ends_iff_window_advances "a b c" 2 2)).
    + vm_compute. discriminate.
    + vm_compute. reflexivity.
Defined.

(** ** Extraction degrades, it does not fail *)

Lemma same_data_refl w : same_data w w.
Proof. repeat split. Qed.

Lemma same_data_tick w : same_data w (tick w).
Proof. repeat split. Qed.

Lemma same_data_trans w1 w2 w3 :
  same_data w1 w2 -> same_data w2 w3 -> same_data w1 w3.
Proof.
  unfold same_data. intros (a1 & a2 & a3 & a4 & a5) (b1 & b2 & b3 & b4 & b5).
  repeat split; congruence.
Qed.

(** [extractWithAI] always returns, and changes nothing. *)
Lemma extractWithAI_returns env content mimeType w :
  exists text w',
    extractWithAI env content mimeType w = (Returned text, w')
    /\ same_data w w'
    /\ (String.prefix "image/" mimeType = false ->
        text = ("[Document type " ++ mimeType
                  ++ " - text extraction pending]")%string)
    /\ (String.prefix "image/" mimeType = true ->
        (max_arguments env < String.length content)%nat ->
        text = ("[Could not extract text from " ++ mimeType ++ "]")%string
        /\ w' = w)
    /\ (String.prefix "image/" mimeType = true ->
        forall e, fault env (ticks w) = Some e ->
                  text = ("[Could not extract text from " ++ mimeType
                            ++ "]")%string).
Proof.
  unfold extractWithAI, try_catch, fromCharCode_spread.
  destruct (String.prefix "image/" mimeType) eqn:Himg.
  - unfold bind at 1.
    destruct (max_arguments env <? String.length content)%nat eqn:Hmax.
    + cbn [throw ret]. eexists. eexists. split; [reflexivity|].
      split; [apply same_data_refl|]. split; [discriminate|].
      split; [intros _ _; now split|]. intros _ e' He'. reflexivity.
    + apply Nat.ltb_ge in Hmax. cbn [ret]. unfold bind, call.
      destruct (fault env (ticks w)) as [e|] eqn:Hf.
      * eexists. eexists. split; [reflexivity|].
        split; [apply same_data_tick|]. split; [discriminate|].
        split; [intros _ Hlt; lia|]. intros _ e' He'. reflexivity.
      * eexists. eexists. split; [reflexivity|].
        split; [apply same_data_tick|]. split; [discriminate|].
        split; [intros _ Hlt; lia|]. intros _ e' He'. discriminate.
  - eexists. eexists. split; [reflexivity|].
    split; [apply same_data_refl|]. split; [reflexivity|].
    split; discriminate.
Qed.

(** [extractText] after an accepted read of the body. *)
Lemma extractText_accepted env file mimeType w :
  fault env (ticks w) = None ->
  exists text w',
    extractText env file mimeType w = (Returned text, w')
    /\ same_data w w'
    /\ (mimeType = "text/plain" -> text = utf8_decode env file)
    /\ (mimeType = "application/pdf" ->
        forall e, pdf_text env file = inl e ->
          text = "[Document type application/pdf - text extraction pending]")
    /\ (mimeType = "application/pdf" ->
        pdf_text env file = inr "" ->
        text = "[PDF content could not be extracted]")
    /\ (String.prefix "image/" mimeType = true ->
        (max_arguments env < String.length file)%nat ->
        text = ("[Could not extract text from " ++ mimeType ++ "]")%string)
    /\ (handled_mime mimeType = false ->
        text = ("[Unsupported document type: " ++ mimeType
                  ++ "]")%string).
Proof.
  intros Hok. unfold extractText, arrayBuffer.
  unfold bind at 1. rewrite (call_accepted _ _ _ Hok).
  unfold handled_mime.
  destruct (String.eqb_spec mimeType "text/plain") as [Hplain|Hplain].
  { eexists. eexists. split; [reflexivity|].
    split; [apply same_data_tick|]. subst mimeType.
    repeat split; try discriminate. }
  destruct (String.eqb_spec mimeType "application/pdf") as [Hpdf|Hpdf].
  { subst mimeType. unfold try_catch.
    destruct (pdf_text env file) as [e|text] eqn:Hpdf.
    - cbn [throw].
      destruct (extractWithAI_returns env file "application/pdf" (tick w))
        as (text & w' & Hrun & Hsame & Hpend & _).
      rewrite Hrun. exists text, w'. split; [reflexivity|].
      split; [exact (same_data_trans _ _ _ (same_data_tick w) Hsame)|].
      split; [discriminate|]. split; [|split; [discriminate|]].
      + intros _ e' _. now apply Hpend.
      + split; cbn; discriminate.
    - cbn [ret]. eexists. eexists. split; [reflexivity|].
      split; [apply same_data_tick|]. split; [discriminate|].
      split; [discriminate|]. split; [|split; cbn; discriminate].
      intros _ Hempty. injection Hempty as ->. reflexivity. }
  cbn [orb].
  destruct (String.prefix "image/" mimeType) eqn:Himg.
  { destruct (extractWithAI_returns env file mimeType (tick w))
      as (text & w' & Hrun & Hsame & _ & Hlarge & _).
    exists text, w'. split; [exact Hrun|].
    split; [exact (same_data_trans _ _ _ (same_data_tick w) Hsame)|].
    repeat split; try contradiction; try discriminate.
    intros _ Hlt. now apply Hlarge. }
  destruct (String.eqb_spec mimeType docx_mime) as [Hdocx|Hdocx].
  { destruct (extractWithAI_returns env file mimeType (tick w))
      as (text & w' & Hrun & Hsame & _).
    unfold try_catch. rewrite Hrun.
    exists text, w'. split; [reflexivity|].
    split; [exact (same_data_trans _ _ _ (same_data_tick w) Hsame)|].
    repeat split; try contradiction; discriminate. }
  destruct (String.eqb_spec mimeType xlsx_mime) as [Hxlsx|Hxlsx].
  { destruct (extractWithAI_returns env file mimeType (tick w))
      as (text & w' & Hrun & Hsame & _).
    exists text, w'. split; [exact Hrun|].
    split; [exact (same_data_trans _ _ _ (same_data_tick w) Hsame)|].
    repeat split; try contradiction; discriminate. }
  eexists. eexists. split; [reflexivity|].
  split; [apply same_data_tick|].
  repeat split; try contradiction; try discriminate; reflexivity.
Qed.

(** Once the body of the file has been read, [extractText] returns a
    text whatever the mime type and whatever unpdf or the vision model
    do; it writes nothing.  Plain text is the decoded body; a PDF that
    unpdf cannot read, an image with more bytes than a call takes
    arguments, and a mime type without a branch, give a placeholder.
    The only exception [extractText] lets through is a rejected read of
    the body. *)
Theorem extractText_degrades
    (env : Env) (file mimeType : string) (w : World) :
  (forall e, fault env (ticks w) = Some e ->
             extractText env file mimeType w = (Threw e, tick w))
  /\ (fault env (ticks w) = None ->
      exists text w',
        extractText env file mimeType w = (Returned text, w')
        /\ same_data w w'
        /\ (mimeType = "text/plain" -> text = utf8_decode env file)
        /\ (mimeType = "application/pdf" ->
            forall e, pdf_text env file = inl e ->
              text = "[Document type application/pdf - text extraction pending]")
        /\ (mimeType = "application/pdf" ->
            pdf_text env file = inr "" ->
            text = "[PDF content could not be extracted]")
        /\ (String.prefix "image/" mimeType = true ->
            (max_arguments env < String.length file)%nat ->
            text = ("[Could not extract text from " ++ mimeType
                      ++ "]")%string)
        /\ (handled_mime mimeType = false ->
            text = ("[Unsupported document type: " ++ mimeType
                      ++ "]")%string)).
Proof.
  split.
  - intros e He. unfold extractText, arrayBuffer.
    unfold bind at 1. now rewrite (call_rejected _ _ _ _ He).
  - apply extractText_accepted.
Qed.

Lemma extractText_degrades_witness :
  exists text w',
    extractText (Sample.env Sample.no_fault false) Sample.marked_note
      "text/plain" Sample.empty_world
    = (Returned text, w')
    /\ same_data Sample.empty_world w'
    /\ text = "hello world".
Proof.
  destruct (proj2 (extractText_degrades (Sample.env Sample.no_fault false)
                     Sample.marked_note "text/plain" Sample.empty_world)
              eq_refl)
    as (text & w' & Hrun & Hsame & Hplain & _).
  exists text, w'. split; [exact Hrun|]. split; [exact Hsame|].
  now rewrite Hplain.
Defined.

(** ** A run of the pipeline in which nothing fails *)

Lemma of_nat_inj i j : Js.of_nat i = Js.of_nat j -> i = j.
Proof.
  unfold Js.of_nat. intros H.
  apply (f_equal NilEmpty.uint_of_string) in H.
  rewrite !NilEmpty.usu in H. injection H as H.
  now apply DecimalNat.Unsigned.to_uint_inj.
Qed.

Lemma chunk_key_inj id i j : chunk_key id i = chunk_key id j -> i = j.
Proof.
  unfold chunk_key. intros H. apply append_cancel_l in H.
  apply (append_cancel_l "_") in H. now apply of_nat_inj.
Qed.

Lemma lookup_remove_file key f :
  lookup_file key (remove_file key f) = None.
Proof.
  induction f as [|[k v] f IH]; [reflexivity|].
  unfold remove_file in *. cbn [filter fst].
  destruct (String.eqb_spec k key) as [Heq|Hne]; cbn [negb]; [exact IH|].
  cbn [lookup_file]. apply String.eqb_neq in Hne. now rewrite Hne.
Qed.

Lemma lookup_file_app key f g :
  lookup_file key (f ++ g)
  = match lookup_file key f with
    | Some v => Some v
    | None => lookup_file key g
    end.
Proof.
  induction f as [|[k v] f IH]; [reflexivity|].
  cbn [app lookup_file]. now destruct (k =? key)%string.
Qed.

(** What was put under a key is what a read of the key gives. *)
Lemma lookup_store_file key value f :
  lookup_file key (store_file key value f) = Some value.
Proof.
  unfold store_file. rewrite lookup_file_app, lookup_remove_file.
  cbn. now rewrite String.eqb_refl.
Qed.

Lemma upsert_vector_ids e v :
  forall k, In k (map vec_id (upsert_vector e v))
            <-> In k (map vec_id v) \/ k = vec_id e.
Proof.
  intros k. unfold upsert_vector.
  destruct (existsb (fun e' => (vec_id e' =? vec_id e)%string) v) eqn:Hex.
  - rewrite map_map.
    assert (Hsame : map (fun x => vec_id (if (vec_id x =? vec_id e)%string
                                          then e else x)) v
                    = map vec_id v).
    { apply map_ext. intros x.
      destruct (String.eqb_spec (vec_id x) (vec_id e)); congruence. }
    rewrite Hsame. split; [tauto|]. intros [H| ->]; [exact H|].
    apply existsb_exists in Hex as (x & Hin & Heq).
    apply String.eqb_eq in Heq. rewrite <- Heq. now apply in_map.
  - rewrite map_app, in_app_iff. cbn. intuition.
Qed.

Section Quiet.

Variable env : Env.
Hypothesis env_quiet : quiet env.
Variable data : ProcessingQueueMessage.

Lemma call_quiet {A : Type} (effect : World -> Outcome A * World) w :
  call env effect w = effect (tick w).
Proof. apply call_accepted, env_quiet. Qed.

(** One iteration of the chunk loop: one vector, one row. *)
Lemma store_chunk_quiet i chunk w :
  stored (document_id data) w ->
  ~ In (chunk_key (document_id data) i)
      (map chunk_id (document_chunks (db w))) ->
  exists w',
    store_chunk env data i chunk w = (Returned tt, w')
    /\ db w'
       = Sql.with_document_chunks (db w)
           (document_chunks (db w) ++ [chunk_row (document_id data) i chunk])
    /\ files w' = files w
    /\ (forall k, In k (map vec_id (vectors w'))
                  <-> In k (map vec_id (vectors w))
                      \/ k = chunk_key (document_id data) i).
Proof.
  intros Hstored Hfresh.
  unfold store_chunk, generateEmbedding, vectors_upsert, d1_insert.
  unfold bind at 1. rewrite call_quiet.
  unfold bind at 1. rewrite call_quiet. rewrite call_quiet.
  cbn [db tick set_vectors set_db].
  rewrite insert_document_chunk_accepted; [|exact Hfresh | exact Hstored].
  eexists. split; [reflexivity|]. split; [reflexivity|].
  split; [reflexivity|].
  intros k. cbn. rewrite upsert_vector_ids. cbn. reflexivity.
Qed.

Lemma embed_and_store_quiet chunks :
  forall from w,
    stored (document_id data) w ->
    (forall i, (from <= i)%nat ->
               ~ In (chunk_key (document_id data) i)
                   (map chunk_id (document_chunks (db w)))) ->
    exists w',
      for_each_indexed from chunks (store_chunk env data) w
      = (Returned tt, w')
      /\ db w'
         = Sql.with_document_chunks (db w)
             (document_chunks (db w)
                ++ chunk_rows (document_id data) from chunks)
      /\ files w' = files w
      /\ (forall i chunk,
             nth_error chunks i = Some chunk ->
             In (chunk_key (document_id data) (from + i))
               (map vec_id (vectors w'))).
Proof.
  induction chunks as [|chunk rest IH]; intros from w Hstored Hfresh.
  - exists w. cbn. rewrite app_nil_r. split; [reflexivity|].
    split; [now destruct (db w)|]. split; [reflexivity|].
    intros [|i] c H; discriminate.
  - destruct (store_chunk_quiet from chunk w Hstored (Hfresh from (le_n _)))
      as (w1 & R1 & D1 & F1 & V1).
    destruct (IH (S from) w1) as (w' & R & D & F & V).
    { unfold stored. now rewrite D1. }
    { intros i Hi. rewrite D1. cbn. rewrite map_app, in_app_iff.
      cbn. intros [H|[H|[]]].
      - apply (Hfresh i); [lia | exact H].
      - apply chunk_key_inj in H. lia. }
    exists w'. split; [|split; [|split]].
    + cbn [for_each_indexed]. rewrite (bind_returned _ _ _ _ _ R1).
      exact R.
    + rewrite D, D1. cbn. now rewrite <- app_assoc.
    + congruence.
    + intros [|i] c Hnth.
      * rewrite Nat.add_0_r.
        assert (Hkeep : forall from' rest' v v',
                   for_each_indexed from' rest' (store_chunk env data) v
                   = (Returned tt, v') ->
                   forall k, In k (map vec_id (vectors v)) ->
                             In k (map vec_id (vectors v'))).
        { clear. intros from' rest'. revert from'.
          induction rest' as [|c' rest' IH']; intros from' v v' Hrun k Hk.
          - cbn in Hrun. now inversion Hrun; subst.
          - cbn [for_each_indexed] in Hrun.
            apply bind_returned_inv in Hrun as (u & v1 & Hstep & Hrest).
            apply (IH' _ _ _ Hrest).
            unfold store_chunk, generateEmbedding, vectors_upsert,
              d1_insert in Hstep.
            apply bind_returned_inv in Hstep as (emb & v2 & H1 & Hstep).
            apply bind_returned_inv in Hstep as (u' & v3 & H2 & H3).
            apply call_returned_inv in H1 as (_ & H1).
            apply call_returned_inv in H2 as (_ & H2).
            apply call_returned_inv in H3 as (_ & H3).
            inversion H1; subst. inversion H2; subst.
            destruct (Sql.insert_document_chunk _ _); inversion H3; subst.
            cbn. apply upsert_vector_ids. now left. }
        apply (Hkeep _ _ _ _ R). apply V1. now right.
      * replace (from + S i)%nat with (S from + i)%nat by lia.
        now apply (V i c).
Qed.

(** The steps before the chunk loop. *)
Lemma load_text_quiet file w :
  lookup_file (file_key data) (files w) = Some file ->
  exists text w1,
    load_text env (extractText env) data w
    = (Returned (text, ("text/" ++ document_id data ++ ".txt")%string), w1)
    /\ db w1
       = Sql.update_document_status StProcessing (clock env (ticks w))
           (document_id data) (db w)
    /\ files w1
       = store_file ("text/" ++ document_id data ++ ".txt")%string
           (utf8_encode env text) (files w)
    /\ (mime_type data = "text/plain" -> text = utf8_decode env file).
Proof.
  intros Hfile.
  destruct (extractText_accepted env file (mime_type data)
              (tick (set_db (tick w)
                       (Sql.update_document_status StProcessing
                          (clock env (ticks w)) (document_id data)
                          (db (tick w))))))
    as (text & wx & Hx & (Hdb & Hfiles & _) & Hplain & _);
    [apply env_quiet|].
  unfold load_text, isoNow, d1_run, r2_get, r2_put.
  unfold bind at 1. unfold bind at 1. rewrite call_quiet.
  unfold bind at 1. rewrite call_quiet.
  cbn [files set_db tick]. rewrite Hfile.
  unfold bind at 1. rewrite Hx.
  unfold bind at 1. rewrite call_quiet.
  eexists. eexists. split; [reflexivity|].
  cbn [db files set_files tick]. rewrite Hdb, Hfiles.
  split; [reflexivity|]. split; [reflexivity | exact Hplain].
Qed.

Lemma autoTag_quiet text workspaceId w :
  suggests_nothing env ->
  exists w',
    autoTag env text workspaceId w = (Returned [], w') /\ same_data w w'.
Proof.
  intros Hnone. unfold autoTag, d1_query.
  unfold bind at 1. rewrite call_quiet.
  unfold bind at 1. rewrite call_quiet.
  destruct (Hnone (map tag_name (Sql.select_top_tags workspaceId
                                   (db (tick w))))
              (Js.substring0 2000 text)) as [-> | ->];
    (eexists; split; [reflexivity | repeat split]).
Qed.

End Quiet.

(** The run of the pipeline in which nothing fails, and the world it
    leaves. *)
Lemma processDocument_quiet_run
    (env : Env) (data : ProcessingQueueMessage) (file : string) (w : World) :
  quiet env ->
  suggests_nothing env ->
  stored (document_id data) w ->
  lookup_file (file_key data) (files w) = Some file ->
  (forall i, ~ In (chunk_key (document_id data) i)
               (map chunk_id (document_chunks (db w)))) ->
  exists text now now' w',
    processDocument env data w = (Returned tt, w')
    /\ (mime_type data = "text/plain" -> text = utf8_decode env file)
    /\ db w'
       = Sql.update_document_ready StReady
           ("text/" ++ document_id data ++ ".txt")%string now'
           (document_id data)
           (Sql.with_document_chunks
              (Sql.update_document_status StProcessing now
                 (document_id data) (db w))
              (document_chunks (db w)
                 ++ chunk_rows (document_id data) 0 (chunks_of text)))
    /\ files w'
       = store_file ("text/" ++ document_id data ++ ".txt")%string
           (utf8_encode env text) (files w)
    /\ (forall i chunk,
           nth_error (chunks_of text) i = Some chunk ->
           In (chunk_key (document_id data) i) (map vec_id (vectors w'))).
Proof.
  intros Hq Hnone Hstored Hfile Hfresh.
  destruct (load_text_quiet env Hq data file w Hfile)
    as (text & w1 & L & D1 & F1 & Hplain).
  destruct (embed_and_store_quiet env Hq data (chunks_of text) 0%nat w1)
    as (w2 & R2 & D2 & F2 & V2).
  { apply (stored_skeleton _ w); [|exact Hstored].
    unfold skeleton. rewrite D1. apply skeleton_update_status. }
  { intros i _. rewrite D1. apply Hfresh. }
  destruct (autoTag_quiet env Hq text (workspace_id data) w2 Hnone)
    as (w3 & R3 & D3 & F3 & V3 & _).
  exists text, (clock env (ticks w)), (clock env (ticks w3)).
  eexists. split; [|split; [exact Hplain|]].
  - unfold processDocument, processDocument_with, try_catch,
      processDocument_try.
    rewrite (bind_returned _ _ _ _ _ L).
    unfold embed_and_store. rewrite (bind_returned _ _ _ _ _ R2).
    rewrite (bind_returned _ _ _ _ _ R3).
    cbn [store_suggested_tags for_each].
    unfold bind at 1. unfold ret at 1. unfold isoNow, d1_run.
    unfold bind at 1. rewrite (call_quiet env Hq). reflexivity.
  - cbn [db files vectors set_db tick].
    rewrite D3, F3, V3, D2, F2, D1, F1.
    split; [reflexivity|]. split; [reflexivity | exact V2].
Qed.

(** When no call is rejected, the document is stored, its file is in
    storage, none of its chunk ids is taken and the tagging model
    suggests nothing, [processDocument] returns and leaves the document
    'ready' with its text key set; the extracted text (the decoded file
    for plain text) is stored, encoded, under [text/<id>.txt]; the chunk
    table has grown by exactly one row per chunk of that text, in order,
    under the ids [<id>_0], [<id>_1], ...; each chunk has a vector under
    the same id; and no tag or association was written. *)
Theorem processDocument_ingests
    (env : Env) (data : ProcessingQueueMessage) (file : string) (w : World) :
  quiet env ->
  suggests_nothing env ->
  stored (document_id data) w ->
  lookup_file (file_key data) (files w) = Some file ->
  (forall i, ~ In (chunk_key (document_id data) i)
               (map chunk_id (document_chunks (db w)))) ->
  exists text w',
    processDocument env data w = (Returned tt, w')
    /\ (mime_type data = "text/plain" -> text = utf8_decode env file)
    /\ lookup_file ("text/" ++ document_id data ++ ".txt")%string (files w')
       = Some (utf8_encode env text)
    /\ document_chunks (db w')
       = document_chunks (db w)
         ++ chunk_rows (document_id data) 0 (chunks_of text)
    /\ (forall i chunk,
           nth_error (chunks_of text) i = Some chunk ->
           In (chunk_key (document_id data) i) (map vec_id (vectors w')))
    /\ document_has (document_id data)
         (fun r => doc_status r = StReady
                   /\ doc_text_key r
                      = Some ("text/" ++ document_id data ++ ".txt")%string)
         w'
    /\ skeleton w' = skeleton w
    /\ tags (db w') = tags (db w)
    /\ document_tags (db w') = document_tags (db w).
Proof.
  intros Hq Hnone Hstored Hfile Hfresh.
  destruct (processDocument_quiet_run env data file w Hq Hnone Hstored Hfile
              Hfresh)
    as (text & now & now' & w' & Hrun & Hplain & Hdb & Hfiles & Hvec).
  exists text, w'. split; [exact Hrun|]. split; [exact Hplain|].
  split; [rewrite Hfiles; apply lookup_store_file|].
  split; [now rewrite Hdb|]. split; [exact Hvec|].
  split; [|split; [|split; now rewrite Hdb]].
  - intros r Hin Hid. rewrite Hdb in Hin. cbn in Hin. revert Hin Hid.
    now apply (update_by_id_has _ _
                 (fun r => doc_status r = StReady
                           /\ doc_text_key r = Some _)).
  - unfold skeleton. rewrite Hdb.
    unfold Sql.update_document_ready, Sql.update_document_status,
      Sql.with_documents, Sql.with_document_chunks.
    cbn [documents].
    rewrite !map_key_update_where; reflexivity.
Qed.

Lemma processDocument_ingests_witness :
  exists text w',
    processDocument (with_mute_tagger (Sample.env Sample.no_fault false))
      (Sample.message Sample.report) Sample.report_world
    = (Returned tt, w')
    /\ text = Sample.report_text
    /\ lookup_file "text/d2.txt" (files w') = Some text
    /\ document_chunks (db w')
       = chunk_rows "d2" 0 (chunks_of text)
    /\ document_has "d2"
         (fun r => doc_status r = StReady
                   /\ doc_text_key r = Some "text/d2.txt") w'.
Proof.
  destruct (processDocument_ingests
              (with_mute_tagger (Sample.env Sample.no_fault false))
              (Sample.message Sample.report) Sample.report_text
              Sample.report_world)
    as (text & w' & Hrun & Hplain & Hfile & Hrows & _ & Hdoc & _).
  - intros n. reflexivity.
  - intros names prefix. left. reflexivity.
  - cbn. now left.
  - vm_compute. reflexivity.
  - intros i H. exact H.
  - exists text, w'. split; [exact Hrun|].
    split; [rewrite Hplain; reflexivity|].
    split; [exact Hfile|]. split; [exact Hrows | exact Hdoc].
Defined.

(** ** Tagging a document keeps the usage counters right *)

Lemma d1_run_inv env stmt w w' :
  d1_run env stmt w = (Returned tt, w') ->
  w' = set_db (tick w) (stmt (db w)).
Proof.
  intros H. apply call_returned_inv in H as [_ H]. now inversion H.
Qed.

Lemma insert_document_tag_inv r d d' :
  Sql.insert_document_tag r d = Returned d' ->
  d' = Sql.with_document_tags d (document_tags d ++ [r]).
Proof.
  intros H. now apply insert_document_tag_returned in H.
Qed.

(** One more association and one more on the counter of its tag. *)
Lemma increment_usage_consistent r d :
  usage_counts_consistent d = true ->
  usage_counts_consistent
    (increment_usage (dt_tag_id r)
       (Sql.with_document_tags d (document_tags d ++ [r]))) = true.
Proof.
  unfold usage_counts_consistent. rewrite !forallb_forall.
  intros Hd t Hin. cbn in Hin. unfold Sql.update_where in Hin.
  apply in_map_iff in Hin as (t0 & <- & Hin0).
  specialize (Hd t0 Hin0). apply Z.eqb_eq in Hd. apply Z.eqb_eq.
  unfold count_associations in *. cbn [document_tags increment_usage
    Sql.with_tags Sql.with_document_tags].
  rewrite filter_app, length_app. cbn [filter].
  destruct (String.eqb_spec (tag_id t0) (dt_tag_id r)) as [Heq|Hne].
  - cbn [tag_id tag_usage_count set_usage_count]. rewrite Heq.
    rewrite String.eqb_refl. cbn [List.length]. rewrite Heq in Hd. lia.
  - destruct (String.eqb_spec (dt_tag_id r) (tag_id t0)) as [Heq'|_];
      [now elim Hne|].
    cbn [List.length]. lia.
Qed.

Lemma select_document_tag_app documentId tagId d rows :
  select_document_tag documentId tagId d <> [] ->
  select_document_tag documentId tagId
    (Sql.with_document_tags d (document_tags d ++ rows)) <> [].
Proof.
  unfold select_document_tag. cbn. rewrite filter_app.
  destruct (filter _ (document_tags d)); [tauto | discriminate].
Qed.

Lemma increment_usage_ids tagId d :
  map tag_id (tags (increment_usage tagId d)) = map tag_id (tags d).
Proof.
  cbn. unfold Sql.update_where. rewrite map_map. apply map_ext.
  intros t. now destruct (tag_id t =? tagId)%string.
Qed.

Section AddTags.

Variable env : Env.
Variable documentId : string.
Variable source : TagSource.
Variable now : string.

(** One iteration of the loop of [addTagsToDocument]. *)
Lemma add_tag_step tagId w w' :
  (existing <-
     d1_query env
       (fun d => Sql.first (select_document_tag documentId tagId d)) ;;
   match existing with
   | Some _ => ret tt
   | None =>
       d1_insert env
         (Sql.insert_document_tag
            (mkDocumentTag documentId tagId source None now)) ;;
       d1_run env (increment_usage tagId)
   end)%js w = (Returned tt, w') ->
  (usage_counts_consistent (db w) = true ->
   usage_counts_consistent (db w') = true)
  /\ select_document_tag documentId tagId (db w') <> []
  /\ (forall t, select_document_tag documentId t (db w) <> [] ->
                select_document_tag documentId t (db w') <> [])
  /\ (select_document_tag documentId tagId (db w) <> [] -> db w' = db w)
  /\ (associations_reference_tags (db w) ->
      associations_reference_tags (db w')).
Proof.
  intros Hrun.
  apply bind_returned_inv in Hrun as (existing & w1 & Hq & Hrun).
  apply d1_query_inv in Hq as (-> & ->).
  destruct (Sql.first (select_document_tag documentId tagId (db w)))
    as [row|] eqn:Hfirst.
  - inversion Hrun; subst w'. cbn [db tick].
    assert (Hne : select_document_tag documentId tagId (db w) <> []).
    { intros Hnil. rewrite Hnil in Hfirst. discriminate. }
    repeat split; auto.
  - apply first_none_nil in Hfirst.
    apply bind_returned_inv in Hrun as ([] & w2 & Hins & Hinc).
    apply d1_insert_inv in Hins as (d & Hins & ->).
    apply insert_document_tag_returned in Hins as (-> & _ & Htag).
    apply d1_run_inv in Hinc. subst w'. cbn [db tick set_db].
    split; [|split; [|split; [|split]]].
    + intros Hc.
      exact (increment_usage_consistent
               (mkDocumentTag documentId tagId source None now) _ Hc).
    + unfold select_document_tag. cbn. rewrite filter_app. cbn.
      rewrite !String.eqb_refl. cbn.
      destruct (filter _ (document_tags (db w))); discriminate.
    + intros t Ht.
      exact (select_document_tag_app documentId t (db w) _ Ht).
    + intros Hne. now elim Hne.
    + intros Hfk q Hq. rewrite increment_usage_ids.
      cbn [document_tags increment_usage Sql.with_tags
             Sql.with_document_tags tags] in *.
      apply in_app_or in Hq as [Hq | [<- | []]];
        [now apply Hfk | exact Htag].
Qed.

End AddTags.

(** When [addTagsToDocument] returns, every tag of the list is
    associated with the document and the associations it found are
    still there; if each usage counter equalled the number of
    associations of its tag before, it still does; if every association
    referred to a tag before, it still does; and when every tag of the
    list was already associated, the database is as it was. *)
Theorem addTagsToDocument_keeps_counts
    (env : Env) (documentId : string) (tagIds : list string)
    (source : TagSource) (w w' : World) :
  addTagsToDocument env documentId tagIds source w = (Returned tt, w') ->
  (usage_counts_consistent (db w) = true ->
   usage_counts_consistent (db w') = true)
  /\ (forall t, In t tagIds ->
                select_document_tag documentId t (db w') <> [])
  /\ (forall t, select_document_tag documentId t (db w) <> [] ->
                select_document_tag documentId t (db w') <> [])
  /\ ((forall t, In t tagIds ->
                 select_document_tag documentId t (db w) <> []) ->
      db w' = db w)
  /\ (associations_reference_tags (db w) ->
      associations_reference_tags (db w')).
Proof.
  unfold addTagsToDocument, isoNow. unfold bind at 1.
  generalize (clock env (ticks w)) as now. intros now.
  revert w. induction tagIds as [|tagId rest IH]; intros w Hrun.
  - inversion Hrun; subst w'. repeat split; auto.
  - cbn [for_each] in Hrun.
    apply bind_returned_inv in Hrun as ([] & w1 & Hstep & Hrest).
    apply add_tag_step in Hstep as (Hc1 & Hin1 & Hkeep1 & Hsame1 & Hfk1).
    destruct (IH w1 Hrest) as (Hc & Hin & Hkeep & Hsame & Hfk).
    split; [auto|]. split; [|split; [|split]].
    + intros t [<- | Ht]; auto.
    + auto.
    + intros Hall. rewrite Hsame.
      * apply Hsame1. apply Hall. now left.
      * intros t Ht. apply Hkeep1. apply Hall. now right.
    + auto.
Qed.

(** The document "d2" carries "t2"; adding "t2" and "t1" to it inserts
    the association with "t1" and counts it. *)
Lemma addTagsToDocument_keeps_counts_witness :
  exists w',
    addTagsToDocument (Sample.env Sample.no_fault false) "d2" ["t2"; "t1"]
      UserAdded merge_world = (Returned tt, w')
    /\ usage_counts_consistent (db w') = true
    /\ map tag_usage_count (tags (db merge_world)) = [1; 2]
    /\ map tag_usage_count (tags (db w')) = [2; 2]
    /\ map (fun r => (dt_document_id r, dt_tag_id r)) (document_tags (db w'))
       = [("d1", "t1"); ("d1", "t2"); ("d2", "t2"); ("d2", "t1")]
    /\ select_document_tag "d2" "t1" (db w') <> [].
Proof.
  destruct (addTagsToDocument (Sample.env Sample.no_fault false) "d2"
              ["t2"; "t1"] UserAdded merge_world)
    as [out w'] eqn:Hrun.
  pose proof Hrun as Hval. vm_compute in Hval.
  injection Hval as Hout Hw. subst out.
  destruct (addTagsToDocument_keeps_counts _ _ _ _ _ _ Hrun)
    as (Hc & Hin & _).
  exists w'. split; [reflexivity|]. split; [|split; [|split; [|split]]].
  - apply Hc. vm_compute. reflexivity.
  - reflexivity.
  - rewrite <- Hw. reflexivity.
  - rewrite <- Hw. reflexivity.
  - apply Hin. right. now left.
Defined.

(** ** Deleting a document *)

Lemma lookup_remove_other key key' f :
  lookup_file key (remove_file key' f)
  = if (key' =? key)%string then None else lookup_file key f.
Proof.
  destruct (String.eqb_spec key' key) as [->|Hne];
    [apply lookup_remove_file|].
  induction f as [|[k v] f IH]; [reflexivity|].
  unfold remove_file in *. cbn [filter fst lookup_file].
  destruct (String.eqb_spec k key') as [->|Hk]; cbn [negb].
  - apply String.eqb_neq in Hne. now rewrite Hne.
  - cbn [lookup_file]. now rewrite IH.
Qed.

Lemma lookup_remove_none key key' f :
  lookup_file key f = None -> lookup_file key (remove_file key' f) = None.
Proof.
  intros H. rewrite lookup_remove_other, H. now destruct (key' =? key)%string.
Qed.

(** [handleDelete] when no call is rejected.  Without a row that the
    user can see it answers 404, and 403 when the user is neither owner
    of the workspace nor the uploader; in both cases nothing is written.
    Otherwise it answers 200 and the document row, its chunk rows, its
    tag associations, its file, its text and the vectors of its chunks
    are gone, while the rows of other documents stay. *)
Theorem handleDelete_cascade
    (env : Env) (userId docId : string) (w : World) :
  quiet env ->
  exists response w',
    handleDelete env userId docId w = (Returned response, w')
    /\ match Sql.first (select_document_access docId userId (db w)) with
       | None =>
           response = errorResponse "Document not found" 404
           /\ same_data w w'
       | Some (doc, role) =>
           if is_owner role || (doc_user_id doc =? userId)%string then
             response = jsonResponse (MessageBody "Document deleted") 200
             /\ documents (db w')
                = filter (fun r => negb (doc_id r =? docId)%string)
                    (documents (db w))
             /\ document_chunks (db w')
                = filter (fun c => negb (chunk_document_id c =? docId)%string)
                    (document_chunks (db w))
             /\ document_tags (db w')
                = filter (fun r => negb (dt_document_id r =? docId)%string)
                    (document_tags (db w))
             /\ lookup_file (doc_file_key doc) (files w') = None
             /\ (forall k, doc_text_key doc = Some k -> k <> "" ->
                           lookup_file k (files w') = None)
             /\ (forall e, In e (vectors w') ->
                           In e (vectors w)
                           /\ ~ In (vec_id e) (chunk_ids_of docId (db w)))
           else
             response = errorResponse "Insufficient permissions" 403
             /\ same_data w w'
       end.
Proof.
  intros Hq. unfold handleDelete, d1_query.
  unfold bind at 1. rewrite (call_quiet env Hq). cbn [db tick].
  destruct (Sql.first (select_document_access docId userId (db w)))
    as [[doc role]|].
  2:{ eexists. eexists. split; [reflexivity|].
      split; [reflexivity | apply same_data_tick]. }
  replace (negb (is_owner role) && negb (doc_user_id doc =? userId)%string)
    with (negb (is_owner role || (doc_user_id doc =? userId)%string))
    by apply negb_orb.
  destruct (is_owner role || (doc_user_id doc =? userId)%string); cbn [negb].
  2:{ eexists. eexists. split; [reflexivity|].
      split; [reflexivity | apply same_data_tick]. }
  unfold r2_delete, vectors_deleteByIds, d1_run.
  unfold bind at 1. rewrite (call_quiet env Hq).
  set (w1 := set_files (tick (tick w))
               (remove_file (doc_file_key doc) (files (tick (tick w))))).
  assert (Htext :
    exists w2,
      (match doc_text_key doc with
       | Some k =>
           if Js.truthy k
           then call env (fun w0 =>
                  (Returned tt,
                   set_files w0 (remove_file k (files w0))))
           else ret tt
       | None => ret tt
       end) w1 = (Returned tt, w2)
      /\ db w2 = db w /\ vectors w2 = vectors w
      /\ lookup_file (doc_file_key doc) (files w2) = None
      /\ (forall k, doc_text_key doc = Some k -> k <> "" ->
                    lookup_file k (files w2) = None)).
  { assert (Hgone : lookup_file (doc_file_key doc) (files w1) = None)
      by apply lookup_remove_file.
    destruct (doc_text_key doc) as [k|].
    - unfold Js.truthy.
      destruct (String.eqb_spec k "") as [->|Hk]; cbn [negb].
      + exists w1. repeat split; auto. intros k [= <-] Hk. now elim Hk.
      + rewrite (call_quiet env Hq). eexists. split; [reflexivity|].
        cbn [db vectors files set_files tick].
        repeat split; auto.
        * now apply lookup_remove_none.
        * intros k' [= <-] _. apply lookup_remove_file.
    - exists w1. repeat split; auto. discriminate. }
  destruct Htext as (w2 & Htext & Hdb2 & Hv2 & Hfile & Htextkey).
  unfold bind at 1. rewrite Htext.
  unfold bind at 1. rewrite (call_quiet env Hq). cbn [db tick].
  rewrite Hdb2. fold (chunk_ids_of docId (db w)).
  assert (Hvec :
    exists w3,
      (if (0 <? List.length (chunk_ids_of docId (db w)))%nat
       then call env (fun w0 =>
              (Returned tt,
               set_vectors w0
                 (filter
                    (fun e => negb (Sql.in_strings (vec_id e)
                                      (chunk_ids_of docId (db w))))
                    (vectors w0))))
       else ret tt) (tick w2) = (Returned tt, w3)
      /\ db w3 = db w /\ files w3 = files w2
      /\ (forall e, In e (vectors w3) ->
                    In e (vectors w)
                    /\ ~ In (vec_id e) (chunk_ids_of docId (db w)))).
  { destruct (chunk_ids_of docId (db w)) as [|c cs] eqn:Hids.
    - exists (tick w2). cbn. rewrite Hv2. repeat split; auto.
    - cbn [List.length Nat.ltb Nat.leb]. rewrite (call_quiet env Hq).
      eexists. split; [reflexivity|]. cbn [db files vectors set_vectors tick].
      rewrite Hv2. repeat split; auto.
      + apply filter_In in H. tauto.
      + apply filter_In in H as [_ H]. intros Hin.
        apply negb_true_iff in H. apply in_strings_false in H. tauto. }
  destruct Hvec as (w3 & Hvec & Hdb3 & Hf3 & Hvectors).
  unfold bind at 1. rewrite Hvec.
  unfold bind at 1. rewrite (call_quiet env Hq).
  unfold bind at 1. rewrite (call_quiet env Hq).
  unfold bind at 1. rewrite (call_quiet env Hq).
  eexists. eexists. split; [reflexivity|].
  cbn [db files vectors set_db tick Sql.with_documents
         Sql.with_document_tags Sql.with_document_chunks documents
         document_chunks document_tags].
  rewrite Hdb3, Hf3.
  split; [reflexivity|]. split; [reflexivity|]. split; [reflexivity|].
  split; [reflexivity|]. split; [exact Hfile|].
  split; [exact Htextkey | exact Hvectors].
Qed.

Lemma handleDelete_cascade_witness :
  exists w',
    handleDelete (Sample.env Sample.no_fault false) "alice" "d1"
      Sample.note_ingested
    = (Returned (jsonResponse (MessageBody "Document deleted") 200), w')
    /\ documents (db w') = []
    /\ document_chunks (db w') = []
    /\ document_tags (db w') = []
    /\ lookup_file "documents/W1/d1/note.txt" (files w') = None
    /\ lookup_file "text/d1.txt" (files w') = None.
Proof.
  destruct (handleDelete_cascade (Sample.env Sample.no_fault false)
              "alice" "d1" Sample.note_ingested)
    as (response & w' & Hrun & Hcase).
  - intros n. reflexivity.
  - vm_compute in Hcase.
    destruct Hcase as (-> & Hdocs & Hchunks & Htags & Hfile & Htext & _).
    exists w'. split; [exact Hrun|].
    split; [exact Hdocs|]. split; [exact Hchunks|]. split; [exact Htags|].
    split; [exact Hfile|]. apply Htext; [reflexivity | discriminate].
Defined.

(** ** When the pipeline itself throws *)

Lemma in_flight_db_only id : db_only (in_flight id).
Proof.
  intros w w' Hdb H. unfold in_flight, document_has in *. now rewrite <- Hdb.
Qed.

#[local] Hint Resolve in_flight_db_only : preserve.

Lemma in_flight_documents id w w' :
  documents (db w') = documents (db w) -> in_flight id w -> in_flight id w'.
Proof.
  intros Hdocs H. unfold in_flight, document_has in *. now rewrite Hdocs.
Qed.

Lemma in_flight_processing id now w :
  in_flight id w ->
  in_flight id (set_db w (Sql.update_document_status StProcessing now id
                            (db w))).
Proof.
  intros H r Hin Hid. cbn in Hin. unfold Sql.update_where in Hin.
  apply in_map_iff in Hin as (r0 & <- & Hin0).
  destruct (String.eqb_spec (doc_id r0) id) as [Heq|Hne].
  - right. reflexivity.
  - now apply (H r0).
Qed.

Lemma error_messages_processing id now w :
  error_messages_of id
    (set_db w (Sql.update_document_status StProcessing now id (db w)))
  = error_messages_of id w.
Proof.
  unfold error_messages_of. cbn. unfold Sql.update_where.
  induction (documents (db w)) as [|r rows IH]; [reflexivity|].
  cbn [map filter].
  destruct (doc_id r =? id)%string eqn:Hid; cbn [doc_id]; rewrite Hid;
    cbn [map doc_error_message]; now rewrite IH.
Qed.

Section InFlight.

Variable env : Env.
Variable extract : string -> string -> M string.
Hypothesis extract_preserves :
  forall I, db_only I -> forall file mimeType,
    preserves I (extract file mimeType).

Variable data : ProcessingQueueMessage.

(** A property of the document rows that the first status write
    keeps. *)
Variable I : World -> Prop.
Hypothesis I_rows :
  forall w w', documents (db w') = documents (db w) -> I w -> I w'.
Hypothesis I_processing :
  forall now w,
    I w ->
    I (set_db w (Sql.update_document_status StProcessing now
                   (document_id data) (db w))).

Lemma I_db_only : db_only I.
Proof. intros w w' Hdb. apply I_rows. now rewrite Hdb. Qed.

(** Only the last statement of the [try] block touches the document
    rows again; when the block throws, that statement has not had its
    effect. *)
Lemma processDocument_try_keeps :
  triple I (processDocument_try env extract data)
    (fun _ _ => True) (fun _ => I).
Proof.
  pose proof I_db_only as Hdb.
  assert (Hstep : forall (A B : Type) (m : M A) (f : A -> M B),
             preserves I m ->
             (forall a, triple I (f a) (fun _ _ => True) (fun _ => I)) ->
             triple I (bind m f) (fun _ _ => True) (fun _ => I)).
  { intros A B m f Hm Hf.
    exact (triple_bind _ m f (fun _ => I) _ _ Hm Hf). }
  unfold processDocument_try.
  apply Hstep.
  { unfold load_text. preserve;
      try (apply extract_preserves; auto with preserve).
    apply preserves_d1_run; auto with preserve. }
  intros [text textKey].
  apply Hstep.
  { unfold embed_and_store, store_chunk. preserve.
    apply preserves_d1_insert; auto with preserve. intros w d HI Hins.
    apply (I_rows w); [|exact HI]. cbn.
    exact (insert_document_chunk_documents _ _ _ Hins). }
  intros _.
  apply Hstep.
  { apply autoTag_preserves. auto with preserve. }
  intros suggested.
  apply Hstep.
  { unfold store_suggested_tags. preserve;
      apply preserves_d1_insert; auto with preserve; intros w d HI Hins;
      apply (I_rows w); try exact HI; cbn;
      first [ exact (insert_tag_documents _ _ _ Hins)
            | exact (insert_document_tag_documents _ _ _ Hins) ]. }
  intros _.
  apply Hstep.
  { now apply preserves_isoNow. }
  intros now. apply triple_call.
  - intros w e HI _. exact (Hdb w (tick w) eq_refl HI).
  - intros w r w' _ _ Heff. now inversion Heff.
Qed.

End InFlight.

(** A document that is pending or processing stays so while the [try]
    block runs towards an exception. *)
Lemma processDocument_try_in_flight env extract
    (extract_preserves :
       forall I, db_only I -> forall file mimeType,
         preserves I (extract file mimeType)) data :
  triple (in_flight (document_id data))
    (processDocument_try env extract data)
    (fun _ _ => True)
    (fun _ => in_flight (document_id data)).
Proof.
  apply processDocument_try_keeps; [exact extract_preserves | |].
  - intros w w'. apply in_flight_documents.
  - intros now w. apply in_flight_processing.
Qed.

(** And the error message of the document stays what it was. *)
Lemma processDocument_try_messages env extract
    (extract_preserves :
       forall I, db_only I -> forall file mimeType,
         preserves I (extract file mimeType)) data m :
  triple (fun v => error_messages_of (document_id data) v = m)
    (processDocument_try env extract data)
    (fun _ _ => True)
    (fun _ v => error_messages_of (document_id data) v = m).
Proof.
  apply processDocument_try_keeps; [exact extract_preserves | |].
  - intros w w' Hdocs. unfold error_messages_of. now rewrite Hdocs.
  - intros now w. now rewrite error_messages_processing.
Qed.

(** A document that was pending or processing still is when the
    pipeline throws. *)
Lemma processDocument_threw_in_flight env data e' w w' :
  in_flight (document_id data) w ->
  processDocument env data w = (Threw e', w') ->
  in_flight (document_id data) w'.
Proof.
  intros HI Hrun.
  unfold processDocument, processDocument_with, try_catch in Hrun.
  destruct (processDocument_try env (extractText env) data w)
    as [[[]|e] w1] eqn:Htry; [discriminate|].
  pose proof (processDocument_try_in_flight env (extractText env)
                (extractText_preserves_all env) data w _ _ HI Htry) as HI1.
  cbn in HI1.
  assert (Hdb : db w' = db w1).
  { unfold processDocument_catch, bind, isoNow, d1_run, call in Hrun.
    destruct (fault env (ticks w1)); inversion Hrun; reflexivity. }
  exact (in_flight_db_only _ w1 w' (eq_sym Hdb) HI1).
Qed.

(** [processDocument] throws only when its [try] block threw and the
    status write of its [catch] block was rejected too.  It then throws
    the rejection of that write, not the original error; a document
    that was 'pending' or 'processing' is left in that state, and no
    error message is recorded: the document keeps the message it had,
    none if it had none. *)
Theorem processDocument_throws_when_error_write_fails
    (env : Env) (data : ProcessingQueueMessage) (e' : Thrown)
    (w w' : World) :
  in_flight (document_id data) w ->
  processDocument env data w = (Threw e', w') ->
  (exists e w1,
      processDocument_try env (extractText env) data w = (Threw e, w1)
      /\ fault env (ticks w1) = Some e'
      /\ w' = tick w1)
  /\ in_flight (document_id data) w'
  /\ error_messages_of (document_id data) w'
     = error_messages_of (document_id data) w.
Proof.
  intros HI Hrun.
  unfold processDocument, processDocument_with, try_catch in Hrun.
  destruct (processDocument_try env (extractText env) data w)
    as [[[]|e] w1] eqn:Htry; [discriminate|].
  pose proof (processDocument_try_in_flight env (extractText env)
                (extractText_preserves_all env) data w _ _ HI Htry) as HI1.
  pose proof (processDocument_try_messages env (extractText env)
                (extractText_preserves_all env) data _ w _ _ eq_refl Htry)
    as HM1.
  cbn in HI1, HM1.
  destruct (fault env (ticks w1)) as [e''|] eqn:Hf.
  - rewrite (processDocument_catch_rejected env data e e'' w1 Hf) in Hrun.
    inversion Hrun; subst. split; [|split].
    + exists e, w1. auto.
    + exact (in_flight_db_only _ w1 (tick w1) eq_refl HI1).
    + exact HM1.
  - rewrite (processDocument_catch_run env data e w1 Hf) in Hrun.
    discriminate.
Qed.

Lemma processDocument_throws_when_error_write_fails_witness :
  let env := Sample.env (fun n => if (2 <=? n)%nat
                                  then Some (JsError "D1 is down")
                                  else None) false in
  exists w',
    processDocument env (Sample.message Sample.note) Sample.note_world
    = (Threw (JsError "D1 is down"), w')
    /\ in_flight "d1" w'
    /\ error_messages_of "d1" w' = [None].
Proof.
  intros env.
  destruct (processDocument env (Sample.message Sample.note)
              Sample.note_world) as [out w'] eqn:Hrun.
  pose proof Hrun as Hval. vm_compute in Hval.
  injection Hval as Hout Hw. subst out.
  exists w'. split; [reflexivity|].
  destruct (processDocument_throws_when_error_write_fails env
              (Sample.message Sample.note) (JsError "D1 is down")
              Sample.note_world w') as (_ & Hflight & Hmsg).
  - intros r [<- | []] _. left. reflexivity.
  - exact Hrun.
  - split; [exact Hflight|].
    change (error_messages_of (document_id (Sample.message Sample.note)) w'
            = [None]).
    rewrite Hmsg. reflexivity.
Defined.

(** ** The queue consumer *)

(** With every call accepted the pipeline returns, whatever happens in
    its [try] block. *)
Lemma processDocument_quiet_returns env data w :
  quiet env -> exists w', processDocument env data w = (Returned tt, w').
Proof.
  intros Hq. unfold processDocument, processDocument_with, try_catch.
  destruct (processDocument_try env (extractText env) data w)
    as [[[]|e] w1]; [eauto|].
  rewrite (processDocument_catch_run env data e w1 (Hq _)). eauto.
Qed.

(** The consumer never throws and settles every message of the batch,
    in order, without adding, removing or re-keying a document row.  A
    message is retried only if a call was rejected: when none is, every
    message is acknowledged, also those whose processing failed. *)
Theorem queue_consumer_settles_every_message
    (env : Env) (batch : list ProcessingQueueMessage) (w : World) :
  exists ds w',
    queue_consumer env batch w = (Returned ds, w')
    /\ List.length ds = List.length batch
    /\ skeleton w' = skeleton w
    /\ (quiet env -> Forall (eq Ack) ds).
Proof.
  unfold queue_consumer. revert w.
  induction batch as [|data rest IH]; intros w.
  - exists [], w. cbn. repeat split. constructor.
  - cbn [queue_with].
    assert (Hfirst :
      exists d w1,
        try_catch (processDocument env data ;; ret Ack)
          (fun _ => ret Retry) w = (Returned d, w1)
        /\ skeleton w1 = skeleton w
        /\ (quiet env -> d = Ack)).
    { unfold try_catch, bind.
      destruct (processDocument env data w) as [[[]|e] w1] eqn:Hrun.
      - exists Ack, w1. split; [reflexivity|]. split; [|reflexivity].
        exact (processDocument_with_skeleton env (extractText env)
                 (extractText_preserves_all env) _ _ _ _ _ eq_refl Hrun).
      - exists Retry, w1. split; [reflexivity|]. split.
        + exact (processDocument_with_skeleton env (extractText env)
                   (extractText_preserves_all env) _ _ _ _ _ eq_refl Hrun).
        + intros Hq.
          destruct (processDocument_quiet_returns env data w Hq)
            as (w2 & Hret).
          rewrite Hret in Hrun. discriminate. }
    destruct Hfirst as (d & w1 & Hd & Hs1 & Hack).
    destruct (IH w1) as (ds & w' & Hrest & Hlen & Hs & Hacks).
    exists (d :: ds), w'. split; [|split; [|split]].
    + rewrite (bind_returned _ _ _ _ _ Hd).
      rewrite (bind_returned _ _ _ _ _ Hrest). reflexivity.
    + cbn. now rewrite Hlen.
    + congruence.
    + intros Hq. constructor; [symmetry; now apply Hack | now apply Hacks].
Qed.

Lemma queue_consumer_settles_every_message_witness :
  exists w',
    queue_consumer (Sample.env Sample.no_fault false)
      [Sample.message Sample.invoice; Sample.message Sample.note]
      Sample.note_world
    = (Returned [Ack; Ack], w')
    /\ skeleton w' = skeleton Sample.note_world.
Proof.
  destruct (queue_consumer_settles_every_message
              (Sample.env Sample.no_fault false)
              [Sample.message Sample.invoice; Sample.message Sample.note]
              Sample.note_world)
    as (ds & w' & Hrun & Hlen & Hs & Hacks).
  assert (Hq : quiet (Sample.env Sample.no_fault false))
    by (intros n; reflexivity).
  specialize (Hacks Hq).
  destruct ds as [|d1 [|d2 [|d3 ds]]]; try discriminate.
  inversion Hacks as [|? ? <- Hacks']; subst.
  inversion Hacks' as [|? ? <- _]; subst.
  exists w'. split; [exact Hrun | exact Hs].
Defined.

(** ** Uploads *)

Lemma existsb_doc_id_false id rows :
  ~ In id (map doc_id rows) ->
  existsb (fun r' => (doc_id r' =? id)%string) rows = false.
Proof.
  intros Hnot. apply not_true_iff_false. intros Hex.
  apply existsb_exists in Hex as (r & Hin & Heq).
  apply String.eqb_eq in Heq. apply Hnot. subst id. now apply in_map.
Qed.

(** What [uploadFile] does before it hands the document on: the file is
    stored and a 'pending' row is inserted. *)
Lemma uploadFile_stores env file workspaceId userId w :
  fault env (ticks w) = None ->
  fault env (1 + ticks w)%nat = None ->
  fault env (2 + ticks w)%nat = None ->
  select_document_by_hash workspaceId (sha256 env (file_content file)) (db w)
  = [] ->
  Sql.in_strings (upload_mime file) allowedTypes = true ->
  ~ In (uuid env (ids w)) (map doc_id (documents (db w))) ->
  let docId := uuid env (ids w) in
  let now := clock env (ticks w) in
  let message := upload_message file workspaceId userId docId in
  let w2 :=
    set_db
      (tick (set_files (tick (tick (next_id w)))
               (store_file (upload_key workspaceId docId file)
                  (file_content file) (files w))))
      (Sql.with_documents (db w)
         (documents (db w)
            ++ [upload_row env file workspaceId userId docId now])) in
  uploadFile env file workspaceId userId w
  = (if has_queue env then
       queue_send env message ;;
       ret (mkUploadResponse docId (file_name file) "pending" now)
     else
       try_catch
         (processDocument env message ;;
          ret (mkUploadResponse docId (file_name file) "ready" now))
         (fun _ =>
            ret (mkUploadResponse docId (file_name file) "error" now))) w2.
Proof.
  intros H0 H1 H2 Hnew Hallowed Hfresh docId now message w2.
  unfold uploadFile, generateId, isoNow, d1_query, r2_put, d1_insert.
  unfold bind at 1. unfold bind at 1. unfold bind at 1.
  rewrite call_accepted by exact H0.
  cbn [db next_id tick]. rewrite Hnew. cbn [Sql.first hd_error].
  fold (upload_mime file). rewrite Hallowed. cbn [negb].
  fold docId. fold (upload_key workspaceId docId file).
  unfold bind at 1. rewrite call_accepted by exact H1.
  unfold bind at 1. rewrite call_accepted by exact H2.
  cbn [db files set_files tick next_id].
  unfold Sql.insert_document. cbn [doc_id].
  rewrite (existsb_doc_id_false docId _ Hfresh).
  reflexivity.
Qed.

(** With a queue bound, an upload of new content of an allowed type
    under an unused id stores the file under its key, appends one
    'pending' row, sends exactly one message that names the row, the key
    and the mime type, and answers 'pending'.  It stores no chunk and no
    vector. *)
Theorem uploadFile_enqueues
    (env : Env) (file : File) (workspaceId userId : string) (w : World) :
  has_queue env = true ->
  quiet env ->
  select_document_by_hash workspaceId (sha256 env (file_content file)) (db w)
  = [] ->
  Sql.in_strings (upload_mime file) allowedTypes = true ->
  ~ In (uuid env (ids w)) (map doc_id (documents (db w))) ->
  exists w',
    uploadFile env file workspaceId userId w
    = (Returned (mkUploadResponse (uuid env (ids w)) (file_name file)
                   "pending" (clock env (ticks w))), w')
    /\ documents (db w')
       = documents (db w)
         ++ [upload_row env file workspaceId userId (uuid env (ids w))
               (clock env (ticks w))]
    /\ queue w'
       = queue w
         ++ [upload_message file workspaceId userId (uuid env (ids w))]
    /\ lookup_file (upload_key workspaceId (uuid env (ids w)) file) (files w')
       = Some (file_content file)
    /\ document_chunks (db w') = document_chunks (db w)
    /\ vectors w' = vectors w.
Proof.
  intros Hqueue Hq Hnew Hallowed Hfresh.
  rewrite (uploadFile_stores env file workspaceId userId w
             (Hq _) (Hq _) (Hq _) Hnew Hallowed Hfresh).
  rewrite Hqueue. unfold queue_send. unfold bind at 1.
  rewrite call_accepted by apply Hq.
  eexists. split; [reflexivity|].
  cbn [db files queue vectors set_queue set_db set_files tick next_id
         Sql.with_documents documents document_chunks].
  repeat split. apply lookup_store_file.
Qed.

Lemma uploadFile_enqueues_witness :
  exists w',
    uploadFile (Sample.env Sample.no_fault true) Sample.note_file "W1"
      "alice" Sample.empty_world
    = (Returned (mkUploadResponse "uuid-0" "note.txt" "pending"
                   "2024-05-01T09:00:00.0Z"), w')
    /\ map doc_status (documents (db w')) = [StPending]
    /\ map document_id (queue w') = ["uuid-0"]
    /\ lookup_file "documents/W1/uuid-0/note.txt" (files w')
       = Some "hello world".
Proof.
  destruct (uploadFile_enqueues (Sample.env Sample.no_fault true)
              Sample.note_file "W1" "alice" Sample.empty_world)
    as (w' & Hrun & Hdocs & Hqueue & Hfile & _).
  - reflexivity.
  - intros n. reflexivity.
  - reflexivity.
  - reflexivity.
  - intros [].
  - exists w'. split; [exact Hrun|].
    rewrite Hdocs, Hqueue. split; [reflexivity|].
    split; [reflexivity | exact Hfile].
Defined.

(** Upload, then consume: with a queue bound and no call rejected, a
    plain-text upload of new content followed by the consumer on the
    message it sent leaves the document 'ready', acknowledged, with the
    decoded content stored, encoded, as its text and one chunk row per
    chunk of the decoded content (the tagging model suggesting
    nothing). *)
Theorem upload_then_consume
    (env : Env) (file : File) (workspaceId userId : string) (w : World) :
  has_queue env = true ->
  quiet env ->
  suggests_nothing env ->
  upload_mime file = "text/plain" ->
  select_document_by_hash workspaceId (sha256 env (file_content file)) (db w)
  = [] ->
  ~ In (uuid env (ids w)) (map doc_id (documents (db w))) ->
  (forall i, ~ In (chunk_key (uuid env (ids w)) i)
               (map chunk_id (document_chunks (db w)))) ->
  exists r w1 w2,
    uploadFile env file workspaceId userId w = (Returned r, w1)
    /\ up_status r = "pending"
    /\ queue_consumer env
         [upload_message file workspaceId userId (up_id r)] w1
       = (Returned [Ack], w2)
    /\ stored (up_id r) w2
    /\ document_has (up_id r)
         (fun d => doc_status d = StReady
                   /\ doc_text_key d
                      = Some ("text/" ++ up_id r ++ ".txt")%string) w2
    /\ lookup_file ("text/" ++ up_id r ++ ".txt")%string (files w2)
       = Some (utf8_encode env (utf8_decode env (file_content file)))
    /\ document_chunks (db w2)
       = document_chunks (db w)
         ++ chunk_rows (up_id r) 0
              (chunks_of (utf8_decode env (file_content file))).
Proof.
  intros Hqueue Hq Hnone Hplain Hnew Hfresh Hchunks.
  assert (Hallowed : Sql.in_strings (upload_mime file) allowedTypes = true)
    by now rewrite Hplain.
  pose proof (uploadFile_stores env file workspaceId userId w
                (Hq _) (Hq _) (Hq _) Hnew Hallowed Hfresh) as Hup.
  cbv zeta in Hup. rewrite Hqueue in Hup. unfold queue_send in Hup.
  unfold bind at 1 in Hup. rewrite call_accepted in Hup by apply Hq.
  unfold ret in Hup.
  match type of Hup with
  | _ = (Returned ?resp, ?world) => set (r := resp) in *; set (w1 := world) in *
  end.
  set (message := upload_message file workspaceId userId (uuid env (ids w))).
  assert (Hst1 : stored (document_id message) w1).
  { unfold stored, w1. cbn. rewrite map_app, in_app_iff. right. now left. }
  destruct (processDocument_quiet_run env message (file_content file) w1)
    as (text & now & now' & w2 & Hrun & Htext & Hdb & Hfiles & _);
    auto.
  { apply lookup_store_file. }
  specialize (Htext Hplain). subst text.
  exists r, w1, w2. split; [exact Hup|]. split; [reflexivity|].
  cbn [up_id r]. fold message.
  assert (Hskel : skeleton w2 = skeleton w1).
  { unfold skeleton. rewrite Hdb.
    unfold Sql.update_document_ready, Sql.update_document_status,
      Sql.with_documents, Sql.with_document_chunks.
    cbn [documents].
    rewrite !map_key_update_where; reflexivity. }
  split; [|split; [|split; [|split]]].
  - unfold queue_consumer. cbn [queue_with]. unfold try_catch, bind.
    rewrite Hrun. reflexivity.
  - apply (stored_skeleton _ w1); [exact Hskel | exact Hst1].
  - intros d Hin Hid. rewrite Hdb in Hin. cbn in Hin. revert Hin Hid.
    now apply (update_by_id_has _ _
                 (fun r => doc_status r = StReady
                           /\ doc_text_key r = Some _)).
  - rewrite Hfiles. apply lookup_store_file.
  - now rewrite Hdb.
Qed.

Lemma upload_then_consume_witness :
  exists r w1 w2,
    uploadFile (with_mute_tagger (Sample.env Sample.no_fault true))
      Sample.note_file "W1" "alice" Sample.empty_world = (Returned r, w1)
    /\ queue_consumer (with_mute_tagger (Sample.env Sample.no_fault true))
         [upload_message Sample.note_file "W1" "alice" (up_id r)] w1
       = (Returned [Ack], w2)
    /\ lookup_file ("text/" ++ up_id r ++ ".txt")%string (files w2)
       = Some "hello world"
    /\ document_chunks (db w2)
       = chunk_rows (up_id r) 0 (chunks_of "hello world").
Proof.
  destruct (upload_then_consume
              (with_mute_tagger (Sample.env Sample.no_fault true))
              Sample.note_file "W1" "alice" Sample.empty_world)
    as (r & w1 & w2 & Hup & _ & Hrun & _ & _ & Hfile & Hrows).
  - reflexivity.
  - intros n. reflexivity.
  - intros names prefix. left. reflexivity.
  - reflexivity.
  - reflexivity.
  - intros [].
  - intros i [].
  - exists r, w1, w2. split; [exact Hup|]. split; [exact Hrun|].
    split; [exact Hfile | exact Hrows].
Defined.

(** Without a queue the response of [uploadFile] reports how the call
    of [processDocument] ended, not the status of the row.  'ready'
    means the pipeline returned: the row is 'ready', or 'error' when the
    pipeline caught a failure.  'error' means the pipeline itself threw:
    its error write was rejected, and the row is still 'pending' or
    'processing'. *)
Theorem uploadFile_inline_status
    (env : Env) (file : File) (workspaceId userId : string)
    (r : DocumentUploadResponse) (w w' : World) :
  has_queue env = false ->
  uploadFile env file workspaceId userId w = (Returned r, w') ->
  (up_status r = "duplicate" /\ documents (db w') = documents (db w))
  \/ (up_status r = "ready"
      /\ stored (up_id r) w'
      /\ document_has (up_id r)
           (fun d => doc_status d = StReady \/ doc_status d = StError) w')
  \/ (up_status r = "error"
      /\ stored (up_id r) w'
      /\ in_flight (up_id r) w').
Proof.
  intros Hinline H. unfold uploadFile in H.
  apply bind_returned_inv in H as (docId & wa & Hid & H).
  inversion Hid; subst docId wa; clear Hid.
  apply bind_returned_inv in H as (now & wb & Hnow & H).
  inversion Hnow; subst now wb; clear Hnow.
  apply bind_returned_inv in H as (existing & wc & Hq & H).
  apply d1_query_inv in Hq as [-> ->]. cbn [db next_id] in H.
  destruct (Sql.first _) as [existing|].
  { left. inversion H; subst. cbn. auto. }
  right.
  destruct (negb _); [discriminate|].
  apply bind_returned_inv in H as ([] & wd & Hput & H).
  apply r2_put_inv in Hput.
  apply bind_returned_inv in H as ([] & we & Hins & H).
  apply d1_insert_inv in Hins as (d & Hins & ->).
  rewrite Hput in Hins. cbn [db tick next_id] in Hins.
  apply insert_document_inv in Hins as [Hfresh Hrows].
  cbn [doc_id] in Hfresh.
  rewrite Hinline in H.
  set (w2 := set_db (tick wd) d) in *.
  assert (Hstored : stored (uuid env (ids w)) w2).
  { unfold stored, w2. cbn. rewrite Hrows, map_app, in_app_iff.
    right. now left. }
  assert (Hflight : in_flight (uuid env (ids w)) w2).
  { intros row Hin Hrow. unfold w2 in Hin. cbn in Hin.
    rewrite Hrows in Hin. apply in_app_or in Hin as [Hin | [<- | []]].
    - elim Hfresh. rewrite <- Hrow. now apply in_map.
    - left. reflexivity. }
  unfold try_catch in H.
  match type of H with
  | context [bind ?m ?f ?v] =>
      destruct (bind m f v) as [[a|e] wf] eqn:Hrun
  end.
  - left. apply bind_returned_inv in Hrun as ([] & wg & Hproc & Hret).
    inversion Hret; subst. inversion H; subst. cbn [up_status up_id].
    split; [reflexivity|].
    apply (processDocument_never_processing env (extractText env)
             (extractText_preserves_all env)) in Hproc;
      [exact Hproc | exact Hstored].
  - right. inversion H; subst. cbn [up_status up_id].
    split; [reflexivity|].
    apply bind_inv in Hrun as [(a & wg & Hproc & Hret) | (e' & Hproc & _)];
      [inversion Hret|].
    split.
    + apply (stored_skeleton _ w2); [|exact Hstored].
      exact (processDocument_with_skeleton env (extractText env)
               (extractText_preserves_all env) _ _ _ _ _ eq_refl Hproc).
    + apply processDocument_threw_in_flight in Hproc;
        [exact Hproc | exact Hflight].
Qed.

Lemma uploadFile_inline_status_witness :
  let env := Sample.env (Sample.fault_at 7 (JsError "embedding timed out"))
               false in
  exists w',
    uploadFile env Sample.note_file "W1" "alice" Sample.empty_world
    = (Returned (mkUploadResponse "uuid-0" "note.txt" "ready"
                   "2024-05-01T09:00:00.0Z"), w')
    /\ map doc_status (documents (db w')) = [StError]
    /\ document_has "uuid-0"
         (fun d => doc_status d = StReady \/ doc_status d = StError) w'.
Proof.
  intros env.
  destruct (uploadFile env Sample.note_file "W1" "alice" Sample.empty_world)
    as [out w'] eqn:Hrun.
  pose proof Hrun as Hval. vm_compute in Hval.
  injection Hval as Hout Hw. subst out.
  destruct (uploadFile_inline_status env Sample.note_file "W1" "alice"
              _ Sample.empty_world w' eq_refl Hrun)
    as [[Hdup _] | [(_ & _ & Hdoc) | (Herr & _)]].
  - discriminate Hdup.
  - exists w'. split; [reflexivity|]. split; [|exact Hdoc].
    rewrite <- Hw. reflexivity.
  - discriminate Herr.
Defined.

(** What the lookup of an extension gives: a type of the table, which
    is allowed, or something that is not allowed. *)
Lemma getMimeType_cases filename :
  (Sql.in_strings (file_extension filename) extension_table = true
   /\ Sql.in_strings (getMimeType filename) allowedTypes = true)
  \/ (Sql.in_strings (file_extension filename) extension_table = false
      /\ Sql.in_strings (getMimeType filename) allowedTypes = false
      /\ getMimeType filename
         = if (file_extension filename =? "constructor")%string
           then "function Object() { [native code] }"
           else if (file_extension filename =? "__proto__")%string
           then "[object Object]"
           else "application/octet-stream").
Proof.
  unfold getMimeType. fold (file_extension filename).
  generalize (file_extension filename) as ext. intros ext.
  unfold extension_table. cbn [Sql.in_strings existsb].
  repeat match goal with
         | |- context [(ext =? ?k)%string] =>
             destruct (String.eqb_spec ext k) as [-> | ?];
             [left; split; reflexivity|]
         end.
  right. split; [reflexivity|].
  destruct (ext =? "constructor")%string; [split; reflexivity|].
  destruct (ext =? "__proto__")%string; split; reflexivity.
Qed.

(** New content whose type is not on the list of allowed types is
    refused with 'Unsupported file type' before anything is written:
    no file, no row, no message.  The type is the one the client
    declared, or else the one of the file extension, so a file without
    a declared type is allowed exactly when its extension is in the
    table of [getMimeType].  The refusal names
    'application/octet-stream', except for the extensions 'constructor'
    and '__proto__', which every object knows: there it prints what the
    lookup found. *)
Theorem uploadFile_rejects_unsupported
    (env : Env) (file : File) (workspaceId userId : string) (w : World) :
  fault env (ticks w) = None ->
  select_document_by_hash workspaceId (sha256 env (file_content file)) (db w)
  = [] ->
  (Sql.in_strings (upload_mime file) allowedTypes = false ->
   exists w',
     uploadFile env file workspaceId userId w
     = (Threw (JsError ("Unsupported file type: " ++ upload_mime file)), w')
     /\ db w' = db w /\ files w' = files w
     /\ queue w' = queue w /\ vectors w' = vectors w)
  /\ (file_type file = "" ->
      Sql.in_strings (upload_mime file) allowedTypes
      = Sql.in_strings (file_extension (file_name file)) extension_table)
  /\ (file_type file = "" ->
      Sql.in_strings (file_extension (file_name file)) extension_table
      = false ->
      upload_mime file
      = if (file_extension (file_name file) =? "constructor")%string
        then "function Object() { [native code] }"
        else if (file_extension (file_name file) =? "__proto__")%string
        then "[object Object]"
        else "application/octet-stream").
Proof.
  intros Hok Hnew. split; [|split].
  - intros Hbad.
    unfold uploadFile, generateId, isoNow, d1_query.
    unfold bind at 1. unfold bind at 1. unfold bind at 1.
    rewrite call_accepted by exact Hok.
    cbn [db next_id tick]. rewrite Hnew. cbn [Sql.first hd_error].
    fold (upload_mime file). rewrite Hbad. cbn [negb].
    eexists. split; [reflexivity|]. repeat split.
  - intros Hnone. unfold upload_mime. rewrite Hnone.
    change (Js.truthy "") with false. cbv iota.
    destruct (getMimeType_cases (file_name file))
      as [[Hin Hok'] | (Hout & Hbad & _)]; congruence.
  - intros Hnone Hout. unfold upload_mime. rewrite Hnone.
    change (Js.truthy "") with false. cbv iota.
    destruct (getMimeType_cases (file_name file))
      as [[Hin _] | (_ & _ & Hval)]; [congruence | exact Hval].
Qed.

Lemma uploadFile_rejects_unsupported_witness :
  (exists w',
      uploadFile (Sample.env Sample.no_fault false)
        (mkFile "setup.exe" "" "MZ") "W1" "alice" Sample.empty_world
      = (Threw (JsError "Unsupported file type: application/octet-stream"),
         w')
      /\ db w' = db Sample.empty_world
      /\ files w' = [])
  /\ (exists w',
         uploadFile (Sample.env Sample.no_fault false)
           (mkFile "a.constructor" "" "x") "W1" "alice" Sample.empty_world
         = (Threw (JsError
                     ("Unsupported file type: "
                        ++ "function Object() { [native code] }")), w')
         /\ db w' = db Sample.empty_world
         /\ files w' = []).
Proof.
  split.
  - destruct (uploadFile_rejects_unsupported
                (Sample.env Sample.no_fault false)
                (mkFile "setup.exe" "" "MZ") "W1" "alice" Sample.empty_world
                eq_refl eq_refl) as (Hrej & _).
    destruct (Hrej eq_refl) as (w' & Hrun & Hdb & Hfiles & _).
    exists w'. split; [exact Hrun|]. split; [exact Hdb | exact Hfiles].
  - destruct (uploadFile_rejects_unsupported
                (Sample.env Sample.no_fault false)
                (mkFile "a.constructor" "" "x") "W1" "alice"
                Sample.empty_world eq_refl eq_refl) as (Hrej & _).
    destruct (Hrej eq_refl) as (w' & Hrun & Hdb & Hfiles & _).
    exists w'. split; [exact Hrun|]. split; [exact Hdb | exact Hfiles].
Defined.

(** Every type [uploadFile] allows reaches [extractText], which returns
    a text for it once the file body is read.  All allowed types but
    one have a branch there; for 'message/rfc822' the text is the
    placeholder for unsupported types, whatever the file holds. *)
Theorem allowed_types_are_extracted
    (env : Env) (file mimeType : string) (w : World) :
  In mimeType allowedTypes ->
  fault env (ticks w) = None ->
  exists text w',
    extractText env file mimeType w = (Returned text, w')
    /\ same_data w w'
    /\ (handled_mime mimeType = false <-> mimeType = "message/rfc822")
    /\ (mimeType = "message/rfc822" ->
        text = "[Unsupported document type: message/rfc822]").
Proof.
  intros Hin Hok.
  destruct (extractText_accepted env file mimeType w Hok)
    as (text & w' & Hrun & Hsame & _ & _ & _ & Hother).
  exists text, w'. split; [exact Hrun|]. split; [exact Hsame|]. split.
  - cbn in Hin.
    repeat (destruct Hin as [<- | Hin];
            [first [ split; discriminate | split; reflexivity ]|]).
    elim Hin.
  - intros ->. now apply Hother.
Qed.

Lemma allowed_types_are_extracted_witness :
  exists w',
    extractText (Sample.env Sample.no_fault false) "From: a@example.org"
      "message/rfc822" Sample.empty_world
    = (Returned "[Unsupported document type: message/rfc822]", w').
Proof.
  destruct (allowed_types_are_extracted (Sample.env Sample.no_fault false)
              "From: a@example.org" "message/rfc822" Sample.empty_world)
    as (text & w' & Hrun & _ & _ & Htext).
  - cbn. tauto.
  - reflexivity.
  - exists w'. rewrite <- (Htext eq_refl). exact Hrun.
Defined.

(** ** The page of the faceted search *)

Lemma ascii_compare_lt_trans a b c :
  Ascii.compare a b = Lt -> Ascii.compare b c = Lt -> Ascii.compare a c = Lt.
Proof.
  unfold Ascii.compare. rewrite !N.compare_lt_iff. apply N.lt_trans.
Qed.

Lemma string_compare_lt_trans a :
  forall b c, String.compare a b = Lt -> String.compare b c = Lt ->
              String.compare a c = Lt.
Proof.
  induction a as [|x a IH]; intros [|y b] [|z c]; cbn; try congruence.
  destruct (Ascii.compare x y) eqn:Hxy; try discriminate.
  - apply Ascii.compare_eq_iff in Hxy. subst y.
    destruct (Ascii.compare x z); try congruence. apply IH.
  - intros _. destruct (Ascii.compare y z) eqn:Hyz; try discriminate.
    + apply Ascii.compare_eq_iff in Hyz. subst z. now rewrite Hxy.
    + intros _. now rewrite (ascii_compare_lt_trans _ _ _ Hxy Hyz).
Qed.

Lemma string_leb_trans a b c :
  String.leb a b = true -> String.leb b c = true -> String.leb a c = true.
Proof.
  unfold String.leb.
  destruct (String.compare a b) eqn:Hab; try discriminate; intros _.
  - apply String.compare_eq_iff in Hab. now subst b.
  - destruct (String.compare b c) eqn:Hbc; try discriminate; intros _.
    + apply String.compare_eq_iff in Hbc. subst c. now rewrite Hab.
    + now rewrite (string_compare_lt_trans _ _ _ Hab Hbc).
Qed.

Lemma string_ltb_leb a b :
  (String.ltb a b = true -> String.leb a b = true)
  /\ (String.ltb a b = false -> String.leb b a = true).
Proof.
  unfold String.ltb, String.leb. rewrite (String.compare_antisym a b).
  destruct (String.compare b a); cbn; split; congruence.
Qed.

Lemma firstn_min {A : Type} (n : nat) (l : list A) :
  firstn (Nat.min n (List.length l)) l = firstn n l.
Proof.
  destruct (Nat.le_gt_cases n (List.length l)) as [Hle|Hgt].
  - now rewrite Nat.min_l.
  - rewrite Nat.min_r by lia. rewrite firstn_all.
    symmetry. apply firstn_all2. lia.
Qed.

(** Dropping the over-fetched row. *)
Lemma slice_page {A : Type} (P : Z) (rows : list A) :
  0 <= P ->
  Js.slice (firstn (Z.to_nat (P + 1)) rows) 0 P = firstn (Z.to_nat P) rows.
Proof.
  intros HP. rewrite slice_from_0. unfold Js.rel_index.
  destruct (Z.ltb_spec P 0); [lia|].
  rewrite Z2Nat.inj_min, Nat2Z.id, firstn_min, firstn_firstn.
  f_equal. lia.
Qed.

Lemma filter_and_length {A : Type} (p q : A -> bool) (l : list A) :
  (List.length (filter (fun x => p x && q x) l)
   <= List.length (filter p l))%nat.
Proof.
  induction l as [|x l IH]; cbn; [lia|].
  destruct (p x), (q x); cbn; lia.
Qed.

Lemma same_result_refl r : same_result r r.
Proof. repeat split; auto. Qed.

Lemma Forall2_map_same {A B : Type} (R : B -> B -> Prop) (f : A -> B)
    (l : list A) :
  (forall b, R b b) -> Forall2 (fun b a => R b (f a)) (map f l) l.
Proof. intros HR. induction l; cbn; constructor; auto. Qed.

(** A page of the faceted search, for a page size [P >= 0] and an
    offset [O >= 0]: the documents at ranks [O] to [O + P - 1] of the
    matching documents ordered newest first, where a document matches
    when it is 'ready', lies in a workspace of the user and passes the
    text, tag, type and date filters of the request.  The query fixes
    neither the order of documents created at the same time nor the
    order of the tags of a result, so the page is stated for some
    ranking of the matching documents that is sorted newest first, and
    each result up to the order of its tags.  The total of the page
    comes from a count that leaves out the type and date filters: it is
    never below the number of matching documents, and equal to it when
    the request has neither of these filters. *)
Theorem faceted_search_page
    (env : Env) (body : SearchRequest) (userId : string) (w w' : World)
    (page : SearchResult) :
  0 <= page_size body ->
  0 <= page_offset body ->
  handleFacetedSearch env body userId w
  = (Returned (jsonResponse (SearchBody page) 200), w') ->
  let workspaceIds := select_workspaces userId (db w) in
  let matching := faceted_matching env body workspaceIds (db w) in
  (exists ranked,
      Permutation matching ranked
      /\ StronglySorted
           (fun a b =>
              String.leb (doc_created_at b) (doc_created_at a) = true)
           ranked
      /\ Forall2 (fun r d => same_result r (enrich (db w) d))
           (sp_documents page)
           (firstn (Z.to_nat (page_size body))
              (skipn (Z.to_nat (page_offset body)) ranked)))
  /\ (forall d,
         In d matching
         <-> In d (documents (db w))
             /\ counted_where env body workspaceIds (db w) d = true
             /\ facet_where env body d = true)
  /\ Z.of_nat (List.length matching) <= sp_total page
  /\ (workspaceIds <> [] ->
      given_list (sq_document_types body) = [] ->
      given (sq_date_from body) = None ->
      given (sq_date_to body) = None ->
      sp_total page = Z.of_nat (List.length matching)).
Proof.
  intros HP HO H workspaceIds matching.
  set (ranked := faceted_ranked env body workspaceIds (db w)).
  assert (Hperm : Permutation matching ranked).
  { unfold ranked, faceted_ranked. symmetry. apply order_by_perm. }
  assert (Hin : forall d,
             In d matching
             <-> In d (documents (db w))
                 /\ counted_where env body workspaceIds (db w) d = true
                 /\ facet_where env body d = true).
  { intros d. unfold matching, faceted_matching.
    rewrite filter_In, andb_true_iff. tauto. }
  assert (Hsorted :
            StronglySorted
              (fun a b =>
                 String.leb (doc_created_at b) (doc_created_at a) = true)
              ranked).
  { unfold ranked, faceted_ranked.
    apply (order_by_sorted _ _
             (faceted_matching env body workspaceIds (db w))).
    - intros a b c Hab Hbc. exact (string_leb_trans _ _ _ Hbc Hab).
    - intros x y _ _. split; intros Hb.
      + exact (proj1 (string_ltb_leb _ _) Hb).
      + exact (proj2 (string_ltb_leb _ _) Hb).
    - intros z Hz. exact Hz. }
  assert (Hlen : (List.length matching
                  <= List.length
                       (filter (counted_where env body workspaceIds (db w))
                          (documents (db w))))%nat).
  { unfold matching, faceted_matching. apply filter_and_length. }
  apply handleFacetedSearch_returned in H. cbv zeta in H.
  fold workspaceIds in H.
  destruct H as [[Hws ->] | [Hws ->]]; cbn [sp_documents sp_total].
  - assert (Hnil : matching = []).
    { unfold matching. rewrite Hws.
      now rewrite faceted_matching_no_workspace. }
    split; [|split; [exact Hin|split]].
    + exists []. rewrite Hnil, skipn_nil, firstn_nil.
      split; [constructor|]. split; constructor.
    + rewrite Hnil. cbn. lia.
    + intros Hne. now elim Hne.
  - split; [|split; [exact Hin|split]].
    + exists ranked. split; [exact Hperm|]. split; [exact Hsorted|].
      unfold faceted_page, Sql.limit_offset.
      destruct (Z.ltb_spec (page_size body + 1) 0); [lia|].
      fold (faceted_ranked env body workspaceIds (db w)). fold ranked.
      rewrite slice_page by exact HP.
      apply Forall2_map_same. apply same_result_refl.
    + unfold faceted_count. lia.
    + intros _ Htypes Hfrom Hto. unfold faceted_count. f_equal.
      unfold matching, faceted_matching. f_equal. apply filter_ext.
      intros d. unfold facet_where. rewrite Htypes, Hfrom, Hto. cbn.
      now rewrite andb_true_r.
Qed.

Lemma faceted_search_page_witness :
  exists page w',
    handleFacetedSearch (Sample.env Sample.no_fault false) second_page
      "alice" two_ready_world
    = (Returned (jsonResponse (SearchBody page) 200), w')
    /\ map sr_id (sp_documents page) = ["a2"]
    /\ sp_total page = 2
    /\ exists ranked,
         Permutation
           (faceted_matching (Sample.env Sample.no_fault false) second_page
              (select_workspaces "alice" (db two_ready_world))
              (db two_ready_world))
           ranked
         /\ Forall2
              (fun r d => same_result r (enrich (db two_ready_world) d))
              (sp_documents page)
              (firstn (Z.to_nat (page_size second_page))
                 (skipn (Z.to_nat (page_offset second_page)) ranked)).
Proof.
  destruct (handleFacetedSearch (Sample.env Sample.no_fault false)
              second_page "alice" two_ready_world) as [out w'] eqn:Hrun.
  pose proof Hrun as Hval. vm_compute in Hval.
  injection Hval as Hout Hw. subst out.
  eexists. exists w'. split; [reflexivity|].
  split; [reflexivity|]. split; [reflexivity|].
  destruct (faceted_search_page (Sample.env Sample.no_fault false)
              second_page "alice" two_ready_world w' _
              ltac:(vm_compute; discriminate) ltac:(vm_compute; discriminate)
              Hrun) as ((ranked & Hperm & _ & Hpage) & _).
  exists ranked. split; [exact Hperm | exact Hpage].
Defined.

(** ** The search handlers answer, and only read *)

Lemma read_only_ret {A : Type} (a : A) : read_only (ret a).
Proof. intros w r w' H. inversion H. apply same_data_refl. Qed.

Lemma read_only_bind {A B : Type} (m : M A) (f : A -> M B) :
  read_only m -> (forall a, read_only (f a)) -> read_only (bind m f).
Proof.
  intros Hm Hf w r w' H.
  apply bind_inv in H as [(a & w1 & H1 & H2) | (e & H1 & _)].
  - exact (same_data_trans _ _ _ (Hm _ _ _ H1) (Hf a _ _ _ H2)).
  - exact (Hm _ _ _ H1).
Qed.

Lemma read_only_try_catch {A : Type} (body : M A) (handler : Thrown -> M A) :
  read_only body -> (forall e, read_only (handler e)) ->
  read_only (try_catch body handler).
Proof.
  intros Hb Hh w r w' H. unfold try_catch in H.
  destruct (body w) as [[a|e] w1] eqn:Hbody.
  - inversion H; subst. exact (Hb _ _ _ Hbody).
  - exact (same_data_trans _ _ _ (Hb _ _ _ Hbody) (Hh e _ _ _ H)).
Qed.

Lemma read_only_call {A : Type} env (q : World -> A) :
  read_only (call env (fun w => (Returned (q w), w))).
Proof.
  intros w r w' H. unfold call in H.
  destruct (fault env (ticks w)); inversion H; apply same_data_tick.
Qed.

Lemma read_only_enrichDocuments env docs :
  read_only (enrichDocuments env docs).
Proof.
  induction docs as [|doc docs IH]; cbn [enrichDocuments].
  - apply read_only_ret.
  - apply read_only_bind; [apply (read_only_call env (fun w => _))|].
    intros tags.
    apply read_only_bind; [apply (read_only_call env (fun w => _))|].
    intros chunk. apply read_only_bind; [exact IH|].
    intros results. apply read_only_ret.
Qed.

Lemma enrichDocuments_quiet env docs :
  quiet env ->
  forall w, exists rs w', enrichDocuments env docs w = (Returned rs, w').
Proof.
  intros Hq. induction docs as [|doc docs IH]; intros w;
    cbn [enrichDocuments].
  - do 2 eexists. reflexivity.
  - unfold d1_query. unfold bind at 1. rewrite (call_quiet env Hq).
    unfold bind at 1. rewrite (call_quiet env Hq).
    destruct (IH (tick (tick w))) as (rs & w' & Hrun).
    unfold bind at 1. rewrite Hrun. do 2 eexists. reflexivity.
Qed.

Lemma try_catch_answers (body : M Response) (message : string) :
  read_only body ->
  triple (fun _ => True) body (fun r _ => is_page r) (fun _ _ => True) ->
  forall w,
    exists r w',
      try_catch body (fun _ => ret (errorResponse message 500)) w
      = (Returned r, w')
      /\ same_data w w'
      /\ (is_page r \/ r = errorResponse message 500)
      /\ ((exists r0 w0, body w = (Returned r0, w0)) -> is_page r).
Proof.
  intros Hread Hpage w. unfold try_catch.
  destruct (body w) as [[r|e] w1] eqn:Hbody.
  - exists r, w1. split; [reflexivity|].
    pose proof (Hpage w _ _ Logic.I Hbody) as Hr. cbn in Hr.
    split; [exact (Hread _ _ _ Hbody)|]. auto.
  - eexists. eexists. split; [reflexivity|].
    split; [exact (Hread _ _ _ Hbody)|]. split; [now right|].
    intros (r0 & w0 & H). discriminate.
Qed.

(** On a parsed body the faceted search and the combined search
    answer, and only read. *)
Lemma search_handlers_answer
    (env : Env) (body : SearchRequest) (userId : string) (w : World) :
  (exists r w',
      handleFacetedSearch env body userId w = (Returned r, w')
      /\ same_data w w'
      /\ (is_page r \/ r = errorResponse "Search failed" 500)
      /\ (quiet env -> is_page r))
  /\ (exists r w',
         handleCombinedSearch env body userId w = (Returned r, w')
         /\ same_data w w'
         /\ (is_page r \/ r = errorResponse "Search failed" 500)
         /\ (quiet env -> is_page r)).
Proof.
  split.
  - unfold handleFacetedSearch. cbv zeta.
    match goal with
    | |- context [try_catch ?b _] => set (search := b)
    end.
    destruct (try_catch_answers search "Search failed") with (w := w)
      as (r & w' & Hrun & Hsame & Hcases & Hpage).
    { unfold search.
      apply read_only_bind; [apply (read_only_call env (fun w => _))|].
      intros workspaceIds.
      destruct (List.length workspaceIds =? 0)%nat; [apply read_only_ret|].
      apply read_only_bind; [apply (read_only_call env (fun w => _))|].
      intros result.
      apply read_only_bind; [apply read_only_enrichDocuments|].
      intros documents.
      apply read_only_bind; [apply (read_only_call env (fun w => _))|].
      intros countResult. apply read_only_ret. }
    { unfold search. apply triple_bind_last. intros workspaceIds.
      destruct (List.length workspaceIds =? 0)%nat.
      - intros v r v' _ Hr. inversion Hr. now eexists.
      - do 3 (apply triple_bind_last; intros ?).
        intros v r v' _ Hr. inversion Hr. now eexists. }
    exists r, w'. split; [exact Hrun|]. split; [exact Hsame|].
    split; [exact Hcases|]. intros Hq. apply Hpage.
    unfold search, d1_query. unfold bind at 1. rewrite (call_quiet env Hq).
    destruct (List.length _ =? 0)%nat; [do 2 eexists; reflexivity|].
    unfold bind at 1. rewrite (call_quiet env Hq).
    match goal with
    | |- context [bind (enrichDocuments env ?docs) _ ?v] =>
        destruct (enrichDocuments_quiet env docs Hq v) as (rs & v' & Hen)
    end.
    unfold bind at 1. rewrite Hen.
    unfold bind at 1. rewrite (call_quiet env Hq).
    do 2 eexists. reflexivity.
  - unfold handleCombinedSearch. cbv zeta.
    match goal with
    | |- context [try_catch ?b _] => set (search := b)
    end.
    destruct (try_catch_answers search "Search failed") with (w := w)
      as (r & w' & Hrun & Hsame & Hcases & Hpage).
    { unfold search.
      apply read_only_bind; [apply (read_only_call env (fun w => _))|].
      intros workspaceIds.
      destruct (List.length workspaceIds =? 0)%nat; [apply read_only_ret|].
      apply read_only_bind.
      { destruct (given (sq_query body)); [|apply read_only_ret].
        apply read_only_bind; [apply (read_only_call env (fun w => _))|].
        intros queryEmbedding.
        apply read_only_bind; [apply (read_only_call env (fun w => _))|].
        intros matches. apply read_only_ret. }
      intros [semanticDocIds semanticScores].
      apply read_only_bind; [apply (read_only_call env (fun w => _))|].
      intros result.
      apply read_only_bind; [apply read_only_enrichDocuments|].
      intros documents. apply read_only_ret. }
    { unfold search. apply triple_bind_last. intros workspaceIds.
      destruct (List.length workspaceIds =? 0)%nat.
      - intros v r v' _ Hr. inversion Hr. now eexists.
      - apply triple_bind_last. intros [semanticDocIds semanticScores].
        do 2 (apply triple_bind_last; intros ?).
        intros v r v' _ Hr. inversion Hr. now eexists. }
    exists r, w'. split; [exact Hrun|]. split; [exact Hsame|].
    split; [exact Hcases|]. intros Hq. apply Hpage.
    unfold search, d1_query. unfold bind at 1. rewrite (call_quiet env Hq).
    destruct (List.length _ =? 0)%nat; [do 2 eexists; reflexivity|].
    assert (Hsem :
      exists c v,
        (match given (sq_query body) with
         | Some q =>
             queryEmbedding <- generateEmbedding env q ;;
             matches <-
               vectors_query env queryEmbedding
                 (Z.min (number_or (sq_limit body) 20) 100 * 3)
                 (WorkspaceIn (select_workspaces userId (db (tick w)))) ;;
             ret (collect_scores matches [] [])
         | None => ret ([], [])
         end) (tick w) = (Returned c, v)).
    { destruct (given (sq_query body)); [|do 2 eexists; reflexivity].
      unfold generateEmbedding, vectors_query.
      unfold bind at 1. rewrite (call_quiet env Hq).
      unfold bind at 1. rewrite (call_quiet env Hq).
      do 2 eexists. reflexivity. }
    destruct Hsem as ([ids scores] & v & Hsem).
    unfold bind at 1. rewrite Hsem.
    unfold bind at 1. rewrite (call_quiet env Hq).
    match goal with
    | |- context [bind (enrichDocuments env ?docs) _ ?v] =>
        destruct (enrichDocuments_quiet env docs Hq v) as (rs & v' & Hen)
    end.
    unfold bind at 1. rewrite Hen. do 2 eexists. reflexivity.
Qed.

(** From the request on, the faceted search and the combined search
    never throw and never write: they answer with a page of results and
    status 200, or with 'Search failed' and status 500, and leave the
    database, the files, the vector index and the queue as they found
    them.  A body that is not JSON gives 500 before any call is made.
    For a body that parses to a search request they answer 500 only
    when a call was rejected. *)
Theorem search_answers_and_only_reads
    (env : Env) (json : Outcome SearchRequest) (userId : string)
    (w : World) :
  forall handler,
    In handler [handleFacetedSearch env; handleCombinedSearch env] ->
    exists r w',
      search_request handler json userId w = (Returned r, w')
      /\ same_data w w'
      /\ (is_page r \/ r = errorResponse "Search failed" 500)
      /\ (quiet env -> (exists body, json = Returned body) -> is_page r)
      /\ (forall e, json = Threw e ->
                    r = errorResponse "Search failed" 500 /\ w' = w).
Proof.
  intros handler Hin.
  destruct json as [body|e]; cbn [search_request].
  - assert (Hans :
      exists r w',
        handler body userId w = (Returned r, w')
        /\ same_data w w'
        /\ (is_page r \/ r = errorResponse "Search failed" 500)
        /\ (quiet env -> is_page r)).
    { destruct (search_handlers_answer env body userId w) as [Hf Hc].
      destruct Hin as [<- | [<- | []]]; assumption. }
    destruct Hans as (r & w' & Hrun & Hsame & Hcases & Hpage).
    exists r, w'. split; [exact Hrun|]. split; [exact Hsame|].
    split; [exact Hcases|]. split; [intros Hq _; now apply Hpage|].
    discriminate.
  - exists (errorResponse "Search failed" 500), w.
    split; [reflexivity|]. split; [apply same_data_refl|].
    split; [now right|]. split.
    + intros _ (body & Hbody). discriminate.
    + intros e' _. now split.
Qed.

Lemma search_answers_and_only_reads_witness :
  exists r w',
    search_request (handleCombinedSearch (Sample.env Sample.no_fault false))
      (Returned acme_request) "alice" search_world = (Returned r, w')
    /\ same_data search_world w'
    /\ is_page r.
Proof.
  destruct (search_answers_and_only_reads (Sample.env Sample.no_fault false)
              (Returned acme_request) "alice" search_world
              (handleCombinedSearch (Sample.env Sample.no_fault false)))
    as (r & w' & Hrun & Hsame & _ & Hpage & _).
  - right. now left.
  - exists r, w'. split; [exact Hrun|]. split; [exact Hsame|].
    apply Hpage; [intros n; reflexivity | now exists acme_request].
Defined.

(** ** Merging tags *)

Section Retag.

Variables target source : string.
Hypothesis source_not_target : source <> target.

Lemma retag_prefix todo :
  forall done, exists moved,
    retag_or_ignore target source done todo = done ++ moved.
Proof.
  induction todo as [|r rest IH]; intros done; cbn [retag_or_ignore].
  - exists []. now rewrite app_nil_r.
  - destruct (dt_tag_id r =? source)%string;
      [destruct (existsb _ (done ++ rest))|];
      match goal with
      | |- context [retag_or_ignore _ _ (done ++ [?x]) rest] =>
          destruct (IH (done ++ [x])) as (moved & ->);
          exists (x :: moved); now rewrite <- app_assoc
      end.
Qed.

Lemma retag_done todo done r :
  In r done -> In r (retag_or_ignore target source done todo).
Proof.
  intros Hin. destruct (retag_prefix todo done) as (moved & ->).
  apply in_or_app. now left.
Qed.

(** A row of another tag is left as it is. *)
Lemma retag_keeps todo :
  forall done r,
    In r todo -> dt_tag_id r <> source ->
    In r (retag_or_ignore target source done todo).
Proof.
  induction todo as [|r0 rest IH]; intros done r Hin Hne; [destruct Hin|].
  cbn [retag_or_ignore]. destruct Hin as [<- | Hin].
  - apply String.eqb_neq in Hne. rewrite Hne.
    apply retag_done. apply in_or_app. right. now left.
  - destruct (dt_tag_id r0 =? source)%string;
      [destruct (existsb _ (done ++ rest))|]; now apply IH.
Qed.

(** A row of the source tag ends as a row of the target tag, or there
    is a row of the target tag for its document already. *)
Lemma retag_moves todo :
  forall done r,
    In r todo -> dt_tag_id r = source ->
    exists q,
      In q (retag_or_ignore target source done todo)
      /\ dt_document_id q = dt_document_id r
      /\ dt_tag_id q = target.
Proof.
  induction todo as [|r0 rest IH]; intros done r Hin Heq; [destruct Hin|].
  cbn [retag_or_ignore]. destruct Hin as [<- | Hin].
  - rewrite Heq, String.eqb_refl.
    destruct (existsb _ (done ++ rest)) eqn:Hex.
    + apply existsb_exists in Hex as (q & Hq & Hkey).
      apply andb_prop in Hkey as [Hdoc Htag].
      apply String.eqb_eq in Hdoc. apply String.eqb_eq in Htag.
      exists q. split; [|auto].
      apply in_app_or in Hq as [Hq | Hq].
      * apply retag_done. apply in_or_app. now left.
      * apply retag_keeps; [exact Hq|]. rewrite Htag.
        intros H. now apply source_not_target.
    + eexists. split; [apply retag_done; apply in_or_app; right; now left|].
      split; reflexivity.
  - destruct (dt_tag_id r0 =? source)%string;
      [destruct (existsb _ (done ++ rest))|]; now apply IH.
Qed.

(** The rows of a third tag are the same before and after. *)
Lemma retag_other x todo :
  x <> source -> x <> target ->
  forall done,
    filter (fun r => (dt_tag_id r =? x)%string)
      (retag_or_ignore target source done todo)
    = filter (fun r => (dt_tag_id r =? x)%string) (done ++ todo).
Proof.
  intros Hs Ht. induction todo as [|r0 rest IH]; intros done;
    cbn [retag_or_ignore].
  - now rewrite app_nil_r.
  - assert (Hcons : forall y,
               y = r0
               \/ ((dt_tag_id y =? x)%string = false
                   /\ (dt_tag_id r0 =? x)%string = false) ->
               filter (fun r => (dt_tag_id r =? x)%string)
                 ((done ++ [y]) ++ rest)
               = filter (fun r => (dt_tag_id r =? x)%string)
                   (done ++ r0 :: rest)).
    { intros y Hy. rewrite <- app_assoc. cbn [app].
      destruct Hy as [-> | [Hy Hr0]]; [reflexivity|].
      rewrite !filter_app. cbn [filter]. now rewrite Hy, Hr0. }
    destruct (String.eqb_spec (dt_tag_id r0) source) as [Heq|Hne];
      [destruct (existsb _ (done ++ rest))|];
      rewrite IH; apply Hcons; try (now left).
    right. cbn [dt_tag_id]. rewrite Heq.
    apply String.eqb_neq in Hs. apply String.eqb_neq in Ht.
    rewrite String.eqb_sym in Hs. rewrite String.eqb_sym in Ht.
    now rewrite Hs, Ht.
Qed.

(** Every row after the move was there before, or carries the target. *)
Lemma retag_rows todo :
  forall done q,
    In q (retag_or_ignore target source done todo) ->
    In q (done ++ todo) \/ dt_tag_id q = target.
Proof.
  induction todo as [|r0 rest IH]; intros done q Hin;
    cbn [retag_or_ignore] in Hin.
  - left. now rewrite app_nil_r.
  - destruct (dt_tag_id r0 =? source)%string;
      [destruct (existsb _ (done ++ rest))|];
      apply IH in Hin as [Hin | Hin]; auto;
      rewrite <- app_assoc in Hin; cbn [app] in Hin; auto.
    apply in_app_or in Hin as [Hin | [<- | Hin]].
    + left. apply in_or_app. now left.
    + now right.
    + left. apply in_or_app. right. now right.
Qed.

End Retag.

Lemma filter_delete_where_other (x s : string) (rows : list DocumentTag) :
  x <> s ->
  filter (fun r => (dt_tag_id r =? x)%string)
    (Sql.delete_where (fun r => (dt_tag_id r =? s)%string) rows)
  = filter (fun r => (dt_tag_id r =? x)%string) rows.
Proof.
  intros Hne. unfold Sql.delete_where.
  induction rows as [|r rows IH]; [reflexivity|]. cbn [filter].
  destruct (String.eqb_spec (dt_tag_id r) s) as [Hs|Hs]; cbn [negb filter].
  - rewrite Hs. apply String.eqb_neq in Hne. rewrite String.eqb_sym in Hne.
    now rewrite Hne.
  - now rewrite IH.
Qed.

Section MergeSource.

Variables target workspace : string.

(** What an iteration that merges does. *)
Lemma merge_source_cases sourceId d :
  merge_source target workspace sourceId d = d
  \/ (sourceId <> target
      /\ tags (merge_source target workspace sourceId d)
         = Sql.delete_where (fun t => (tag_id t =? sourceId)%string) (tags d)
      /\ document_tags (merge_source target workspace sourceId d)
         = Sql.delete_where (fun r => (dt_tag_id r =? sourceId)%string)
             (retag_or_ignore target sourceId [] (document_tags d))).
Proof.
  unfold merge_source.
  destruct (String.eqb_spec sourceId target) as [Heq|Hne]; [now left|].
  destruct (Sql.first _); [|now left].
  right. split; [exact Hne|]. split; reflexivity.
Qed.

Lemma merge_source_still_tagged sourceId d r :
  still_tagged target r d ->
  still_tagged target r (merge_source target workspace sourceId d).
Proof.
  intros (q & Hq & Hdoc & Htag).
  destruct (merge_source_cases sourceId d) as [-> | (Hne & _ & Hrows)].
  { exists q. auto. }
  unfold still_tagged. rewrite Hrows. unfold Sql.delete_where.
  destruct (String.eqb_spec (dt_tag_id q) sourceId) as [Hs|Hs].
  - destruct (retag_moves target sourceId Hne (document_tags d) [] q Hq Hs)
      as (q' & Hq' & Hdoc' & Htag').
    exists q'. split; [|split; [congruence | now right]].
    apply filter_In. split; [exact Hq'|]. rewrite Htag'.
    apply negb_true_iff, String.eqb_neq. intros H. now apply Hne.
  - exists q. split; [|auto].
    apply filter_In. split.
    + now apply retag_keeps.
    + now apply negb_true_iff, String.eqb_neq.
Qed.

Lemma merge_source_gone sourceId d :
  sourceId <> target ->
  In sourceId
    (map tag_id
       (filter (fun t => (tag_workspace_id t =? workspace)%string)
          (tags d))) ->
  tag_gone sourceId (merge_source target workspace sourceId d).
Proof.
  intros Hne Hin. unfold merge_source.
  apply String.eqb_neq in Hne. rewrite Hne.
  destruct (Sql.first _) eqn:Hfirst.
  - split; cbn [tags document_tags Sql.with_tags Sql.with_document_tags
                  move_associations]; unfold Sql.delete_where;
      intros H; apply in_map_iff in H as (x & Hid & Hx);
      apply filter_In in Hx as [_ Hx];
      rewrite Hid, String.eqb_refl in Hx; discriminate.
  - apply first_none_nil in Hfirst.
    apply in_map_iff in Hin as (t & Hid & Ht).
    apply filter_In in Ht as [Ht Hws].
    assert (Hin : In t (filter
                          (fun t => (tag_id t =? sourceId)%string
                                    && (tag_workspace_id t =? workspace)%string)
                          (tags d))).
    { apply filter_In. split; [exact Ht|].
      now rewrite Hid, String.eqb_refl, Hws. }
    rewrite Hfirst in Hin. destruct Hin.
Qed.

Lemma merge_source_keeps_gone x sourceId d :
  x <> target ->
  tag_gone x d -> tag_gone x (merge_source target workspace sourceId d).
Proof.
  intros Hx [Htags Hrows].
  destruct (merge_source_cases sourceId d) as [-> | (Hne & Ht & Hr)];
    [now split|].
  split.
  - rewrite Ht. intros H. apply Htags.
    apply in_map_iff in H as (t & Hid & Hin).
    apply filter_In in Hin as [Hin _]. rewrite <- Hid. now apply in_map.
  - rewrite Hr. intros H.
    apply in_map_iff in H as (q & Hid & Hin).
    apply filter_In in Hin as [Hin _].
    apply retag_rows in Hin as [Hin | Hin].
    + apply Hrows. rewrite <- Hid. now apply in_map.
    + apply Hx. congruence.
Qed.

Lemma merge_source_keeps_tag x sourceId d :
  x <> sourceId ->
  In x (map tag_id
          (filter (fun t => (tag_workspace_id t =? workspace)%string)
             (tags d))) ->
  In x (map tag_id
          (filter (fun t => (tag_workspace_id t =? workspace)%string)
             (tags (merge_source target workspace sourceId d)))).
Proof.
  intros Hx Hin.
  destruct (merge_source_cases sourceId d) as [-> | (_ & Ht & _)];
    [exact Hin|].
  rewrite Ht. apply in_map_iff in Hin as (t & Hid & Hin).
  apply filter_In in Hin as [Hin Hws].
  apply in_map_iff. exists t. split; [exact Hid|].
  apply filter_In. split; [|exact Hws].
  apply filter_In. split; [exact Hin|].
  apply negb_true_iff, String.eqb_neq. congruence.
Qed.

Lemma merge_source_counted sourceId d :
  counted_except target d ->
  counted_except target (merge_source target workspace sourceId d).
Proof.
  intros Hc.
  destruct (merge_source_cases sourceId d) as [-> | (Hne & Ht & Hr)];
    [exact Hc|].
  intros t Hin Hid. rewrite Ht in Hin.
  apply filter_In in Hin as [Hin Hs].
  apply negb_true_iff, String.eqb_neq in Hs.
  rewrite (Hc t Hin Hid). unfold count_associations. rewrite Hr.
  rewrite filter_delete_where_other by exact Hs.
  rewrite (retag_other target sourceId (tag_id t) (document_tags d) Hs Hid []).
  reflexivity.
Qed.

Lemma merged_sources_still_tagged sources :
  forall d r,
    still_tagged target r d ->
    still_tagged target r (merged_sources target workspace sources d).
Proof.
  induction sources as [|s rest IH]; intros d r H; [exact H|].
  cbn. apply IH. now apply merge_source_still_tagged.
Qed.

Lemma merged_sources_keeps_gone x sources :
  x <> target ->
  forall d,
    tag_gone x d -> tag_gone x (merged_sources target workspace sources d).
Proof.
  intros Hx. induction sources as [|s rest IH]; intros d H; [exact H|].
  cbn. apply IH. now apply merge_source_keeps_gone.
Qed.

Lemma merged_sources_counted sources :
  forall d,
    counted_except target d ->
    counted_except target (merged_sources target workspace sources d).
Proof.
  induction sources as [|s rest IH]; intros d H; [exact H|].
  cbn. apply IH. now apply merge_source_counted.
Qed.

Lemma merged_sources_gone sources :
  forall d x,
    In x sources -> x <> target ->
    In x (map tag_id
            (filter (fun t => (tag_workspace_id t =? workspace)%string)
               (tags d))) ->
    tag_gone x (merged_sources target workspace sources d).
Proof.
  induction sources as [|s rest IH]; intros d x Hin Hx Htag; [destruct Hin|].
  cbn. destruct (String.eqb_spec x s) as [->|Hne].
  - apply merged_sources_keeps_gone; [exact Hx|].
    now apply merge_source_gone.
  - destruct Hin as [<- | Hin]; [now elim Hne|].
    apply IH; [exact Hin | exact Hx|].
    now apply merge_source_keeps_tag.
Qed.

End MergeSource.

Lemma recount_consistent target d :
  counted_except target d ->
  usage_counts_consistent (recount target d) = true.
Proof.
  intros Hc. unfold usage_counts_consistent. apply forallb_forall.
  intros t Hin. cbn in Hin. unfold Sql.update_where in Hin.
  apply in_map_iff in Hin as (t0 & <- & Hin).
  apply Z.eqb_eq.
  change (count_associations (tag_id ?x) (recount target d))
    with (count_associations (tag_id x) d).
  destruct (String.eqb_spec (tag_id t0) target) as [Heq|Hne].
  - cbn. now rewrite Heq.
  - now apply Hc.
Qed.

Lemma consistent_counted target d :
  usage_counts_consistent d = true -> counted_except target d.
Proof.
  unfold usage_counts_consistent. rewrite forallb_forall.
  intros H t Hin _. now apply Z.eqb_eq, H.
Qed.

(** The loop of [handleMerge], when it returns, has merged the sources
    one after the other. *)
Lemma merge_loop_returned env target (targetTag : Tag) sources :
  forall w w',
    for_each sources
      (fun sourceId =>
         if (sourceId =? target)%string then ret tt
         else
           sourceTag <-
             d1_query env
               (fun d =>
                  Sql.first
                    (filter
                       (fun t =>
                          (tag_id t =? sourceId)%string
                          && (tag_workspace_id t
                              =? tag_workspace_id targetTag)%string)
                       (tags d))) ;;
           match sourceTag with
           | None => ret tt
           | Some _ =>
               d1_run env (move_associations target sourceId) ;;
               d1_run env
                 (fun d =>
                    Sql.with_document_tags d
                      (Sql.delete_where
                         (fun r => (dt_tag_id r =? sourceId)%string)
                         (document_tags d))) ;;
               d1_run env
                 (fun d =>
                    Sql.with_tags d
                      (Sql.delete_where
                         (fun t => (tag_id t =? sourceId)%string)
                         (tags d)))
           end) w = (Returned tt, w') ->
    db w'
    = merged_sources target (tag_workspace_id targetTag) sources (db w).
Proof.
  induction sources as [|s rest IH]; intros w w' H; cbn [for_each] in H.
  - now inversion H.
  - apply bind_returned_inv in H as ([] & w1 & Hstep & Hrest).
    rewrite (IH _ _ Hrest). cbn [merged_sources fold_left]. f_equal.
    unfold merge_source.
    destruct (s =? target)%string; [now inversion Hstep|].
    apply bind_returned_inv in Hstep as (sourceTag & wa & Hq & Hstep).
    apply d1_query_inv in Hq as [-> ->]. cbn [db tick].
    destruct (Sql.first _); [|now inversion Hstep].
    apply bind_returned_inv in Hstep as ([] & wb & H1 & Hstep).
    apply d1_run_inv in H1. subst wb.
    apply bind_returned_inv in Hstep as ([] & wc & H2 & H3).
    apply d1_run_inv in H2. subst wc.
    apply d1_run_inv in H3. subst w1. reflexivity.
Qed.

(** A merge that answers 'Tags merged' was asked by an owner of the
    target's workspace, and has run the loop and the recount. *)
Lemma handleMerge_returned env sources target userId w w' :
  handleMerge env sources target userId w
  = (Returned (jsonResponse (MessageBody "Tags merged") 200), w') ->
  exists targetTag,
    Sql.first (select_tag_access target userId (db w))
    = Some (targetTag, Owner)
    /\ db w'
       = recount target
           (merged_sources target (tag_workspace_id targetTag) sources
              (db w)).
Proof.
  unfold handleMerge. intros H.
  apply try_catch_returned_inv in H as [H | (e & w1 & _ & H)];
    [|inversion H].
  destruct (List.length sources =? 0)%nat; [inversion H|].
  destruct (negb (Js.truthy target)); [inversion H|].
  apply bind_returned_inv in H as (targetTag & wa & Hq & H).
  apply d1_query_inv in Hq as [-> ->].
  destruct (Sql.first (select_tag_access target userId (db w)))
    as [[targetTag [| |]]|]; try (inversion H; fail).
  exists targetTag. split; [reflexivity|].
  apply bind_returned_inv in H as ([] & wb & Hloop & H).
  apply merge_loop_returned in Hloop. cbn [db tick] in Hloop.
  apply bind_returned_inv in H as (count & wc & Hcount & H).
  apply d1_query_inv in Hcount as [-> ->].
  apply bind_returned_inv in H as ([] & wd & Hset & H).
  apply d1_run_inv in Hset. subst wd.
  inversion H; subst. cbn [db tick set_db]. rewrite Hloop. reflexivity.
Qed.

(** A merge that answers 'Tags merged': every association the database
    held is still there or replaced by one of the same document with the
    target tag, so no document loses a tagging; each source that was a
    tag of the target's workspace is gone, with every association that
    named it; the counter of the target equals the number of its
    associations; and if all counters were right before, all are right
    after. *)
Theorem handleMerge_keeps_taggings
    (env : Env) (source_tag_ids : list string) (target_tag_id userId : string)
    (w w' : World) :
  handleMerge env source_tag_ids target_tag_id userId w
  = (Returned (jsonResponse (MessageBody "Tags merged") 200), w') ->
  exists targetTag,
    Sql.first (select_tag_access target_tag_id userId (db w))
    = Some (targetTag, Owner)
    /\ (forall r, In r (document_tags (db w)) ->
                  still_tagged target_tag_id r (db w'))
    /\ (forall s,
           In s source_tag_ids -> s <> target_tag_id ->
           In s (map tag_id
                   (filter
                      (fun t => (tag_workspace_id t
                                 =? tag_workspace_id targetTag)%string)
                      (tags (db w)))) ->
           tag_gone s (db w'))
    /\ (forall t, In t (tags (db w')) -> tag_id t = target_tag_id ->
                  tag_usage_count t
                  = count_associations target_tag_id (db w'))
    /\ (usage_counts_consistent (db w) = true ->
        usage_counts_consistent (db w') = true).
Proof.
  intros H. apply handleMerge_returned in H as (targetTag & Haccess & Hdb).
  exists targetTag. split; [exact Haccess|]. rewrite Hdb.
  set (ws := tag_workspace_id targetTag).
  split; [|split; [|split]].
  - intros r Hin.
    assert (Hstart : still_tagged target_tag_id r (db w)).
    { exists r. auto. }
    exact (merged_sources_still_tagged target_tag_id ws source_tag_ids
             (db w) r Hstart).
  - intros s Hin Hne Htag.
    destruct (merged_sources_gone target_tag_id ws source_tag_ids
                (db w) s Hin Hne Htag) as [Htags Hrows].
    split; [|exact Hrows].
    cbn [recount tags Sql.with_tags]. unfold Sql.update_where.
    rewrite map_map. intros Hs. apply Htags.
    apply in_map_iff in Hs as (t & Hid & Ht).
    apply in_map_iff. exists t. split; [|exact Ht].
    destruct (tag_id t =? target_tag_id)%string; exact Hid.
  - intros t Hin Hid. cbn in Hin. unfold Sql.update_where in Hin.
    apply in_map_iff in Hin as (t0 & <- & Hin).
    destruct (String.eqb_spec (tag_id t0) target_tag_id) as [Heq|Hne].
    + reflexivity.
    + now elim Hne.
  - intros Hc. apply recount_consistent.
    apply merged_sources_counted. now apply consistent_counted.
Qed.

Lemma handleMerge_keeps_taggings_witness :
  exists w',
    handleMerge (Sample.env Sample.no_fault false) ["t2"] "t1" "alice"
      merge_world
    = (Returned (jsonResponse (MessageBody "Tags merged") 200), w')
    /\ tag_gone "t2" (db w')
    /\ (forall r, In r (document_tags (db merge_world)) ->
                  still_tagged "t1" r (db w'))
    /\ usage_counts_consistent (db w') = true.
Proof.
  destruct (handleMerge (Sample.env Sample.no_fault false) ["t2"] "t1"
              "alice" merge_world) as [out w'] eqn:Hrun.
  pose proof Hrun as Hval. vm_compute in Hval.
  injection Hval as Hout Hw. subst out.
  destruct (handleMerge_keeps_taggings _ _ _ _ _ _ Hrun)
    as (targetTag & Haccess & Hkept & Hgone & _ & Hcounts).
  exists w'. split; [reflexivity|]. split; [|split; [exact Hkept|]].
  - apply Hgone; [now left | discriminate|].
    vm_compute in Haccess. injection Haccess as <-.
    cbn. right. now left.
  - apply Hcounts. reflexivity.
Defined.

(** [handleMerge] never throws.  Without source ids, and without a
    target id, it answers 400 before any call; when the user is not an
    owner of the workspace of the target tag, or the target does not
    exist, it answers 403; in these cases nothing is written. *)
Theorem handleMerge_refuses
    (env : Env) (source_tag_ids : list string) (target_tag_id userId : string)
    (w : World) :
  exists r w',
    handleMerge env source_tag_ids target_tag_id userId w = (Returned r, w')
    /\ (source_tag_ids = [] ->
        r = errorResponse "Source tag IDs are required" 400 /\ w' = w)
    /\ (source_tag_ids <> [] -> target_tag_id = "" ->
        r = errorResponse "Target tag ID is required" 400 /\ w' = w)
    /\ (source_tag_ids <> [] -> target_tag_id <> "" ->
        fault env (ticks w) = None ->
        (forall t, Sql.first (select_tag_access target_tag_id userId (db w))
                   <> Some (t, Owner)) ->
        r = errorResponse "Insufficient permissions to merge tags" 403
        /\ same_data w w').
Proof.
  unfold handleMerge.
  destruct source_tag_ids as [|s rest].
  { cbn. eexists. eexists. split; [reflexivity|].
    split; [auto|]. split; intros H; now elim H. }
  cbn [List.length Nat.eqb].
  unfold Js.truthy.
  destruct (String.eqb_spec target_tag_id "") as [->|Htarget]; cbn [negb].
  { eexists. eexists. split; [reflexivity|].
    split; [discriminate|]. split; [auto|]. intros _ H. now elim H. }
  unfold try_catch.
  match goal with
  | |- context [match ?body w with _ => _ end] =>
      destruct (body w) as [[r|e] w1] eqn:Hbody
  end.
  - exists r, w1. split; [reflexivity|].
    split; [discriminate|]. split; [intros _ H; now elim Htarget|].
    intros _ _ Hok Hdenied.
    unfold d1_query in Hbody. unfold bind at 1 in Hbody.
    rewrite call_accepted in Hbody by exact Hok. cbn [db tick] in Hbody.
    destruct (Sql.first (select_tag_access target_tag_id userId (db w)))
      as [[t [| |]]|].
    + now elim (Hdenied t).
    + inversion Hbody. split; [reflexivity | apply same_data_tick].
    + inversion Hbody. split; [reflexivity | apply same_data_tick].
    + inversion Hbody. split; [reflexivity | apply same_data_tick].
  - eexists. eexists. split; [reflexivity|].
    split; [discriminate|]. split; [intros _ H; now elim Htarget|].
    intros _ _ Hok Hdenied.
    unfold d1_query in Hbody. unfold bind at 1 in Hbody.
    rewrite call_accepted in Hbody by exact Hok. cbn [db tick] in Hbody.
    destruct (Sql.first (select_tag_access target_tag_id userId (db w)))
      as [[t [| |]]|].
    + now elim (Hdenied t).
    + inversion Hbody.
    + inversion Hbody.
    + inversion Hbody.
Qed.

Lemma handleMerge_refuses_witness :
  exists w',
    handleMerge (Sample.env Sample.no_fault false) ["t2"] "t1" "bob"
      merge_world
    = (Returned
         (errorResponse "Insufficient permissions to merge tags" 403), w')
    /\ same_data merge_world w'.
Proof.
  destruct (handleMerge_refuses (Sample.env Sample.no_fault false)
              ["t2"] "t1" "bob" merge_world)
    as (r & w' & Hrun & _ & _ & Hdenied).
  destruct Hdenied as [-> Hsame].
  - discriminate.
  - discriminate.
  - reflexivity.
  - intros t. vm_compute. discriminate.
  - exists w'. split; [exact Hrun | exact Hsame].
Defined.

(** ** Removing tags from a document *)

(** One iteration of the loop of [removeTagsFromDocument]. *)
Lemma remove_tag_step documentId tagId d :
  let d' := decrement_usage tagId (delete_document_tag documentId tagId d) in
  (forall r,
      In r (document_tags d')
      <-> In r (document_tags d)
          /\ ~ (dt_document_id r = documentId /\ dt_tag_id r = tagId))
  /\ map tag_id (tags d') = map tag_id (tags d)
  /\ ((forall t, In t (tags d) -> 0 <= tag_usage_count t) ->
      forall t, In t (tags d') -> 0 <= tag_usage_count t).
Proof.
  cbv zeta. split; [|split].
  - intros r. cbn. unfold Sql.delete_where. rewrite filter_In.
    rewrite negb_true_iff, andb_false_iff, !String.eqb_neq.
    destruct (String.eqb_spec (dt_document_id r) documentId);
      destruct (String.eqb_spec (dt_tag_id r) tagId); tauto.
  - cbn. unfold Sql.update_where. rewrite map_map. apply map_ext.
    intros t. now destruct (tag_id t =? tagId)%string.
  - intros Hpos t Hin. cbn in Hin. unfold Sql.update_where in Hin.
    apply in_map_iff in Hin as (t0 & <- & Hin).
    destruct (tag_id t0 =? tagId)%string; [cbn; lia | now apply Hpos].
Qed.

(** When [removeTagsFromDocument] returns, the associations of the
    document with the tags of the list are gone and every other
    association is as it was; no tag row is added or removed; and a
    counter that was not negative is not negative afterwards. *)
Theorem removeTagsFromDocument_removes
    (env : Env) (documentId : string) (tagIds : list string)
    (w w' : World) :
  removeTagsFromDocument env documentId tagIds w = (Returned tt, w') ->
  (forall r,
      In r (document_tags (db w'))
      <-> In r (document_tags (db w))
          /\ ~ (dt_document_id r = documentId /\ In (dt_tag_id r) tagIds))
  /\ map tag_id (tags (db w')) = map tag_id (tags (db w))
  /\ ((forall t, In t (tags (db w)) -> 0 <= tag_usage_count t) ->
      forall t, In t (tags (db w')) -> 0 <= tag_usage_count t).
Proof.
  unfold removeTagsFromDocument. revert w.
  induction tagIds as [|tagId rest IH]; intros w Hrun; cbn [for_each] in Hrun.
  - inversion Hrun; subst. split; [|auto].
    intros r. cbn [In]. tauto.
  - apply bind_returned_inv in Hrun as ([] & w1 & Hstep & Hrest).
    apply bind_returned_inv in Hstep as ([] & wa & Hdel & Hdec).
    apply d1_run_inv in Hdel. subst wa.
    apply d1_run_inv in Hdec. subst w1. cbn [db tick set_db] in Hrest.
    destruct (IH _ Hrest) as (Hrows & Hids & Hpos).
    cbn [db set_db] in Hrows, Hids, Hpos.
    destruct (remove_tag_step documentId tagId (db w))
      as (Hrows1 & Hids1 & Hpos1).
    split; [|split].
    + intros r. rewrite Hrows, Hrows1. cbn [In].
      split.
      * intros [[Hin Hn1] Hn2]. split; [exact Hin|].
        intros [Hdoc [Htag | Htag]]; [apply Hn1 | apply Hn2]; auto.
      * intros [Hin Hn]. split; [split; [exact Hin|]|].
        -- intros [Hdoc Htag]. apply Hn. auto.
        -- intros [Hdoc Htag]. apply Hn. auto.
    + now rewrite Hids, Hids1.
    + intros H. apply Hpos. now apply Hpos1.
Qed.

Lemma removeTagsFromDocument_removes_witness :
  exists w',
    removeTagsFromDocument (Sample.env Sample.no_fault false) "d1"
      ["t2"; "t9"] merge_world = (Returned tt, w')
    /\ map (fun r => (dt_document_id r, dt_tag_id r)) (document_tags (db w'))
       = [("d1", "t1"); ("d2", "t2")]
    /\ map tag_id (tags (db w')) = ["t1"; "t2"].
Proof.
  destruct (removeTagsFromDocument (Sample.env Sample.no_fault false) "d1"
              ["t2"; "t9"] merge_world) as [out w'] eqn:Hrun.
  pose proof Hrun as Hval. vm_compute in Hval.
  injection Hval as Hout Hw. subst out.
  destruct (removeTagsFromDocument_removes _ _ _ _ _ Hrun)
    as (_ & Hids & _).
  exists w'. split; [reflexivity|]. split; [|exact Hids].
  rewrite <- Hw. reflexivity.
Defined.

(** ** The tag tools of the MCP server *)

Lemma insert_tag_inv r d d' :
  Sql.insert_tag r d = Returned d' ->
  ~ In (tag_id r) (map tag_id (tags d))
  /\ d' = Sql.with_tags d (tags d ++ [r]).
Proof.
  unfold Sql.insert_tag.
  destruct (existsb (fun r' => (tag_id r' =? tag_id r)%string) (tags d))
    eqn:Hex; [discriminate|].
  destruct (existsb
              (fun r' => (tag_workspace_id r' =? tag_workspace_id r)%string
                         && (tag_name r' =? tag_name r)%string) (tags d));
    intros H; inversion H.
  split; [|reflexivity].
  intros Hin. apply in_map_iff in Hin as (t & Hid & Hin).
  apply not_true_iff_false in Hex. apply Hex. apply existsb_exists.
  exists t. split; [exact Hin|]. now apply String.eqb_eq.
Qed.

Lemma increment_usage_named workspaceId tagName tagId d :
  Sql.select_tag_by_name workspaceId tagName (increment_usage tagId d)
  = Sql.select_tag_by_name workspaceId tagName d.
Proof.
  unfold Sql.select_tag_by_name. cbn. unfold Sql.update_where.
  induction (tags d) as [|t rows IH]; [reflexivity|].
  cbn [map filter].
  assert (Hsame : forall t',
             t' = (if (tag_id t =? tagId)%string
                   then set_usage_count t (tag_usage_count t + 1) else t) ->
             tag_workspace_id t' = tag_workspace_id t
             /\ tag_name t' = tag_name t /\ tag_id t' = tag_id t).
  { intros t' ->. now destruct (tag_id t =? tagId)%string. }
  destruct (Hsame _ eq_refl) as (Hws & Hname & Hid).
  rewrite Hws, Hname.
  destruct ((tag_workspace_id t =? workspaceId)%string
            && (tag_name t =? tagName)%string); cbn [map];
    now rewrite IH, ?Hid.
Qed.

(** A new tag, counted zero, under an id that nothing refers to. *)
Lemma insert_tag_consistent r d :
  tag_usage_count r = 0 ->
  ~ In (tag_id r) (map tag_id (tags d)) ->
  associations_reference_tags d ->
  usage_counts_consistent d = true ->
  usage_counts_consistent (Sql.with_tags d (tags d ++ [r])) = true
  /\ associations_reference_tags (Sql.with_tags d (tags d ++ [r])).
Proof.
  intros Hzero Hfresh Hfk Hc. split.
  - unfold usage_counts_consistent in *. cbn [tags Sql.with_tags].
    rewrite forallb_app. apply andb_true_intro. split.
    + exact Hc.
    + cbn. rewrite andb_true_r, Hzero. apply Z.eqb_eq.
      unfold count_associations.
      cbn [document_tags Sql.with_tags].
      destruct (filter (fun r0 => (dt_tag_id r0 =? tag_id r)%string)
                  (document_tags d)) as [|q qs] eqn:Hf;
        [reflexivity|].
      assert (Hq : In q (filter (fun r0 => (dt_tag_id r0 =? tag_id r)%string)
                           (document_tags d))) by (rewrite Hf; now left).
      apply filter_In in Hq as [Hq Hid]. apply String.eqb_eq in Hid.
      elim Hfresh. rewrite <- Hid. now apply Hfk.
  - intros q Hq. cbn in *. rewrite map_app, in_app_iff. left. now apply Hfk.
Qed.

Section ToolAddTags.

Variable env : Env.
Variables docId workspaceId now : string.

Lemma kept_refl w w' : db w' = db w -> tags_kept docId workspaceId w w'.
Proof. intros H. unfold tags_kept. rewrite H. auto. Qed.

Lemma kept_trans w1 w2 w3 :
  tags_kept docId workspaceId w1 w2 ->
  tags_kept docId workspaceId w2 w3 ->
  tags_kept docId workspaceId w1 w3.
Proof.
  intros [Ha Hb] [Hc Hd]. split.
  - intros H1 H2. destruct (Ha H1 H2). auto.
  - auto.
Qed.

(** "Find or create tag": afterwards the name is a tag of the
    workspace under the returned id. *)
Lemma find_or_create_tag tagName tagId w w' :
  (tag <-
     d1_query env
       (fun d => Sql.first (Sql.select_tag_by_name workspaceId tagName d)) ;;
   match tag with
   | Some id => ret id
   | None =>
       tagId <- generateId env ;;
       d1_insert env
         (Sql.insert_tag (mkTag tagId workspaceId tagName None 0 now)) ;;
       ret tagId
   end)%js w = (Returned tagId, w') ->
  tags_kept docId workspaceId w w'
  /\ In tagId (Sql.select_tag_by_name workspaceId tagName (db w'))
  /\ In tagId (map tag_id (tags (db w'))).
Proof.
  intros H. apply bind_returned_inv in H as (tag & w1 & Hq & H).
  apply d1_query_inv in Hq as [-> ->].
  destruct (Sql.first (Sql.select_tag_by_name workspaceId tagName (db w)))
    as [id|] eqn:Hfirst.
  - inversion H; subst. cbn [db tick].
    assert (Hin : In tagId (Sql.select_tag_by_name workspaceId tagName (db w))).
    { destruct (Sql.select_tag_by_name workspaceId tagName (db w));
        [discriminate|]. inversion Hfirst. now left. }
    split; [now apply kept_refl|]. split; [exact Hin|].
    unfold Sql.select_tag_by_name in Hin.
    apply in_map_iff in Hin as (t & Hid & Hin).
    apply filter_In in Hin as [Hin _]. rewrite <- Hid. now apply in_map.
  - apply bind_returned_inv in H as (newId & w2 & Hid & H).
    inversion Hid; subst newId w2; clear Hid.
    apply bind_returned_inv in H as ([] & w3 & Hins & H).
    apply d1_insert_inv in Hins as (d & Hins & ->).
    inversion H; subst. cbn [db tick set_db next_id] in *.
    apply insert_tag_inv in Hins as [Hfresh ->]. cbn [tag_id] in Hfresh.
    unfold tags_kept. cbn [db tick set_db next_id].
    split; [split|split].
    + intros Hc Hfk.
      now apply insert_tag_consistent.
    + intros name (id & Hin & Hassoc). exists id. split; [|exact Hassoc].
      unfold Sql.select_tag_by_name in *.
      cbn [db set_db tags Sql.with_tags].
      rewrite filter_app, map_app. apply in_or_app. now left.
    + unfold Sql.select_tag_by_name. cbn [db set_db tags Sql.with_tags].
      rewrite filter_app, map_app. apply in_or_app. right. cbn.
      rewrite !String.eqb_refl. cbn. now left.
    + cbn [db set_db tags Sql.with_tags].
      rewrite map_app. apply in_or_app. right. now left.
Qed.

(** "Add to document", for a tag that exists. *)
Lemma associate_tag tagName tagId w w' :
  In tagId (Sql.select_tag_by_name workspaceId tagName (db w)) ->
  In tagId (map tag_id (tags (db w))) ->
  (d1_insert env
     (Sql.insert_document_tag (mkDocumentTag docId tagId UserAdded None now)) ;;
   d1_run env (increment_usage tagId))%js w = (Returned tt, w') ->
  tags_kept docId workspaceId w w'
  /\ tagged_with docId workspaceId tagName (db w').
Proof.
  intros Hnamed Hexists H.
  apply bind_returned_inv in H as ([] & w1 & Hins & Hinc).
  apply d1_insert_inv in Hins as (d & Hins & ->).
  apply insert_document_tag_inv in Hins. subst d.
  apply d1_run_inv in Hinc. subst w'. unfold tags_kept. cbn [db tick set_db].
  split; [split|].
  - intros Hc Hfk. split.
    + exact (increment_usage_consistent
               (mkDocumentTag docId tagId UserAdded None now) _ Hc).
    + intros q Hq. rewrite increment_usage_ids. cbn in Hq |- *.
      apply in_app_or in Hq as [Hq | [<- | []]]; [now apply Hfk|].
      exact Hexists.
  - intros name (id & Hin & Hassoc). exists id.
    rewrite increment_usage_named. split; [exact Hin|].
    exact (select_document_tag_app docId id (db w) _ Hassoc).
  - exists tagId. rewrite increment_usage_named. split; [exact Hnamed|].
    unfold select_document_tag. cbn. rewrite filter_app. cbn.
    rewrite !String.eqb_refl. cbn.
    destruct (filter _ (document_tags (db w))); discriminate.
Qed.

Lemma toolAddTags_loop_returned tagNames :
  forall addedTags w result w',
    toolAddTags_loop env docId workspaceId now tagNames addedTags w
    = (Returned result, w') ->
    tags_kept docId workspaceId w w'
    /\ (forall tagName, In tagName tagNames ->
                        tagged_with docId workspaceId tagName (db w')).
Proof.
  induction tagNames as [|tagName rest IH]; intros addedTags w result w' H;
    cbn [toolAddTags_loop] in H.
  - inversion H; subst. split; [now apply kept_refl|]. intros t [].
  - apply bind_returned_inv in H as (tag & w1 & Hq & H).
    apply bind_returned_inv in H as (tagId & w2 & Hid & H).
    assert (Hfind : tags_kept docId workspaceId w w2
                    /\ In tagId
                         (Sql.select_tag_by_name workspaceId tagName (db w2))
                    /\ In tagId (map tag_id (tags (db w2)))).
    { apply (find_or_create_tag tagName tagId w w2).
      rewrite (bind_returned _ _ _ _ _ Hq). exact Hid. }
    destruct Hfind as (Hkept2 & Hnamed & Hexists).
    apply bind_returned_inv in H as (existing & w3 & Hex & H).
    apply d1_query_inv in Hex as [-> ->].
    destruct (Sql.first (select_document_tag docId tagId (db w2)))
      as [row|] eqn:Hfirst.
    + apply IH in H as (Hkept & Hall). cbn [db tick] in *.
      assert (Hkept3 : tags_kept docId workspaceId w2 (tick w2))
        by now apply kept_refl.
      assert (Hnow : tagged_with docId workspaceId tagName (db w2)).
      { exists tagId. split; [exact Hnamed|]. intros Hnil.
        rewrite Hnil in Hfirst. discriminate. }
      split; [exact (kept_trans _ _ _ Hkept2 (kept_trans _ _ _ Hkept3 Hkept))|].
      intros t [<- | Ht]; [|now apply Hall].
      apply Hkept. exact Hnow.
    + apply bind_returned_inv in H as ([] & w4 & Hins & H).
      apply bind_returned_inv in H as ([] & w5 & Hinc & H).
      assert (Hassoc : tags_kept docId workspaceId (tick w2) w5
                       /\ tagged_with docId workspaceId tagName (db w5)).
      { apply (associate_tag tagName tagId (tick w2) w5 Hnamed Hexists).
        rewrite (bind_returned _ _ _ _ _ Hins). exact Hinc. }
      destruct Hassoc as (Hkept5 & Hnow).
      apply IH in H as (Hkept & Hall).
      assert (Hkept3 : tags_kept docId workspaceId w2 (tick w2))
        by now apply kept_refl.
      split.
      * exact (kept_trans _ _ _ Hkept2
                 (kept_trans _ _ _ Hkept3 (kept_trans _ _ _ Hkept5 Hkept))).
      * intros t [<- | Ht]; [|now apply Hall].
        apply Hkept. exact Hnow.
Qed.

End ToolAddTags.

(** When [toolAddTags] returns: if every counter equalled the number
    of associations of its tag and every association named an existing
    tag, both still hold; and unless it reports an error, the document
    carries a tag of the caller's workspace for every name of the list.
    A viewer is refused before any call. *)
Theorem toolAddTags_keeps_counts
    (env : Env) (docId : string) (tagNames : list string)
    (keyData : KeyData) (w w' : World) (result : McpToolResult) :
  toolAddTags env docId tagNames keyData w = (Returned result, w') ->
  (usage_counts_consistent (db w) = true ->
   associations_reference_tags (db w) ->
   usage_counts_consistent (db w') = true
   /\ associations_reference_tags (db w'))
  /\ (tr_isError result = false ->
      forall tagName, In tagName tagNames ->
        tagged_with docId (kd_workspace_id keyData) tagName (db w'))
  /\ (kd_role keyData = "viewer" ->
      result = mkToolResult "Insufficient permissions" true /\ w' = w).
Proof.
  unfold toolAddTags. intros H.
  destruct (String.eqb_spec (kd_role keyData) "viewer") as [Hrole|Hrole].
  { inversion H; subst. split; [auto|]. split; [discriminate | auto]. }
  apply bind_returned_inv in H as (doc & w1 & Hq & H).
  apply d1_query_inv in Hq as [-> ->].
  destruct (Sql.first _) as [doc|].
  2:{ inversion H; subst. cbn [db tick]. split; [auto|].
      split; [discriminate | intros Hv; now elim Hrole]. }
  apply bind_returned_inv in H as (now & w2 & Hnow & H).
  inversion Hnow; subst now w2; clear Hnow.
  apply bind_returned_inv in H as (addedTags & w3 & Hloop & H).
  apply toolAddTags_loop_returned in Hloop as ((Hinv & _) & Hall).
  inversion H; subst. cbn [db tick] in Hinv.
  split; [exact Hinv|]. split; [intros _; exact Hall|].
  intros Hv. now elim Hrole.
Qed.

Lemma toolAddTags_keeps_counts_witness :
  exists w',
    toolAddTags (Sample.env Sample.no_fault false) "d2" ["memo"; "urgent"]
      (mkKeyData "alice" "W1" "editor") merge_world
    = (Returned (mkToolResult "Added tags: memo, urgent" false), w')
    /\ usage_counts_consistent (db w') = true
    /\ tagged_with "d2" "W1" "urgent" (db w').
Proof.
  destruct (toolAddTags (Sample.env Sample.no_fault false) "d2"
              ["memo"; "urgent"] (mkKeyData "alice" "W1" "editor")
              merge_world) as [out w'] eqn:Hrun.
  pose proof Hrun as Hval. vm_compute in Hval.
  injection Hval as Hout Hw. subst out.
  destruct (toolAddTags_keeps_counts _ _ _ _ _ _ _ Hrun)
    as (Hinv & Hall & _).
  exists w'. split; [reflexivity|]. split.
  - apply Hinv; [reflexivity|].
    intros r [<- | [<- | [<- | []]]]; cbn; auto.
  - apply Hall; [reflexivity|]. right. now left.
Defined.

(** The rows of one key, when no two rows share a key. *)
Lemma keyed_select_length docId tagId d :
  associations_keyed d ->
  (List.length (select_document_tag docId tagId d) <= 1)%nat.
Proof.
  unfold associations_keyed, select_document_tag.
  induction (document_tags d) as [|r rows IH]; intros Hnd; [cbn; lia|].
  cbn [map] in Hnd. inversion Hnd as [|k ks Hnot Hrest]; subst.
  cbn [filter].
  destruct ((dt_document_id r =? docId)%string
            && (dt_tag_id r =? tagId)%string) eqn:Hkey; [|now apply IH].
  apply andb_prop in Hkey as [Hdoc Htag].
  apply String.eqb_eq in Hdoc. apply String.eqb_eq in Htag.
  destruct (filter _ rows) as [|q qs] eqn:Hf; [cbn; lia|].
  assert (Hq : In q (filter (fun r0 => (dt_document_id r0 =? docId)%string
                                       && (dt_tag_id r0 =? tagId)%string)
                       rows)) by (rewrite Hf; now left).
  apply filter_In in Hq as [Hq Hk].
  apply andb_prop in Hk as [Hd Ht].
  apply String.eqb_eq in Hd. apply String.eqb_eq in Ht.
  elim Hnot. apply in_map_iff. exists q. split; [|exact Hq]. congruence.
Qed.

(** One fewer association and one fewer on the counter of its tag. *)
Lemma decrement_usage_consistent docId tagId d :
  associations_keyed d ->
  select_document_tag docId tagId d <> [] ->
  usage_counts_consistent d = true ->
  usage_counts_consistent
    (decrement_usage tagId (delete_document_tag docId tagId d)) = true.
Proof.
  intros Hkeyed Hsome Hc.
  pose proof (keyed_select_length docId tagId d Hkeyed) as Hone.
  unfold usage_counts_consistent in *. rewrite forallb_forall in *.
  intros t Hin. cbn in Hin. unfold Sql.update_where in Hin.
  apply in_map_iff in Hin as (t0 & <- & Hin0).
  specialize (Hc t0 Hin0). apply Z.eqb_eq in Hc. apply Z.eqb_eq.
  assert (Hcount : forall x,
             count_associations x
               (decrement_usage tagId (delete_document_tag docId tagId d))
             = count_associations x d
               - (if (x =? tagId)%string then 1 else 0)).
  { intros x. unfold count_associations, select_document_tag in *.
    cbn [document_tags decrement_usage delete_document_tag Sql.with_tags
           Sql.with_document_tags]. unfold Sql.delete_where.
    clear Hc Hin0 Hkeyed. revert Hsome Hone.
    induction (document_tags d) as [|r rows IH]; intros Hsome Hone.
    - now elim Hsome.
    - cbn [filter] in *.
      destruct (String.eqb_spec (dt_document_id r) docId) as [Hd|Hd];
        destruct (String.eqb_spec (dt_tag_id r) tagId) as [Ht|Ht];
        cbn [andb negb filter List.length] in *.
      + rewrite Ht. destruct (String.eqb_spec x tagId) as [->|Hx].
        * rewrite String.eqb_refl. cbn [List.length].
          assert (Hnil : filter
                           (fun r0 => (dt_document_id r0 =? docId)%string
                                      && (dt_tag_id r0 =? tagId)%string)
                           rows = []).
          { destruct (filter _ rows); [reflexivity | cbn in Hone; lia]. }
          assert (Hsame : filter
                            (fun r0 =>
                               negb ((dt_document_id r0 =? docId)%string
                                     && (dt_tag_id r0 =? tagId)%string))
                            rows = rows).
          { clear -Hnil. induction rows as [|q qs IHq]; [reflexivity|].
            cbn [filter] in *.
            destruct ((dt_document_id q =? docId)%string
                      && (dt_tag_id q =? tagId)%string);
              [discriminate|].
            cbn [negb]. now rewrite IHq. }
          rewrite Hsame. lia.
        * apply String.eqb_neq in Hx. rewrite String.eqb_sym in Hx.
          rewrite Hx.
          assert (Hnil : filter
                           (fun r0 => (dt_document_id r0 =? docId)%string
                                      && (dt_tag_id r0 =? tagId)%string)
                           rows = []).
          { destruct (filter _ rows); [reflexivity | cbn in Hone; lia]. }
          assert (Hsame : filter
                            (fun r0 =>
                               negb ((dt_document_id r0 =? docId)%string
                                     && (dt_tag_id r0 =? tagId)%string))
                            rows = rows).
          { clear -Hnil. induction rows as [|q qs IHq]; [reflexivity|].
            cbn [filter] in *.
            destruct ((dt_document_id q =? docId)%string
                      && (dt_tag_id q =? tagId)%string);
              [discriminate|].
            cbn [negb]. now rewrite IHq. }
          rewrite Hsame. lia.
      + specialize (IH Hsome Hone).
        destruct (dt_tag_id r =? x)%string; cbn [List.length]; lia.
      + specialize (IH Hsome Hone).
        destruct (dt_tag_id r =? x)%string; cbn [List.length]; lia.
      + specialize (IH Hsome Hone).
        destruct (dt_tag_id r =? x)%string; cbn [List.length]; lia. }
  rewrite Hcount.
  destruct (String.eqb_spec (tag_id t0) tagId) as [Heq|Hne].
  - cbn [tag_id tag_usage_count set_usage_count].
    assert (Hpos : 1 <= count_associations tagId d).
    { unfold count_associations.
      destruct (select_document_tag docId tagId d) as [|q qs] eqn:Hsel;
        [now elim Hsome|].
      assert (Hq : In q (select_document_tag docId tagId d))
        by (rewrite Hsel; now left).
      apply filter_In in Hq as [Hq Hk]. apply andb_prop in Hk as [_ Hk].
      assert (Hq' : In q (filter (fun r => (dt_tag_id r =? tagId)%string)
                            (document_tags d)))
        by (apply filter_In; auto).
      destruct (filter _ (document_tags d)); [destruct Hq'|cbn; lia]. }
    rewrite Heq in Hc. rewrite Heq, String.eqb_refl. lia.
  - apply String.eqb_neq in Hne. rewrite Hne. lia.
Qed.

Lemma decrement_usage_named workspaceId tagName tagId d :
  Sql.select_tag_by_name workspaceId tagName (decrement_usage tagId d)
  = Sql.select_tag_by_name workspaceId tagName d.
Proof.
  unfold Sql.select_tag_by_name. cbn. unfold Sql.update_where.
  induction (tags d) as [|t rows IH]; [reflexivity|].
  cbn [map filter].
  assert (Hsame : forall t',
             t' = (if (tag_id t =? tagId)%string
                   then set_usage_count t (Z.max 0 (tag_usage_count t - 1))
                   else t) ->
             tag_workspace_id t' = tag_workspace_id t
             /\ tag_name t' = tag_name t /\ tag_id t' = tag_id t).
  { intros t' ->. now destruct (tag_id t =? tagId)%string. }
  destruct (Hsame _ eq_refl) as (Hws & Hname & Hid).
  rewrite Hws, Hname.
  destruct ((tag_workspace_id t =? workspaceId)%string
            && (tag_name t =? tagName)%string); cbn [map];
    now rewrite IH, ?Hid.
Qed.

Lemma delete_document_tag_keyed docId tagId d :
  associations_keyed d ->
  associations_keyed (delete_document_tag docId tagId d).
Proof.
  unfold associations_keyed. cbn. unfold Sql.delete_where.
  induction (document_tags d) as [|r rows IH]; intros Hnd; [exact Hnd|].
  cbn [map] in Hnd. inversion Hnd as [|k ks Hnot Hrest]; subst.
  cbn [filter]. destruct (negb _); [|now apply IH].
  cbn [map]. constructor; [|now apply IH].
  intros Hin. apply Hnot. apply in_map_iff in Hin as (q & Hk & Hq).
  apply filter_In in Hq as [Hq _]. apply in_map_iff. eauto.
Qed.

Lemma delete_document_tag_none docId tagId d :
  select_document_tag docId tagId d = [] ->
  document_tags (delete_document_tag docId tagId d) = document_tags d.
Proof.
  unfold select_document_tag. cbn. unfold Sql.delete_where.
  induction (document_tags d) as [|r rows IH]; intros Hnil; [reflexivity|].
  cbn [filter] in *.
  destruct ((dt_document_id r =? docId)%string
            && (dt_tag_id r =? tagId)%string); [discriminate|].
  cbn [negb]. now rewrite IH.
Qed.

Lemma delete_document_tag_selected docId tagId d :
  select_document_tag docId tagId (delete_document_tag docId tagId d) = [].
Proof.
  unfold select_document_tag. cbn. unfold Sql.delete_where.
  induction (document_tags d) as [|r rows IH]; [reflexivity|].
  cbn [filter].
  destruct ((dt_document_id r =? docId)%string
            && (dt_tag_id r =? tagId)%string) eqn:Hk; cbn [negb];
    [exact IH|].
  cbn [filter]. now rewrite Hk.
Qed.

Lemma select_document_tag_subset docId tagId d d' :
  (forall r, In r (document_tags d') -> In r (document_tags d)) ->
  select_document_tag docId tagId d = [] ->
  select_document_tag docId tagId d' = [].
Proof.
  intros Hsub Hnil. unfold select_document_tag in *.
  destruct (filter _ (document_tags d')) as [|q qs] eqn:Hf; [reflexivity|].
  assert (Hq : In q (filter (fun r => (dt_document_id r =? docId)%string
                                      && (dt_tag_id r =? tagId)%string)
                       (document_tags d'))) by (rewrite Hf; now left).
  apply filter_In in Hq as [Hq Hk].
  assert (Hq' : In q (filter (fun r => (dt_document_id r =? docId)%string
                                       && (dt_tag_id r =? tagId)%string)
                        (document_tags d))).
  { apply filter_In. split; [now apply Hsub | exact Hk]. }
  rewrite Hnil in Hq'. destruct Hq'.
Qed.

Section ToolRemoveTags.

Variable env : Env.
Variables docId workspaceId : string.

Lemma toolRemoveTags_loop_returned tagNames :
  forall removedTags w result w',
    toolRemoveTags_loop env docId workspaceId tagNames removedTags w
    = (Returned result, w') ->
    (usage_counts_consistent (db w) = true -> associations_keyed (db w) ->
     usage_counts_consistent (db w') = true /\ associations_keyed (db w'))
    /\ (forall tagName,
           Sql.select_tag_by_name workspaceId tagName (db w')
           = Sql.select_tag_by_name workspaceId tagName (db w))
    /\ (forall r, In r (document_tags (db w')) ->
                  In r (document_tags (db w)))
    /\ (forall tagName tagId,
           In tagName tagNames ->
           Sql.first (Sql.select_tag_by_name workspaceId tagName (db w))
           = Some tagId ->
           select_document_tag docId tagId (db w') = []).
Proof.
  induction tagNames as [|tagName rest IH]; intros removedTags w result w' H;
    cbn [toolRemoveTags_loop] in H.
  - inversion H; subst. repeat split; auto. intros t id [].
  - apply bind_returned_inv in H as (tag & w1 & Hq & H).
    apply d1_query_inv in Hq as [-> ->].
    destruct (Sql.first (Sql.select_tag_by_name workspaceId tagName (db w)))
      as [tagId|] eqn:Hfirst.
    2:{ apply IH in H as (Hinv & Hnames & Hsub & Hgone).
        cbn [db tick] in *. split; [exact Hinv|]. split; [exact Hnames|].
        split; [exact Hsub|].
        intros t id [<- | Ht] Hid; [congruence | now apply (Hgone t)]. }
    apply bind_returned_inv in H as (changes & w2 & Hdel & H).
    apply call_returned_inv in Hdel as [_ Hdel].
    inversion Hdel; subst changes w2; clear Hdel.
    cbn [db tick] in H.
    set (d1 := delete_document_tag docId tagId (db w)) in *.
    assert (Hsub1 : forall r, In r (document_tags d1) ->
                              In r (document_tags (db w))).
    { intros r Hr. unfold d1 in Hr. cbn in Hr.
      apply filter_In in Hr. tauto. }
    destruct (select_document_tag docId tagId (db w)) as [|q qs] eqn:Hsel.
    + cbn [List.length Z.of_nat Z.ltb Z.compare] in H.
      apply IH in H as (Hinv & Hnames & Hsub & Hgone).
      cbn [db set_db tick] in *.
      assert (Hrows : document_tags d1 = document_tags (db w))
        by now apply delete_document_tag_none.
      split; [|split; [exact Hnames|split]].
      * intros Hc Hk. apply Hinv.
        -- unfold usage_counts_consistent, count_associations in *.
           now rewrite Hrows.
        -- unfold associations_keyed in *. now rewrite Hrows.
      * intros r Hr. apply Hsub1. now apply Hsub.
      * intros t id [<- | Ht] Hid; [|now apply (Hgone t)].
        assert (id = tagId) by congruence. subst id.
        apply (select_document_tag_subset docId tagId d1); [exact Hsub|].
        apply delete_document_tag_selected.
    + assert (Hpos : (0 <? Z.of_nat (List.length (q :: qs))) = true)
        by (apply Z.ltb_lt; cbn [List.length]; lia).
      rewrite Hpos in H.
      apply bind_returned_inv in H as ([] & w3 & Hdec & H).
      apply d1_run_inv in Hdec. subst w3. cbn [db set_db tick] in H.
      apply IH in H as (Hinv & Hnames & Hsub & Hgone).
      cbn [db set_db tick] in *.
      split; [|split; [|split]].
      * intros Hc Hk. apply Hinv.
        -- apply decrement_usage_consistent; [exact Hk | | exact Hc].
           rewrite Hsel. discriminate.
        -- now apply delete_document_tag_keyed.
      * intros t. rewrite Hnames. now rewrite decrement_usage_named.
      * intros r Hr. apply Hsub1. now apply Hsub.
      * intros t id [<- | Ht] Hid.
        -- assert (id = tagId) by congruence. subst id.
           apply (select_document_tag_subset docId tagId d1);
             [exact Hsub|].
           apply delete_document_tag_selected.
        -- apply (Hgone t); [exact Ht|].
           now rewrite decrement_usage_named.
Qed.

End ToolRemoveTags.

(** When [toolRemoveTags] returns: if every counter equalled the
    number of associations of its tag and no two associations shared
    document and tag, both still hold (the counter is touched only when
    a row was deleted); unless it reports an error, the document no
    longer carries the tag that each name of the list selects; no other
    association is added.  A viewer is refused before any call. *)
Theorem toolRemoveTags_keeps_counts
    (env : Env) (docId : string) (tagNames : list string)
    (keyData : KeyData) (w w' : World) (result : McpToolResult) :
  toolRemoveTags env docId tagNames keyData w = (Returned result, w') ->
  (usage_counts_consistent (db w) = true -> associations_keyed (db w) ->
   usage_counts_consistent (db w') = true /\ associations_keyed (db w'))
  /\ (tr_isError result = false ->
      forall tagName tagId,
        In tagName tagNames ->
        Sql.first (Sql.select_tag_by_name (kd_workspace_id keyData) tagName
                     (db w)) = Some tagId ->
        select_document_tag docId tagId (db w') = [])
  /\ (forall r, In r (document_tags (db w')) -> In r (document_tags (db w)))
  /\ (kd_role keyData = "viewer" ->
      result = mkToolResult "Insufficient permissions" true /\ w' = w).
Proof.
  unfold toolRemoveTags. intros H.
  destruct (String.eqb_spec (kd_role keyData) "viewer") as [Hrole|Hrole].
  { inversion H; subst. split; [auto|]. split; [discriminate | auto]. }
  apply bind_returned_inv in H as (doc & w1 & Hq & H).
  apply d1_query_inv in Hq as [-> ->].
  destruct (Sql.first _) as [doc|].
  2:{ inversion H; subst. cbn [db tick]. split; [auto|].
      split; [discriminate|]. split; [auto|].
      intros Hv; now elim Hrole. }
  apply bind_returned_inv in H as (removedTags & w2 & Hloop & H).
  apply toolRemoveTags_loop_returned in Hloop
    as (Hinv & _ & Hsub & Hgone).
  inversion H; subst. cbn [db tick] in *.
  split; [exact Hinv|]. split; [intros _; exact Hgone|].
  split; [exact Hsub|]. intros Hv. now elim Hrole.
Qed.

Lemma toolRemoveTags_keeps_counts_witness :
  exists w',
    toolRemoveTags (Sample.env Sample.no_fault false) "d2"
      ["memo"; "note"] (mkKeyData "alice" "W1" "editor") merge_world
    = (Returned (mkToolResult "Removed tags: note" false), w')
    /\ usage_counts_consistent (db w') = true
    /\ map tag_usage_count (tags (db w')) = [1; 1].
Proof.
  destruct (toolRemoveTags (Sample.env Sample.no_fault false) "d2"
              ["memo"; "note"] (mkKeyData "alice" "W1" "editor")
              merge_world) as [out w'] eqn:Hrun.
  pose proof Hrun as Hval. vm_compute in Hval.
  injection Hval as Hout Hw. subst out.
  destruct (toolRemoveTags_keeps_counts _ _ _ _ _ _ _ Hrun)
    as (Hinv & _).
  exists w'. split; [reflexivity|]. split.
  - apply Hinv; [reflexivity|].
    unfold associations_keyed. cbn.
    repeat (constructor; [cbn; intuition discriminate|]). constructor.
  - rewrite <- Hw. reflexivity.
Defined.

(** ** Deleting a tag *)

(** [TagRoutes.handleDelete] when no call is rejected.  It answers 404
    when the user sees no such tag and 403 to a viewer, writing nothing.
    Otherwise it answers 200: the tag row and every association that
    named the tag are gone, every other association is as it was, and
    counters that were right are still right. *)
Theorem tag_delete_removes_associations
    (env : Env) (userId tagId : string) (w : World) :
  quiet env ->
  exists r w',
    TagRoutes.handleDelete env userId tagId w = (Returned r, w')
    /\ match Sql.first (select_tag_access tagId userId (db w)) with
       | None =>
           r = errorResponse "Tag not found" 404 /\ same_data w w'
       | Some (_, Viewer) =>
           r = errorResponse "Insufficient permissions" 403
           /\ same_data w w'
       | Some (_, _) =>
           r = jsonResponse (MessageBody "Tag deleted") 200
           /\ tag_gone tagId (db w')
           /\ (forall q,
                  In q (document_tags (db w'))
                  <-> In q (document_tags (db w)) /\ dt_tag_id q <> tagId)
           /\ (usage_counts_consistent (db w) = true ->
               usage_counts_consistent (db w') = true)
       end.
Proof.
  intros Hq. unfold TagRoutes.handleDelete, d1_query.
  unfold bind at 1. rewrite (call_quiet env Hq). cbn [db tick].
  assert (Hdeleted :
    exists w',
      (d1_run env
         (fun d =>
            Sql.with_document_tags d
              (Sql.delete_where (fun r => (dt_tag_id r =? tagId)%string)
                 (document_tags d))) ;;
       d1_run env
         (fun d =>
            Sql.with_tags d
              (Sql.delete_where (fun t => (tag_id t =? tagId)%string)
                 (tags d))) ;;
       ret (jsonResponse (MessageBody "Tag deleted") 200))%js (tick w)
      = (Returned (jsonResponse (MessageBody "Tag deleted") 200), w')
      /\ tag_gone tagId (db w')
      /\ (forall q,
             In q (document_tags (db w'))
             <-> In q (document_tags (db w)) /\ dt_tag_id q <> tagId)
      /\ (usage_counts_consistent (db w) = true ->
          usage_counts_consistent (db w') = true)).
  { unfold d1_run. unfold bind at 1. rewrite (call_quiet env Hq).
    unfold bind at 1. rewrite (call_quiet env Hq).
    eexists. split; [reflexivity|].
    cbn [db set_db tick]. split; [|split].
    - split; cbn; unfold Sql.delete_where; intros H;
        apply in_map_iff in H as (x & Hid & Hx);
        apply filter_In in Hx as [_ Hx];
        rewrite Hid, String.eqb_refl in Hx; discriminate.
    - intros q. cbn. unfold Sql.delete_where. rewrite filter_In.
      now rewrite negb_true_iff, String.eqb_neq.
    - unfold usage_counts_consistent. rewrite !forallb_forall.
      intros Hc t Hin. cbn in Hin. apply filter_In in Hin as [Hin Hne].
      apply negb_true_iff, String.eqb_neq in Hne.
      specialize (Hc t Hin). apply Z.eqb_eq in Hc. apply Z.eqb_eq.
      rewrite Hc. unfold count_associations. cbn.
      now rewrite filter_delete_where_other. }
  destruct (Sql.first (select_tag_access tagId userId (db w)))
    as [[t [| |]]|].
  - destruct Hdeleted as (w' & Hrun & Hfacts).
    eexists. exists w'. split; [exact Hrun|]. split; [reflexivity|].
    exact Hfacts.
  - destruct Hdeleted as (w' & Hrun & Hfacts).
    eexists. exists w'. split; [exact Hrun|]. split; [reflexivity|].
    exact Hfacts.
  - eexists. eexists. split; [reflexivity|].
    split; [reflexivity | apply same_data_tick].
  - eexists. eexists. split; [reflexivity|].
    split; [reflexivity | apply same_data_tick].
Qed.

Lemma tag_delete_removes_associations_witness :
  exists w',
    TagRoutes.handleDelete (Sample.env Sample.no_fault false) "alice" "t2"
      merge_world
    = (Returned (jsonResponse (MessageBody "Tag deleted") 200), w')
    /\ tag_gone "t2" (db w')
    /\ usage_counts_consistent (db w') = true.
Proof.
  destruct (tag_delete_removes_associations
              (Sample.env Sample.no_fault false) "alice" "t2" merge_world)
    as (r & w' & Hrun & Hcase).
  - intros n. reflexivity.
  - vm_compute in Hcase. destruct Hcase as (-> & Hgone & _ & Hc).
    exists w'. split; [exact Hrun|]. split; [|now apply Hc].
    split.
    + intros Hin. apply (proj1 Hgone). exact Hin.
    + intros Hin. apply (proj2 Hgone). exact Hin.
Defined.

(** ** Reading the text of a document *)

Lemma select_document_access_map (g : Document -> Document)
    docId userId d d' :
  (forall r, doc_id (g r) = doc_id r) ->
  (forall r, doc_workspace_id (g r) = doc_workspace_id r) ->
  documents d' = map g (documents d) ->
  workspace_members d' = workspace_members d ->
  select_document_access docId userId d'
  = map (fun p => (g (fst p), snd p)) (select_document_access docId userId d).
Proof.
  intros Hid Hws Hdocs Hmembers. unfold select_document_access.
  rewrite Hdocs, Hmembers. clear Hdocs.
  induction (documents d) as [|r rows IH]; [reflexivity|].
  cbn [map filter]. rewrite Hid.
  destruct (doc_id r =? docId)%string; [|exact IH].
  cbn [flat_map]. rewrite map_app, IH. f_equal.
  rewrite Hws, !map_map. reflexivity.
Qed.

Lemma select_document_access_id docId userId d r role :
  In (r, role) (select_document_access docId userId d) -> doc_id r = docId.
Proof.
  unfold select_document_access. intros H.
  apply in_flat_map in H as (r0 & Hr0 & H).
  apply filter_In in Hr0 as [_ Hid]. apply String.eqb_eq in Hid.
  apply in_map_iff in H as (wm & Heq & _). now inversion Heq; subst.
Qed.

Lemma select_document_access_stored docId userId d :
  select_document_access docId userId d <> [] ->
  In docId (map doc_id (documents d)).
Proof.
  destruct (select_document_access docId userId d) as [|[r role] l] eqn:Hsel;
    [tauto|]. intros _.
  assert (Hin : In (r, role) (select_document_access docId userId d))
    by (rewrite Hsel; now left).
  unfold select_document_access in Hin.
  apply in_flat_map in Hin as (r0 & Hr0 & _).
  apply filter_In in Hr0 as [Hr0 Hid]. apply String.eqb_eq in Hid.
  rewrite <- Hid. now apply in_map.
Qed.

(** What [handleGetText] serves is the decoded text file of a 'ready'
    document that the user can see. *)
Lemma handleGetText_returned env userId docId w text w' :
  handleGetText env userId docId w = (Returned (TextJson text 200), w') ->
  exists doc role key bytes,
    Sql.first (select_document_access docId userId (db w)) = Some (doc, role)
    /\ doc_status doc = StReady
    /\ doc_text_key doc = Some key
    /\ lookup_file key (files w) = Some bytes
    /\ text = utf8_decode env bytes.
Proof.
  unfold handleGetText. intros H.
  apply bind_returned_inv in H as (doc & w1 & Hq & H).
  apply d1_query_inv in Hq as [-> ->].
  destruct (Sql.first (select_document_access docId userId (db w)))
    as [[doc role]|]; [|inversion H].
  destruct (doc_status doc) eqn:Hst; try (destruct (doc_text_key doc);
                                          inversion H; fail).
  destruct (doc_text_key doc) as [key|] eqn:Hkey; [|inversion H].
  destruct (Js.truthy key); [|inversion H].
  apply bind_returned_inv in H as (found & w2 & Hget & H).
  apply call_returned_inv in Hget as [_ Hget].
  inversion Hget; subst found w2; clear Hget. cbn [files tick] in H.
  destruct (lookup_file key (files w)) as [stored|] eqn:Hfile;
    [|inversion H].
  apply bind_returned_inv in H as (content & w3 & Hread & H).
  apply call_returned_inv in Hread as [_ Hread].
  inversion Hread; subst content w3; clear Hread.
  inversion H; subst. exists doc, role, key, stored. auto.
Qed.

(** Ingest, then read: after a run of the pipeline in which no call is
    rejected on a plain-text document, [handleGetText] gives a user who
    can see the document the text of the uploaded file: its bytes
    decoded by the pipeline, encoded by the store and decoded again by
    the read.  And whenever [handleGetText] serves a text, it is the
    decoded file stored under the text key of a 'ready' document that
    the user can see. *)
Theorem ingest_then_get_text
    (env : Env) (data : ProcessingQueueMessage) (file userId : string)
    (w : World) :
  quiet env ->
  suggests_nothing env ->
  mime_type data = "text/plain" ->
  lookup_file (file_key data) (files w) = Some file ->
  (forall i, ~ In (chunk_key (document_id data) i)
               (map chunk_id (document_chunks (db w)))) ->
  select_document_access (document_id data) userId (db w) <> [] ->
  (exists w1 w2,
      processDocument env data w = (Returned tt, w1)
      /\ handleGetText env userId (document_id data) w1
         = (Returned
              (TextJson
                 (utf8_decode env (utf8_encode env (utf8_decode env file)))
                 200), w2))
  /\ (forall docId text v v',
         handleGetText env userId docId v = (Returned (TextJson text 200), v') ->
         exists doc role key bytes,
           Sql.first (select_document_access docId userId (db v))
           = Some (doc, role)
           /\ doc_status doc = StReady
           /\ doc_text_key doc = Some key
           /\ lookup_file key (files v) = Some bytes
           /\ text = utf8_decode env bytes).
Proof.
  intros Hq Hnone Hplain Hfile Hfresh Hseen.
  split; [|intros docId text v v'; apply handleGetText_returned].
  pose proof (select_document_access_stored _ _ _ Hseen) as Hstored.
  destruct (processDocument_quiet_run env data file w Hq Hnone Hstored Hfile
              Hfresh)
    as (text & now & now' & w1 & Hrun & Htext & Hdb & Hfiles & _).
  specialize (Htext Hplain). subst text.
  exists w1. eexists. split; [exact Hrun|].
  set (id := document_id data) in *.
  set (key := ("text/" ++ id ++ ".txt")%string) in *.
  set (g := fun r : Document =>
              let r1 :=
                if (doc_id r =? id)%string then
                  mkDocument (doc_id r) (doc_workspace_id r) (doc_user_id r)
                    (doc_title r) (doc_file_key r) (doc_text_key r)
                    (doc_content_hash r) (doc_mime_type r)
                    (doc_file_size_bytes r) StProcessing
                    (doc_error_message r) (doc_created_at r) now
                else r in
              if (doc_id r1 =? id)%string then
                mkDocument (doc_id r1) (doc_workspace_id r1) (doc_user_id r1)
                  (doc_title r1) (doc_file_key r1) (Some key)
                  (doc_content_hash r1) (doc_mime_type r1)
                  (doc_file_size_bytes r1) StReady
                  (doc_error_message r1) (doc_created_at r1) now'
              else r1).
  assert (Hg_id : forall r, doc_id (g r) = doc_id r).
  { intros r. unfold g. cbv zeta.
    destruct (doc_id r =? id)%string eqn:H1; cbn [doc_id]; rewrite H1;
      reflexivity. }
  assert (Hg_ws : forall r, doc_workspace_id (g r) = doc_workspace_id r).
  { intros r. unfold g. cbv zeta.
    destruct (doc_id r =? id)%string eqn:H1; cbn [doc_id]; rewrite H1;
      reflexivity. }
  assert (Hsel : select_document_access id userId (db w1)
                 = map (fun p => (g (fst p), snd p))
                     (select_document_access id userId (db w))).
  { apply select_document_access_map; auto.
    - rewrite Hdb. cbn. unfold Sql.update_where. rewrite map_map.
      reflexivity.
    - rewrite Hdb. reflexivity. }
  destruct (select_document_access id userId (db w)) as [|[doc role] rest]
    eqn:Haccess; [now elim Hseen|].
  assert (Hdoc : doc_id doc = id).
  { apply (select_document_access_id id userId (db w) doc role).
    rewrite Haccess. now left. }
  unfold handleGetText, d1_query.
  unfold bind at 1. rewrite (call_quiet env Hq). cbn [db tick].
  rewrite Hsel. cbn [map Sql.first hd_error fst snd].
  assert (Hready : doc_status (g doc) = StReady
                   /\ doc_text_key (g doc) = Some key).
  { unfold g. cbv zeta. rewrite Hdoc, String.eqb_refl. cbn [doc_id].
    rewrite String.eqb_refl. split; reflexivity. }
  destruct Hready as [-> ->].
  replace (Js.truthy key) with true by reflexivity.
  unfold r2_get. unfold bind at 1. rewrite (call_quiet env Hq).
  cbn [files tick]. rewrite Hfiles. rewrite lookup_store_file.
  unfold bind at 1. rewrite (call_quiet env Hq). reflexivity.
Qed.

Lemma ingest_then_get_text_witness :
  exists w1 w2,
    processDocument (with_mute_tagger (Sample.env Sample.no_fault false))
      (Sample.message Sample.note) Sample.note_world = (Returned tt, w1)
    /\ handleGetText (with_mute_tagger (Sample.env Sample.no_fault false))
         "alice" "d1" w1
       = (Returned (TextJson "hello world" 200), w2).
Proof.
  destruct (ingest_then_get_text
              (with_mute_tagger (Sample.env Sample.no_fault false))
              (Sample.message Sample.note) "hello world" "alice"
              Sample.note_world) as ((w1 & w2 & Hrun & Hget) & _).
  - intros n. reflexivity.
  - intros names prefix. left. reflexivity.
  - reflexivity.
  - reflexivity.
  - intros i [].
  - vm_compute. discriminate.
  - exists w1, w2. split; [exact Hrun | exact Hget].
Defined.

(** ** A tag suggested twice *)

Lemma select_document_tag_existsb docId tagId d :
  select_document_tag docId tagId d <> [] ->
  existsb (fun r' => (dt_document_id r' =? docId)%string
                     && (dt_tag_id r' =? tagId)%string) (document_tags d)
  = true.
Proof.
  unfold select_document_tag. intros Hne.
  destruct (filter _ (document_tags d)) as [|q qs] eqn:Hf; [now elim Hne|].
  assert (Hq : In q (filter (fun r => (dt_document_id r =? docId)%string
                                      && (dt_tag_id r =? tagId)%string)
                       (document_tags d))) by (rewrite Hf; now left).
  apply filter_In in Hq as [Hq Hk]. apply existsb_exists. eauto.
Qed.

Lemma first_app_some {A : Type} (l l' : list A) a :
  Sql.first l = Some a -> Sql.first (l ++ l') = Some a.
Proof. destruct l; [discriminate|]. cbn. auto. Qed.

Section RepeatedSuggestion.

Variable env : Env.
Hypothesis env_quiet : quiet env.
Variable data : ProcessingQueueMessage.

Lemma store_suggested_tags_cons tag rest w :
  store_suggested_tags env data (tag :: rest) w
  = match store_suggested_tags env data [tag] w with
    | (Returned _, w1) => store_suggested_tags env data rest w1
    | (Threw e, w1) => (Threw e, w1)
    end.
Proof.
  unfold store_suggested_tags.
  generalize (fun tag : TagSuggestion =>
     tagRecord <-
       d1_query env
         (fun d =>
            Sql.first
              (Sql.select_tag_by_name (workspace_id data) (name tag) d)) ;;
     tagRecordId <-
       match tagRecord with
       | Some id => ret id
       | None =>
           tagId <- generateId env ;;
           now <- isoNow env ;;
           d1_insert env
             (Sql.insert_tag
                (mkTag tagId (workspace_id data) (name tag)
                   (category_or_null (category tag)) 0 now)) ;;
           ret tagId
       end ;;
     now <- isoNow env ;;
     d1_insert env
       (Sql.insert_document_tag
          (mkDocumentTag (document_id data) tagRecordId AiSuggested
             (Some (confidence tag)) now))) as body.
  intros body. cbn [for_each]. unfold bind, ret.
  destruct (body tag w) as [[[]|e] w1]; reflexivity.
Qed.

(** Appending an association keeps what the documents carry. *)
Lemma on_document_more_rows tagName d rows :
  suggested_on (document_id data) (workspace_id data) tagName d ->
  suggested_on (document_id data) (workspace_id data) tagName
    (Sql.with_document_tags d (document_tags d ++ rows)).
Proof.
  intros (id & Hfirst & Hassoc). exists id. split; [exact Hfirst|].
  now apply select_document_tag_app.
Qed.

Lemma on_document_more_tags tagName d rows :
  suggested_on (document_id data) (workspace_id data) tagName d ->
  suggested_on (document_id data) (workspace_id data) tagName (Sql.with_tags d (tags d ++ rows)).
Proof.
  intros (id & Hfirst & Hassoc). exists id. split; [|exact Hassoc].
  unfold Sql.select_tag_by_name in *. cbn [tags Sql.with_tags].
  rewrite filter_app, map_app. now apply first_app_some.
Qed.

Lemma select_tag_by_name_in workspace tagName d tagId :
  Sql.first (Sql.select_tag_by_name workspace tagName d) = Some tagId ->
  In tagId (map tag_id (tags d)).
Proof.
  intros H. apply first_in in H. unfold Sql.select_tag_by_name in H.
  apply in_map_iff in H as (t & <- & Hin). apply filter_In in Hin as [Hin _].
  now apply in_map.
Qed.

(** The INSERT of an association between a stored document and a
    stored tag can only break the primary key. *)
Lemma insert_document_tag_cases r d :
  In (dt_document_id r) (map doc_id (documents d)) ->
  In (dt_tag_id r) (map tag_id (tags d)) ->
  Sql.insert_document_tag r d
  = if existsb
         (fun r' => (dt_document_id r' =? dt_document_id r)%string
                    && (dt_tag_id r' =? dt_tag_id r)%string)
         (document_tags d)
    then Threw (Sql.primary_key_violation
                  "document_tags.document_id, document_tags.tag_id")
    else Returned (Sql.with_document_tags d (document_tags d ++ [r])).
Proof.
  intros Hdoc Htag. unfold Sql.insert_document_tag.
  apply existsb_id_in in Hdoc. apply existsb_id_in in Htag.
  now rewrite Hdoc, Htag.
Qed.

(** One suggestion for a stored document, with every call accepted: the
    statement that associates the tag breaks the primary key when the
    tag is on the document already; otherwise the iteration returns with
    the tag on the document, or throws because a primary key is
    broken. *)
Lemma store_one_suggestion tag w :
  stored (document_id data) w ->
  exists out w',
    store_suggested_tags env data [tag] w = (out, w')
    /\ documents (db w') = documents (db w)
    /\ document_chunks (db w') = document_chunks (db w)
    /\ match out with
       | Threw e => exists columns, e = Sql.primary_key_violation columns
       | Returned _ =>
           ~ suggested_on (document_id data) (workspace_id data) (name tag) (db w)
           /\ suggested_on (document_id data) (workspace_id data) (name tag) (db w')
           /\ (forall n, suggested_on (document_id data) (workspace_id data) n (db w) -> suggested_on (document_id data) (workspace_id data) n (db w'))
       end.
Proof.
  intros Hstored.
  unfold store_suggested_tags. cbn [for_each].
  unfold bind, ret, d1_query, d1_insert, generateId, isoNow, call.
  rewrite (env_quiet (ticks w)). cbn [db tick ticks next_id].
  destruct (Sql.first (Sql.select_tag_by_name (workspace_id data) (name tag)
                         (db w))) as [tagId|] eqn:Hfirst.
  - rewrite (env_quiet _). cbn [db tick ticks next_id set_db].
    rewrite insert_document_tag_cases;
      [|exact Hstored | exact (select_tag_by_name_in _ _ _ _ Hfirst)].
    cbn [dt_document_id dt_tag_id].
    destruct (existsb _ (document_tags (db w))) eqn:Hex.
    + eexists. eexists. split; [reflexivity|].
      split; [reflexivity|]. split; [reflexivity|]. eauto.
    + eexists. eexists. split; [reflexivity|].
      cbn [db set_db tick]. split; [reflexivity|]. split; [reflexivity|].
      split; [|split].
      * intros (id & Hid & Hassoc). rewrite Hfirst in Hid.
        inversion Hid; subst id.
        apply select_document_tag_existsb in Hassoc. congruence.
      * exists tagId. split; [exact Hfirst|].
        unfold select_document_tag. cbn. rewrite filter_app. cbn.
        rewrite !String.eqb_refl. cbn.
        destruct (filter _ (document_tags (db w))); discriminate.
      * intros n Hn. now apply on_document_more_rows.
  - rewrite (env_quiet _). cbn [db tick ticks next_id set_db].
    destruct (Sql.insert_tag _ (db w)) as [d1|e] eqn:Hins.
    2:{ eexists. eexists. split; [reflexivity|].
        split; [reflexivity|]. split; [reflexivity|].
        unfold Sql.insert_tag in Hins.
        destruct (existsb (fun r' => (tag_id r' =? _)%string) (tags (db w)));
          [inversion Hins; eauto|].
        apply first_none_nil in Hfirst.
        unfold Sql.select_tag_by_name in Hfirst.
        apply map_eq_nil in Hfirst.
        destruct (existsb _ (tags (db w))) eqn:Hname; [|discriminate].
        apply existsb_exists in Hname as (t & Hin & Hkeys).
        cbn [tag_workspace_id tag_name] in Hkeys.
        assert (Hsel : In t (filter
                               (fun r => (tag_workspace_id r
                                          =? workspace_id data)%string
                                         && (tag_name r =? name tag)%string)
                               (tags (db w))))
          by (apply filter_In; now split).
        rewrite Hfirst in Hsel. destruct Hsel. }
    apply insert_tag_inv in Hins as [Hfresh ->].
    rewrite (env_quiet _). cbn [db tick ticks next_id set_db].
    rewrite insert_document_tag_cases;
      [|exact Hstored
       |cbn [dt_tag_id tags Sql.with_tags]; rewrite map_app, in_app_iff;
        right; now left].
    cbn [dt_document_id dt_tag_id document_tags Sql.with_tags].
    destruct (existsb _ (document_tags (db w))) eqn:Hex.
    + eexists. eexists. split; [reflexivity|].
      cbn [db set_db tick]. split; [reflexivity|]. split; [reflexivity|].
      eauto.
    + eexists. eexists. split; [reflexivity|].
      cbn [db set_db tick]. split; [reflexivity|]. split; [reflexivity|].
      apply first_none_nil in Hfirst.
      split; [|split].
      * intros (id & Hid & _). rewrite Hfirst in Hid. discriminate.
      * exists (uuid env (ids w)). split.
        -- unfold Sql.select_tag_by_name in *.
           cbn [tags Sql.with_tags Sql.with_document_tags].
           rewrite filter_app, map_app.
           apply map_eq_nil in Hfirst. rewrite Hfirst. cbn.
           now rewrite !String.eqb_refl.
        -- unfold select_document_tag. cbn. rewrite filter_app. cbn.
           rewrite !String.eqb_refl. cbn.
           destruct (filter _ (document_tags (db w))); discriminate.
      * intros n Hn.
        apply (on_document_more_rows n
                 (Sql.with_tags (db w) (tags (db w) ++ [_]))).
        now apply on_document_more_tags.
Qed.

(** Once a name is on the document, a later suggestion of that name
    makes the loop throw. *)
Lemma store_suggested_tags_again tagName suggested :
  forall w,
    stored (document_id data) w ->
    suggested_on (document_id data) (workspace_id data) tagName (db w) ->
    In tagName (map name suggested) ->
    exists columns w',
      store_suggested_tags env data suggested w
      = (Threw (Sql.primary_key_violation columns), w')
      /\ documents (db w') = documents (db w)
      /\ document_chunks (db w') = document_chunks (db w).
Proof.
  induction suggested as [|tag rest IH]; intros w Hst Hon Hin;
    [destruct Hin|].
  rewrite store_suggested_tags_cons.
  destruct (store_one_suggestion tag w Hst)
    as ([[]|e] & w1 & Hrun & Hdocs & Hchunks & Hout); rewrite Hrun.
  - destruct Hout as (Hnot & _ & Hkeep).
    destruct Hin as [Heq | Hin]; [elim Hnot; now rewrite Heq|].
    destruct (IH w1) as (c & w' & Hrest & Hd & Hc);
      [unfold stored; now rewrite Hdocs | exact (Hkeep _ Hon) | exact Hin |].
    exists c, w'. split; [exact Hrest|]. split; congruence.
  - destruct Hout as (c & ->). exists c, w1. auto.
Qed.

Lemma store_suggested_tags_repeated suggested :
  repeats_a_name suggested ->
  forall w,
    stored (document_id data) w ->
    exists columns w',
      store_suggested_tags env data suggested w
      = (Threw (Sql.primary_key_violation columns), w')
      /\ documents (db w') = documents (db w)
      /\ document_chunks (db w') = document_chunks (db w).
Proof.
  intros (l1 & t1 & l2 & t2 & l3 & -> & Hsame).
  induction l1 as [|tag l1 IH]; intros w Hst; cbn [app];
    rewrite store_suggested_tags_cons.
  - destruct (store_one_suggestion t1 w Hst)
      as ([[]|e] & w1 & Hrun & Hdocs & Hchunks & Hout); rewrite Hrun.
    + destruct Hout as (_ & Hon & _).
      destruct (store_suggested_tags_again (name t1) (l2 ++ t2 :: l3) w1)
        as (c & w' & Hrest & Hd & Hc);
        [unfold stored; now rewrite Hdocs | exact Hon | |].
      { rewrite map_app, in_app_iff. right. left. now symmetry. }
      exists c, w'. split; [exact Hrest|]. split; congruence.
    + destruct Hout as (c & ->). exists c, w1. auto.
  - destruct (store_one_suggestion tag w Hst)
      as ([[]|e] & w1 & Hrun & Hdocs & Hchunks & Hout); rewrite Hrun.
    + destruct (IH w1) as (c & w' & Hrest & Hd & Hc);
        [unfold stored; now rewrite Hdocs|].
      exists c, w'. split; [exact Hrest|]. split; congruence.
    + destruct Hout as (c & ->). exists c, w1. auto.
Qed.

End RepeatedSuggestion.

(** When the tagging model suggests the same tag name twice and no call
    is rejected, the second association breaks the primary key of
    [document_tags]: the pipeline returns with the document in 'error'
    and the constraint message recorded, although the text was
    extracted and every chunk was embedded and stored. *)
Theorem processDocument_repeated_suggestion
    (env : Env) (data : ProcessingQueueMessage) (file : string) (w : World) :
  quiet env ->
  (forall names prefix,
      exists suggested,
        llm_tag_array env names prefix = Some suggested
        /\ repeats_a_name suggested) ->
  stored (document_id data) w ->
  lookup_file (file_key data) (files w) = Some file ->
  (forall i, ~ In (chunk_key (document_id data) i)
               (map chunk_id (document_chunks (db w)))) ->
  exists text columns w',
    processDocument env data w = (Returned tt, w')
    /\ stored (document_id data) w'
    /\ document_has (document_id data)
         (fun r => doc_status r = StError
                   /\ doc_error_message r
                      = Some (thrown_message
                                (Sql.primary_key_violation columns)))
         w'
    /\ lookup_file ("text/" ++ document_id data ++ ".txt")%string (files w')
       = Some (utf8_encode env text)
    /\ document_chunks (db w')
       = document_chunks (db w)
         ++ chunk_rows (document_id data) 0 (chunks_of text).
Proof.
  intros Hq Hrepeats Hstored Hfile Hfresh.
  destruct (load_text_quiet env Hq data file w Hfile)
    as (text & w1 & L & D1 & F1 & _).
  assert (Hst1 : stored (document_id data) w1).
  { apply (stored_skeleton _ w); [|exact Hstored].
    unfold skeleton. rewrite D1. apply skeleton_update_status. }
  destruct (embed_and_store_quiet env Hq data (chunks_of text) 0%nat w1)
    as (w2 & R2 & D2 & F2 & _); [exact Hst1 | |].
  { intros i _. rewrite D1. apply Hfresh. }
  assert (Htag :
    exists suggested w3,
      autoTag env text (workspace_id data) w2 = (Returned suggested, w3)
      /\ db w3 = db w2 /\ files w3 = files w2
      /\ repeats_a_name suggested).
  { unfold autoTag, d1_query.
    unfold bind at 1. rewrite (call_quiet env Hq).
    unfold bind at 1. rewrite (call_quiet env Hq).
    destruct (Hrepeats
                (map tag_name
                   (Sql.select_top_tags (workspace_id data) (db (tick w2))))
                (Js.substring0 2000 text)) as (suggested & -> & Hrep).
    exists suggested. eexists. split; [reflexivity|]. auto. }
  destruct Htag as (suggested & w3 & R3 & D3 & F3 & Hrep).
  destruct (store_suggested_tags_repeated env Hq data suggested Hrep w3)
    as (columns & w4 & R4 & Hdocs4 & Hchunks4).
  { unfold stored. rewrite D3, D2. exact Hst1. }
  assert (F4 : files w4 = files w3).
  { assert (P : preserves (fun v => files v = files w3)
                  (store_suggested_tags env data suggested)).
    { unfold store_suggested_tags.
      apply preserves_for_each. intros tag.
      assert (Hcall : forall (A : Type) (q : World -> Outcome A * World),
                 (forall v, files (snd (q v)) = files v) ->
                 preserves (fun v => files v = files w3) (call env q)).
      { intros A q Hfiles. apply triple_call.
        - intros v e Hv _. exact Hv.
        - intros v r v' Hv _ Heff. specialize (Hfiles (tick v)).
          rewrite Heff in Hfiles. cbn in Hfiles.
          destruct r; congruence. }
      assert (Hins : forall stmt,
                 preserves (fun v => files v = files w3)
                   (d1_insert env stmt)).
      { intros stmt. apply Hcall. intros v. now destruct (stmt (db v)). }
      repeat first
        [ apply preserves_bind; [|intros]
        | apply preserves_ret
        | apply Hins
        | apply Hcall; intros; reflexivity
        | match goal with
          | |- preserves _ (match ?x with _ => _ end) => destruct x
          | |- preserves _ (isoNow _) =>
              intros v r v' Hv Hrun; inversion Hrun; subst; exact Hv
          | |- preserves _ (generateId _) =>
              intros v r v' Hv Hrun; inversion Hrun; subst; exact Hv
          end ]. }
    exact (P w3 _ _ eq_refl R4). }
  exists text, columns. eexists. split; [|split; [|split; [|split]]].
  - unfold processDocument, processDocument_with, try_catch,
      processDocument_try.
    rewrite (bind_returned _ _ _ _ _ L).
    unfold embed_and_store. rewrite (bind_returned _ _ _ _ _ R2).
    rewrite (bind_returned _ _ _ _ _ R3).
    rewrite (bind_threw _ _ _ _ _ R4).
    apply processDocument_catch_run. apply Hq.
  - apply (stored_skeleton _ w); [|exact Hstored].
    unfold skeleton. cbn [db set_db tick].
    unfold Sql.update_document_error, Sql.with_documents. cbn [documents].
    rewrite map_key_update_where by reflexivity.
    rewrite Hdocs4, D3, D2, D1.
    unfold Sql.update_document_status, Sql.with_documents,
      Sql.with_document_chunks. cbn [documents].
    now rewrite map_key_update_where.
  - intros r Hin Hid.
    exact (update_error_has data (Sql.primary_key_violation columns) _ _ r
             Hin Hid).
  - cbn [files set_db tick]. rewrite F4, F3, F2, F1.
    apply lookup_store_file.
  - cbn [db set_db tick Sql.update_document_error Sql.with_documents
           document_chunks].
    rewrite Hchunks4, D3, D2, D1. reflexivity.
Qed.

Lemma processDocument_repeated_suggestion_witness :
  let twice :=
    [ mkTagSuggestion "invoice" (Some "document_type") 95;
      mkTagSuggestion "invoice" None 60 ] in
  exists w',
    processDocument
      (with_suggestions (Sample.env Sample.no_fault false) twice)
      (Sample.message Sample.note) Sample.note_world = (Returned tt, w')
    /\ map doc_status (documents (db w')) = [StError]
    /\ List.length (document_chunks (db w')) = 1%nat.
Proof.
  intros twice.
  destruct (processDocument_repeated_suggestion
              (with_suggestions (Sample.env Sample.no_fault false) twice)
              (Sample.message Sample.note) "hello world" Sample.note_world)
    as (text & columns & w' & Hrun & _ & _ & _ & _).
  - intros n. reflexivity.
  - intros names prefix. exists twice. split; [reflexivity|].
    exists [], (mkTagSuggestion "invoice" (Some "document_type") 95), [],
      (mkTagSuggestion "invoice" None 60), []. split; reflexivity.
  - cbn. now left.
  - reflexivity.
  - intros i [].
  - exists w'. split; [exact Hrun|].
    pose proof Hrun as Hval. vm_compute in Hval.
    injection Hval as Hw. rewrite <- Hw. split; reflexivity.
Defined.

(** ** Semantic search *)

Lemma scores_get_set_same k v m : scores_get k (scores_set k v m) = Some v.
Proof.
  induction m as [|[k' v'] m IH]; cbn; [now rewrite String.eqb_refl|].
  destruct (String.eqb_spec k' k) as [->|Hne]; cbn.
  - now rewrite String.eqb_refl.
  - apply String.eqb_neq in Hne. now rewrite Hne.
Qed.

Lemma scores_get_set_other k k' v m :
  k' <> k -> scores_get k' (scores_set k v m) = scores_get k' m.
Proof.
  intros Hne. induction m as [|[k0 v0] m IH]; cbn.
  - apply String.eqb_neq in Hne. rewrite String.eqb_sym in Hne.
    now rewrite Hne.
  - destruct (String.eqb_spec k0 k) as [->|Hk]; cbn.
    + apply String.eqb_neq in Hne. rewrite String.eqb_sym in Hne.
      now rewrite Hne.
    + now rewrite IH.
Qed.

Lemma scores_get_key k m :
  In k (map fst m) -> exists v, scores_get k m = Some v.
Proof.
  induction m as [|[k' v'] m IH]; [intros []|]. cbn.
  destruct (String.eqb_spec k' k) as [->|Hne]; [eauto|].
  intros [H | H]; [now elim Hne | now apply IH].
Qed.

Lemma collect_document_scores_cons x rest documentScores :
  collect_document_scores (x :: rest) documentScores
  = collect_document_scores rest
      (collect_document_scores [x] documentScores).
Proof.
  cbn [collect_document_scores]. cbv zeta.
  destruct (negb (Js.truthy _)); [reflexivity|].
  destruct (negb _ || _); reflexivity.
Qed.

(** A match that does not change the map is not better than what the
    map holds. *)
Lemma best_match_skip seen x k m :
  best_match seen k m ->
  (md_document_id (match_metadata x) = k ->
   match_score x <> 0 -> match_score x <= match_score m) ->
  best_match (seen ++ [x]) k m.
Proof.
  intros (Hin & Hdoc & Hbest) Hlow. split; [|split; [exact Hdoc|]].
  - apply in_or_app. now left.
  - intros m' Hm' Hd' Hnz.
    apply in_app_or in Hm' as [Hm' | [<- | []]]; auto.
Qed.

Lemma collect_document_scores_step seen x documentScores :
  scores_invariant seen documentScores ->
  scores_invariant (seen ++ [x])
    (collect_document_scores [x] documentScores).
Proof.
  intros [Hbest Hall].
  cbn [collect_document_scores]. cbv zeta.
  set (docId := md_document_id (match_metadata x)).
  assert (Hseen : forall scores',
             (forall m, In m seen ->
                        Js.truthy (md_document_id (match_metadata m)) = true ->
                        exists v,
                          scores_get (md_document_id (match_metadata m))
                            scores' = Some v) ->
             (Js.truthy docId = true ->
              exists v, scores_get docId scores' = Some v) ->
             forall m, In m (seen ++ [x]) ->
                       Js.truthy (md_document_id (match_metadata m)) = true ->
                       exists v,
                         scores_get (md_document_id (match_metadata m))
                           scores' = Some v).
  { intros scores' Hold Hnew m Hm Ht.
    apply in_app_or in Hm as [Hm | [<- | []]]; auto. }
  destruct (Js.truthy docId) eqn:Htruthy; cbn [negb].
  2:{ split.
      - intros k v Hget. destruct (Hbest k v Hget) as (Hk & m & Hm & Hs & Ht).
        split; [exact Hk|]. exists m. split; [|auto].
        apply best_match_skip; [exact Hm|].
        intros Hd. fold docId in Hd. rewrite Hd in Htruthy. congruence.
      - apply Hseen; [exact Hall | discriminate]. }
  destruct (scores_get docId documentScores) as [v0|] eqn:Hknown;
    cbn [negb orb].
  - destruct (Hbest docId v0 Hknown) as (_ & m0 & Hm0 & Hs0 & Ht0).
    destruct (negb (match_score x =? 0) && (sd_score v0 <? match_score x))
      eqn:Hbetter.
    + apply andb_prop in Hbetter as [Hnz Hlt].
      apply Z.ltb_lt in Hlt.
      split.
      * intros k v Hget.
        destruct (String.eqb_spec k docId) as [->|Hne].
        -- rewrite scores_get_set_same in Hget. inversion Hget; subst v.
           split; [exact Htruthy|]. exists x. cbn [sd_score sd_snippet].
           split; [|auto]. split; [|split; [reflexivity|]].
           ++ apply in_or_app. right. now left.
           ++ intros m' Hm' Hd' Hnz'.
              apply in_app_or in Hm' as [Hm' | [<- | []]]; [|lia].
              destruct Hm0 as (_ & _ & Hmax).
              specialize (Hmax m' Hm' Hd' Hnz'). lia.
        -- rewrite scores_get_set_other in Hget by exact Hne.
           destruct (Hbest k v Hget) as (Hk & m & Hm & Hs & Ht).
           split; [exact Hk|]. exists m. split; [|auto].
           apply best_match_skip; [exact Hm|].
           intros Hd. fold docId in Hd. now elim Hne.
      * apply Hseen.
        -- intros m Hm Ht. destruct (Hall m Hm Ht) as (v & Hv).
           destruct (String.eqb_spec (md_document_id (match_metadata m))
                       docId) as [->|Hne].
           ++ rewrite scores_get_set_same. eauto.
           ++ rewrite scores_get_set_other by exact Hne. eauto.
        -- intros _. rewrite scores_get_set_same. eauto.
    + split.
      * intros k v Hget. destruct (Hbest k v Hget) as (Hk & m & Hm & Hs & Ht).
        split; [exact Hk|]. exists m. split; [|auto].
        apply best_match_skip; [exact Hm|].
        intros Hd Hnz. fold docId in Hd. subst k.
        rewrite Hknown in Hget. inversion Hget; subst v.
        apply andb_false_iff in Hbetter as [Hz | Hle].
        -- apply negb_false_iff, Z.eqb_eq in Hz. now elim Hnz.
        -- apply Z.ltb_ge in Hle. lia.
      * apply Hseen; [exact Hall | eauto].
  - split.
    + intros k v Hget.
      destruct (String.eqb_spec k docId) as [->|Hne].
      * rewrite scores_get_set_same in Hget. inversion Hget; subst v.
        split; [exact Htruthy|]. exists x. cbn [sd_score sd_snippet].
        split; [|auto]. split; [|split; [reflexivity|]].
        -- apply in_or_app. right. now left.
        -- intros m' Hm' Hd' Hnz'.
           apply in_app_or in Hm' as [Hm' | [<- | []]]; [|lia].
           destruct (Hall m' Hm') as (v & Hv).
           { rewrite Hd'. exact Htruthy. }
           rewrite Hd' in Hv. congruence.
      * rewrite scores_get_set_other in Hget by exact Hne.
        destruct (Hbest k v Hget) as (Hk & m & Hm & Hs & Ht).
        split; [exact Hk|]. exists m. split; [|auto].
        apply best_match_skip; [exact Hm|].
        intros Hd. fold docId in Hd. now elim Hne.
    + apply Hseen.
      * intros m Hm Ht. destruct (Hall m Hm Ht) as (v & Hv).
        destruct (String.eqb_spec (md_document_id (match_metadata m))
                    docId) as [Heq|Hne].
        -- rewrite Heq in Hv. congruence.
        -- rewrite scores_get_set_other by exact Hne. eauto.
      * intros _. rewrite scores_get_set_same. eauto.
Qed.

Lemma collect_document_scores_invariant matches :
  forall seen documentScores,
    scores_invariant seen documentScores ->
    scores_invariant (seen ++ matches)
      (collect_document_scores matches documentScores).
Proof.
  induction matches as [|x rest IH]; intros seen scores Hinv.
  - now rewrite app_nil_r.
  - rewrite collect_document_scores_cons.
    replace (seen ++ x :: rest) with ((seen ++ [x]) ++ rest)
      by now rewrite <- app_assoc.
    apply IH. now apply collect_document_scores_step.
Qed.

Lemma semantic_results_inv env docs documentScores :
  forall w rs w',
    semantic_results env docs documentScores w = (Returned rs, w') ->
    rs = map (semantic_result (db w) documentScores) docs /\ db w' = db w.
Proof.
  induction docs as [|doc docs IH]; intros w rs w' H;
    cbn [semantic_results] in H.
  - inversion H. auto.
  - cbv zeta in H.
    apply bind_returned_inv in H as (tags & w1 & Htags & H).
    apply d1_query_inv in Htags as [-> ->].
    apply bind_returned_inv in H as (results & w2 & Hrest & H).
    apply IH in Hrest as (-> & Hdb).
    inversion H; subst. cbn [db tick] in *. auto.
Qed.

(** A page returned by the semantic search: empty, or the rows of the
    looked-up documents with their scores, sorted. *)
Lemma handleSemanticSearch_returned env query limit userId w page w' :
  handleSemanticSearch env query limit userId w
  = (Returned (jsonResponse (SearchBody page) 200), w') ->
  exists q,
    given query = Some q
    /\ (page = mkSearchPage [] 0 false
           /\ semantic_document_ids env q limit userId w = []
        \/ exists results,
             results
             = js_sort (fun a b => score_or_zero b - score_or_zero a)
                 (map (semantic_result (db w)
                         (collect_document_scores
                            (semantic_matches env q limit userId w) []))
                    (select_documents_in
                       (semantic_document_ids env q limit userId w) (db w)))
             /\ page
                = mkSearchPage results (Z.of_nat (List.length results))
                    false).
Proof.
  unfold handleSemanticSearch. intros H.
  apply try_catch_returned_inv in H as [H | (e & w1 & _ & H)];
    [|inversion H].
  destruct (given query) as [q|]; [|inversion H].
  exists q. split; [reflexivity|]. cbv zeta in H.
  apply bind_returned_inv in H as (workspaceIds & w1 & Hws & H).
  apply d1_query_inv in Hws as [-> ->].
  destruct (select_workspaces userId (db w)) as [|ws0 wss] eqn:Hws.
  { left. inversion H. split; [reflexivity|].
    unfold semantic_document_ids, semantic_matches, vectors_matches.
    rewrite Hws.
    assert (Hnone : filter (filter_accepts (WorkspaceIn [])) (vectors w) = []).
    { induction (vectors w) as [|e es IHes]; [reflexivity | exact IHes]. }
    rewrite Hnone. cbn [map]. unfold Sql.order_by. cbn [fold_left].
    rewrite firstn_nil. cbn [collect_document_scores map].
    unfold Js.slice. now rewrite skipn_nil, firstn_nil. }
  cbn [List.length Nat.eqb] in H. rewrite <- Hws in H.
  apply bind_returned_inv in H as (emb & wa & Hemb & H).
  apply generateEmbedding_inv in Hemb as [-> ->].
  apply bind_returned_inv in H as (matches & wb & Hq & H).
  apply vectors_query_inv in Hq as [-> ->].
  cbn [db vectors tick] in H.
  fold (semantic_page_size limit) in H.
  fold (semantic_matches env q limit userId w) in H.
  fold (semantic_document_ids env q limit userId w) in H.
  destruct (semantic_document_ids env q limit userId w) as [|id0 ids]
    eqn:Hids.
  { left. inversion H. split; reflexivity. }
  cbn [List.length Nat.eqb] in H.
  apply bind_returned_inv in H as (docs & wc & Hdocs & H).
  apply d1_query_inv in Hdocs as [-> ->].
  apply bind_returned_inv in H as (documents & wd & Hres & H).
  apply semantic_results_inv in Hres as (-> & _).
  cbn [db tick] in H. inversion H. right. eexists. split; reflexivity.
Qed.

(** A page returned by the semantic search reports no further page and
    counts its own rows; it is sorted by score, best first; every row
    is a document of the table (whatever its status) with the score and
    the snippet of the best match of that document among the matches
    of the vector index; and every document of the table whose id is
    among the ids looked up is in the page. *)
Theorem semantic_search_page
    (env : Env) (query : option string) (limit : option Z) (userId : string)
    (w w' : World) (page : SearchResult) :
  handleSemanticSearch env query limit userId w
  = (Returned (jsonResponse (SearchBody page) 200), w') ->
  exists q,
    given query = Some q
    /\ has_more page = false
    /\ sp_total page = Z.of_nat (List.length (sp_documents page))
    /\ StronglySorted (fun a b => score_or_zero b <= score_or_zero a)
         (sp_documents page)
    /\ (forall r,
           In r (sp_documents page) ->
           exists doc m,
             In doc (documents (db w))
             /\ doc_id doc = sr_id r
             /\ best_match (semantic_matches env q limit userId w) (sr_id r) m
             /\ sr_relevance_score r = Some (match_score m)
             /\ sr_snippet r = md_text (match_metadata m))
    /\ (forall doc,
           In doc (documents (db w)) ->
           In (doc_id doc) (semantic_document_ids env q limit userId w) ->
           exists r, In r (sp_documents page) /\ sr_id r = doc_id doc).
Proof.
  intros H. apply handleSemanticSearch_returned in H as (q & Hq & Hpage).
  exists q. split; [exact Hq|].
  destruct Hpage as [[-> Hnone] | (results & Hres & ->)];
    cbn [has_more sp_total sp_documents].
  { split; [reflexivity|]. split; [reflexivity|]. split; [constructor|].
    split; [intros r []|]. intros doc _ Hid. rewrite Hnone in Hid.
    destruct Hid. }
  split; [reflexivity|]. split; [reflexivity|].
  set (matches := semantic_matches env q limit userId w) in *.
  set (scores := collect_document_scores matches []) in *.
  assert (Hinv : scores_invariant matches scores).
  { apply (collect_document_scores_invariant matches [] []).
    split; [intros k v Hk; discriminate | intros m []]. }
  split; [|split].
  - rewrite Hres. apply js_sort_by_key. intros a b _ _. reflexivity.
  - intros r Hr. rewrite Hres in Hr. apply js_sort_in in Hr.
    apply in_map_iff in Hr as (doc & <- & Hdoc).
    apply filter_In in Hdoc as [Hdoc Hid].
    apply in_strings_In in Hid.
    unfold semantic_document_ids in Hid. apply slice_in in Hid.
    fold matches in Hid. fold scores in Hid.
    destruct (scores_get_key _ _ Hid) as (v & Hv).
    destruct (proj1 Hinv _ _ Hv) as (_ & m & Hm & Hs & Ht).
    exists doc, m. unfold semantic_result. cbv zeta.
    cbn [sr_id sr_relevance_score sr_snippet]. rewrite Hv. cbn [option_map].
    split; [exact Hdoc|]. split; [reflexivity|]. split; [exact Hm|].
    split; [now rewrite Hs | now rewrite Ht].
  - intros doc Hdoc Hid.
    exists (semantic_result (db w) scores doc). split; [|reflexivity].
    rewrite Hres. apply js_sort_in. apply in_map.
    apply filter_In. split; [exact Hdoc|].
    unfold Sql.in_strings. apply existsb_exists.
    exists (doc_id doc). split; [exact Hid | apply String.eqb_refl].
Qed.

Lemma semantic_search_page_witness :
  exists page w',
    handleSemanticSearch (Sample.env Sample.no_fault false) (Some "acme")
      None "alice" search_world
    = (Returned (jsonResponse (SearchBody page) 200), w')
    /\ map sr_id (sp_documents page) = ["b1"; "b3"; "b2"]
    /\ has_more page = false
    /\ StronglySorted (fun a b => score_or_zero b <= score_or_zero a)
         (sp_documents page).
Proof.
  destruct (handleSemanticSearch (Sample.env Sample.no_fault false)
              (Some "acme") None "alice" search_world) as [out w'] eqn:Hrun.
  pose proof Hrun as Hval. vm_compute in Hval.
  injection Hval as Hout Hw. subst out.
  eexists. exists w'. split; [reflexivity|]. split; [reflexivity|].
  destruct (semantic_search_page _ _ _ _ _ _ _ Hrun)
    as (q & _ & Hmore & _ & Hsorted & _).
  split; [exact Hmore | exact Hsorted].
Defined.

(** ** The upload route *)

Section UploadRoute.

Variable env : Env.

Lemma documents_kept_db_only w0 : db_only (documents_kept w0).
Proof.
  intros w w' Hdb [added H]. exists added. unfold skeleton in *.
  now rewrite <- Hdb.
Qed.

#[local] Hint Resolve documents_kept_db_only : preserve.

Lemma documents_kept_refl w : documents_kept w w.
Proof. exists []. now rewrite app_nil_r. Qed.

Lemma stored_kept id w w' :
  documents_kept w w' -> stored id w -> stored id w'.
Proof.
  intros [added H] Hin. unfold stored in *.
  assert (Hs : forall v, map doc_id (documents (db v))
                         = map (fun k => fst (fst (fst k))) (skeleton v)).
  { intros v. unfold skeleton. rewrite map_map. reflexivity. }
  rewrite Hs, H, map_app, in_app_iff. left. now rewrite <- Hs.
Qed.

Lemma processDocument_kept w0 data :
  preserves (documents_kept w0) (processDocument env data).
Proof.
  intros w r w' [added H] Hrun.
  pose proof (processDocument_with_skeleton env (extractText env)
                (extractText_preserves_all env) (skeleton w) data
                w r w' eq_refl Hrun) as Hk.
  destruct r; exists added; now rewrite Hk.
Qed.

Lemma uploadFile_kept w0 file workspaceId userId :
  preserves (documents_kept w0) (uploadFile env file workspaceId userId).
Proof.
  unfold uploadFile. cbv zeta.
  preserve;
    try (apply processDocument_kept);
    try (apply preserves_d1_insert; auto with preserve;
         intros w d [added H] Hins;
         apply insert_document_inv in Hins as [_ Hins];
         exists (added ++ [doc_key
                             (mkDocument a workspaceId userId (file_name file)
                                ("documents/" ++ workspaceId ++ "/" ++ a
                                   ++ "/" ++ file_name file)
                                None (sha256 env (file_content file))
                                (if Js.truthy (file_type file)
                                 then file_type file
                                 else getMimeType (file_name file))
                                (Z.of_nat (String.length (file_content file)))
                                StPending None a0 a0)]);
         unfold skeleton in *; cbn [db set_db];
         now rewrite Hins, map_app, H, app_assoc).
Qed.

Lemma upload_files_kept w0 workspaceId userId files :
  forall uploadedDocs,
    preserves (documents_kept w0)
      (upload_files env workspaceId userId files uploadedDocs).
Proof.
  induction files as [|file rest IH]; intros uploadedDocs; cbn [upload_files].
  - apply preserves_ret.
  - destruct (max_upload_bytes <? file_size file).
    + apply preserves_ret.
    + apply preserves_bind; [apply uploadFile_kept|]. intros doc. apply IH.
Qed.

(** The document an upload answers with is stored, be it the new one
    or the duplicate it found. *)
Lemma uploadFile_stored file workspaceId userId w r w1 :
  uploadFile env file workspaceId userId w = (Returned r, w1) ->
  stored (up_id r) w1.
Proof.
  intros H. apply uploadFile_returned in H. unfold stored.
  destruct (Sql.first _) as [existing|] eqn:Hfirst.
  - destruct H as (Hid & _ & Hdocs). rewrite Hdocs, Hid.
    apply in_map. unfold Sql.first, select_document_by_hash in Hfirst.
    destruct (filter _ (documents (db w))) as [|x l] eqn:Hf;
      [discriminate|].
    inversion Hfirst; subst x.
    assert (Hin : In existing (existing :: l)) by now left.
    rewrite <- Hf in Hin. now apply filter_In in Hin.
  - destruct H as (_ & _ & Hsk).
    assert (Hs : map doc_id (documents (db w1))
                 = map (fun k => fst (fst (fst k))) (skeleton w1)).
    { unfold skeleton. rewrite map_map. reflexivity. }
    rewrite Hs, Hsk, map_app, in_app_iff. right. now left.
Qed.

Lemma upload_files_returned workspaceId userId files :
  forall uploadedDocs w docs status w',
    upload_files env workspaceId userId files uploadedDocs w
    = (Returned (UploadJson docs status), w') ->
    status = 201
    /\ exists new,
         docs = uploadedDocs ++ new
         /\ List.length new = List.length files
         /\ forall r, In r new -> stored (up_id r) w'.
Proof.
  induction files as [|file rest IH]; intros acc w docs status w' H;
    cbn [upload_files] in H.
  - inversion H; subst. split; [reflexivity|]. exists [].
    rewrite app_nil_r. repeat split. intros r [].
  - destruct (max_upload_bytes <? file_size file); [discriminate|].
    apply bind_returned_inv in H as (doc & w1 & Hup & H).
    pose proof (upload_files_kept w1 workspaceId userId rest (acc ++ [doc])
                  w1 _ _ (documents_kept_refl w1) H) as Hkept.
    cbn in Hkept.
    apply IH in H as (Hst & new & Hdocs & Hlen & Hstored).
    split; [exact Hst|]. exists (doc :: new).
    split; [now rewrite Hdocs, <- app_assoc|].
    split; [cbn; now rewrite Hlen|].
    intros r [<-|Hin]; [|now apply Hstored].
    apply (stored_kept _ w1); [exact Hkept|].
    now apply uploadFile_stored in Hup.
Qed.

End UploadRoute.

(** The upload route never throws.  When it answers with documents the
    status is 201, there is one document for each file of the request,
    and every one of them is stored.  Whatever it answers, the documents
    that were stored before are still there, in place and under the same
    keys.  A user who is owner or editor of no workspace gets 403, and
    nothing is written. *)
Theorem handleUpload_reports_stored_documents
    (env : Env) (request : UploadRequest) (userId : string) (w : World) :
  exists reply w',
    handleUpload env request userId w = (Returned reply, w')
    /\ documents_kept w w'
    /\ (forall docs status,
          reply = UploadJson docs status ->
          status = 201
          /\ List.length docs = files_of request
          /\ forall r, In r docs -> stored (up_id r) w')
    /\ (fault env (ticks w) = None ->
        select_writable_workspaces userId (db w) = [] ->
        reply = UploadError "No writable workspace found" 403
        /\ same_data w w').
Proof.
  unfold handleUpload.
  match goal with
  | |- context [try_catch ?b _] => set (body := b)
  end.
  assert (Hkept : preserves (documents_kept w) body).
  { unfold body. apply preserves_bind.
    - apply preserves_d1_query. apply documents_kept_db_only.
    - intros [workspaceId|]; [|apply preserves_ret].
      destruct request as [files|contentType filename content].
      + destruct (List.length files =? 0)%nat; [apply preserves_ret|].
        destruct (100 <? List.length files)%nat; [apply preserves_ret|].
        apply upload_files_kept.
      + cbv zeta.
        destruct (max_upload_bytes <? _); [apply preserves_ret|].
        apply preserves_bind; [apply uploadFile_kept|].
        intros doc. apply preserves_ret. }
  unfold try_catch.
  destruct (body w) as [[reply|e] w'] eqn:Hbody.
  - exists reply, w'. split; [reflexivity|].
    split; [exact (Hkept w _ _ (documents_kept_refl w) Hbody)|].
    split.
    + intros docs status ->. unfold body in Hbody.
      apply bind_returned_inv in Hbody as (workspace & w0 & _ & Hbody).
      destruct workspace as [workspaceId|]; [|discriminate].
      destruct request as [files|contentType filename content].
      * destruct (List.length files =? 0)%nat; [discriminate|].
        destruct (100 <? List.length files)%nat; [discriminate|].
        apply upload_files_returned in Hbody
          as (Hst & new & Hdocs & Hlen & Hstored).
        cbn [app] in Hdocs. subst docs. auto.
      * cbv zeta in Hbody.
        destruct (max_upload_bytes <? _); [discriminate|].
        apply bind_returned_inv in Hbody as (doc & w1 & Hup & Hret).
        inversion Hret; subst. split; [reflexivity|].
        split; [reflexivity|].
        intros r [<-|[]]. now apply uploadFile_stored in Hup.
    + intros Hfault Hnone. unfold body, bind, d1_query, call in Hbody.
      rewrite Hfault in Hbody. cbn [db tick] in Hbody.
      rewrite Hnone in Hbody. cbn in Hbody.
      inversion Hbody; subst. split; [reflexivity|].
      repeat split.
  - exists (UploadError "Upload failed" 500), w'.
    split; [reflexivity|].
    split; [exact (Hkept w _ _ (documents_kept_refl w) Hbody)|].
    split; [discriminate|].
    intros Hfault Hnone. unfold body, bind, d1_query, call in Hbody.
    rewrite Hfault in Hbody. cbn [db tick] in Hbody.
    rewrite Hnone in Hbody. discriminate.
Qed.

Lemma handleUpload_reports_stored_documents_witness :
  exists docs w',
    handleUpload (Sample.env Sample.no_fault true)
      (Multipart [Sample.note_file; Sample.note_file]) "alice"
      Sample.empty_world
    = (Returned (UploadJson docs 201), w')
    /\ map up_id docs = ["uuid-0"; "uuid-0"]
    /\ map up_status docs = ["pending"; "duplicate"]
    /\ (forall r, In r docs -> stored (up_id r) w')
    /\ List.length (documents (db w')) = 1%nat.
Proof.
  destruct (handleUpload_reports_stored_documents
              (Sample.env Sample.no_fault true)
              (Multipart [Sample.note_file; Sample.note_file]) "alice"
              Sample.empty_world)
    as (reply & w' & Hrun & _ & Hdocs & _).
  pose proof Hrun as Hval. vm_compute in Hval.
  injection Hval as Hreply Hw. subst reply.
  destruct (Hdocs _ _ eq_refl) as (_ & _ & Hstored).
  eexists. exists w'. split; [exact Hrun|].
  split; [reflexivity|]. split; [reflexivity|].
  split; [exact Hstored|].
  rewrite <- Hw. reflexivity.
Defined.

(** ** Creating a tag *)

Lemma trimStart_head s :
  forall c rest, trimStart s = String c rest -> Js.is_space c = false.
Proof.
  induction s as [|a s IH]; intros c rest H; cbn [trimStart] in H.
  - discriminate.
  - destruct (Js.is_space a) eqn:Ha.
    + now apply (IH c rest).
    + inversion H; subst. exact Ha.
Qed.

Lemma trimEnd_last s : ends_with_space (trimEnd s) = false.
Proof.
  induction s as [|a s IH]; [reflexivity|]. cbn [trimEnd].
  destruct (trimEnd s) as [|b kept] eqn:Hs.
  - destruct (Js.is_space a) eqn:Ha; [reflexivity|]. cbn. exact Ha.
  - exact IH.
Qed.

Lemma trimEnd_head s c rest :
  trimEnd s = String c rest -> exists rest', s = String c rest'.
Proof.
  destruct s as [|a s]; [discriminate|]. cbn [trimEnd].
  destruct (trimEnd s); [destruct (Js.is_space a)|];
    intros H; inversion H; subst; eauto.
Qed.

(** A trimmed text that is not empty has no white space at its ends. *)
Lemma trim_trimmed s : trim s <> EmptyString -> trimmed (trim s).
Proof.
  intros Hne. split; [exact Hne|]. split.
  - intros c rest H. unfold trim in H.
    apply trimEnd_head in H as [rest' H]. now apply trimStart_head in H.
  - apply trimEnd_last.
Qed.

Ltac tag_error :=
  do 2 eexists; split; [reflexivity|];
  split; [intros; reflexivity | discriminate].

(** Creating a tag never throws.  An error answer leaves the database
    as it was.  A tag is answered with status 201 only to a member of
    its workspace who may write; the tag is then the one row appended
    to the tag table, under a new id, counted zero, and its name is not
    empty, has no white space at its ends and was not a tag name of the
    workspace before.  Where every association refers to a tag, the
    usage counters stay consistent. *)
Theorem handleCreate_adds_an_unused_tag
    (env : Env) (body : CreateTagBody) (userId : string) (w : World) :
  exists reply w',
    handleCreate env body userId w = (Returned reply, w')
    /\ (forall error status, reply = TagError error status -> db w' = db w)
    /\ (forall tag status,
          reply = TagJson tag status ->
          status = 201
          /\ db w' = Sql.with_tags (db w) (tags (db w) ++ [tag])
          /\ may_write userId (tag_workspace_id tag) (db w)
          /\ ~ In (tag_id tag) (map tag_id (tags (db w)))
          /\ Sql.select_tag_by_name (tag_workspace_id tag) (tag_name tag)
               (db w) = []
          /\ trimmed (tag_name tag)
          /\ tag_usage_count tag = 0
          /\ (associations_reference_tags (db w) ->
              usage_counts_consistent (db w) = true ->
              usage_counts_consistent (db w') = true)).
Proof.
  unfold handleCreate, try_catch, bind, ret, d1_query, d1_insert,
    generateId, isoNow, call.
  destruct (ct_name body) as [name|]; [|tag_error].
  destruct (negb (Js.truthy name) || _) eqn:Hname; [tag_error|].
  destruct (ct_workspace_id body) as [workspaceId|]; [|tag_error].
  destruct (negb (Js.truthy workspaceId)); [tag_error|].
  destruct (fault env (ticks w)) eqn:Hf0; [tag_error|].
  cbn [db tick ticks].
  destruct (Sql.first (select_member_role workspaceId userId (db w)))
    as [role|] eqn:Hrole; [|tag_error].
  assert (Hmay : role <> Viewer -> may_write userId workspaceId (db w)).
  { intros Hrole'. apply first_in in Hrole. unfold select_member_role in Hrole.
    apply in_map_iff in Hrole as (wm & Hwm & Hin).
    apply filter_In in Hin as [Hin Hkeys].
    apply andb_true_iff in Hkeys as [Hws Hu].
    apply String.eqb_eq in Hws, Hu.
    exists wm. subst role. repeat split; auto. }
  destruct role; [| |tag_error]; cbv beta iota; cbn [db tick ticks];
    (match goal with
     | |- context [fault env ?n] => destruct (fault env n) eqn:Hf1
     end; [tag_error|]);
    cbn [db tick ticks];
    (destruct (Sql.first
                 (Sql.select_tag_by_name workspaceId (trim name) (db w)))
       as [existing|] eqn:Hexisting; [tag_error|]);
    cbn [db tick ticks next_id ids];
    (match goal with
     | |- context [fault env ?n] => destruct (fault env n) eqn:Hf2
     end; [tag_error|]);
    match goal with
    | |- context [Sql.insert_tag ?t (db w)] => set (tag := t)
    end;
    (destruct (Sql.insert_tag tag (db w)) as [d|e] eqn:Hins;
     [|tag_error]).
  all: apply insert_tag_inv in Hins as [Hfresh ->].
  all: do 2 eexists; (split; [reflexivity|]); (split; [discriminate|]).
  all: intros tag0 status Heq; inversion Heq; subst tag0 status; clear Heq.
  all: split; [reflexivity|]; (split; [reflexivity|]).
  all: split; [apply Hmay; discriminate|]; (split; [exact Hfresh|]).
  all: split;
    [cbn [tag_workspace_id tag_name tag];
     unfold Sql.select_tag_by_name in *;
     destruct (filter _ (tags (db w))); [reflexivity | discriminate]|].
  all: split;
    [apply trim_trimmed; apply orb_false_iff in Hname as [_ Hlen];
     intros Hempty; rewrite Hempty in Hlen; discriminate|].
  all: split; [reflexivity|]; intros Hfk Hc; cbn [db set_db].
  all: now apply insert_tag_consistent.
Qed.

Lemma handleCreate_adds_an_unused_tag_witness :
  exists tag w',
    handleCreate (Sample.env Sample.no_fault true)
      (mkCreateTagBody (Some "  invoice ") (Some "W1") None) "alice"
      Sample.empty_world
    = (Returned (TagJson tag 201), w')
    /\ tag_name tag = "invoice"
    /\ tags (db w') = [tag]
    /\ trimmed (tag_name tag).
Proof.
  destruct (handleCreate_adds_an_unused_tag
              (Sample.env Sample.no_fault true)
              (mkCreateTagBody (Some "  invoice ") (Some "W1") None) "alice"
              Sample.empty_world)
    as (reply & w' & Hrun & _ & Htag).
  pose proof Hrun as Hval. vm_compute in Hval.
  injection Hval as Hreply Hw. subst reply.
  destruct (Htag _ _ eq_refl) as (_ & Hdb & _ & _ & _ & Htrimmed & _).
  eexists. exists w'. split; [exact Hrun|].
  split; [reflexivity|]. split; [now rewrite Hdb|exact Htrimmed].
Defined.
